(* ===== verification/_CoqProject ===== *)
-Q . S2P
Prelude.v
Containers.v
Common.v
Provider.v
Session.v
Catalog.v
Frame.v
EventStore.v
DataStore.v
HealthStore.v
Subscription.v
Watch.v
Query.v
ProcessorGraph.v
Executor.v
Counter.v
Metrics.v
Plan.v
Collect.v
Scheduler.v
Turn.v
Heartbeat.v
Service.v
Protocol.v
Codec.v
Handshake.v
Router.v
Connection.v
Socket.v
Server.v
ClientView.v
Standalone.v
Loopback.v
Embedded.v
PublicApi.v
Handle.v
ClientApi.v
Text.v
MockProvider.v
DaemonConfig.v
Daemon.v
Cli.v
EndToEnd.v
