(* ===== verification/Prelude.v ===== *)
(** * PDCM: a verification library for the device management service

    The program (src/product) manages one accelerator device.  A daemon asks a
    native provider what it finds, publishes a semantic catalog of it, collects
    metrics and the firmware heartbeat, stores observations, evidence, health
    results and events within fixed limits, and serves discovery, capability and
    health queries over a Unix socket.  A C library (libpdcm) opens either a
    standalone backend, which talks to the daemon, or an embedded one, which
    holds a core of its own; a command line client is built on that library.
    This library models the program part by part and proves what makes each part
    and their composition correct.

    ** The parts

    Foundations.
    - Prelude.v (this file): machine integers, notations, tactics, the hint
      database [pdcm] and generic lemmas on lists and options.
    - Containers.v: the ordered containers and algorithms of the C++ standard
      library that the sources use, over the class [Ordered].
    - Common.v: statuses, entity references, observations, evidence and health
      results with their validators (common/).
    - Text.v: number parsing and printing and trimming.

    The core.
    - Provider.v: the class [Provider] (provider/provider.hpp), the provider
      manager and the unavailable provider; MockProvider.v: the scripted provider
      of the test kit (src/testkit).
    - Session.v: sessions and the runtime configuration (core/).
    - Catalog.v: target catalogs, views and the semantic catalog (semantic/).
    - EventStore.v, DataStore.v, HealthStore.v: the event log and the data
      manager (data/); Subscription.v and Query.v: subscriptions and queries.
    - Watch.v: watches (collection/watch_manager.cpp); Plan.v, Collect.v,
      Scheduler.v, Turn.v: the collection coordinator
      (collection/collection_coordinator.cpp), that is its plans, the
      normalisation of provider results, its queue and worker, and whole turns.
    - ProcessorGraph.v, Executor.v, Counter.v, Metrics.v: the processors and the
      metrics manager (metrics/).
    - Heartbeat.v: the loop from a heartbeat reading to a health answer.
    - Service.v: the service core that owns these (core/service_core.cpp).

    The local protocol.
    - Frame.v: framing (ipc/frame.cpp); Protocol.v: the messages (proto/);
      Handshake.v, Router.v: the handlers; Connection.v, Server.v: a connection
      and the server (ipc/local_api_server.cpp); Socket.v: the socket functions
      (ipc/unix_socket.cpp).
    - Codec.v: a concrete encoding, for the witnesses only.

    The client side.
    - ClientView.v, Standalone.v: the standalone backend; Loopback.v: that
      backend against a connection of the daemon; Embedded.v: the embedded one
      (client/standalone_backend.cpp, client/embedded_backend.cpp).
    - PublicApi.v, Handle.v, ClientApi.v: the C interface (client/pdcm_api.cpp,
      include/pdcm/).
    - DaemonConfig.v, Daemon.v: the daemon program (apps/daemon/); Cli.v: the
      command line client (apps/cli/); EndToEnd.v: both programs together.

    ** How code becomes definitions

    A class is a record of its members, with the members' names where they do not
    clash (a prefix tells the records apart), and a method is a function from the
    state and the arguments to the result and the new state.  An error is a
    [Status] value, as in the code; a constructor that throws is a sum.  Guards
    come in the order of the code.

    Integers are [Z]; where arithmetic can leave the range of its type the
    reduction is written out ([wrap64], [to_i64], [size_sub]).  Times are the
    exception.  The source adds and subtracts signed 64-bit nanoseconds; the
    definitions keep the unbounded results in the addition of a timeout to the
    clock ([ms_after], where [PublicApi.accepted_deadline_overflows] says when
    that matters), in the due times and deadlines of the scheduler
    (collection_coordinator.cpp: the first due time of a job, the next one and
    the deadline of a task, in Scheduler.v), whose period has no upper bound in
    watch_manager.cpp, and in the observation time that the client computes from
    the evaluation time and the age of a health item (ClientView.v).  These
    definitions agree with the source while the results stay in range.  Doubles
    are IEEE 754 binary64 values of the standard library's [spec_float].
    [sizeof] of internal types, which the byte limits use, is the class [Layout]
    (only its positivity is assumed); the sizes of the public structures are
    those of the LP64 layout, which the interface checks against.

    Concurrency.  A method that holds its mutex throughout is one function, and
    any sequence of such calls is an interleaving.  A method that lets go of the
    mutex is split there: [deliver_begin] and [deliver_end] around a callback,
    [workerBegin] and [workerEnd] around a provider read, [run_begin] and
    [run_task], [close_begin], [close_take] and [close_delete],
    [srv_stop_begin], [srv_stop_connections] and [srv_stop_end].  A call of the
    C interface is first entered with a pointer and only then takes the mutex in
    the handle (the events [EvEnter] and [EvLock]), so a handle can be deleted
    in between.  A turn of the accept loop or of a worker is two steps, the
    head, which reads [running_], and what follows the [poll] of at most 100 ms;
    what [poll], [accept4] and [recv] give is the environment's choice.  What
    other threads may change in between is an argument (the data manager at the
    commit, the generations read before) or a step of a transition system:
    [sub_step], [co_step], [thread_step] and [server_step], [api_step].  The
    commits of the data manager publish their events in the same step, while the
    source publishes them after it has released the store's lock.  The results
    of the evidence and health reads leave out [observed_commit_epoch], which no
    modelled caller uses.  The threads and condition variables themselves are
    the order of the steps.

    The outside.  System calls are the class [Kernel] with the laws
    [KernelLaws]: time passes in every call, by at most a latency besides the
    timeout of a [poll], and the steady clock shows it in whole nanoseconds, so
    that readings never go back but may repeat; what is sent and received goes
    through the descriptor in order.  The code that protoc generates is the
    class [LocalProtocol] with the laws [LocalProtocolLaws]; Codec.v and the
    kernels of Socket.v and Loopback.v are instances, so the laws can hold.
    [Loopback.world_kernel] is an ideal environment and no translation of code:
    connecting and waiting never fail and the daemon's connection answers within
    [send]; the theorems of Loopback.v and EndToEnd.v hold there.  The clock is
    an argument or part of the kernel.  A native provider is any instance of
    [Provider].

    ** Fuel

    A loop without a structural measure runs on fuel.  The decoding loop has one
    unit per byte of the buffer, the evidence eviction one per item, the graph
    ordering one per processor, each shown to be enough by the theorems about
    them.  The waiting loops of Socket.v end at their deadline, and
    [writeAll_exact] and [readOneFrame_exact] give the fuel for it; in the C
    interface [Waits] is the outcome of a call that still waits, and
    [EndToEnd.discovery_end_to_end] and [Cli.cli_run_clean] say when there is
    none.  [Undefined] is the use of a freed handle: [handle_safety] says that
    only the taking of the mutex can be one, [close_frees_under_waiter] that it
    can, and [cli_run_clean] that the command line client never comes to it.

    ** What the theorems show

    - Stores: commits are atomic and readable, every store stays within its
      limits, references always resolve, the event log is a suffix of what was
      accepted, and of the events offered to a subscription none is lost without
      being counted (events the log has trimmed before a dispatch are not
      offered).
    - Catalog: a reference denotes one incarnation of one device for ever.
    - Collection: plans hold exactly the watched data in as few jobs as each
      group needs and are refused exactly in the named cases, a collection
      commits exactly the provider's valid answers, jobs stay on their grid, the
      queue is bounded, every fresh read completes and is truthful, a
      heartbeat becomes the health that queries report and expires with it.
    - Processors: graphs are accepted exactly when they are well formed and of
      depth at most four, and published with their depths; results are checked
      before they are committed; counter deltas, wraps and resets are exact.
    - Core: start, stop and the queries in every state.
    - Protocol: frames round trip under any cutting of the stream, admission
      comes before service, requests that are not refused are answered one by one,
      a write ends by its deadline, the server accounts for its connections, and
      its stop ends after a bounded number of thread steps, for good.
    - Client: the standalone backend agrees with the core behind it, the C
      interface chooses and delivers exactly, a call in progress keeps its handle
      and backend under every interleaving, a close ends, the programs boot,
      parse and clean up, and the device shown by the command line is the device
      of the core.

    A theorem with hypotheses is followed by a witness at concrete data, most
    often by evaluation of the definitions.

    ** Not modelled

    - Allocation failure (the [std::bad_alloc] handlers) and the generic
      exception handlers of the C interface.
    - The threads' own scheduling, and fairness beyond what the steps say.
    - [SystemClock], [createNonce], the file system, signals: arguments.
    - protoc's code and the wire format of protobuf: the class [LocalProtocol].
    - [DataManager::waitForEpoch] as a wait: it is the environment of Query.v.
    - Build, packaging, service and release files, and the tests. *)
From stdpp Require Export base tactics list numbers strings gmap sorting.
From Stdlib Require Export ZArith Lia.

Open Scope Z_scope.

Declare Scope pdcm_scope.
Delimit Scope pdcm_scope with pdcm.

(** ** Machine integers

    Every C++ integer is a [Z].  The constants below are the
    [std::numeric_limits] bounds the sources compare with; [wrap64] is the
    reduction that unsigned 64-bit arithmetic performs. *)

Definition u16_max : Z := 65535.
Definition u32_max : Z := 4294967295.
Definition u64_max : Z := 18446744073709551615.
Definition i64_max : Z := 9223372036854775807.
Definition int_max : Z := 2147483647.

Definition wrap64 (z : Z) : Z := z mod 18446744073709551616.

(** Difference of two [std::size_t] values. *)
Definition size_sub (a b : Z) : Z := wrap64 (a - b).

(** [static_cast<std::int64_t>] of an unsigned 64-bit value. *)
Definition to_i64 (z : Z) : Z :=
  if wrap64 z <=? i64_max then wrap64 z else wrap64 z - 18446744073709551616.

(** ** Equality tests and container sizes *)

(** The C++ [operator==] of the structs of the program compares every field,
    so it is decided equality. *)
Notation "x ==? y" := (bool_decide (x = y)) (at level 70, no associativity) : pdcm_scope.
Notation "x !=? y" := (negb (bool_decide (x = y))) (at level 70, no associativity) : pdcm_scope.
Open Scope pdcm_scope.

Definition zlen {A} (l : list A) : Z := Z.of_nat (length l).
Definition str_size (s : string) : Z := Z.of_nat (String.length s).
Definition is_nil {A} (l : list A) : bool := match l with [] => true | _ => false end.
Definition str_empty (s : string) : bool := match s with EmptyString => true | _ => false end.
Definition has_value {A} (o : option A) : bool := match o with Some _ => true | None => false end.

(** Total size of a list of objects. *)
Definition sum_by {A} (f : A -> Z) (l : list A) : Z := foldr (fun x acc => f x + acc) 0 l.

(** First position satisfying a predicate, with what precedes and follows it
    (an iterator returned by [std::find_if], not at the end). *)
Fixpoint split_if {A} (p : A -> bool) (l : list A) : option (list A * A * list A) :=
  match l with
  | [] => None
  | x :: l' =>
      if p x then Some ([], x, l')
      else match split_if p l' with
           | Some (pre, y, post) => Some (x :: pre, y, post)
           | None => None
           end
  end.

Definition find_if {A} (p : A -> bool) (l : list A) : option A :=
  match split_if p l with Some (_, x, _) => Some x | None => None end.

(** ** Proof automation *)

Create HintDb pdcm.
Create Rewrite HintDb bprop.
Create Rewrite HintDb zlen.

(** Boolean guards to propositions. *)
Lemma is_nil_true {A} (l : list A) : is_nil l = true <-> l = [].
Proof. destruct l; split; simpl; congruence. Qed.
Lemma is_nil_false {A} (l : list A) : is_nil l = false <-> l <> [].
Proof. destruct l; split; simpl; congruence. Qed.
Lemma has_value_true {A} (o : option A) : has_value o = true <-> is_Some o.
Proof. destruct o; split; intros H; done. Qed.
Lemma has_value_false {A} (o : option A) : has_value o = false <-> o = None.
Proof. destruct o; split; simpl; congruence. Qed.
Lemma str_empty_true s : str_empty s = true <-> s = EmptyString.
Proof. destruct s; split; simpl; congruence. Qed.
Lemma str_empty_false s : str_empty s = false <-> s <> EmptyString.
Proof. destruct s; split; simpl; congruence. Qed.

#[export] Hint Rewrite orb_false_iff orb_true_iff andb_true_iff andb_false_iff
  negb_true_iff negb_false_iff Z.eqb_eq Z.eqb_neq Z.ltb_lt Z.ltb_ge Z.leb_le Z.leb_gt
  @bool_decide_eq_true @bool_decide_eq_false @is_nil_true @is_nil_false
  @has_value_true @has_value_false str_empty_true str_empty_false : bprop.

(** [bprop in H]: the guard [H] as a proposition. *)
Tactic Notation "bprop" "in" hyp(H) := autorewrite with bprop in H.
Tactic Notation "bprop" := autorewrite with bprop.
Tactic Notation "bprop" "in" "*" := autorewrite with bprop in *.

(** [guard as E]: split on the outermost test of the goal.
    [guard H as E]: the same in a hypothesis. *)
Tactic Notation "guard" "as" ident(E) :=
  match goal with |- context [if ?b then _ else _] => destruct b eqn:E end.
Tactic Notation "guard" hyp(H) "as" ident(E) :=
  match type of H with context [if ?b then _ else _] => destruct b eqn:E end.

(** ** Lemmas on lists shared by the components *)

Lemma zlen_nil {A} : zlen (@nil A) = 0.
Proof. done. Qed.
Lemma zlen_cons {A} (x : A) l : zlen (x :: l) = 1 + zlen l.
Proof. unfold zlen. simpl. lia. Qed.
Lemma zlen_app {A} (l k : list A) : zlen (l ++ k) = zlen l + zlen k.
Proof. unfold zlen. rewrite length_app. lia. Qed.
Lemma zlen_nonneg {A} (l : list A) : 0 <= zlen l.
Proof. unfold zlen. lia. Qed.
#[export] Hint Rewrite @zlen_nil @zlen_cons @zlen_app : zlen.
#[export] Hint Resolve zlen_nonneg : pdcm.

Lemma sum_by_app {A} (f : A -> Z) l k : sum_by f (l ++ k) = sum_by f l + sum_by f k.
Proof. induction l; simpl; lia. Qed.
Lemma sum_by_cons {A} (f : A -> Z) x l : sum_by f (x :: l) = f x + sum_by f l.
Proof. done. Qed.
Lemma sum_by_nonneg {A} (f : A -> Z) l : (forall x, 0 <= f x) -> 0 <= sum_by f l.
Proof. intros Hf. induction l as [|x l IH]; simpl; [lia|]. specialize (Hf x). lia. Qed.

Lemma split_if_Some {A} (p : A -> bool) l pre x post :
  split_if p l = Some (pre, x, post) ->
  l = pre ++ x :: post /\ p x = true /\ Forall (fun y => p y = false) pre.
Proof.
  revert pre. induction l as [|y l IH]; intros pre H; simpl in H; [done|].
  destruct (p y) eqn:Hy; simplify_eq.
  - repeat split; auto.
  - destruct (split_if p l) as [[[pre' z] post']|]; simplify_eq.
    destruct (IH pre') as (-> & Hx & Hall); [done|].
    repeat split; auto.
Qed.

Lemma split_if_None {A} (p : A -> bool) l :
  split_if p l = None <-> Forall (fun y => p y = false) l.
Proof.
  induction l as [|y l IH]; simpl; [split; auto|].
  destruct (p y) eqn:Hy; split; intros H; try done.
  - inversion H; congruence.
  - destruct (split_if p l) as [[[??]?]|]; [done|]. constructor; [done|]. by apply IH.
  - inversion H; subst. apply IH in H3. by rewrite H3.
Qed.

Lemma find_if_Some {A} (p : A -> bool) l x :
  find_if p l = Some x -> x ∈ l /\ p x = true.
Proof.
  unfold find_if. destruct (split_if p l) as [[[pre y] post]|] eqn:E; intros H; simplify_eq.
  apply split_if_Some in E as (-> & Hx & _). split; [|done].
  apply elem_of_app. right. left.
Qed.

Lemma find_if_None {A} (p : A -> bool) l :
  find_if p l = None <-> Forall (fun y => p y = false) l.
Proof.
  rewrite <- split_if_None. unfold find_if.
  destruct (split_if p l) as [[[??]?]|]; split; congruence.
Qed.

Lemma find_if_cons {A} (p : A -> bool) x l :
  find_if p (x :: l) = if p x then Some x else find_if p l.
Proof.
  unfold find_if. simpl. destruct (p x); [done|].
  by destruct (split_if p l) as [[[??]?]|].
Qed.

Lemma find_if_app {A} (p : A -> bool) l k :
  find_if p (l ++ k) = match find_if p l with Some x => Some x | None => find_if p k end.
Proof.
  induction l as [|x l IH]; [done|]. cbn [app]. rewrite !find_if_cons.
  by destruct (p x).
Qed.

(** An element of the list satisfies the predicate when the search succeeds
    and conversely. *)
Lemma existsb_elem {A} (p : A -> bool) l :
  existsb p l = true <-> exists x, x ∈ l /\ p x = true.
Proof.
  rewrite existsb_exists. split; intros (x & Hin & Hp); exists x; split; auto;
    by apply list_elem_of_In.
Qed.
Lemma existsb_none {A} (p : A -> bool) l :
  existsb p l = false <-> forall x, x ∈ l -> p x = false.
Proof. rewrite <- !not_true_iff_false, existsb_elem. setoid_rewrite <- not_true_iff_false. naive_solver. Qed.
Lemma forallb_elem {A} (p : A -> bool) l :
  forallb p l = true <-> forall x, x ∈ l -> p x = true.
Proof.
  rewrite forallb_forall. split; intros H x Hin; apply H; by apply list_elem_of_In.
Qed.
#[export] Hint Rewrite @existsb_elem @forallb_elem : bprop.

Lemma filter_false_nil {A} (p : A -> bool) l :
  (forall x, x ∈ l -> p x = false) -> List.filter p l = [].
Proof.
  induction l as [|x l IH]; intros Hp; [done|]. cbn. rewrite Hp by left.
  apply IH. intros y Hy. apply Hp. by right.
Qed.
Lemma filter_true_id {A} (p : A -> bool) l :
  (forall x, x ∈ l -> p x = true) -> List.filter p l = l.
Proof.
  induction l as [|x l IH]; intros Hp; [done|]. cbn. rewrite Hp by left. f_equal.
  apply IH. intros y Hy. apply Hp. by right.
Qed.

Lemma sublist_elem {A} (k l : list A) x : k `sublist_of` l -> x ∈ k -> x ∈ l.
Proof. intros Hs Hx. by eapply elem_of_sublist. Qed.
Lemma sublist_sorted {A} (R : A -> A -> Prop) (k l : list A) :
  k `sublist_of` l -> StronglySorted R l -> StronglySorted R k.
Proof.
  induction 1 as [|x k l Hs IH|x k l Hs IH]; intros Hl; [constructor| |].
  - apply StronglySorted_inv in Hl as [Hl Hall]. constructor; [auto|].
    rewrite Forall_forall in Hall |- *. intros y Hy. apply Hall. by eapply sublist_elem.
  - apply StronglySorted_inv in Hl as [Hl _]. auto.
Qed.
Lemma filter_sublist {A} (p : A -> bool) (l : list A) : List.filter p l `sublist_of` l.
Proof.
  induction l as [|x l IH]; [constructor|]. cbn. destruct (p x); by constructor.
Qed.
Lemma elem_of_filterb {A} (p : A -> bool) l x : x ∈ List.filter p l <-> x ∈ l /\ p x = true.
Proof. rewrite !list_elem_of_In. apply filter_In. Qed.
Lemma sum_by_sublist {A} (f : A -> Z) (k l : list A) :
  (forall x, 0 <= f x) -> k `sublist_of` l -> sum_by f k <= sum_by f l.
Proof.
  intros Hf. induction 1 as [|x k l Hs IH|x k l Hs IH]; rewrite ?sum_by_cons; [done|lia|].
  specialize (Hf x). lia.
Qed.
Lemma zlen_sublist {A} (k l : list A) : k `sublist_of` l -> zlen k <= zlen l.
Proof. intros Hs%sublist_length. unfold zlen. lia. Qed.
Lemma zlen_filter_lt {A} (p : A -> bool) l x :
  x ∈ l -> p x = false -> zlen (List.filter p l) < zlen l.
Proof.
  intros Hx Hp. induction l as [|y l IH]; [by apply elem_of_nil in Hx|]. cbn [List.filter].
  pose proof (zlen_sublist _ _ (filter_sublist p l)).
  apply elem_of_cons in Hx as [<-|Hx]; [rewrite Hp, zlen_cons; lia|].
  specialize (IH Hx). destruct (p y); rewrite !zlen_cons; lia.
Qed.

Lemma wrap64_small z : 0 <= z <= u64_max -> wrap64 z = z.
Proof. unfold wrap64, u64_max. intros. apply Z.mod_small. lia. Qed.
Lemma wrap64_range z : 0 <= wrap64 z <= u64_max.
Proof. unfold wrap64, u64_max. pose proof (Z.mod_pos_bound z 18446744073709551616). lia. Qed.
Lemma size_sub_small a b : 0 <= b <= a -> a <= u64_max -> size_sub a b = a - b.
Proof. intros. unfold size_sub. apply wrap64_small. lia. Qed.
