(* ===== verification/Containers.v ===== *)
(** The parts of the C++ standard library the sources rely on: strict orders
    written with [std::tie], ordered maps ([std::map]), [std::sort],
    [std::adjacent_find], [std::unique], [std::lower_bound],
    [std::upper_bound] and [std::binary_search].

    [Ordered K] is the interface a key type offers: a boolean strict order and
    the laws that make [std::map] and [std::sort] deterministic on it.  The
    map is a sorted association list, so its iteration order is the order the
    sources observe. *)
From S2P Require Import Prelude.
Open Scope Z_scope.
Open Scope pdcm_scope.

(** ** Strict total orders *)

Class Ordered (K : Type) := {
  key_ltb : K -> K -> bool;
  key_ltb_irrefl : forall a, key_ltb a a = false;
  key_ltb_trans : forall a b c, key_ltb a b = true -> key_ltb b c = true -> key_ltb a c = true;
  key_ltb_total : forall a b, key_ltb a b = false -> key_ltb b a = false -> a = b;
}.

Definition key_lt `{Ordered K} (a b : K) : Prop := key_ltb a b = true.
Definition key_eqb `{Ordered K} (a b : K) : bool := negb (key_ltb a b) && negb (key_ltb b a).

#[export] Program Instance Z_ordered : Ordered Z := {| key_ltb := Z.ltb |}.
Next Obligation. intros a. lia. Qed.
Next Obligation. intros a b c. lia. Qed.
Next Obligation. intros a b. lia. Qed.

(** [std::tie(a, b) < std::tie(c, d)]. *)
#[export] Program Instance prod_ordered `{Ordered A, Ordered B} : Ordered (A * B) :=
  {| key_ltb x y := key_ltb x.1 y.1 || (negb (key_ltb y.1 x.1) && key_ltb x.2 y.2) |}.
Next Obligation. intros A HA B HB [a b]; simpl. by rewrite !key_ltb_irrefl. Qed.
Next Obligation.
  intros A HA B HB [a1 b1] [a2 b2] [a3 b3]; simpl.
  destruct (key_ltb a1 a2) eqn:E12, (key_ltb a2 a3) eqn:E23; simpl.
  - intros _ _. by rewrite (key_ltb_trans a1 a2 a3).
  - intros _ [H1%negb_true_iff H2]%andb_true_iff.
    rewrite (key_ltb_total a2 a3) in E12 by done. by rewrite E12.
  - intros [H1%negb_true_iff H2]%andb_true_iff _.
    rewrite <- (key_ltb_total a1 a2) in E23 by done. by rewrite E23.
  - intros [H1%negb_true_iff H2]%andb_true_iff [H3%negb_true_iff H4]%andb_true_iff.
    pose proof (key_ltb_total a1 a2 E12 H1) as ->. rewrite E23, H3. simpl.
    by rewrite (key_ltb_trans b1 b2 b3).
Qed.
Next Obligation.
  intros A HA B HB [a1 b1] [a2 b2]; simpl.
  intros [H1 H2]%orb_false_iff [H3 H4]%orb_false_iff.
  rewrite H1, H3 in *. simpl in *.
  by rewrite (key_ltb_total a1 a2), (key_ltb_total b1 b2).
Qed.

(** An order by the image of an injective key function. *)
Program Definition ordered_by {K A} `{Ordered A} (f : K -> A)
    (Hinj : forall a b, f a = f b -> a = b) : Ordered K :=
  {| key_ltb x y := key_ltb (f x) (f y) |}.
Next Obligation. intros. apply key_ltb_irrefl. Qed.
Next Obligation. intros K A HA f Hinj a b c. apply key_ltb_trans. Qed.
Next Obligation. intros K A HA f Hinj a b H1 H2. by apply Hinj, key_ltb_total. Qed.

(** [operator<] of [std::string]: lexicographic on unsigned characters. *)
Fixpoint string_ltb (s t : string) : bool :=
  match s, t with
  | _, EmptyString => false
  | EmptyString, String _ _ => true
  | String a s', String b t' =>
      key_ltb (Z.of_N (Ascii.N_of_ascii a)) (Z.of_N (Ascii.N_of_ascii b))
      || ((Z.of_N (Ascii.N_of_ascii a) =? Z.of_N (Ascii.N_of_ascii b)) && string_ltb s' t')
  end.

Lemma ascii_code_inj a b :
  Z.of_N (Ascii.N_of_ascii a) = Z.of_N (Ascii.N_of_ascii b) -> a = b.
Proof.
  intros H%N2Z.inj. rewrite <- (Ascii.ascii_N_embedding a), <- (Ascii.ascii_N_embedding b).
  by rewrite H.
Qed.

#[export] Program Instance string_ordered : Ordered string := {| key_ltb := string_ltb |}.
Next Obligation. induction a as [|c s IH]; simpl; [done|]. rewrite IH. simpl. lia. Qed.
Next Obligation.
  induction a as [|a s IH]; intros [|b t] [|c u]; simpl; try done.
  intros H1 H2. bprop in *.
  destruct H1 as [H1|[H1 H1']], H2 as [H2|[H2 H2']]; try (left; lia).
  right. split; [lia|]. eauto.
Qed.
Next Obligation.
  induction a as [|a s IH]; intros [|b t]; simpl; try done.
  intros H1 H2. bprop in *. destruct H1 as [H1 H1'], H2 as [H2 H2'].
  assert (Z.of_N (Ascii.N_of_ascii a) = Z.of_N (Ascii.N_of_ascii b)) as E by lia.
  f_equal; [by apply ascii_code_inj|].
  destruct H1' as [|H1']; [lia|]. destruct H2' as [|H2']; [lia|]. auto.
Qed.

(** ** [std::map] *)

Section omap.
Context {K V : Type} `{Ordered K}.
Implicit Types (m : list (K * V)) (k : K) (v : V).

(** [map.find(k)] *)
Fixpoint om_find k m : option V :=
  match m with
  | [] => None
  | (k', v) :: m' => if key_eqb k k' then Some v else om_find k m'
  end.

(** [map[k] = v] *)
Fixpoint om_set k v m : list (K * V) :=
  match m with
  | [] => [(k, v)]
  | (k', v') :: m' =>
      if key_ltb k k' then (k, v) :: m
      else if key_ltb k' k then (k', v') :: om_set k v m'
      else (k, v) :: m'
  end.

(** [map.emplace(k, v)]: keeps an existing mapping. *)
Definition om_emplace k v m : list (K * V) :=
  match om_find k m with Some _ => m | None => om_set k v m end.

(** [map.erase(k)] *)
Definition om_erase k m : list (K * V) :=
  List.filter (fun kv => negb (key_eqb k kv.1)) m.

Definition om_mem k m : bool := has_value (om_find k m).

Definition om_wf m : Prop := StronglySorted key_lt m.*1.

Lemma key_eqb_true k k' : key_eqb k k' = true <-> k = k'.
Proof.
  unfold key_eqb. bprop. split.
  - intros [??]. by apply key_ltb_total.
  - intros ->. by rewrite key_ltb_irrefl.
Qed.
Lemma key_eqb_refl k : key_eqb k k = true.
Proof. by apply key_eqb_true. Qed.
Lemma key_eqb_false k k' : key_eqb k k' = false <-> k <> k'.
Proof. rewrite <- not_true_iff_false, key_eqb_true. done. Qed.
Lemma key_lt_irrefl k : ~ key_lt k k.
Proof. unfold key_lt. by rewrite key_ltb_irrefl. Qed.
Lemma key_lt_trans k1 k2 k3 : key_lt k1 k2 -> key_lt k2 k3 -> key_lt k1 k3.
Proof. unfold key_lt. apply key_ltb_trans. Qed.

Lemma om_find_set_eq k v m : om_find k (om_set k v m) = Some v.
Proof.
  induction m as [|[k' v'] m IH]; simpl; [by rewrite key_eqb_refl|].
  destruct (key_ltb k k') eqn:E1; simpl; [by rewrite key_eqb_refl|].
  destruct (key_ltb k' k) eqn:E2; simpl; [|by rewrite key_eqb_refl].
  destruct (key_eqb k k') eqn:E; [|done].
  apply key_eqb_true in E as ->. by rewrite key_ltb_irrefl in E2.
Qed.

Lemma om_find_set_ne k k' v m : k <> k' -> om_find k' (om_set k v m) = om_find k' m.
Proof.
  intros Hne. induction m as [|[k2 v2] m IH]; simpl.
  - destruct (key_eqb k' k) eqn:E; [|done]. apply key_eqb_true in E. congruence.
  - destruct (key_ltb k k2) eqn:E1; simpl.
    + destruct (key_eqb k' k) eqn:E; [|done]. apply key_eqb_true in E. congruence.
    + destruct (key_ltb k2 k) eqn:E2; simpl; [by rewrite IH|].
      pose proof (key_ltb_total _ _ E1 E2) as <-.
      destruct (key_eqb k' k) eqn:E; [|done]. apply key_eqb_true in E. congruence.
Qed.

Lemma om_set_keys k v m k' : k' ∈ (om_set k v m).*1 <-> k' = k \/ k' ∈ m.*1.
Proof.
  induction m as [|[k2 v2] m IH]; simpl; [set_solver|].
  destruct (key_ltb k k2) eqn:E1; simpl; [set_solver|].
  destruct (key_ltb k2 k) eqn:E2; simpl; [set_solver|].
  pose proof (key_ltb_total _ _ E1 E2) as <-. set_solver.
Qed.

Lemma om_wf_nil : om_wf [].
Proof. constructor. Qed.

Lemma om_wf_set k v m : om_wf m -> om_wf (om_set k v m).
Proof.
  unfold om_wf. induction m as [|[k2 v2] m IH]; simpl; intros Hwf.
  - repeat constructor.
  - apply StronglySorted_inv in Hwf as [Hs Hall].
    destruct (key_ltb k k2) eqn:E1; simpl.
    + constructor; [by constructor|]. constructor; [done|].
      eapply Forall_impl; [exact Hall|]. intros x Hx. eapply key_lt_trans; [exact E1|done].
    + destruct (key_ltb k2 k) eqn:E2; simpl.
      * constructor; [auto|]. apply Forall_forall. intros x Hx.
        apply om_set_keys in Hx as [->|Hx]; [done|].
        rewrite Forall_forall in Hall. auto.
      * pose proof (key_ltb_total _ _ E1 E2) as <-. by constructor.
Qed.

Lemma om_wf_emplace k v m : om_wf m -> om_wf (om_emplace k v m).
Proof. unfold om_emplace. destruct (om_find k m); auto using om_wf_set. Qed.

Lemma om_wf_filter (p : K * V -> bool) m : om_wf m -> om_wf (List.filter p m).
Proof.
  unfold om_wf. induction m as [|[k v] m IH]; simpl; intros Hwf; [done|].
  apply StronglySorted_inv in Hwf as [Hs Hall].
  destruct (p (k, v)); simpl; [|auto]. constructor; [auto|].
  apply Forall_forall. intros x Hx. rewrite Forall_forall in Hall. apply Hall.
  apply list_elem_of_fmap in Hx as (kv & -> & Hin). apply list_elem_of_fmap.
  exists kv. split; [done|]. apply list_elem_of_In in Hin. apply filter_In in Hin as [Hin _].
  by apply list_elem_of_In.
Qed.

Lemma om_wf_erase k m : om_wf m -> om_wf (om_erase k m).
Proof. apply om_wf_filter. Qed.

Lemma om_find_None k m : om_find k m = None <-> k ∉ m.*1.
Proof.
  induction m as [|[k2 v2] m IH]; simpl; [set_solver|].
  destruct (key_eqb k k2) eqn:E.
  - apply key_eqb_true in E as ->. set_solver.
  - apply key_eqb_false in E. set_solver.
Qed.

Lemma om_find_elem k v m : om_find k m = Some v -> (k, v) ∈ m.
Proof.
  induction m as [|[k2 v2] m IH]; simpl; [done|].
  destruct (key_eqb k k2) eqn:E; intros; simplify_eq.
  - apply key_eqb_true in E as ->. left.
  - right. auto.
Qed.

Lemma om_elem_find k v m : om_wf m -> (k, v) ∈ m -> om_find k m = Some v.
Proof.
  unfold om_wf. induction m as [|[k2 v2] m IH]; simpl; intros Hwf Hin; [set_solver|].
  apply StronglySorted_inv in Hwf as [Hs Hall].
  apply elem_of_cons in Hin as [Heq|Hin]; simplify_eq.
  - by rewrite key_eqb_refl.
  - destruct (key_eqb k k2) eqn:E; [|auto].
    apply key_eqb_true in E as ->. exfalso. rewrite Forall_forall in Hall.
    apply (key_lt_irrefl k2), Hall. apply list_elem_of_fmap. by exists (k2, v).
Qed.

Lemma om_elem_iff k v m : om_wf m -> (k, v) ∈ m <-> om_find k m = Some v.
Proof. split; auto using om_elem_find, om_find_elem. Qed.

Lemma om_find_filter (p : K * V -> bool) k m :
  om_wf m ->
  om_find k (List.filter p m) =
  match om_find k m with Some v => if p (k, v) then Some v else None | None => None end.
Proof.
  intros Hwf. destruct (om_find k m) as [v|] eqn:E.
  - destruct (p (k, v)) eqn:Ep.
    + apply om_elem_find; [by apply om_wf_filter|].
      apply list_elem_of_In, filter_In. split; [|done]. apply list_elem_of_In.
      by apply om_find_elem.
    + apply om_find_None. intros Hin. apply list_elem_of_fmap in Hin as ([k' v'] & Hk & Hin).
      simpl in Hk. subst k'. apply list_elem_of_In, filter_In in Hin as [Hin Hp].
      apply list_elem_of_In in Hin. apply (om_elem_find _ _ _ Hwf) in Hin. congruence.
  - apply om_find_None in E. apply om_find_None. intros Hin. apply E.
    apply list_elem_of_fmap in Hin as (kv & -> & Hin). apply list_elem_of_fmap. exists kv.
    split; [done|]. apply list_elem_of_In, filter_In in Hin as [Hin _]. by apply list_elem_of_In.
Qed.

Lemma om_find_erase_eq k m : om_wf m -> om_find k (om_erase k m) = None.
Proof.
  intros Hwf. unfold om_erase. rewrite om_find_filter by done.
  destruct (om_find k m); [|done]. simpl. by rewrite key_eqb_refl.
Qed.

Lemma om_find_erase_ne k k' m : om_wf m -> k <> k' -> om_find k' (om_erase k m) = om_find k' m.
Proof.
  intros Hwf Hne. unfold om_erase. rewrite om_find_filter by done.
  destruct (om_find k' m); [|done]. simpl.
  apply key_eqb_false in Hne. by rewrite Hne.
Qed.

Lemma om_set_length_new k v m :
  om_find k m = None -> length (om_set k v m) = S (length m).
Proof.
  induction m as [|[k2 v2] m IH]; simpl; [done|].
  destruct (key_eqb k k2) eqn:E; [done|]. intros Hn.
  destruct (key_ltb k k2) eqn:E1; [done|]. destruct (key_ltb k2 k) eqn:E2; simpl.
  - by rewrite IH.
  - pose proof (key_ltb_total _ _ E1 E2) as <-. by rewrite key_eqb_refl in E.
Qed.

Lemma om_set_length_old k v v' m :
  om_wf m -> om_find k m = Some v' -> length (om_set k v m) = length m.
Proof.
  unfold om_wf. induction m as [|[k2 v2] m IH]; simpl; [done|]. intros Hwf.
  apply StronglySorted_inv in Hwf as [Hs Hall].
  destruct (key_ltb k k2) eqn:E1.
  - destruct (key_eqb k k2) eqn:E; intros Hf.
    + apply key_eqb_true in E as ->. by rewrite key_ltb_irrefl in E1.
    + exfalso. apply om_find_elem in Hf. rewrite Forall_forall in Hall.
      apply (key_lt_irrefl k). eapply key_lt_trans; [exact E1|]. apply Hall.
      apply list_elem_of_fmap. by exists (k, v').
  - destruct (key_ltb k2 k) eqn:E2; simpl; [|done].
    destruct (key_eqb k k2) eqn:E; intros Hf.
    + apply key_eqb_true in E as ->. by rewrite key_ltb_irrefl in E2.
    + by rewrite IH.
Qed.

(** A well-formed map is determined by its lookups. *)
Lemma om_ext m1 m2 :
  om_wf m1 -> om_wf m2 -> (forall k, om_find k m1 = om_find k m2) -> m1 = m2.
Proof.
  unfold om_wf. revert m2.
  induction m1 as [|[k1 v1] m1 IH]; intros m2 H1 H2 Heq.
  - destruct m2 as [|[k2 v2] m2]; [done|]. specialize (Heq k2). simpl in Heq.
    by rewrite key_eqb_refl in Heq.
  - destruct m2 as [|[k2 v2] m2].
    { specialize (Heq k1). simpl in Heq. by rewrite key_eqb_refl in Heq. }
    simpl in *. apply StronglySorted_inv in H1 as [H1 Ha1], H2 as [H2 Ha2].
    rewrite Forall_forall in Ha1. rewrite Forall_forall in Ha2.
    assert (k1 = k2) as ->.
    { pose proof (Heq k1) as E1. pose proof (Heq k2) as E2.
      rewrite key_eqb_refl in E1, E2.
      destruct (key_eqb k1 k2) eqn:E; [by apply key_eqb_true|].
      assert (key_eqb k2 k1 = false) as E'.
      { apply key_eqb_false. apply key_eqb_false in E. congruence. }
      rewrite E' in E2. symmetry in E1. apply om_find_elem in E1, E2.
      exfalso. apply (key_lt_irrefl k1). eapply key_lt_trans.
      - apply Ha1. apply list_elem_of_fmap. by exists (k2, v2).
      - apply Ha2. apply list_elem_of_fmap. by exists (k1, v1). }
    pose proof (Heq k2) as E. rewrite key_eqb_refl in E. simplify_eq. f_equal.
    apply IH; auto. intros k. specialize (Heq k). destruct (key_eqb k k2) eqn:E; [|done].
    apply key_eqb_true in E as ->.
    assert (forall m : list (K * V), (forall x, x ∈ m.*1 -> key_lt k2 x) -> om_find k2 m = None) as Hn.
    { intros m Hm. apply om_find_None. intros Hin. by apply (key_lt_irrefl k2), Hm. }
    by rewrite !Hn.
Qed.

Lemma om_wf_NoDup m : om_wf m -> NoDup m.*1.
Proof.
  unfold om_wf. induction (m.*1) as [|k l IH]; intros Hs; constructor.
  - apply StronglySorted_inv in Hs as [_ Hall]. intros Hin. rewrite Forall_forall in Hall.
    by apply (key_lt_irrefl k), Hall.
  - apply IH. by apply StronglySorted_inv in Hs as [? _].
Qed.
End omap.

(** A table filled with [emplace] from entries with distinct keys. *)
Lemma om_find_emplace_all {K V} `{Ordered K} `{EqDecision K} (f : V -> K) (vs : list V) (m : list (K * V)) k v :
  NoDup (map f vs) -> (forall x, x ∈ vs -> om_find (f x) m = None) ->
  om_find k (foldl (fun m x => om_emplace (f x) x m) m vs) = Some v <-> om_find k m = Some v \/ (v ∈ vs /\ f v = k).
Proof.
  revert m. induction vs as [|x vs IH]; intros m Hnd Hm; cbn [foldl map] in *; [set_solver|].
  apply NoDup_cons in Hnd as [Hx Hnd]. pose proof (Hm x ltac:(left)) as Hfx.
  assert (om_emplace (f x) x m = om_set (f x) x m) as -> by (unfold om_emplace; by rewrite Hfx).
  rewrite IH; [|done|].
  - rewrite elem_of_cons. destruct (decide (k = f x)) as [->|Hne].
    + rewrite om_find_set_eq, Hfx. naive_solver.
    + rewrite om_find_set_ne by done. naive_solver.
  - intros y Hy. rewrite om_find_set_ne; [apply Hm; by right|]. intros Heq. apply Hx. rewrite Heq.
    apply list_elem_of_fmap. by exists y.
Qed.

(** Membership after an update. *)
Lemma om_mem_set {K V} `{Ordered K} `{EqDecision K} (k k' : K) (v : V) m : om_mem k' (om_set k v m) = true <-> k' = k \/ om_mem k' m = true.
Proof.
  unfold om_mem. destruct (decide (k' = k)) as [->|Hne]; [rewrite om_find_set_eq; naive_solver|].
  rewrite om_find_set_ne by done. naive_solver.
Qed.
Lemma om_mem_erase {K V} `{Ordered K} `{EqDecision K} (k k' : K) (m : list (K * V)) :
  om_wf m -> om_mem k' (om_erase k m) = true <-> k' <> k /\ om_mem k' m = true.
Proof.
  intros Hm. unfold om_mem. destruct (decide (k' = k)) as [->|Hne]; [rewrite om_find_erase_eq by done; naive_solver|].
  rewrite om_find_erase_ne by done. naive_solver.
Qed.
(** Inserting or erasing a list of keys. *)
Lemma om_mem_set_all {K V} `{Ordered K} `{EqDecision K} (v : V) (ks : list K) (k' : K) m :
  om_mem k' (foldl (fun m k => om_set k v m) m ks) = true <-> k' ∈ ks \/ om_mem k' m = true.
Proof.
  revert m. induction ks as [|k ks IH]; intros m; cbn [foldl]; [set_solver|].
  rewrite IH, om_mem_set, elem_of_cons. tauto.
Qed.
Lemma om_wf_set_all {K V} `{Ordered K} (v : V) (ks : list K) m :
  om_wf m -> om_wf (foldl (fun m k => om_set k v m) m ks).
Proof. revert m. induction ks as [|k ks IH]; intros m Hm; [done|]. by apply IH, om_wf_set. Qed.
Lemma om_wf_erase_all {K V} `{Ordered K} (ks : list K) (m : list (K * V)) :
  om_wf m -> om_wf (foldl (fun m k => om_erase k m) m ks).
Proof. revert m. induction ks as [|k ks IH]; intros m Hm; [done|]. by apply IH, om_wf_erase. Qed.
Lemma om_mem_erase_all {K V} `{Ordered K} `{EqDecision K} (ks : list K) (k' : K) (m : list (K * V)) : om_wf m ->
  om_mem k' (foldl (fun m k => om_erase k m) m ks) = true <-> k' ∉ ks /\ om_mem k' m = true.
Proof.
  revert m. induction ks as [|k ks IH]; intros m Hm; cbn [foldl]; [set_solver|].
  rewrite IH, om_mem_erase, elem_of_cons by (done || by apply om_wf_erase). tauto.
Qed.


#[export] Hint Resolve om_wf_nil om_wf_set om_wf_emplace om_wf_filter om_wf_erase : pdcm.

(** ** [<algorithm>] *)

(** The bisection of [std::lower_bound] and [std::upper_bound]: the number of
    leading elements satisfying [p], found by halving the range [first, first+count). *)
Fixpoint partition_point {A} (fuel : nat) (p : A -> bool) (l : list A) (first count : nat) : nat :=
  match fuel with
  | O => first
  | S fuel' =>
      match count with
      | O => first
      | _ =>
          let step := Nat.div2 count in
          let it := (first + step)%nat in
          match l !! it with
          | Some x =>
              if p x then partition_point fuel' p l (S it) (count - S step)
              else partition_point fuel' p l first step
          | None => first
          end
      end
  end.

(** [std::lower_bound]/[std::upper_bound] of a whole range: the elements
    satisfying [p] come first. *)
Definition bisect {A} (p : A -> bool) (l : list A) : nat :=
  partition_point (S (length l)) p l 0 (length l).

Lemma partition_point_spec {A} (p : A -> bool) (l : list A) (n : nat) :
  (forall i x, l !! i = Some x -> p x = bool_decide (i < n)%nat) ->
  forall fuel first count,
    (count < fuel)%nat -> (first <= n <= first + count)%nat -> (first + count <= length l)%nat ->
    partition_point fuel p l first count = n.
Proof.
  intros Hp. induction fuel as [|fuel IH]; intros first count Hf Hn Hl; [lia|].
  simpl. destruct count as [|count]; [lia|].
  set (step := Nat.div2 (S count)). pose proof (Nat.lt_div2 (S count)) as Hstep.
  fold step in Hstep.
  destruct (lookup_lt_is_Some_2 l (first + step)) as [x Hx]; [lia|]. rewrite Hx.
  rewrite (Hp _ _ Hx). case_bool_decide as Hlt.
  - replace (match step with 0 => S count | S l0 => count - l0 end)%nat with (S count - step)%nat
      by (destruct step; lia).
    apply IH; lia.
  - apply IH; lia.
Qed.

Lemma list_lookup_middle_or_end {A} (l1 l2 : list A) : (l1 ++ l2) !! length l1 = head l2.
Proof. rewrite lookup_app_r by lia. rewrite Nat.sub_diag. by destruct l2. Qed.

(** On a range partitioned by [p] the bisection splits off exactly the
    elements satisfying [p]. *)
Lemma bisect_partitioned {A} (p : A -> bool) (l1 l2 : list A) :
  Forall (fun x => p x = true) l1 -> Forall (fun x => p x = false) l2 ->
  bisect p (l1 ++ l2) = length l1.
Proof.
  intros H1 H2. unfold bisect. apply partition_point_spec.
  - intros i x Hx. apply lookup_app_Some in Hx as [Hx|[Hi Hx]].
    + rewrite Forall_lookup in H1. rewrite (H1 _ _ Hx). apply lookup_lt_Some in Hx.
      symmetry. by apply bool_decide_eq_true.
    + rewrite Forall_lookup in H2. rewrite (H2 _ _ Hx). symmetry. apply bool_decide_eq_false. lia.
  - lia.
  - rewrite length_app. lia.
  - lia.
Qed.

Section algorithms.
Context {K : Type} `{Ordered K}.
Implicit Types (l : list K) (k : K).

(** [std::sort] with a strict total order: the sorted permutation. *)
Fixpoint insert_sorted k l : list K :=
  match l with
  | [] => [k]
  | k' :: l' => if key_ltb k' k then k' :: insert_sorted k l' else k :: l
  end.
Fixpoint std_sort l : list K :=
  match l with [] => [] | k :: l' => insert_sorted k (std_sort l') end.

(** [std::adjacent_find(l) != end] *)
Fixpoint has_adjacent_dup l : bool :=
  match l with
  | k :: ((k' :: _) as l') => key_eqb k k' || has_adjacent_dup l'
  | _ => false
  end.

(** [l.erase(std::unique(l), end)] *)
Fixpoint std_unique l : list K :=
  match l with
  | k :: ((k' :: _) as l') => if key_eqb k k' then std_unique l' else k :: std_unique l'
  | _ => l
  end.

Definition lower_bound l k : nat :=
  bisect (fun x => key_ltb x k) l.
Definition upper_bound l k : nat :=
  bisect (fun x => negb (key_ltb k x)) l.

(** [std::binary_search] *)
Definition binary_search l k : bool :=
  match l !! lower_bound l k with Some x => negb (key_ltb k x) | None => false end.

Definition key_le k k' : Prop := key_ltb k' k = false.

Lemma key_lt_le k k' : key_lt k k' -> key_le k k'.
Proof.
  intros H1. unfold key_le. destruct (key_ltb k' k) eqn:E; [|done].
  exfalso. eapply key_lt_irrefl, (key_lt_trans k k' k); done.
Qed.
Lemma key_le_trans k1 k2 k3 : key_le k1 k2 -> key_le k2 k3 -> key_le k1 k3.
Proof.
  unfold key_le. intros H1 H2. destruct (key_ltb k3 k1) eqn:E; [|done].
  destruct (key_ltb k1 k2) eqn:E'.
  - by rewrite (key_ltb_trans k3 k1 k2) in H2.
  - pose proof (key_ltb_total k1 k2 E' H1) as ->. congruence.
Qed.
Lemma key_le_lt_trans k1 k2 k3 : key_le k1 k2 -> key_lt k2 k3 -> key_lt k1 k3.
Proof.
  unfold key_le, key_lt. intros H1 H2. destruct (key_ltb k1 k2) eqn:E.
  - by eapply key_ltb_trans.
  - by rewrite (key_ltb_total k1 k2 E H1).
Qed.

Lemma insert_sorted_perm k l : insert_sorted k l ≡ₚ k :: l.
Proof.
  induction l as [|k' l IH]; simpl; [done|]. destruct (key_ltb k' k); [|done].
  rewrite IH. apply Permutation_swap.
Qed.
Lemma std_sort_perm l : std_sort l ≡ₚ l.
Proof. induction l as [|k l IH]; simpl; [done|]. by rewrite insert_sorted_perm, IH. Qed.
Lemma std_sort_length l : length (std_sort l) = length l.
Proof. by rewrite std_sort_perm. Qed.
Lemma std_sort_elem k l : k ∈ std_sort l <-> k ∈ l.
Proof. by rewrite std_sort_perm. Qed.

Lemma std_sort_sorted l : StronglySorted key_le (std_sort l).
Proof.
  induction l as [|k l IH]; simpl; [constructor|].
  generalize (std_sort l) IH. clear l IH. intros l Hs.
  induction l as [|k' l IH]; simpl.
  - repeat constructor.
  - apply StronglySorted_inv in Hs as [Hs Hall]. destruct (key_ltb k' k) eqn:E.
    + constructor; [auto|]. apply Forall_forall. intros x Hx.
      rewrite insert_sorted_perm in Hx. apply elem_of_cons in Hx as [->|Hx].
      * by apply key_lt_le.
      * rewrite Forall_forall in Hall. auto.
    + constructor; [by constructor|]. constructor; [done|].
      eapply Forall_impl; [exact Hall|]. intros x Hx. by eapply key_le_trans.
Qed.

(** Equal sorted copies are permutations of each other. *)
Lemma std_sort_eq_iff l l' : std_sort l = std_sort l' <-> l ≡ₚ l'.
Proof.
  split.
  - intros Heq. rewrite <- (std_sort_perm l), <- (std_sort_perm l'). by rewrite Heq.
  - intros Hp. assert (AntiSymm (=) key_le) by (intros a b H1 H2; by apply key_ltb_total).
    apply (StronglySorted_unique key_le); try apply std_sort_sorted. by rewrite !std_sort_perm.
Qed.

(** Sorting, then looking for equal neighbours, detects exactly the duplicates. *)
Lemma sorted_adjacent_dup l :
  StronglySorted key_le l -> has_adjacent_dup l = false <-> StronglySorted key_lt l.
Proof.
  induction l as [|k l IH]; intros Hs; [split; constructor|].
  apply StronglySorted_inv in Hs as [Hs Hall].
  destruct l as [|k' l]; [split; repeat constructor|].
  cbn [has_adjacent_dup]. rewrite orb_false_iff, IH by done. split.
  - intros [Hne Hs']. constructor; [done|].
    apply Forall_cons in Hall as [Hk Hall]. apply key_eqb_false in Hne.
    assert (key_lt k k') as Hlt.
    { destruct (key_ltb k k') eqn:E; [done|]. exfalso. apply Hne. by apply key_ltb_total. }
    constructor; [done|]. apply StronglySorted_inv in Hs' as [_ Ha].
    eapply Forall_impl; [exact Ha|]. intros x Hx. by eapply key_lt_trans.
  - intros Hs'. apply StronglySorted_inv in Hs' as [Hs' Ha]. split; [|done].
    apply Forall_cons in Ha as [Ha _]. apply key_eqb_false. intros ->.
    by apply key_lt_irrefl in Ha.
Qed.

Lemma sorted_lt_NoDup l : StronglySorted key_lt l -> NoDup l.
Proof.
  induction l as [|k l IH]; intros Hs; constructor.
  - apply StronglySorted_inv in Hs as [_ Hall]. intros Hin. rewrite Forall_forall in Hall.
    by apply (key_lt_irrefl k), Hall.
  - apply IH. by apply StronglySorted_inv in Hs as [? _].
Qed.

Lemma sorted_le_NoDup l : StronglySorted key_le l -> NoDup l -> StronglySorted key_lt l.
Proof.
  induction l as [|k l IH]; intros Hs Hnd; [constructor|].
  apply StronglySorted_inv in Hs as [Hs Hall]. apply NoDup_cons in Hnd as [Hni Hnd].
  constructor; [auto|]. apply Forall_forall. intros x Hx.
  rewrite Forall_forall in Hall. specialize (Hall x Hx).
  unfold key_lt. destruct (key_ltb k x) eqn:E; [done|]. exfalso. apply Hni.
  by rewrite (key_ltb_total k x E Hall).
Qed.

Lemma std_sort_dup l : has_adjacent_dup (std_sort l) = false <-> NoDup l.
Proof.
  rewrite sorted_adjacent_dup by apply std_sort_sorted. split.
  - intros Hs%sorted_lt_NoDup. by rewrite std_sort_perm in Hs.
  - intros Hnd. apply sorted_le_NoDup; [apply std_sort_sorted|]. by rewrite std_sort_perm.
Qed.

Lemma std_unique_elem k l : k ∈ std_unique l <-> k ∈ l.
Proof.
  induction l as [|k1 l IH]; [done|]. destruct l as [|k2 l]; [done|].
  cbn [std_unique]. destruct (key_eqb k1 k2) eqn:E.
  - rewrite IH. apply key_eqb_true in E as ->. set_solver.
  - set_solver.
Qed.

Lemma std_unique_sorted l : StronglySorted key_le l -> StronglySorted key_lt (std_unique l).
Proof.
  induction l as [|k1 l IH]; intros Hs; [constructor|].
  destruct l as [|k2 l]; [repeat constructor|].
  apply StronglySorted_inv in Hs as [Hs Hall].
  cbn [std_unique]. destruct (key_eqb k1 k2) eqn:E; [auto|].
  constructor; [auto|]. apply Forall_forall. intros x Hx.
  apply (std_unique_elem x (k2 :: l)) in Hx. apply key_eqb_false in E.
  assert (key_lt k1 k2) as H12.
  { apply Forall_cons in Hall as [Hk _]. unfold key_lt. destruct (key_ltb k1 k2) eqn:E'; [done|].
    exfalso. by apply E, key_ltb_total. }
  apply elem_of_cons in Hx as [->|Hx]; [done|].
  apply StronglySorted_inv in Hs as [_ Ha]. rewrite Forall_forall in Ha.
  unfold key_lt. destruct (key_ltb k1 x) eqn:E'; [done|]. specialize (Ha x Hx).
  exfalso. apply (key_lt_irrefl k1). eapply key_lt_trans; [exact H12|].
  eapply key_le_lt_trans; [exact Ha|]. 
  unfold key_lt. destruct (key_ltb x k1) eqn:E''; [done|].
  pose proof (key_ltb_total _ _ E' E''). subst x.
  exfalso. unfold key_le, key_lt in *. congruence.
Qed.

(** [std::binary_search] on a sorted range decides membership. *)
Lemma binary_search_elem l k :
  StronglySorted key_le l -> binary_search l k = true <-> k ∈ l.
Proof.
  intros Hs.
  assert (exists l1 l2, l = l1 ++ l2 /\ Forall (fun x => key_ltb x k = true) l1 /\
            Forall (fun x => key_ltb x k = false) l2) as (l1 & l2 & -> & H1 & H2).
  { clear -Hs. induction l as [|x l IH]; [by exists [], []|].
    apply StronglySorted_inv in Hs as [Hs Hall].
    destruct (key_ltb x k) eqn:E.
    - destruct (IH Hs) as (l1 & l2 & -> & H1 & H2). exists (x :: l1), l2. auto.
    - exists [], (x :: l). repeat split; auto. constructor; [done|].
      eapply Forall_impl; [exact Hall|]. intros y Hy. by apply (key_le_trans k x y). }
  unfold binary_search, lower_bound. rewrite bisect_partitioned by done.
  rewrite list_lookup_middle_or_end. split.
  - destruct l2 as [|x l2]; simpl; [done|]. intros Hx%negb_true_iff.
    apply Forall_cons in H2 as [H2 _]. rewrite (key_ltb_total k x Hx H2). set_solver.
  - intros Hin. apply elem_of_app in Hin as [Hin|Hin].
    { rewrite Forall_forall in H1. apply H1 in Hin. by rewrite key_ltb_irrefl in Hin. }
    destruct l2 as [|x l2]; [set_solver|]. simpl. apply negb_true_iff.
    apply elem_of_cons in Hin as [->|Hin]; [apply key_ltb_irrefl|].
    assert (key_le x k) as Hle; [|done].
    clear -Hs Hin. induction l1 as [|y l1 IH]; simpl in Hs.
    + apply StronglySorted_inv in Hs as [_ Ha]. rewrite Forall_forall in Ha. auto.
    + apply IH. by apply StronglySorted_inv in Hs as [? _].
Qed.
End algorithms.
