(* ===== verification/Common.v ===== *)
(** The shared vocabulary of the program (src/product/src/common and
    include/pdcm/status.h): statuses, entity references, metric values,
    observations, heartbeat evidence and health results, with the three
    validators that guard the stores. *)
From S2P Require Import Prelude Containers.
From Stdlib Require Import SpecFloat.
Open Scope Z_scope.
Open Scope pdcm_scope.

(** ** Status *)

Inductive pdcm_status_t :=
  | PDCM_STATUS_SUCCESS
  | PDCM_STATUS_PARTIAL_RESULT
  | PDCM_STATUS_INVALID_ARGUMENT
  | PDCM_STATUS_UNSUPPORTED
  | PDCM_STATUS_NOT_INITIALIZED
  | PDCM_STATUS_UNAVAILABLE
  | PDCM_STATUS_PERMISSION_DENIED
  | PDCM_STATUS_TIMEOUT
  | PDCM_STATUS_RESOURCE_EXHAUSTED
  | PDCM_STATUS_BUFFER_TOO_SMALL
  | PDCM_STATUS_NOT_FOUND
  | PDCM_STATUS_STALE_GENERATION
  | PDCM_STATUS_INTERNAL
  | PDCM_STATUS_PROTOCOL_INCOMPATIBLE.

#[export] Instance pdcm_status_t_eq_dec : EqDecision pdcm_status_t.
Proof. solve_decision. Defined.

(** [static_cast<std::int32_t>(status)] *)
Definition status_value (s : pdcm_status_t) : Z :=
  match s with
  | PDCM_STATUS_SUCCESS => 0
  | PDCM_STATUS_PARTIAL_RESULT => 1
  | PDCM_STATUS_INVALID_ARGUMENT => 2
  | PDCM_STATUS_UNSUPPORTED => 3
  | PDCM_STATUS_NOT_INITIALIZED => 4
  | PDCM_STATUS_UNAVAILABLE => 5
  | PDCM_STATUS_PERMISSION_DENIED => 6
  | PDCM_STATUS_TIMEOUT => 7
  | PDCM_STATUS_RESOURCE_EXHAUSTED => 8
  | PDCM_STATUS_BUFFER_TOO_SMALL => 9
  | PDCM_STATUS_NOT_FOUND => 10
  | PDCM_STATUS_STALE_GENERATION => 11
  | PDCM_STATUS_INTERNAL => 12
  | PDCM_STATUS_PROTOCOL_INCOMPATIBLE => 13
  end.

Definition statusName (s : pdcm_status_t) : string :=
  match s with
  | PDCM_STATUS_SUCCESS => "SUCCESS"
  | PDCM_STATUS_PARTIAL_RESULT => "PARTIAL_RESULT"
  | PDCM_STATUS_INVALID_ARGUMENT => "INVALID_ARGUMENT"
  | PDCM_STATUS_UNSUPPORTED => "UNSUPPORTED"
  | PDCM_STATUS_NOT_INITIALIZED => "NOT_INITIALIZED"
  | PDCM_STATUS_UNAVAILABLE => "UNAVAILABLE"
  | PDCM_STATUS_PERMISSION_DENIED => "PERMISSION_DENIED"
  | PDCM_STATUS_TIMEOUT => "TIMEOUT"
  | PDCM_STATUS_RESOURCE_EXHAUSTED => "RESOURCE_EXHAUSTED"
  | PDCM_STATUS_BUFFER_TOO_SMALL => "BUFFER_TOO_SMALL"
  | PDCM_STATUS_NOT_FOUND => "NOT_FOUND"
  | PDCM_STATUS_STALE_GENERATION => "STALE_GENERATION"
  | PDCM_STATUS_INTERNAL => "INTERNAL"
  | PDCM_STATUS_PROTOCOL_INCOMPATIBLE => "PROTOCOL_INCOMPATIBLE"
  end.

(** class [Status]: a code and a message. *)
Record Status := mkStatus { st_code : pdcm_status_t; st_message : string }.

#[export] Instance Status_eq_dec : EqDecision Status.
Proof. solve_decision. Defined.

Definition st_success : Status := mkStatus PDCM_STATUS_SUCCESS "".
Definition st_ok (s : Status) : bool := st_code s ==? PDCM_STATUS_SUCCESS.

(** ** Domain types *)

Inductive EntityKind := EK_Unknown | EK_Device | EK_Node.
#[export] Instance EntityKind_eq_dec : EqDecision EntityKind.
Proof. solve_decision. Defined.
Definition entity_kind_value (k : EntityKind) : Z :=
  match k with EK_Unknown => 0 | EK_Device => 1 | EK_Node => 2 end.

(** [EntityId] and [MetricId] wrap one unsigned integer, their value. *)
Notation EntityId := Z (only parsing).
Notation MetricId := Z (only parsing).

Record EntityRef := mkEntityRef {
  er_kind : EntityKind; er_id : EntityId; er_generation : Z }.
#[export] Instance EntityRef_eq_dec : EqDecision EntityRef.
Proof. solve_decision. Defined.
Definition er_default : EntityRef := mkEntityRef EK_Unknown 0 0.

(** [MetricValue]; a [double] is an IEEE 754 datum. *)
Inductive MetricValue :=
  | MV_Int64 (v : Z)
  | MV_Uint64 (v : Z)
  | MV_Double (v : spec_float)
  | MV_Bool (v : bool)
  | MV_String (v : string).

(** ** Observations *)

Inductive ObservationStatus := OS_Valid | OS_Stale | OS_NotAvailable | OS_Unsupported | OS_Error.
#[export] Instance ObservationStatus_eq_dec : EqDecision ObservationStatus.
Proof. solve_decision. Defined.

Record SourceMetadata := mkSource { src_provider : string; src_native_source : string }.
#[export] Instance SourceMetadata_eq_dec : EqDecision SourceMetadata.
Proof. solve_decision. Defined.
Definition src_default : SourceMetadata := mkSource "" "".

Record ErrorMetadata := mkError {
  em_status : Status; em_native_code : Z; em_retryable : bool }.
#[export] Instance ErrorMetadata_eq_dec : EqDecision ErrorMetadata.
Proof. solve_decision. Defined.
Definition em_default : ErrorMetadata := mkError st_success 0 false.

Record DerivationMetadata := mkDerivation {
  dm_processor_id : string; dm_input_sequences : list Z;
  dm_processor_version : Z; dm_depth : Z }.
Definition dm_default : DerivationMetadata := mkDerivation "" [] 0 0.

Record Observation := mkObservation {
  obs_entity : EntityRef;
  obs_metric : MetricId;
  obs_value : option MetricValue;
  obs_status : ObservationStatus;
  obs_scheduled_monotonic_time_ns : Z;
  obs_source_sample_time_ns : option Z;
  obs_observed_monotonic_time_ns : Z;
  obs_metric_semantic_version : Z;
  obs_observed_wall_time_ns : Z;
  obs_catalog_generation : Z;
  obs_commit_epoch : Z;
  obs_counter_epoch : Z;
  obs_source : SourceMetadata;
  obs_stale_age_ns : option Z;
  obs_latest_failure : option ErrorMetadata;
  obs_error : ErrorMetadata;
  obs_derivation : DerivationMetadata }.

Definition invalid_argument (msg : string) : Status := mkStatus PDCM_STATUS_INVALID_ARGUMENT msg.

Definition opt_negative (o : option Z) : bool :=
  match o with Some t => t <? 0 | None => false end.

Definition validateObservation (o : Observation) : Status :=
  if (er_kind (obs_entity o) ==? EK_Unknown) || (er_generation (obs_entity o) =? 0)
     || (obs_metric o =? 0) || (obs_metric_semantic_version o =? 0)
  then invalid_argument "observation identity or semantic version is invalid"
  else if (obs_scheduled_monotonic_time_ns o <? 0) || (obs_observed_monotonic_time_ns o <? 0)
     || (obs_catalog_generation o =? 0) || opt_negative (obs_source_sample_time_ns o)
  then invalid_argument "observation time or catalog generation is invalid"
  else
  let hv := has_value (obs_value o) in
  let err_ok := st_ok (em_status (obs_error o)) in
  let status_check :=
    match obs_status o with
    | OS_Valid =>
        if negb hv || negb err_ok || has_value (obs_stale_age_ns o) || has_value (obs_latest_failure o)
        then Some (invalid_argument "valid observation metadata is inconsistent") else None
    | OS_Stale =>
        if negb hv || negb (has_value (obs_stale_age_ns o)) || opt_negative (obs_stale_age_ns o)
           || match obs_latest_failure o with Some f => st_ok (em_status f) | None => true end
        then Some (invalid_argument "stale observation requires old value and latest failure") else None
    | OS_NotAvailable | OS_Unsupported | OS_Error =>
        if hv || err_ok || has_value (obs_stale_age_ns o) || has_value (obs_latest_failure o)
        then Some (invalid_argument "failed observation metadata is inconsistent") else None
    end in
  match status_check with
  | Some e => e
  | None =>
  let d := obs_derivation o in
  if 4 <? dm_depth d
  then invalid_argument "observation derivation depth exceeds limit"
  else if str_empty (dm_processor_id d)
  then if (dm_depth d !=? 0) || (dm_processor_version d !=? 0) || negb (is_nil (dm_input_sequences d))
       then invalid_argument "raw observation has derived provenance" else st_success
  else if (dm_depth d =? 0) || (dm_processor_version d =? 0) || is_nil (dm_input_sequences d)
       then invalid_argument "derived observation provenance is incomplete" else st_success
  end.

(** ** Health *)

Inductive HeartbeatNativeClass := HN_Normal | HN_Warning | HN_Fault | HN_UnknownNative.
#[export] Instance HeartbeatNativeClass_eq_dec : EqDecision HeartbeatNativeClass.
Proof. solve_decision. Defined.

Inductive HealthState := HS_Healthy | HS_Unknown | HS_Warning | HS_Error.
#[export] Instance HealthState_eq_dec : EqDecision HealthState.
Proof. solve_decision. Defined.

Inductive StableHealthCode :=
  | HC_HeartbeatOk | HC_HeartbeatWarning | HC_HeartbeatFault | HC_HeartbeatMissing
  | HC_HeartbeatStale | HC_HeartbeatTimeout | HC_HeartbeatReadError | HC_HeartbeatUnsupported
  | HC_ProviderUnavailable | HC_ProcessorError.
#[export] Instance StableHealthCode_eq_dec : EqDecision StableHealthCode.
Proof. solve_decision. Defined.

Inductive HealthLimitationCode :=
  | HL_CatalogGap | HL_NativeMappingPending | HL_ProviderUnavailable | HL_EvidenceMissing
  | HL_EvidenceStale | HL_ReadFailure | HL_ProcessorError.
#[export] Instance HealthLimitationCode_eq_dec : EqDecision HealthLimitationCode.
Proof. solve_decision. Defined.

Record HealthLimitation := mkLimitation { lim_code : HealthLimitationCode; lim_detail : string }.
#[export] Instance HealthLimitation_eq_dec : EqDecision HealthLimitation.
Proof. solve_decision. Defined.

Record FirmwareHeartbeatEvidence := mkEvidence {
  fhe_evidence_id : Z;
  fhe_entity : EntityRef;
  fhe_provider_data_id : Z;
  fhe_native_class : HeartbeatNativeClass;
  fhe_status : ObservationStatus;
  fhe_sequence_or_token : Z;
  fhe_source_sample_time_ns : option Z;
  fhe_observed_monotonic_time_ns : Z;
  fhe_source : SourceMetadata;
  fhe_error : ErrorMetadata;
  fhe_catalog_generation : Z }.

Record EvidenceRef := mkEvidenceRef {
  evr_evidence_id : Z;
  evr_sequence_or_token : Z;
  evr_source_sample_time_ns : option Z;
  evr_observed_monotonic_time_ns : Z;
  evr_source : SourceMetadata }.
#[export] Instance EvidenceRef_eq_dec : EqDecision EvidenceRef.
Proof. solve_decision. Defined.

Record HealthResult := mkHealthResult {
  hr_entity : EntityRef;
  hr_subsystem_id : Z;
  hr_state : HealthState;
  hr_item_status : ObservationStatus;
  hr_catalog_generation : Z;
  hr_evaluated_monotonic_time_ns : Z;
  hr_evidence_age_ns : Z;
  hr_evidence : list EvidenceRef;
  hr_limitations : list HealthLimitation;
  hr_code : StableHealthCode }.

(** [kFirmwareHeartbeatHealthId] *)
Definition kFirmwareHeartbeatHealthId : Z := 1.

Definition isDeterminateHealth (s : HealthState) : bool :=
  (s ==? HS_Healthy) || (s ==? HS_Warning) || (s ==? HS_Error).

Definition evidenceRefValid (e : EvidenceRef) : bool :=
  (evr_evidence_id e !=? 0) && (0 <=? evr_observed_monotonic_time_ns e)
  && negb (opt_negative (evr_source_sample_time_ns e))
  && negb (str_empty (src_provider (evr_source e))).

Definition codeMatchesState (s : HealthState) (c : StableHealthCode) : bool :=
  match s with
  | HS_Healthy => c ==? HC_HeartbeatOk
  | HS_Warning => c ==? HC_HeartbeatWarning
  | HS_Error => c ==? HC_HeartbeatFault
  | HS_Unknown => (c !=? HC_HeartbeatOk) && (c !=? HC_HeartbeatWarning) && (c !=? HC_HeartbeatFault)
  end.

Definition validateFirmwareHeartbeatEvidence (e : FirmwareHeartbeatEvidence) : Status :=
  if (er_kind (fhe_entity e) !=? EK_Device) || (er_generation (fhe_entity e) =? 0)
     || (fhe_provider_data_id e =? 0) || (fhe_catalog_generation e =? 0)
     || (fhe_observed_monotonic_time_ns e <? 0) || opt_negative (fhe_source_sample_time_ns e)
     || str_empty (src_provider (fhe_source e))
  then invalid_argument "heartbeat evidence identity or time is invalid"
  else if fhe_status e ==? OS_Stale
  then invalid_argument "stale is not a physical heartbeat evidence status"
  else if fhe_status e ==? OS_Valid
  then if (fhe_native_class e ==? HN_UnknownNative) || negb (has_value (fhe_source_sample_time_ns e))
          || negb (st_ok (em_status (fhe_error e)))
       then invalid_argument "valid heartbeat evidence is incomplete" else st_success
  else if (fhe_native_class e !=? HN_UnknownNative) || st_ok (em_status (fhe_error e))
       then invalid_argument "failed heartbeat evidence metadata is inconsistent" else st_success.

Definition validateHealthResult (r : HealthResult) : Status :=
  if (er_kind (hr_entity r) !=? EK_Device) || (er_generation (hr_entity r) =? 0)
     || (hr_subsystem_id r !=? kFirmwareHeartbeatHealthId) || (hr_catalog_generation r =? 0)
     || (hr_evaluated_monotonic_time_ns r <? 0) || (hr_evidence_age_ns r <? 0)
  then invalid_argument "health result identity or time is invalid"
  else if negb (forallb evidenceRefValid (hr_evidence r))
  then invalid_argument "health evidence reference is invalid"
  else if existsb (fun l => str_empty (lim_detail l)) (hr_limitations r)
  then invalid_argument "health limitation detail is empty"
  else if negb (codeMatchesState (hr_state r) (hr_code r))
  then invalid_argument "health state and stable code disagree"
  else if isDeterminateHealth (hr_state r)
  then if (hr_item_status r !=? OS_Valid) || is_nil (hr_evidence r)
       then invalid_argument "determinate health requires valid evidence" else st_success
  else if hr_item_status r ==? OS_Valid
       then invalid_argument "unknown health cannot have a valid item status" else st_success.

(** ** Object sizes

    The accounting code adds [sizeof] values; they are fixed by the platform's
    ABI, so they are an interface of which only positivity is used. *)
Class Layout := {
  sizeof_PdcmEvent : Z;
  sizeof_monostate : Z;
  sizeof_MetricUpdatePayload : Z;
  sizeof_SubscriptionLossPayload : Z;
  sizeof_HealthChangePayload : Z;
  sizeof_EvidenceRef : Z;
  sizeof_HealthLimitation : Z;
  sizeof_HealthResult : Z;
  sizeof_FirmwareHeartbeatEvidence : Z;
  sizeof_EntityRef : Z;
  sizeof_ErrorMetadata : Z;
  sizeof_Observation : Z;
  sizeof_Entry : Z;
  sizeof_ProviderReadItemResult : Z;
  sizeof_Task : Z;
  layout_pos : Forall (fun n => 0 < n)
    [sizeof_PdcmEvent; sizeof_monostate; sizeof_MetricUpdatePayload; sizeof_SubscriptionLossPayload;
     sizeof_HealthChangePayload; sizeof_EvidenceRef; sizeof_HealthLimitation; sizeof_HealthResult;
     sizeof_FirmwareHeartbeatEvidence; sizeof_EntityRef; sizeof_ErrorMetadata; sizeof_Observation;
     sizeof_Entry; sizeof_ProviderReadItemResult; sizeof_Task] }.

(** The sizes of one 64-bit platform, for examples. *)
Program Definition sample_layout : Layout := {|
  sizeof_PdcmEvent := 208; sizeof_monostate := 1; sizeof_MetricUpdatePayload := 16;
  sizeof_SubscriptionLossPayload := 24; sizeof_HealthChangePayload := 40; sizeof_EvidenceRef := 104;
  sizeof_HealthLimitation := 40; sizeof_HealthResult := 120; sizeof_FirmwareHeartbeatEvidence := 200;
  sizeof_EntityRef := 24; sizeof_ErrorMetadata := 56; sizeof_Observation := 448;
  sizeof_Entry := 1024; sizeof_ProviderReadItemResult := 192; sizeof_Task := 512 |}.
Next Obligation. repeat constructor. Qed.

(** ** The observation invariant of the data model

    [ObservationOk] restates, as propositions, what an accepted observation
    guarantees to the stores and their readers. *)

Record StatusOk (o : Observation) : Prop := {
  so_valid : obs_status o = OS_Valid ->
    is_Some (obs_value o) /\ st_code (em_status (obs_error o)) = PDCM_STATUS_SUCCESS /\
    obs_stale_age_ns o = None /\ obs_latest_failure o = None;
  so_stale : obs_status o = OS_Stale ->
    is_Some (obs_value o) /\ (exists age, obs_stale_age_ns o = Some age /\ 0 <= age) /\
    (exists f, obs_latest_failure o = Some f /\ st_code (em_status f) <> PDCM_STATUS_SUCCESS);
  so_failed : obs_status o <> OS_Valid -> obs_status o <> OS_Stale ->
    obs_value o = None /\ st_code (em_status (obs_error o)) <> PDCM_STATUS_SUCCESS /\
    obs_stale_age_ns o = None /\ obs_latest_failure o = None }.

Definition DerivationOk (d : DerivationMetadata) : Prop :=
  dm_depth d <= 4 /\
  (dm_processor_id d = "" -> dm_depth d = 0 /\ dm_processor_version d = 0 /\ dm_input_sequences d = []) /\
  (dm_processor_id d <> "" ->
     dm_depth d <> 0 /\ dm_processor_version d <> 0 /\ dm_input_sequences d <> []).

Record ObservationOk (o : Observation) : Prop := {
  oo_kind : er_kind (obs_entity o) <> EK_Unknown;
  oo_generation : er_generation (obs_entity o) <> 0;
  oo_metric : obs_metric o <> 0;
  oo_version : obs_metric_semantic_version o <> 0;
  oo_scheduled : 0 <= obs_scheduled_monotonic_time_ns o;
  oo_observed : 0 <= obs_observed_monotonic_time_ns o;
  oo_catalog : obs_catalog_generation o <> 0;
  oo_sample : forall t, obs_source_sample_time_ns o = Some t -> 0 <= t;
  oo_status : StatusOk o;
  oo_derivation : DerivationOk (obs_derivation o) }.

Lemma st_ok_true s : st_ok s = true <-> st_code s = PDCM_STATUS_SUCCESS.
Proof. unfold st_ok. apply bool_decide_eq_true. Qed.
Lemma st_ok_false s : st_ok s = false <-> st_code s <> PDCM_STATUS_SUCCESS.
Proof. unfold st_ok. apply bool_decide_eq_false. Qed.
Lemma opt_negative_false o : opt_negative o = false <-> forall t, o = Some t -> 0 <= t.
Proof.
  destruct o as [z|]; simpl; split.
  - intros H t ?. simplify_eq. lia.
  - intros H. specialize (H z eq_refl). lia.
  - intros _ t ?. done.
  - done.
Qed.
Lemma st_ok_success : st_ok st_success = true.
Proof. done. Qed.
Lemma st_ok_invalid msg : st_ok (invalid_argument msg) = false.
Proof. done. Qed.
#[export] Hint Rewrite st_ok_true st_ok_false opt_negative_false : bprop.

(** [obs_status_ok] as computed by [validateObservation]. *)
Lemma status_ok_iff (o : Observation) :
  match obs_status o with
  | OS_Valid =>
      negb (has_value (obs_value o)) || negb (st_ok (em_status (obs_error o)))
      || has_value (obs_stale_age_ns o) || has_value (obs_latest_failure o)
  | OS_Stale =>
      negb (has_value (obs_value o)) || negb (has_value (obs_stale_age_ns o))
      || opt_negative (obs_stale_age_ns o)
      || match obs_latest_failure o with Some f => st_ok (em_status f) | None => true end
  | _ =>
      has_value (obs_value o) || st_ok (em_status (obs_error o))
      || has_value (obs_stale_age_ns o) || has_value (obs_latest_failure o)
  end = false <-> StatusOk o.
Proof.
  destruct (obs_status o) eqn:Es; bprop; split.
  all: try (intros (((H1&H2)&H3)&H4); constructor; rewrite Es; try done; intros; repeat split; try done).
  all: try (intros [Hv Hs Hf]; rewrite Es in *;
            specialize (Hf ltac:(done) ltac:(done)); naive_solver).
  - intros [Hv Hs Hf]. rewrite Es in *. naive_solver.
  - destruct H2 as [age Hage]. exists age. split; [done|]. by apply H3.
  - destruct (obs_latest_failure o) as [f|]; [|done]. exists f. by rewrite <- st_ok_false.
  - intros [Hv Hs Hf]. rewrite Es in *. destruct (Hs eq_refl) as (?&(age&Ha&?)&(f&Hf'&?)).
    rewrite Ha, Hf', st_ok_false. repeat split; try done. naive_solver.
Qed.

Lemma derivation_ok_iff (d : DerivationMetadata) :
  (4 <? dm_depth d) = false /\
  (if str_empty (dm_processor_id d)
   then (dm_depth d !=? 0) || (dm_processor_version d !=? 0) || negb (is_nil (dm_input_sequences d))
   else (dm_depth d =? 0) || (dm_processor_version d =? 0) || is_nil (dm_input_sequences d)) = false
  <-> DerivationOk d.
Proof.
  unfold DerivationOk. destruct (str_empty (dm_processor_id d)) eqn:E; bprop in E; bprop; naive_solver.
Qed.

Lemma validateObservation_ok o : st_ok (validateObservation o) = true <-> ObservationOk o.
Proof.
  unfold validateObservation. pose proof (status_ok_iff o) as Hs.
  pose proof (derivation_ok_iff (obs_derivation o)) as Hd.
  guard as G1; [split; [done|]; intros []; bprop in G1; naive_solver|].
  guard as G2.
  { split; [done|]. intros []. apply not_false_iff_true in G2. exfalso. apply G2. bprop. auto 10. }
  bprop in G1. bprop in G2.
  assert (forall b e1 s, (match (if b : bool then Some (invalid_argument e1) else None) with
            Some e => e | None => s end) = if b then invalid_argument e1 else s) as Hm
    by (by intros []).
  split.
  - intros H. assert (StatusOk o /\ DerivationOk (obs_derivation o)) as [? ?]; [|split; tauto].
    rewrite <- Hs, <- Hd. destruct (obs_status o); rewrite Hm in H;
      case_match; try done; split; try done; destruct (4 <? _); try done; repeat (case_match; try done).
  - intros Ho. pose proof (proj2 Hs (oo_status _ Ho)) as Hso.
    destruct (proj2 Hd (oo_derivation _ Ho)) as [Hd1 Hd2].
    destruct (obs_status o); rewrite Hm, Hso, Hd1; case_match; by rewrite Hd2.
Qed.
