(* ===== verification/Provider.v ===== *)
(** Providers (src/product/src/provider/): the data exchanged with a native
    provider, the abstract class [Provider] as a type class of state-passing
    operations, the [ProviderManager] that serialises calls to it, and the
    [UnavailableProvider] instance. *)
From S2P Require Import Prelude Containers Common.
Open Scope Z_scope.
Open Scope pdcm_scope.

Inductive ProviderState := PS_Uninitialized | PS_Ready | PS_Unavailable | PS_Shutdown.
#[export] Instance ProviderState_eq_dec : EqDecision ProviderState.
Proof. solve_decision. Defined.

Inductive ProviderFailurePhase :=
  PF_None | PF_Load | PF_Entry | PF_Abi | PF_NativeInitialize | PF_Discovery.

Inductive TargetKind := TK_Unknown | TK_Fpga | TK_Emu.
#[export] Instance TargetKind_eq_dec : EqDecision TargetKind.
Proof. solve_decision. Defined.

Inductive ProviderEntityState := PES_Unknown | PES_Ready | PES_Lost | PES_Error.
#[export] Instance ProviderEntityState_eq_dec : EqDecision ProviderEntityState.
Proof. solve_decision. Defined.

Inductive ProviderDataKind := PDK_Metric | PDK_HeartbeatEvidence.
#[export] Instance ProviderDataKind_eq_dec : EqDecision ProviderDataKind.
Proof. solve_decision. Defined.

(** A [MonotonicTime] is its count of nanoseconds. *)
Notation MonotonicTime := Z (only parsing).

Record ProviderConcurrency := mkConcurrency { max_concurrency : Z; reentrant : bool }.
Record ProviderInitOptions := mkInitOptions { pio_target : TargetKind; pio_deadline : MonotonicTime }.

Record ProviderEntity := mkProviderEntity {
  pe_stable_native_id : string;
  pe_pci_bdf : string;
  pe_pdrv_version : string;
  pe_incarnation : string;
  pe_state : ProviderEntityState;
  pe_manageable : bool }.

Record ProviderCapability := mkProviderCapability {
  pc_kind : ProviderDataKind; pc_data_id : Z; pc_supported : bool; pc_reason : string }.

Record ProviderDescriptor := mkDescriptor {
  pd_provider_version : string;
  pd_target : TargetKind;
  pd_state : ProviderState;
  pd_failure_phase : ProviderFailurePhase;
  pd_entities : list ProviderEntity;
  pd_capabilities : list ProviderCapability;
  pd_errors : list Status;
  pd_detected_device_count : Z }.
Definition pd_default : ProviderDescriptor :=
  mkDescriptor "" TK_Unknown PS_Uninitialized PF_None [] [] [] 0.
Definition pd_with_state (d : ProviderDescriptor) (s : ProviderState) : ProviderDescriptor :=
  mkDescriptor (pd_provider_version d) (pd_target d) s (pd_failure_phase d) (pd_entities d)
    (pd_capabilities d) (pd_errors d) (pd_detected_device_count d).
Definition pd_with_phase (d : ProviderDescriptor) (p : ProviderFailurePhase) : ProviderDescriptor :=
  mkDescriptor (pd_provider_version d) (pd_target d) (pd_state d) p (pd_entities d)
    (pd_capabilities d) (pd_errors d) (pd_detected_device_count d).

Record ProviderReadItem := mkReadItem {
  pri_entity : EntityRef; pri_kind : ProviderDataKind; pri_data_id : Z }.
#[export] Instance ProviderReadItem_eq_dec : EqDecision ProviderReadItem.
Proof. solve_decision. Defined.

Record ProviderReadRequest := mkReadRequest {
  prq_request_id : Z;
  prq_plan_generation : Z;
  prq_catalog_generation : Z;
  prq_scheduled_time : MonotonicTime;
  prq_deadline : MonotonicTime;
  prq_items : list ProviderReadItem }.

Record ProviderReadItemResult := mkItemResult {
  pir_item : ProviderReadItem;
  pir_status : ObservationStatus;
  pir_value : option MetricValue;
  pir_heartbeat_class : option HeartbeatNativeClass;
  pir_sequence_or_token : option Z;
  pir_source_sample_time_ns : option Z;
  pir_native_source : string;
  pir_native_code : Z;
  pir_retryable : bool }.

Record ProviderReadResult := mkReadResult {
  prr_call_status : Status; prr_items : list ProviderReadItemResult }.
Record ProviderDiscoveryResult := mkDiscovery {
  pdr_call_status : Status; pdr_descriptor : ProviderDescriptor }.

(** class [Provider]: what a native provider offers.  The methods that are not
    [const] pass the provider's own state. *)
Class Provider (P : Type) := {
  p_initialize : P -> ProviderInitOptions -> Status * P;
  p_shutdown : P -> P;
  p_state : P -> ProviderState;
  p_concurrency : P -> ProviderConcurrency;
  p_discover : P -> MonotonicTime -> ProviderDiscoveryResult * P;
  p_batchRead : P -> ProviderReadRequest -> ProviderReadResult * P }.

(** ** UnavailableProvider *)

Record UnavailableProvider := mkUnavailable { up_state_ : ProviderState }.
Definition up_init : UnavailableProvider := mkUnavailable PS_Uninitialized.

Definition up_initialize (u : UnavailableProvider) (options : ProviderInitOptions)
    : Status * UnavailableProvider :=
  (mkStatus PDCM_STATUS_UNAVAILABLE "production provider integration is not configured",
   mkUnavailable PS_Unavailable).
Definition up_shutdown (u : UnavailableProvider) : UnavailableProvider := mkUnavailable PS_Shutdown.
Definition up_concurrency (u : UnavailableProvider) : ProviderConcurrency := mkConcurrency 1 false.
Definition up_discover (u : UnavailableProvider) (deadline : MonotonicTime)
    : ProviderDiscoveryResult * UnavailableProvider :=
  (mkDiscovery (mkStatus PDCM_STATUS_UNAVAILABLE "provider is unavailable")
     (pd_with_phase (pd_with_state pd_default (up_state_ u)) PF_Load), u).
Definition up_batchRead (u : UnavailableProvider) (request : ProviderReadRequest)
    : ProviderReadResult * UnavailableProvider :=
  (mkReadResult (mkStatus PDCM_STATUS_UNAVAILABLE "provider is unavailable") [], u).

#[export] Instance unavailable_provider : Provider UnavailableProvider := {|
  p_initialize := up_initialize;
  p_shutdown := up_shutdown;
  p_state := up_state_;
  p_concurrency := up_concurrency;
  p_discover := up_discover;
  p_batchRead := up_batchRead |}.

(** ** ProviderManager *)

Section ProviderManager.
Context {P : Type} `{Provider P}.

Record ProviderManager := mkProviderManager { pm_provider_ : P; pm_state_ : ProviderState }.

(** The constructor throws on a null provider. *)
Definition pm_construct (provider : option P) : string + ProviderManager :=
  match provider with
  | None => inl "ProviderManager requires a provider"%string
  | Some p => inr (mkProviderManager p PS_Uninitialized)
  end.

Definition pm_initialize (m : ProviderManager) (options : ProviderInitOptions)
    : Status * ProviderManager :=
  if pm_state_ m ==? PS_Shutdown
  then (mkStatus PDCM_STATUS_NOT_INITIALIZED "provider manager is already shut down", m)
  else
  let '(status, p) := p_initialize (pm_provider_ m) options in
  if st_ok status && (p_state p !=? PS_Ready)
  then (mkStatus PDCM_STATUS_INTERNAL "provider reported success without entering ready state",
        mkProviderManager p PS_Unavailable)
  else (status, mkProviderManager p (p_state p)).

Definition pm_discover (m : ProviderManager) (deadline : MonotonicTime)
    : ProviderDiscoveryResult * ProviderManager :=
  if pm_state_ m !=? PS_Ready
  then (mkDiscovery (mkStatus PDCM_STATUS_UNAVAILABLE "provider manager is not ready")
          (pd_with_state pd_default (pm_state_ m)), m)
  else
  let '(result, p) := p_discover (pm_provider_ m) deadline in
  (result, mkProviderManager p (p_state p)).

Definition pm_batchRead (m : ProviderManager) (request : ProviderReadRequest)
    : ProviderReadResult * ProviderManager :=
  if pm_state_ m !=? PS_Ready
  then (mkReadResult (mkStatus PDCM_STATUS_UNAVAILABLE "provider manager is not ready") [], m)
  else
  let '(result, p) := p_batchRead (pm_provider_ m) request in
  (result, mkProviderManager p (p_state p)).

Definition pm_shutdown (m : ProviderManager) : ProviderManager :=
  if pm_state_ m ==? PS_Shutdown then m
  else mkProviderManager (p_shutdown (pm_provider_ m)) PS_Shutdown.

(** The calls the service makes on its provider manager. *)
Inductive pm_op :=
  | PmInitialize (options : ProviderInitOptions)
  | PmDiscover (deadline : MonotonicTime)
  | PmBatchRead (request : ProviderReadRequest)
  | PmShutdown.

Definition pm_step (m : ProviderManager) (op : pm_op) : ProviderManager :=
  match op with
  | PmInitialize o => snd (pm_initialize m o)
  | PmDiscover d => snd (pm_discover m d)
  | PmBatchRead r => snd (pm_batchRead m r)
  | PmShutdown => pm_shutdown m
  end.

(** Shutdown is final: the provider is not called again. *)
Lemma pm_shutdown_stuck m ops :
  pm_state_ m = PS_Shutdown -> foldl pm_step m ops = m.
Proof.
  intros Hs. induction ops as [|op ops IH]; [done|]. cbn [foldl].
  replace (pm_step m op) with m; [done|].
  destruct op; cbn [pm_step]; unfold pm_initialize, pm_discover, pm_batchRead, pm_shutdown;
    rewrite Hs; done.
Qed.

(** After [shutdown], whatever calls follow, the provider object is never
    touched again and every call is answered with an error that does not
    depend on the provider. *)
Theorem pm_after_shutdown m ops :
  let m' := foldl pm_step (pm_shutdown m) ops in
  m' = pm_shutdown m /\ pm_state_ m' = PS_Shutdown /\
  (forall o, st_code (fst (pm_initialize m' o)) = PDCM_STATUS_NOT_INITIALIZED) /\
  (forall d, st_code (pdr_call_status (fst (pm_discover m' d))) = PDCM_STATUS_UNAVAILABLE) /\
  (forall r, fst (pm_batchRead m' r) =
     mkReadResult (mkStatus PDCM_STATUS_UNAVAILABLE "provider manager is not ready") []).
Proof.
  assert (pm_state_ (pm_shutdown m) = PS_Shutdown) as Hs.
  { unfold pm_shutdown. destruct (bool_decide_reflect (pm_state_ m = PS_Shutdown)); done. }
  intros m'. unfold m'. rewrite pm_shutdown_stuck by done.
  unfold pm_initialize, pm_discover, pm_batchRead. rewrite Hs. by repeat split.
Qed.

Definition pm_coherent (m : ProviderManager) : Prop :=
  pm_state_ m = PS_Ready -> p_state (pm_provider_ m) = PS_Ready.

Lemma pm_step_coherent m op : pm_coherent m -> pm_coherent (pm_step m op).
Proof.
  unfold pm_coherent. intros Hk. destruct op as [o'|d|r|]; cbn [pm_step].
  - unfold pm_initialize. case_bool_decide; [done|].
    destruct (p_initialize _ _) as [st p]. destruct (_ && _); done.
  - unfold pm_discover. case_bool_decide; [|done]. by destruct (p_discover _ _).
  - unfold pm_batchRead. case_bool_decide; [|done]. by destruct (p_batchRead _ _).
  - unfold pm_shutdown. case_bool_decide; done.
Qed.

(** A provider is used only when it is ready: from construction on, after
    any calls, if the manager is ready (the only state in which it forwards
    [discover] and [batchRead]) then so is its provider, and an [initialize]
    that claims success without a ready provider is turned into an error. *)
Theorem pm_ready_means_ready p m ops :
  pm_construct (Some p) = inr m ->
  let m' := foldl pm_step m ops in
  (pm_state_ m' = PS_Ready -> p_state (pm_provider_ m') = PS_Ready) /\
  (forall o, st_ok (fst (pm_initialize m' o)) = true ->
     p_state (pm_provider_ (snd (pm_initialize m' o))) = PS_Ready).
Proof.
  intros [= <-] m'. split.
  - unfold m'. assert (pm_coherent (mkProviderManager p PS_Uninitialized)) as H0 by done.
    revert H0. generalize (mkProviderManager p PS_Uninitialized).
    induction ops as [|op ops IH]; intros k Hk; [exact Hk|]. cbn [foldl]. apply IH.
    by apply pm_step_coherent.
  - intros o. unfold pm_initialize. case_bool_decide; [done|].
    destruct (p_initialize _ _) as [st q]. destruct (st_ok st) eqn:Hst; cbn [andb].
    + case_bool_decide; done.
    + cbn. congruence.
Qed.

End ProviderManager.
Arguments ProviderManager : clear implicits.

Lemma pm_ready_means_ready_witness :
  let m' := foldl pm_step (mkProviderManager up_init PS_Uninitialized)
              [PmInitialize (mkInitOptions TK_Emu 0)] in
  (pm_state_ m' = PS_Ready -> p_state (pm_provider_ m') = PS_Ready) /\
  (forall o, st_ok (fst (pm_initialize m' o)) = true ->
     p_state (pm_provider_ (snd (pm_initialize m' o))) = PS_Ready).
Proof. apply (pm_ready_means_ready up_init). reflexivity. Defined.
