(* ===== verification/Session.v ===== *)
(** Sessions (src/product/src/core/session_manager.hpp and .cpp) and the
    runtime configuration that bounds them (core/runtime_config.hpp and .cpp).

    Every public method of [SessionManager] runs under its mutex and is one
    state-passing function; [sessions_], an unordered map, is a [gmap]. *)
From S2P Require Import Prelude Containers Common Provider.
Open Scope Z_scope.
Open Scope pdcm_scope.

(** ** Runtime configuration *)

Record ResourceLimits := mkLimits {
  max_sessions : Z;
  max_outstanding_requests_per_session : Z;
  max_watches_per_session : Z;
  max_subscriptions_per_session : Z;
  lim_max_frame_bytes : Z }.
Definition limits_default : ResourceLimits := mkLimits 64 32 64 32 (4 * 1024 * 1024).

(** The deadlines are counts of milliseconds. *)
Record RuntimeConfig := mkRuntimeConfig {
  rc_target : TargetKind;
  rc_limits : ResourceLimits;
  rc_provider_call_timeout : Z;
  rc_shutdown_grace : Z }.

Definition rc_validate (c : RuntimeConfig) : Status :=
  if rc_target c ==? TK_Unknown then invalid_argument "runtime target must be explicit"
  else if (max_sessions (rc_limits c) =? 0)
       || (max_outstanding_requests_per_session (rc_limits c) =? 0)
       || (max_watches_per_session (rc_limits c) =? 0)
       || (max_subscriptions_per_session (rc_limits c) =? 0)
       || (lim_max_frame_bytes (rc_limits c) <? 20)
  then invalid_argument "runtime resource limits must be positive and bounded"
  else if (rc_provider_call_timeout c <=? 0) || (rc_shutdown_grace c <=? 0)
  then invalid_argument "runtime deadlines must be positive"
  else st_success.

(** ** Session state *)

Notation SessionId := Z (only parsing).

Inductive SessionState := SS_Handshaking | SS_Active | SS_Draining | SS_Closing.
#[export] Instance SessionState_eq_dec : EqDecision SessionState.
Proof. solve_decision. Defined.

Record PeerIdentity := mkPeer { user_id : Z; group_id : Z; process_id : Z }.

Record SessionCounters := mkCounters {
  outstanding_requests : Z; watches : Z; subscriptions : Z }.
Definition counters_zero : SessionCounters := mkCounters 0 0 0.

Record SessionSnapshot := mkSession {
  ss_id : SessionId; ss_state : SessionState; ss_peer : PeerIdentity; ss_counters : SessionCounters }.

Definition ss_with_state (s : SessionSnapshot) (st : SessionState) : SessionSnapshot :=
  mkSession (ss_id s) st (ss_peer s) (ss_counters s).
Definition ss_with_counters (s : SessionSnapshot) (c : SessionCounters) : SessionSnapshot :=
  mkSession (ss_id s) (ss_state s) (ss_peer s) c.

Record SessionManager := mkSessionManager {
  sm_limits_ : ResourceLimits;
  sessions_ : gmap Z SessionSnapshot;
  next_session_id_ : SessionId;
  draining_ : bool }.

Definition sm_init (limits : ResourceLimits) : SessionManager := mkSessionManager limits ∅ 1 false.
Definition sm_with_sessions (m : SessionManager) (s : gmap Z SessionSnapshot) : SessionManager :=
  mkSessionManager (sm_limits_ m) s (next_session_id_ m) (draining_ m).

Inductive CounterKind := CK_Request | CK_Watch | CK_Subscription.
#[export] Instance CounterKind_eq_dec : EqDecision CounterKind.
Proof. solve_decision. Defined.

Definition sm_limit (m : SessionManager) (k : CounterKind) : Z :=
  match k with
  | CK_Request => max_outstanding_requests_per_session (sm_limits_ m)
  | CK_Watch => max_watches_per_session (sm_limits_ m)
  | CK_Subscription => max_subscriptions_per_session (sm_limits_ m)
  end.

(** [counter] returns a reference; reading and writing through it. *)
Definition counter (c : SessionCounters) (k : CounterKind) : Z :=
  match k with
  | CK_Request => outstanding_requests c
  | CK_Watch => watches c
  | CK_Subscription => subscriptions c
  end.
Definition counter_set (c : SessionCounters) (k : CounterKind) (v : Z) : SessionCounters :=
  match k with
  | CK_Request => mkCounters v (watches c) (subscriptions c)
  | CK_Watch => mkCounters (outstanding_requests c) v (subscriptions c)
  | CK_Subscription => mkCounters (outstanding_requests c) (watches c) v
  end.

(** ** Operations *)

Definition session_missing : Status := mkStatus PDCM_STATUS_NOT_FOUND "session does not exist".

Definition sm_size (m : SessionManager) : Z := Z.of_nat (size (sessions_ m)).
Definition sm_snapshot (m : SessionManager) (id : SessionId) : option SessionSnapshot :=
  sessions_ m !! id.

Definition beginHandshake (m : SessionManager) (peer : PeerIdentity)
    : Status * SessionId * SessionManager :=
  if draining_ m
  then (mkStatus PDCM_STATUS_UNAVAILABLE "session manager is draining", 0, m)
  else if max_sessions (sm_limits_ m) <=? sm_size m
  then (mkStatus PDCM_STATUS_RESOURCE_EXHAUSTED "session capacity exhausted", 0, m)
  else if next_session_id_ m =? 0
  then (mkStatus PDCM_STATUS_INTERNAL "session identifier exhausted", 0, m)
  else
  let id := next_session_id_ m in
  let next := if next_session_id_ m =? u64_max then 0 else next_session_id_ m + 1 in
  let record := mkSession id SS_Handshaking peer counters_zero in
  (* emplace does not replace an existing entry *)
  let sessions := match sessions_ m !! id with Some _ => sessions_ m | None => <[id := record]> (sessions_ m) end in
  (st_success, id, mkSessionManager (sm_limits_ m) sessions next (draining_ m)).

Definition activate (m : SessionManager) (id : SessionId) : Status * SessionManager :=
  match sessions_ m !! id with
  | None => (session_missing, m)
  | Some s =>
      if draining_ m || (ss_state s !=? SS_Handshaking)
      then (mkStatus PDCM_STATUS_UNAVAILABLE "session cannot transition to active", m)
      else (st_success, sm_with_sessions m (<[id := ss_with_state s SS_Active]> (sessions_ m)))
  end.

Definition drain_session (s : SessionSnapshot) : SessionSnapshot :=
  if ss_state s ==? SS_Active then ss_with_state s SS_Draining
  else if ss_state s ==? SS_Handshaking then ss_with_state s SS_Closing
  else s.

Definition sm_beginDraining (m : SessionManager) : Status * SessionManager :=
  (st_success,
   mkSessionManager (sm_limits_ m) (drain_session <$> sessions_ m) (next_session_id_ m) true).

Definition sm_close (m : SessionManager) (id : SessionId) : Status * SessionManager :=
  match sessions_ m !! id with
  | None => (session_missing, m)
  | Some _ => (st_success, sm_with_sessions m (delete id (sessions_ m)))
  end.

Definition closeAll (m : SessionManager) : SessionManager :=
  mkSessionManager (sm_limits_ m) ∅ (next_session_id_ m) true.

Definition reserve (m : SessionManager) (id : SessionId) (kind : CounterKind)
    : Status * SessionManager :=
  match sessions_ m !! id with
  | None => (session_missing, m)
  | Some s =>
      if ss_state s !=? SS_Active
      then (mkStatus PDCM_STATUS_UNAVAILABLE "session is not accepting new resources", m)
      else
      let value := counter (ss_counters s) kind in
      if sm_limit m kind <=? value
      then (mkStatus PDCM_STATUS_RESOURCE_EXHAUSTED "session resource quota exhausted", m)
      else (st_success, sm_with_sessions m
              (<[id := ss_with_counters s (counter_set (ss_counters s) kind (value + 1))]> (sessions_ m)))
  end.

Definition release (m : SessionManager) (id : SessionId) (kind : CounterKind)
    : Status * SessionManager :=
  match sessions_ m !! id with
  | None => (session_missing, m)
  | Some s =>
      let value := counter (ss_counters s) kind in
      if value =? 0
      then (invalid_argument "session resource counter is already zero", m)
      else (st_success, sm_with_sessions m
              (<[id := ss_with_counters s (counter_set (ss_counters s) kind (value - 1))]> (sessions_ m)))
  end.

Definition reserveRequest m id := reserve m id CK_Request.
Definition releaseRequest m id := release m id CK_Request.
Definition reserveWatch m id := reserve m id CK_Watch.
Definition releaseWatch m id := release m id CK_Watch.
Definition reserveSubscription m id := reserve m id CK_Subscription.
Definition releaseSubscription m id := release m id CK_Subscription.

(** ** Runs: the calls of all connections, in the order of the mutex *)

Inductive session_op :=
  | SBegin (peer : PeerIdentity)
  | SActivate (id : SessionId)
  | SDrain
  | SClose (id : SessionId)
  | SCloseAll
  | SReserve (id : SessionId) (kind : CounterKind)
  | SRelease (id : SessionId) (kind : CounterKind).

Definition session_step (m : SessionManager) (op : session_op) : SessionManager :=
  match op with
  | SBegin peer => snd (beginHandshake m peer)
  | SActivate id => snd (activate m id)
  | SDrain => snd (sm_beginDraining m)
  | SClose id => snd (sm_close m id)
  | SCloseAll => closeAll m
  | SReserve id k => snd (reserve m id k)
  | SRelease id k => snd (release m id k)
  end.

(** The session identifier a call hands out. *)
Definition issued (m : SessionManager) (op : session_op) : list SessionId :=
  match op with
  | SBegin peer => let '(st, id, _) := beginHandshake m peer in if st_ok st then [id] else []
  | _ => []
  end.

Fixpoint issued_run (m : SessionManager) (ops : list session_op) : list SessionId :=
  match ops with
  | [] => []
  | op :: ops' => issued m op ++ issued_run (session_step m op) ops'
  end.

(** A short run used as an example. *)
Definition sample_session_ops : list session_op :=
  [SBegin (mkPeer 0 0 1); SActivate 1; SReserve 1 CK_Request; SBegin (mkPeer 0 0 2); SClose 1].

(** ** Invariant *)

Definition limits_wf (l : ResourceLimits) : Prop :=
  0 <= max_sessions l /\ 0 <= max_outstanding_requests_per_session l /\
  0 <= max_watches_per_session l /\ 0 <= max_subscriptions_per_session l.

(** An entry of [sessions_]: its key is its identifier, issued before, its
    counters are within the quotas, and draining has left no session that
    accepts work. *)
Record session_wf (m : SessionManager) (id : SessionId) (s : SessionSnapshot) : Prop := {
  sw_id : ss_id s = id;
  sw_issued : 1 <= id <= u64_max /\ (next_session_id_ m = 0 \/ id < next_session_id_ m);
  sw_quota : forall k, 0 <= counter (ss_counters s) k <= sm_limit m k;
  sw_drain : draining_ m = true -> ss_state s = SS_Draining \/ ss_state s = SS_Closing;
  sw_handshake : ss_state s = SS_Handshaking -> ss_counters s = counters_zero }.

Record sm_wf (m : SessionManager) : Prop := {
  mw_limits : limits_wf (sm_limits_ m);
  mw_size : sm_size m <= max_sessions (sm_limits_ m);
  mw_next : 0 <= next_session_id_ m <= u64_max;
  mw_sessions : map_Forall (session_wf m) (sessions_ m) }.

(** Session identifiers still to be issued. *)
Definition fresh_from (m : SessionManager) (id : SessionId) : Prop :=
  next_session_id_ m <> 0 /\ next_session_id_ m <= id <= u64_max.

Lemma counter_set_eq c k v : counter (counter_set c k v) k = v.
Proof. by destruct k. Qed.
Lemma counter_set_ne c k j v : j <> k -> counter (counter_set c k v) j = counter c j.
Proof. by destruct k, j. Qed.

Lemma sm_init_wf l : limits_wf l -> sm_wf (sm_init l).
Proof.
  intros Hl. split; [done| |cbn; unfold u64_max; lia|apply map_Forall_empty].
  unfold sm_size. cbn [sm_init sessions_]. rewrite map_size_empty. apply Hl.
Qed.

(** Replacing an existing session by one that satisfies the invariant. *)
Lemma sm_update_wf m id s s' :
  sm_wf m -> sessions_ m !! id = Some s -> session_wf m id s' ->
  sm_wf (sm_with_sessions m (<[id := s']> (sessions_ m))).
Proof.
  intros [Hl Hs Hn Hm] Hid Hs'. split; [done| |done|].
  - unfold sm_size in *. cbn [sm_with_sessions sessions_ sm_limits_].
    rewrite map_size_insert_Some; [done|by eexists].
  - cbn [sm_with_sessions sessions_]. intros j t Hj.
    assert (session_wf m j t) as [H1 H2 H3 H4 H5].
    { apply lookup_insert_Some in Hj as [[<- <-]|[Hne Hj]]; [done|]. by apply Hm. }
    by split.
Qed.

Lemma counter_set_wf m id s k v :
  session_wf m id s -> ss_state s <> SS_Handshaking -> 0 <= v <= sm_limit m k ->
  session_wf m id (ss_with_counters s (counter_set (ss_counters s) k v)).
Proof.
  intros [H1 H2 H3 H4 H5] Hst Hv. split; try done. intros j. cbn [ss_with_counters ss_counters].
  destruct (decide (j = k)) as [->|Hne]; [by rewrite counter_set_eq|by rewrite counter_set_ne].
Qed.

Lemma beginHandshake_wf m peer : sm_wf m -> sm_wf (snd (beginHandshake m peer)).
Proof.
  intros Hwf. unfold beginHandshake. guard as G1; [done|]. guard as G2; [done|]. guard as G3; [done|].
  bprop in G2. bprop in G3. destruct Hwf as [Hl Hs Hn Hm]. cbn [snd].
  assert (sessions_ m !! next_session_id_ m = None) as Hnone.
  { destruct (_ !! _) as [s|] eqn:E; [|done]. apply Hm in E as [_ Hi _ _ _]. lia. }
  rewrite Hnone. split; cbn [sm_limits_ next_session_id_ sessions_].
  - done.
  - unfold sm_size in *. cbn [sessions_]. rewrite map_size_insert_None by done. lia.
  - guard as G4; bprop in G4; lia.
  - intros j t Hj. apply lookup_insert_Some in Hj as [[<- <-]|[Hne Hj]].
    + split; cbn; [done| |intros []; cbn; unfold limits_wf in Hl; lia|congruence|done].
      guard as G4; bprop in G4; lia.
    + apply Hm in Hj as [H1 H2 H3 H4 H5]. split; cbn; try done.
      guard as G4; [lia|]. bprop in G4. lia.
Qed.

Lemma session_step_wf m op : sm_wf m -> sm_wf (session_step m op).
Proof.
  intros Hwf. pose proof (mw_sessions m Hwf) as Hm. destruct op as [peer|id| |id| |id k|id k];
    cbn [session_step].
  - by apply beginHandshake_wf.
  - unfold activate. destruct (_ !! id) as [s|] eqn:E; [|done]. guard as G; [done|]. bprop in G.
    destruct G as [Gd Gs]. eapply sm_update_wf; [done|done|].
    destruct (Hm _ _ E) as [H1 H2 H3 H4 H5]. split; try done. cbn. congruence.
  - destruct Hwf as [Hl Hs Hn _]. split; try done; cbn [snd sm_beginDraining].
    + unfold sm_size in *. cbn. by rewrite map_size_fmap.
    + cbn. intros j t Hj. rewrite lookup_fmap in Hj. apply fmap_Some in Hj as (s & Hj & ->).
      apply Hm in Hj as [H1 H2 H3 H4 H5]. unfold drain_session.
      case_bool_decide; [|case_bool_decide]; split; cbn; try done; auto.
      intros _. destruct (ss_state s); auto; done.
  - unfold sm_close. destruct (_ !! id) as [s|] eqn:E; [|done].
    destruct Hwf as [Hl Hs Hn _]. split; try done; cbn [snd].
    + unfold sm_size in *. cbn. rewrite map_size_delete_Some by done. lia.
    + cbn. intros j t Hj. apply lookup_delete_Some in Hj as [_ Hj].
      by apply Hm in Hj as [H1 H2 H3 H4 H5].
  - destruct Hwf as [Hl Hs Hn _]. split; try done.
    unfold sm_size. cbn. rewrite map_size_empty. apply Hl.
  - unfold reserve. destruct (_ !! id) as [s|] eqn:E; [|done]. guard as G1; [done|]. guard as G2; [done|].
    bprop in G1. bprop in G2. eapply sm_update_wf; [done|done|].
    pose proof (Hm _ _ E) as Hs. apply counter_set_wf; [done|congruence|].
    pose proof (sw_quota _ _ _ Hs k). lia.
  - unfold release. destruct (_ !! id) as [s|] eqn:E; [|done]. guard as G; [done|]. bprop in G.
    eapply sm_update_wf; [done|done|]. pose proof (Hm _ _ E) as Hs.
    pose proof (sw_quota _ _ _ Hs k). apply counter_set_wf; [done| |lia].
    intros Hh. apply (sw_handshake _ _ _ Hs) in Hh. rewrite Hh in G. by destruct k.
Qed.

Lemma session_run_wf m ops : sm_wf m -> sm_wf (foldl session_step m ops).
Proof.
  revert m. induction ops as [|op ops IH]; intros m Hwf; [done|].
  cbn. apply IH. by apply session_step_wf.
Qed.

Lemma session_step_limits m op : sm_limits_ (session_step m op) = sm_limits_ m.
Proof.
  destruct op; cbn [session_step]; unfold beginHandshake, activate, sm_close, reserve, release;
    try done; repeat (case_match; try done).
Qed.

Lemma session_step_draining m op : draining_ m = true -> draining_ (session_step m op) = true.
Proof.
  intros Hd. destruct op; cbn [session_step]; unfold beginHandshake, activate, sm_close, reserve, release;
    try done; repeat (case_match; try done).
Qed.

Lemma session_step_fresh m op id :
  sm_wf m -> fresh_from (session_step m op) id -> fresh_from m id /\ id ∉ issued m op.
Proof.
  intros Hwf. destruct op as [peer|i| |i| |i k|i k]; cbn [session_step issued];
    try (intros Hf; split; [|apply not_elem_of_nil]; revert Hf).
  - pose proof (mw_next m Hwf). unfold fresh_from, beginHandshake.
    guard as G1; [split; [done|apply not_elem_of_nil]|].
    guard as G2; [split; [done|apply not_elem_of_nil]|].
    guard as G3; [split; [done|apply not_elem_of_nil]|]. bprop in G3. cbn [snd next_session_id_].
    guard as G4; [lia|]. intros Hid. rewrite st_ok_success, list_elem_of_singleton. lia.
  - unfold activate. repeat (case_match; try done).
  - done.
  - unfold sm_close. repeat (case_match; try done).
  - done.
  - unfold reserve. repeat (case_match; try done).
  - unfold release. repeat (case_match; try done).
Qed.

Lemma issued_fresh m op id : sm_wf m -> id ∈ issued m op -> fresh_from m id.
Proof.
  intros Hwf. pose proof (mw_next m Hwf). destruct op; cbn [issued]; try by intros ?%elem_of_nil.
  unfold beginHandshake, fresh_from. 
  guard as G1; [by intros ?%elem_of_nil|]. guard as G2; [by intros ?%elem_of_nil|].
  guard as G3; [by intros ?%elem_of_nil|]. bprop in G3.
  intros ->%list_elem_of_singleton. lia.
Qed.

Lemma issued_run_fresh m ops id : sm_wf m -> id ∈ issued_run m ops -> fresh_from m id.
Proof.
  revert m. induction ops as [|op ops IH]; intros m Hwf; cbn; [by intros ?%elem_of_nil|].
  intros [Hi|Hi]%elem_of_app; [by eapply issued_fresh|].
  eapply session_step_fresh; [done|]. apply IH; [by apply session_step_wf|done].
Qed.

(** ** Theorems *)

(** Session bookkeeping.  After any sequence of calls, in any order and
    with any arguments, there are never more sessions than [max_sessions], and
    every session is stored under its own identifier with each of its three
    counters between zero and its quota. *)
Theorem session_quota_invariant limits ops :
  limits_wf limits ->
  let m := foldl session_step (sm_init limits) ops in
  sm_size m <= max_sessions limits /\
  forall id s k, sm_snapshot m id = Some s ->
    ss_id s = id /\ 0 <= counter (ss_counters s) k <= sm_limit (sm_init limits) k.
Proof.
  intros Hl m. assert (sm_wf m) as [_ Hs _ Hm] by by apply session_run_wf, sm_init_wf.
  assert (sm_limits_ m = limits) as Hlim.
  { unfold m. clear. change limits with (sm_limits_ (sm_init limits)) at 2.
    generalize (sm_init limits). induction ops as [|op ops IH]; intros k; [done|].
    cbn [foldl]. by rewrite IH, session_step_limits. }
  rewrite Hlim in Hs. split; [done|]. intros id s k Hid. apply Hm in Hid as [H1 _ H3 _ _].
  split; [done|]. specialize (H3 k). unfold sm_limit in *. by rewrite Hlim in H3.
Qed.

Lemma session_quota_invariant_witness :
  let m := foldl session_step (sm_init limits_default) sample_session_ops in
  sm_size m <= max_sessions limits_default /\
  forall id s k, sm_snapshot m id = Some s ->
    ss_id s = id /\ 0 <= counter (ss_counters s) k <= sm_limit (sm_init limits_default) k.
Proof. apply session_quota_invariant. unfold limits_wf. cbn. lia. Defined.

(** Session identifiers are never reused: the identifiers handed out by
    the successful [beginHandshake] calls of any run are pairwise distinct,
    also across closed sessions, and none of them is 0. *)
Theorem session_ids_unique limits ops :
  limits_wf limits ->
  NoDup (issued_run (sm_init limits) ops) /\ 0 ∉ issued_run (sm_init limits) ops.
Proof.
  intros Hl. pose proof (sm_init_wf limits Hl) as Hwf. split.
  - revert Hwf. generalize (sm_init limits). induction ops as [|op ops IH]; intros m Hwf;
      cbn [issued_run]; [constructor|].
    apply NoDup_app. split; [|split].
    + destruct op; cbn [issued]; try constructor. destruct (beginHandshake m peer) as [[st id] m'].
      destruct (st_ok st); repeat constructor. apply not_elem_of_nil.
    + intros id Hi Hr. apply issued_run_fresh in Hr; [|by apply session_step_wf].
      by apply session_step_fresh in Hr as [_ Hn].
    + apply IH. by apply session_step_wf.
  - intros H0. apply issued_run_fresh in H0; [|done]. pose proof (mw_next _ Hwf).
    unfold fresh_from in H0. lia.
Qed.

Lemma session_ids_unique_witness :
  NoDup (issued_run (sm_init limits_default) sample_session_ops) /\
  0 ∉ issued_run (sm_init limits_default) sample_session_ops.
Proof. apply session_ids_unique. unfold limits_wf. cbn. lia. Defined.

(** Draining is final.  Once draining has begun, whatever calls follow, no
    handshake, no activation and no reservation succeeds any more, while the
    resources reserved before can still be released. *)
Theorem session_drain_final limits ops ops' :
  limits_wf limits ->
  let m0 := foldl session_step (sm_init limits) ops in
  let m := foldl session_step (snd (sm_beginDraining m0)) ops' in
  (forall peer, beginHandshake m peer =
     (mkStatus PDCM_STATUS_UNAVAILABLE "session manager is draining", 0, m)) /\
  (forall id, st_ok (fst (activate m id)) = false /\ snd (activate m id) = m) /\
  (forall id k, st_ok (fst (reserve m id k)) = false /\ snd (reserve m id k) = m) /\
  (forall id s k, sm_snapshot m id = Some s -> 0 < counter (ss_counters s) k ->
     st_ok (fst (release m id k)) = true).
Proof.
  intros Hl m0 m. assert (sm_wf m) as Hwf.
  { apply session_run_wf. change (sm_wf (session_step m0 SDrain)).
    by apply session_step_wf, session_run_wf, sm_init_wf. }
  assert (draining_ m = true) as Hd.
  { unfold m. assert (draining_ (snd (sm_beginDraining m0)) = true) as H0 by done. revert H0.
    generalize (snd (sm_beginDraining m0)). clear. induction ops' as [|op ops IH]; intros k Hk; [done|].
    cbn. apply IH. by apply session_step_draining. }
  pose proof (mw_sessions _ Hwf) as Hm. split; [|split; [|split]].
  - intros peer. unfold beginHandshake. by rewrite Hd.
  - intros id. unfold activate. destruct (_ !! id); [|done]. by rewrite Hd.
  - intros id k. unfold reserve. destruct (_ !! id) as [s|] eqn:E; [|done].
    destruct (sw_drain _ _ _ (Hm _ _ E) Hd) as [->| ->]; done.
  - intros id s k Hs Hk. unfold release, sm_snapshot in *. rewrite Hs.
    by rewrite (proj2 (Z.eqb_neq _ 0)) by lia.
Qed.

Lemma session_drain_final_witness :
  let m0 := foldl session_step (sm_init limits_default) [SBegin (mkPeer 0 0 1); SActivate 1; SReserve 1 CK_Watch] in
  let m := foldl session_step (snd (sm_beginDraining m0)) [SActivate 1] in
  (forall peer, beginHandshake m peer =
     (mkStatus PDCM_STATUS_UNAVAILABLE "session manager is draining", 0, m)) /\
  (forall id, st_ok (fst (activate m id)) = false /\ snd (activate m id) = m) /\
  (forall id k, st_ok (fst (reserve m id k)) = false /\ snd (reserve m id k) = m) /\
  (forall id s k, sm_snapshot m id = Some s -> 0 < counter (ss_counters s) k ->
     st_ok (fst (release m id k)) = true).
Proof. apply session_drain_final. unfold limits_wf. cbn. lia. Defined.
