(* ===== verification/Catalog.v ===== *)
(** The semantic catalog (src/product/src/semantic/): the catalog types, the
    validation of a target catalog, the immutable [CatalogView] and the
    [SemanticCatalog] that publishes a new view from a provider descriptor.

    [commit] runs under the writer mutex, so it is one state-passing function;
    a published view is immutable and is therefore a value. *)
From S2P Require Import Prelude Containers Common Provider.
Local Open Scope string_scope.
Local Open Scope list_scope.
Open Scope Z_scope.
Open Scope pdcm_scope.

(** ** Catalog types *)

Inductive EntityState := ES_Unknown | ES_Ready | ES_Error.
#[export] Instance EntityState_eq_dec : EqDecision EntityState.
Proof. solve_decision. Defined.

Record StringAttribute := mkAttribute { sa_status : ObservationStatus; sa_value : string }.
#[export] Instance StringAttribute_eq_dec : EqDecision StringAttribute.
Proof. solve_decision. Defined.

Record EntityRecord := mkEntityRecord {
  ent_ref : EntityRef;
  ent_state : EntityState;
  ent_native_id : StringAttribute;
  ent_pci_bdf : StringAttribute;
  ent_pdrv_version : StringAttribute;
  ent_provider_version : string;
  ent_target : TargetKind;
  ent_item_status : pdcm_status_t }.
#[export] Instance EntityRecord_eq_dec : EqDecision EntityRecord.
Proof. solve_decision. Defined.

Inductive MetricValueKind := MVK_Int64 | MVK_Uint64 | MVK_Double | MVK_Bool | MVK_String | MVK_Enum.
#[export] Instance MetricValueKind_eq_dec : EqDecision MetricValueKind.
Proof. solve_decision. Defined.
Inductive MetricTemporality := MT_Gauge | MT_CumulativeCounter.
#[export] Instance MetricTemporality_eq_dec : EqDecision MetricTemporality.
Proof. solve_decision. Defined.
Inductive MetricCollectionMode := MCM_Poll | MCM_Event | MCM_Derived.
#[export] Instance MetricCollectionMode_eq_dec : EqDecision MetricCollectionMode.
Proof. solve_decision. Defined.
Inductive RequirementLevel := RL_Required | RL_Conditional.
#[export] Instance RequirementLevel_eq_dec : EqDecision RequirementLevel.
Proof. solve_decision. Defined.
Inductive MetricsCatalogStatus := MCS_BlockedExternal | MCS_Ready.
#[export] Instance MetricsCatalogStatus_eq_dec : EqDecision MetricsCatalogStatus.
Proof. solve_decision. Defined.

Record MetricDescriptor := mkMetricDescriptor {
  md_id : MetricId;
  md_name : string;
  md_value_type : MetricValueKind;
  md_unit : string;
  md_temporality : MetricTemporality;
  md_scope : EntityKind;
  md_collection_mode : MetricCollectionMode;
  md_default_period_ns : Z;
  md_min_period_ns : Z;
  md_freshness_ns : Z;
  md_supports_fpga : bool;
  md_supports_emu : bool;
  md_requirement : RequirementLevel;
  md_semantic_version : Z;
  md_provider_mapping_approved : bool;
  md_dependencies : list MetricId }.

Record HealthCatalogEntry := mkHealthEntry {
  hce_subsystem_id : Z;
  hce_scope : EntityKind;
  hce_requirement : RequirementLevel;
  hce_evidence_contract : string;
  hce_provider_data_id : option Z;
  hce_freshness_ns : Z;
  hce_semantic_version : Z;
  hce_limitation : string }.

Record TargetCatalog := mkTargetCatalog {
  tc_catalog_version : Z;
  tc_target : TargetKind;
  tc_metrics_status : MetricsCatalogStatus;
  tc_metrics : list MetricDescriptor;
  tc_health : list HealthCatalogEntry }.

Inductive CapabilityKind := CAP_MetricsCatalog | CAP_Metric | CAP_Health.
#[export] Instance CapabilityKind_eq_dec : EqDecision CapabilityKind.
Proof. solve_decision. Defined.

Inductive CapabilityReason :=
  | CR_Supported | CR_CatalogBlockedExternal | CR_ProviderUnsupported | CR_DependencyMissing
  | CR_TemporarilyUnavailable | CR_PermissionHidden | CR_PostP0Disabled | CR_TopologyUnsupported.
#[export] Instance CapabilityReason_eq_dec : EqDecision CapabilityReason.
Proof. solve_decision. Defined.

Record CapabilityItem := mkCapabilityItem {
  cap_kind : CapabilityKind;
  cap_id : Z;
  cap_supported : bool;
  cap_reason : CapabilityReason;
  cap_semantic_version : Z;
  cap_catalog_generation : Z }.

Record CapabilitySet := mkCapabilitySet {
  cs_entity : EntityRef; cs_catalog_generation : Z; cs_items : list CapabilityItem }.

Record CatalogDiff := mkDiff {
  diff_old_generation : Z;
  diff_new_generation : Z;
  diff_added_entities : Z;
  diff_removed_entities : Z;
  diff_changed_entities : Z;
  diff_capabilities_changed : bool;
  diff_topology_changed : bool }.
Definition diff_default : CatalogDiff := mkDiff 0 0 0 0 0 false false.

Record CatalogCommitResult := mkCommitResult {
  ccr_status : Status;
  ccr_detected_device_count : Z;
  ccr_catalog_generation : Z;
  ccr_committed : bool;
  ccr_diff : CatalogDiff }.

Record EntityListResult := mkEntityList {
  elr_status : Status;
  elr_detected_device_count : Z;
  elr_catalog_generation : Z;
  elr_entities : list EntityRecord }.

(** ** Validation of a target catalog *)

(** [std::islower] and [std::isdigit] in the C locale. *)
Definition ascii_code (c : Ascii.ascii) : Z := Z.of_N (Ascii.N_of_ascii c).
Definition islower (c : Ascii.ascii) : bool := (97 <=? ascii_code c) && (ascii_code c <=? 122).
Definition isdigit (c : Ascii.ascii) : bool := (48 <=? ascii_code c) && (ascii_code c <=? 57).
Definition is_underscore (c : Ascii.ascii) : bool := ascii_code c =? 95.

Definition validMetricName (name : string) : bool :=
  match name with
  | EmptyString => false
  | String front _ =>
      if negb (is_underscore front) && negb (islower front) then false
      else forallb (fun c => islower c || isdigit c || is_underscore c) (String.list_ascii_of_string name)
  end.

(** One turn of the loop over the metrics; [ids] and [names] are the sets
    filled by the previous turns. *)
Definition metric_rejected (ids : list Z) (names : list string) (m : MetricDescriptor) : bool :=
  (md_id m =? 0) || negb (validMetricName (md_name m)) || str_empty (md_unit m)
  || (md_scope m !=? EK_Device) || (md_semantic_version m =? 0) || (md_min_period_ns m =? 0)
  || (md_default_period_ns m <? md_min_period_ns m)
  || (md_freshness_ns m <? md_default_period_ns m)
  || bool_decide (md_id m ∈ ids) || bool_decide (md_name m ∈ names).

Definition mapping_missing (m : MetricDescriptor) : bool :=
  (md_requirement m ==? RL_Required) && (md_collection_mode m !=? MCM_Derived)
  && negb (md_provider_mapping_approved m).

Fixpoint validate_metrics (ids : list Z) (names : list string) (metrics : list MetricDescriptor) : Status :=
  match metrics with
  | [] => st_success
  | m :: metrics' =>
      if metric_rejected ids names m then invalid_argument "metric descriptor is invalid"
      else if mapping_missing m then invalid_argument "required raw metric lacks an approved mapping"
      else validate_metrics (md_id m :: ids) (md_name m :: names) metrics'
  end.

Definition health_rejected (h : HealthCatalogEntry) : bool :=
  (hce_subsystem_id h !=? kFirmwareHeartbeatHealthId) || (hce_scope h !=? EK_Device)
  || (hce_requirement h !=? RL_Required) || (hce_evidence_contract h !=? "firmware_heartbeat")
  || (hce_freshness_ns h =? 0) || (hce_semantic_version h =? 0) || str_empty (hce_limitation h).

Definition tc_validate (c : TargetCatalog) : Status :=
  if (tc_catalog_version c =? 0) || ((tc_target c !=? TK_Fpga) && (tc_target c !=? TK_Emu))
  then invalid_argument "target catalog header is invalid"
  else if (tc_metrics_status c ==? MCS_BlockedExternal) && negb (is_nil (tc_metrics c))
  then invalid_argument "blocked metric catalog must not publish metrics"
  else
  let loop := validate_metrics [] [] (tc_metrics c) in
  if negb (st_ok loop) then loop
  else
  match tc_health c with
  | [h] => if health_rejected h then invalid_argument "firmware heartbeat health catalog is invalid"
           else st_success
  | _ => invalid_argument "firmware heartbeat health catalog is invalid"
  end.

Definition hce_default : HealthCatalogEntry :=
  mkHealthEntry kFirmwareHeartbeatHealthId EK_Device RL_Required "firmware_heartbeat" None 0 1
    "native mapping pending".

Definition tc_blocked (target : TargetKind) : TargetCatalog :=
  mkTargetCatalog 1 target MCS_BlockedExternal []
    [mkHealthEntry kFirmwareHeartbeatHealthId EK_Device RL_Required "firmware_heartbeat" None
       5000000000 1 "native mapping pending"].

(** ** CatalogView *)

Record CatalogView := mkCatalogView {
  cv_generation_ : Z;
  cv_detected_device_count_ : Z;
  cv_topology_unsupported_ : bool;
  cv_entities_ : list EntityRecord;
  cv_capability_sets_ : list CapabilitySet }.
Definition cv_default : CatalogView := mkCatalogView 0 0 false [] [].

Definition cv_list (v : CatalogView) (kind : EntityKind) : EntityListResult :=
  let result status entities :=
    mkEntityList status (cv_detected_device_count_ v) (cv_generation_ v) entities in
  if (kind !=? EK_Unknown) && (kind !=? EK_Device)
  then result (mkStatus PDCM_STATUS_UNSUPPORTED "entity kind is not public in P0") []
  else if cv_topology_unsupported_ v
  then result (mkStatus PDCM_STATUS_UNSUPPORTED "multiple manageable devices are unsupported in P0") []
  else
  let partial := existsb (fun e => ent_item_status e !=? PDCM_STATUS_SUCCESS) (cv_entities_ v) in
  result (if partial
          then mkStatus PDCM_STATUS_PARTIAL_RESULT "entity inventory contains partial attributes"
          else st_success) (cv_entities_ v).

Definition same_kind_id (entity : EntityRef) (candidate : EntityRecord) : bool :=
  (er_kind (ent_ref candidate) ==? er_kind entity) && (er_id (ent_ref candidate) =? er_id entity).

Definition cv_resolve (v : CatalogView) (entity : EntityRef) : Status * option EntityRecord :=
  if er_kind entity !=? EK_Device
  then (invalid_argument "only device entities are public in P0", None)
  else
  match find_if (same_kind_id entity) (cv_entities_ v) with
  | None => (mkStatus PDCM_STATUS_NOT_FOUND "entity is not present", None)
  | Some record =>
      if negb (er_generation (ent_ref record) =? er_generation entity)
      then (mkStatus PDCM_STATUS_STALE_GENERATION "entity generation is stale", None)
      else (st_success, Some record)
  end.

Definition cv_capabilities (v : CatalogView) (entity : EntityRef) : Status * option CapabilitySet :=
  let '(status, _) := cv_resolve v entity in
  if negb (st_ok status) then (status, None)
  else
  match find_if (fun set => cs_entity set ==? entity) (cv_capability_sets_ v) with
  | None => (mkStatus PDCM_STATUS_NOT_FOUND "entity capability set is not present", None)
  | Some set => (st_success, Some set)
  end.

(** ** Differences between views *)

Fixpoint same_capability_items (ls rs : list CapabilityItem) : bool :=
  match ls, rs with
  | l :: ls', r :: rs' =>
      (cap_kind l ==? cap_kind r) && (cap_id l =? cap_id r)
      && (cap_supported l ==? cap_supported r) && (cap_reason l ==? cap_reason r)
      && (cap_semantic_version l =? cap_semantic_version r) && same_capability_items ls' rs'
  | [], [] => true
  | _, _ => false
  end.

Definition sameCapabilitySemantics (lhs rhs : CapabilitySet) : bool :=
  if (cs_entity lhs !=? cs_entity rhs) || negb (zlen (cs_items lhs) =? zlen (cs_items rhs))
  then false
  else same_capability_items (cs_items lhs) (cs_items rhs).

Definition count_if {A} (p : A -> bool) (l : list A) : Z := zlen (List.filter p l).

Definition difference (old_view new_view : CatalogView) : CatalogDiff :=
  mkDiff (cv_generation_ old_view) (cv_generation_ new_view)
    (count_if (fun e => negb (has_value (find_if (same_kind_id (ent_ref e)) (cv_entities_ old_view))))
       (cv_entities_ new_view))
    (count_if (fun e => negb (has_value (find_if (same_kind_id (ent_ref e)) (cv_entities_ new_view))))
       (cv_entities_ old_view))
    (count_if (fun e => match find_if (same_kind_id (ent_ref e)) (cv_entities_ old_view) with
                        | Some old => old !=? e
                        | None => false
                        end) (cv_entities_ new_view))
    (if negb (zlen (cv_capability_sets_ old_view) =? zlen (cv_capability_sets_ new_view)) then true
     else existsb (fun '(l, r) => negb (sameCapabilitySemantics l r))
            (combine (cv_capability_sets_ old_view) (cv_capability_sets_ new_view)))
    ((cv_topology_unsupported_ old_view !=? cv_topology_unsupported_ new_view)
     || negb (cv_detected_device_count_ old_view =? cv_detected_device_count_ new_view)).

(** ** SemanticCatalog *)

Record IdentityHistory := mkHistory {
  ih_id : EntityId; ih_generation : Z; ih_incarnation : string; ih_present : bool }.

Record SemanticCatalog := mkSemanticCatalog {
  target_catalog_ : TargetCatalog;
  snapshot_ : CatalogView;
  identity_history_ : list (string * IdentityHistory);
  next_entity_id_ : Z }.

(** The constructor throws the validation message. *)
Definition sc_construct (c : TargetCatalog) : string + SemanticCatalog :=
  let validation := tc_validate c in
  if negb (st_ok validation) then inl (st_message validation)
  else inr (mkSemanticCatalog c cv_default [] 0).

Definition target_to_string (t : TargetKind) : string :=
  match t with TK_Unknown => "0" | TK_Fpga => "1" | TK_Emu => "2" end.

Definition identity_of (target : TargetKind) (pci_bdf native_id : string) : string :=
  if str_empty native_id || str_empty pci_bdf then ""
  else target_to_string target +:+ "|" +:+ pci_bdf +:+ "|" +:+ native_id.

Definition identityKey (c : SemanticCatalog) (e : ProviderEntity) : string :=
  identity_of (tc_target (target_catalog_ c)) (pe_pci_bdf e) (pe_stable_native_id e).

Definition entityState (s : ProviderEntityState) : EntityState :=
  match s with
  | PES_Ready => ES_Ready
  | PES_Error => ES_Error
  | PES_Unknown | PES_Lost => ES_Unknown
  end.

Definition validAttribute (v : string) : StringAttribute := mkAttribute OS_Valid v.
Definition unavailableAttribute : StringAttribute := mkAttribute OS_NotAvailable "".

Definition provider_supports (d : ProviderDescriptor) (kind : ProviderDataKind) (data_id : Z) : bool :=
  match find_if (fun c => (pc_kind c ==? kind) && (pc_data_id c =? data_id)) (pd_capabilities d) with
  | Some c => pc_supported c
  | None => false
  end.

Definition supported_reason (supported : bool) : CapabilityReason :=
  if supported then CR_Supported else CR_ProviderUnsupported.

Definition buildCapabilities (c : SemanticCatalog) (entity : EntityRecord)
    (descriptor : ProviderDescriptor) (catalog_generation : Z) : CapabilitySet :=
  let target := target_catalog_ c in
  let metrics :=
    mkCapabilityItem CAP_MetricsCatalog 0 (tc_metrics_status target ==? MCS_Ready)
      (if tc_metrics_status target ==? MCS_BlockedExternal then CR_CatalogBlockedExternal
       else CR_Supported)
      (tc_catalog_version target) catalog_generation in
  let metric m :=
    let supported := provider_supports descriptor PDK_Metric (md_id m) in
    mkCapabilityItem CAP_Metric (md_id m) supported (supported_reason supported)
      (md_semantic_version m) catalog_generation in
  let health h :=
    match hce_provider_data_id h with
    | None => mkCapabilityItem CAP_Health (hce_subsystem_id h) false CR_DependencyMissing
                (hce_semantic_version h) catalog_generation
    | Some data_id =>
        let supported := provider_supports descriptor PDK_HeartbeatEvidence data_id in
        mkCapabilityItem CAP_Health (hce_subsystem_id h) supported (supported_reason supported)
          (hce_semantic_version h) catalog_generation
    end in
  mkCapabilitySet (ent_ref entity) catalog_generation
    (* health.front(): validate admits exactly one health entry *)
    (metrics :: map metric (tc_metrics target) ++ map health (take 1 (tc_health target))).

Definition build_record (descriptor : ProviderDescriptor) (pe : ProviderEntity) (h : IdentityHistory)
    : EntityRecord :=
  let pdrv := if str_empty (pe_pdrv_version pe) then unavailableAttribute
              else validAttribute (pe_pdrv_version pe) in
  let partial := (pe_state pe !=? PES_Ready) || (sa_status pdrv !=? OS_Valid)
                 || negb (is_nil (pd_errors descriptor)) in
  mkEntityRecord (mkEntityRef EK_Device (ih_id h) (ih_generation h)) (entityState (pe_state pe))
    (validAttribute (pe_stable_native_id pe)) (validAttribute (pe_pci_bdf pe)) pdrv
    (pd_provider_version descriptor) (pd_target descriptor)
    (if partial then PDCM_STATUS_PARTIAL_RESULT else PDCM_STATUS_SUCCESS).

Definition ih_absent (h : IdentityHistory) : IdentityHistory :=
  mkHistory (ih_id h) (ih_generation h) (ih_incarnation h) false.

(** The identity selected by [commit]: the entry of the next history with the
    next entity identifier, or the overflow that stops the commit. *)
Definition select_identity (history : list (string * IdentityHistory)) (next_entity_id : Z)
    (key : string) (pe : ProviderEntity) (was_present : bool) : Status + (IdentityHistory * Z) :=
  match om_find key history with
  | None =>
      if next_entity_id =? u64_max then inl (mkStatus PDCM_STATUS_INTERNAL "entity ID overflow")
      else inr (mkHistory next_entity_id 1 (pe_incarnation pe) true, next_entity_id + 1)
  | Some h =>
      if negb was_present || (ih_incarnation h !=? pe_incarnation pe)
      then if ih_generation h =? u64_max
           then inl (mkStatus PDCM_STATUS_INTERNAL "entity generation overflow")
           else inr (mkHistory (ih_id h) (ih_generation h + 1) (pe_incarnation pe) true, next_entity_id)
      else inr (mkHistory (ih_id h) (ih_generation h) (pe_incarnation pe) true, next_entity_id)
  end.

Definition commit_message (s : pdcm_status_t) : string :=
  match s with
  | PDCM_STATUS_UNSUPPORTED => "multiple manageable devices are unsupported in P0"
  | PDCM_STATUS_PARTIAL_RESULT => "discovery completed with partial attributes"
  | _ => ""
  end.

Definition was_present (history : list (string * IdentityHistory)) (key : string) : bool :=
  match om_find key history with Some h => ih_present h | None => false end.

Definition sc_commit (c : SemanticCatalog) (d : ProviderDescriptor)
    : CatalogCommitResult * SemanticCatalog :=
  let previous := snapshot_ c in
  let count := pd_detected_device_count d in
  let failed status := (mkCommitResult status count (cv_generation_ previous) false diff_default, c) in
  if (pd_target d !=? tc_target (target_catalog_ c)) || (pd_state d !=? PS_Ready)
  then failed (invalid_argument "provider descriptor target or state is invalid")
  else
  let manageable := List.filter pe_manageable (pd_entities d) in
  if negb (zlen manageable =? count)
  then failed (invalid_argument "detected device count does not match provider entities")
  else
  let selected := if count =? 1 then head manageable else None in
  if match selected with Some pe => str_empty (identityKey c pe) | None => false end
  then failed (invalid_argument "single device lacks a stable identity key")
  else if cv_generation_ previous =? u64_max
  then failed (mkStatus PDCM_STATUS_INTERNAL "catalog generation overflow")
  else
  let generation := cv_generation_ previous + 1 in
  let next_history := map (fun kh => (kh.1, ih_absent kh.2)) (identity_history_ c) in
  let published status history next_id entities sets :=
    let next := mkCatalogView generation count (1 <? count) entities sets in
    (mkCommitResult (mkStatus status (commit_message status)) count generation true
       (difference previous next),
     mkSemanticCatalog (target_catalog_ c) next history next_id) in
  match selected with
  | Some pe =>
      let key := identityKey c pe in
      match select_identity next_history (next_entity_id_ c) key pe
              (was_present (identity_history_ c) key) with
      | inl status => failed status
      | inr (h, next_id) =>
          let entity := build_record d pe h in
          published (ent_item_status entity) (om_set key h next_history) next_id [entity]
            [buildCapabilities c entity d generation]
      end
  | None =>
      published (if 1 <? count then PDCM_STATUS_UNSUPPORTED else PDCM_STATUS_SUCCESS)
        next_history (next_entity_id_ c) [] []
  end.

(** A single-device inventory used as an example. *)
Definition sample_device (incarnation : string) : ProviderEntity :=
  mkProviderEntity "native-0" "0000:01:00.0" "1.2" incarnation PES_Ready true.
Definition sample_descriptor (incarnation : string) : ProviderDescriptor :=
  mkDescriptor "prov-1" TK_Emu PS_Ready PF_None [sample_device incarnation] [] [] 1.
Definition sample_catalog : SemanticCatalog :=
  mkSemanticCatalog (tc_blocked TK_Emu) cv_default [] 0.

(** ** Invariant of the catalog *)

Definition catalog_run (c : SemanticCatalog) (ds : list ProviderDescriptor) : SemanticCatalog :=
  foldl (fun c d => snd (sc_commit c d)) c ds.

(** The identity key of a published record. *)
Definition record_key (c : SemanticCatalog) (e : EntityRecord) : string :=
  identity_of (tc_target (target_catalog_ c)) (sa_value (ent_pci_bdf e)) (sa_value (ent_native_id e)).

Definition history_ref (h : IdentityHistory) : EntityRef :=
  mkEntityRef EK_Device (ih_id h) (ih_generation h).

Record identity_wf (next : Z) (h : IdentityHistory) : Prop := {
  iw_id : 0 <= ih_id h < next;
  iw_generation : 1 <= ih_generation h <= u64_max }.

Record sc_wf (c : SemanticCatalog) : Prop := {
  sw_map : om_wf (identity_history_ c);
  sw_next : 0 <= next_entity_id_ c <= u64_max;
  sw_identity : forall k h, om_find k (identity_history_ c) = Some h -> identity_wf (next_entity_id_ c) h;
  sw_inj : forall k1 k2 h1 h2, om_find k1 (identity_history_ c) = Some h1 ->
    om_find k2 (identity_history_ c) = Some h2 -> ih_id h1 = ih_id h2 -> k1 = k2;
  sw_entities : forall e, e ∈ cv_entities_ (snapshot_ c) ->
    exists h, om_find (record_key c e) (identity_history_ c) = Some h /\ ih_present h = true /\
      ent_ref e = history_ref h;
  sw_generation : 0 <= cv_generation_ (snapshot_ c) <= u64_max;
  sw_shape : zlen (cv_entities_ (snapshot_ c)) <= 1 /\
    map cs_entity (cv_capability_sets_ (snapshot_ c)) = map ent_ref (cv_entities_ (snapshot_ c)) }.

(** How histories evolve: an identity keeps its identifier, its generation
    never decreases, and an unchanged generation means that it is the same
    incarnation and that it did not come back in between. *)
Definition history_le (c1 c2 : SemanticCatalog) : Prop :=
  forall k h1, om_find k (identity_history_ c1) = Some h1 ->
  exists h2, om_find k (identity_history_ c2) = Some h2 /\ ih_id h2 = ih_id h1 /\
    ih_generation h1 <= ih_generation h2 /\
    (ih_generation h1 = ih_generation h2 ->
       ih_incarnation h1 = ih_incarnation h2 /\ (ih_present h2 = true -> ih_present h1 = true)).

Definition absent_history (hs : list (string * IdentityHistory)) : list (string * IdentityHistory) :=
  map (fun kh => (kh.1, ih_absent kh.2)) hs.

Lemma om_find_absent k hs : om_find k (absent_history hs) = option_map ih_absent (om_find k hs).
Proof. induction hs as [|[k' h] hs IH]; [done|]. simpl. by destruct (key_eqb k k'). Qed.

Lemma absent_keys hs : (absent_history hs).*1 = hs.*1.
Proof. induction hs as [|[k h] hs IH]; [done|]. simpl. by f_equal. Qed.

Lemma om_wf_absent hs : om_wf hs -> om_wf (absent_history hs).
Proof. unfold om_wf. by rewrite absent_keys. Qed.

Lemma history_le_refl c : history_le c c.
Proof. intros k h Hk. exists h. repeat split; auto; lia. Qed.

Lemma history_le_trans c1 c2 c3 : history_le c1 c2 -> history_le c2 c3 -> history_le c1 c3.
Proof.
  intros H12 H23 k h1 Hk. destruct (H12 k h1 Hk) as (h2 & Hk2 & Hi & Hg & He).
  destruct (H23 k h2 Hk2) as (h3 & Hk3 & Hi' & Hg' & He').
  exists h3. split; [done|]. split; [congruence|]. split; [lia|]. intros Heq.
  destruct He as [E1 E2]; [lia|]. destruct He' as [E3 E4]; [lia|]. split; [congruence|auto].
Qed.

(** What selecting an identity does, on each of its branches. *)
Lemma select_identity_spec hs next key pe present h next' :
  select_identity (absent_history hs) next key pe present = inr (h, next') ->
  ih_incarnation h = pe_incarnation pe /\ ih_present h = true /\
  match om_find key hs with
  | None => ih_id h = next /\ ih_generation h = 1 /\ next' = next + 1 /\ next <> u64_max
  | Some h0 =>
      ih_id h = ih_id h0 /\ next' = next /\
      ih_generation h = (if negb present || (ih_incarnation h0 !=? pe_incarnation pe)
                         then ih_generation h0 + 1 else ih_generation h0) /\
      (ih_generation h = ih_generation h0 \/ ih_generation h0 <> u64_max)
  end.
Proof.
  unfold select_identity. rewrite om_find_absent. destruct (om_find key hs) as [h0|]; cbn [option_map].
  - cbn [ih_absent ih_incarnation ih_generation ih_id]. guard as G1; [guard as G2|]; intros [= <- <-].
    + bprop in G2. repeat split; auto.
    + repeat split; auto.
  - guard as G; [done|]. bprop in G. intros [= <- <-]. repeat split; auto.
Qed.

(** A commit either leaves the catalog alone or publishes the next view. *)
Lemma sc_commit_cases c d :
  (ccr_committed (fst (sc_commit c d)) = false /\ snd (sc_commit c d) = c /\
   st_ok (ccr_status (fst (sc_commit c d))) = false) \/
  (exists history next_id entities sets,
     snd (sc_commit c d) = mkSemanticCatalog (target_catalog_ c)
       (mkCatalogView (cv_generation_ (snapshot_ c) + 1) (pd_detected_device_count d)
          (1 <? pd_detected_device_count d) entities sets) history next_id /\
     ccr_committed (fst (sc_commit c d)) = true /\
     cv_generation_ (snapshot_ c) <> u64_max /\
     ((entities = [] /\ sets = [] /\ history = absent_history (identity_history_ c) /\
       next_id = next_entity_id_ c) \/
      exists pe h, identityKey c pe <> "" /\
        select_identity (absent_history (identity_history_ c)) (next_entity_id_ c) (identityKey c pe) pe
          (was_present (identity_history_ c) (identityKey c pe)) = inr (h, next_id) /\
        entities = [build_record d pe h] /\
        sets = [buildCapabilities c (build_record d pe h) d (cv_generation_ (snapshot_ c) + 1)] /\
        history = om_set (identityKey c pe) h (absent_history (identity_history_ c)))).
Proof.
  unfold sc_commit. cbv zeta. guard as G1; [by left|]. guard as G2; [by left|].
  set (selected := if pd_detected_device_count d =? 1 then _ else None).
  guard as G3; [by left|]. guard as G4; [by left|]. bprop in G4.
  destruct selected as [pe|] eqn:Esel.
  - bprop in G3. fold (absent_history (identity_history_ c)).
    destruct (select_identity _ _ _ _ _) as [st|[h next_id]] eqn:Es.
    { left. unfold select_identity in Es. repeat (case_match; try done); simplify_eq; done. }
    right. do 4 eexists. split; [reflexivity|]. split; [done|]. split; [done|].
    right. exists pe, h. done.
  - right. do 4 eexists. split; [reflexivity|]. split; [done|]. split; [done|]. by left.
Qed.

Lemma sc_construct_wf t c : sc_construct t = inr c -> sc_wf c.
Proof.
  unfold sc_construct. guard as G; [done|]. intros [= <-].
  split; cbn; try done; try (unfold u64_max; lia); try by intros e ?%elem_of_nil.
  constructor.
Qed.

Lemma record_key_build c d pe h :
  record_key c (build_record d pe h) = identityKey c pe.
Proof. done. Qed.

Lemma next_history_Some k key h hs h' :
  om_find k (om_set key h (absent_history hs)) = Some h' ->
  (k = key /\ h' = h) \/ (k <> key /\ exists h0, om_find k hs = Some h0 /\ h' = ih_absent h0).
Proof.
  destruct (decide (key = k)) as [->|Hne].
  - rewrite om_find_set_eq. intros [= <-]. by left.
  - rewrite om_find_set_ne by done. rewrite om_find_absent. intros Hk. right. split; [done|].
    destruct (om_find k hs) as [h0|]; simplify_eq/=. by exists h0.
Qed.

Lemma identity_wf_mono n n' h : n <= n' -> identity_wf n h -> identity_wf n' h.
Proof. intros Hn [H1 H2]. split; lia. Qed.

(** The entry a commit selects is well-formed for the next history. *)
Lemma selected_wf c key pe h next_id :
  sc_wf c ->
  select_identity (absent_history (identity_history_ c)) (next_entity_id_ c) key pe
    (was_present (identity_history_ c) key) = inr (h, next_id) ->
  next_entity_id_ c <= next_id <= u64_max /\ identity_wf next_id h.
Proof.
  intros Hwf Hs. apply select_identity_spec in Hs as (_ & _ & Hs).
  pose proof (sw_next c Hwf). destruct (om_find key (identity_history_ c)) as [h0|] eqn:E.
  - destruct Hs as (Hi & -> & Hg & Ho). destruct (sw_identity c Hwf _ _ E) as [H1 H2].
    split; [lia|]. split; [lia|]. destruct (_ || _); lia.
  - destruct Hs as (Hi & Hg & -> & Ho). split; [lia|]. split; unfold u64_max in *; lia.
Qed.

(** Distinct identities keep distinct identifiers. *)
Lemma selected_inj c key pe h next_id k h0 :
  sc_wf c ->
  select_identity (absent_history (identity_history_ c)) (next_entity_id_ c) key pe
    (was_present (identity_history_ c) key) = inr (h, next_id) ->
  om_find k (identity_history_ c) = Some h0 -> ih_id h = ih_id h0 -> k = key.
Proof.
  intros Hwf Hs Hk Hid. apply select_identity_spec in Hs as (_ & _ & Hs).
  destruct (om_find key (identity_history_ c)) as [h1|] eqn:E.
  - destruct Hs as (Hi & _). eapply (sw_inj c Hwf); [done|done|congruence].
  - destruct Hs as (Hi & _). pose proof (iw_id _ _ (sw_identity c Hwf _ _ Hk)). lia.
Qed.

Lemma sc_commit_wf c d : sc_wf c -> sc_wf (snd (sc_commit c d)).
Proof.
  intros Hwf. destruct (sc_commit_cases c d) as
    [(_ & -> & _)|(history & next_id & entities & sets & -> & _ & Hgen & Hcase)]; [done|].
  destruct Hcase as [(-> & -> & -> & ->)|(pe & h & Hkey & Hsel & -> & -> & ->)].
  - split; cbn -[u64_max]; try apply Hwf; try done.
    + apply om_wf_absent, Hwf.
    + intros k h. rewrite om_find_absent. destruct (om_find k _) as [h0|] eqn:E; [|done].
      intros [= <-]. apply (sw_identity c Hwf) in E as [H1 H2]. by split.
    + intros k1 k2 h1 h2. rewrite !om_find_absent.
      destruct (om_find k1 _) as [a1|] eqn:E1, (om_find k2 _) as [a2|] eqn:E2; try done.
      intros [= <-] [= <-]. intros Hids. by eapply (sw_inj c Hwf).
    + by intros e ?%elem_of_nil.
    + pose proof (sw_generation c Hwf). lia.
  - destruct (selected_wf c _ _ _ _ Hwf Hsel) as [Hnext Hid]. split; cbn -[u64_max om_set].
    + apply om_wf_set, om_wf_absent, Hwf.
    + pose proof (sw_next c Hwf). lia.
    + intros k h' [[-> ->]|(Hne & h0 & Hk & ->)]%next_history_Some; [done|].
      apply (sw_identity c Hwf) in Hk. eapply identity_wf_mono; [apply Hnext|]. by destruct Hk.
    + intros k1 k2 h1 h2 [[-> ->]|(Hne1 & a1 & Hk1 & ->)]%next_history_Some
        [[-> ->]|(Hne2 & a2 & Hk2 & ->)]%next_history_Some; cbn; intros Hids; [done| | |].
      * symmetry. by eapply selected_inj.
      * eapply selected_inj; [done|done|done|congruence].
      * by eapply (sw_inj c Hwf).
    + intros e ->%list_elem_of_singleton. exists h. unfold record_key at 1. cbn [target_catalog_].
      fold (record_key c (build_record d pe h)).
      rewrite record_key_build, om_find_set_eq.
      by apply select_identity_spec in Hsel as (_ & Hp & _).
    + pose proof (sw_generation c Hwf). lia.
    + rewrite zlen_cons, zlen_nil. split; [lia|done].
Qed.

Lemma sc_commit_history_le c d : history_le c (snd (sc_commit c d)).
Proof.
  destruct (sc_commit_cases c d) as
    [(_ & -> & _)|(history & next_id & entities & sets & -> & _ & Hgen & Hcase)];
    [apply history_le_refl|].
  intros k h1 Hk. cbn [identity_history_].
  assert (om_find k (absent_history (identity_history_ c)) = Some (ih_absent h1)) as Habs.
  { by rewrite om_find_absent, Hk. }
  destruct Hcase as [(-> & -> & -> & ->)|(pe & h & Hkey & Hsel & -> & -> & ->)].
  - exists (ih_absent h1). rewrite Habs. cbn.
    split; [done|]. split; [done|]. split; [lia|]. by intros _.
  - destruct (decide (identityKey c pe = k)) as [<-|Hne].
    + exists h. rewrite om_find_set_eq. split; [done|].
      apply select_identity_spec in Hsel as (Hinc & Hp & Hs). unfold was_present in Hs.
      rewrite Hk in Hs. destruct Hs as (Hi & _ & Hg & _).
      split; [done|]. destruct (negb (ih_present h1) || _) eqn:Hor; (split; [lia|]); [lia|].
      bprop in Hor. destruct Hor as [Hpr Hin]. intros _. split; [congruence|auto].
    + exists (ih_absent h1). rewrite om_find_set_ne, Habs by done. cbn.
      split; [done|]. split; [done|]. split; [lia|]. by intros _.
Qed.

Lemma catalog_run_wf c ds : sc_wf c -> sc_wf (catalog_run c ds).
Proof.
  unfold catalog_run. revert c. induction ds as [|d ds IH]; intros c Hwf; [done|].
  cbn [foldl]. by apply IH, sc_commit_wf.
Qed.

Lemma catalog_run_history_le c ds : history_le c (catalog_run c ds).
Proof.
  unfold catalog_run. revert c. induction ds as [|d ds IH]; intros c; [apply history_le_refl|].
  cbn [foldl]. eapply history_le_trans; [apply sc_commit_history_le|apply IH].
Qed.

Lemma catalog_run_target c ds : target_catalog_ (catalog_run c ds) = target_catalog_ c.
Proof.
  unfold catalog_run. revert c. induction ds as [|d ds IH]; intros c; [done|].
  cbn [foldl]. rewrite IH.
  destruct (sc_commit_cases c d) as [(_ & -> & _)|(? & ? & ? & ? & -> & _)]; done.
Qed.

Lemma single_entity c e :
  sc_wf c -> e ∈ cv_entities_ (snapshot_ c) -> cv_entities_ (snapshot_ c) = [e].
Proof.
  intros Hwf He. destruct (sw_shape c Hwf) as [Hlen _].
  destruct (cv_entities_ (snapshot_ c)) as [|e1 [|e2 es]].
  - by apply elem_of_nil in He.
  - apply list_elem_of_singleton in He. by subst.
  - rewrite !zlen_cons in Hlen. pose proof (zlen_nonneg es). lia.
Qed.

Lemma resolve_Some v r e :
  cv_resolve v r = (st_success, Some e) -> e ∈ cv_entities_ v /\ ent_ref e = r.
Proof.
  unfold cv_resolve. guard as G1; [done|]. bprop in G1.
  destruct (find_if _ _) as [rec|] eqn:E; [|done]. guard as G2; [done|]. intros [= <-].
  apply find_if_Some in E as [Hin Hk]. split; [done|]. unfold same_kind_id in Hk. bprop in Hk. bprop in G2.
  destruct (ent_ref rec) as [k i g], r as [k' i' g']. cbn in *. destruct Hk. congruence.
Qed.

Lemma resolve_own v e :
  cv_entities_ v = [e] -> er_kind (ent_ref e) = EK_Device ->
  cv_resolve v (ent_ref e) = (st_success, Some e).
Proof.
  intros He Hk. unfold cv_resolve. rewrite He, Hk, find_if_cons. unfold same_kind_id.
  rewrite !bool_decide_true by done. rewrite Z.eqb_refl. cbn [negb andb]. by rewrite Z.eqb_refl.
Qed.

Lemma metrics_ok_iff ids names ms :
  st_ok (validate_metrics ids names ms) = true <->
  Forall (fun m => metric_rejected [] [] m = false /\ mapping_missing m = false) ms /\
  NoDup (map md_id ms) /\ NoDup (map md_name ms) /\
  (forall m, m ∈ ms -> md_id m ∉ ids /\ md_name m ∉ names).
Proof.
  revert ids names. induction ms as [|m ms IH]; intros ids names; cbn [validate_metrics map].
  { split; [intros _|done]. split_and!; try constructor; by apply elem_of_nil in H. }
  assert (metric_rejected ids names m = false <->
    metric_rejected [] [] m = false /\ md_id m ∉ ids /\ md_name m ∉ names) as Hrej.
  { unfold metric_rejected. bprop. pose proof (not_elem_of_nil (md_id m)).
    pose proof (not_elem_of_nil (md_name m)). tauto. }
  destruct (metric_rejected ids names m) eqn:E1.
  { split; [done|]. intros (Hall & _ & _ & Hids). inversion Hall as [|? ? [H1 _]]; subst.
    assert (true = false); [|done]. apply Hrej. split; [done|]. apply Hids. left. }
  destruct (proj1 Hrej eq_refl) as (Hr & Hi & Hn).
  destruct (mapping_missing m) eqn:E2.
  { split; [done|]. intros (Hall & _). inversion Hall as [|? ? [_ H2]]; congruence. }
  rewrite IH, Forall_cons, !NoDup_cons. setoid_rewrite elem_of_cons.
  split.
  - intros (Hall & Hd1 & Hd2 & Hids). split_and!; auto.
    + intros [m' [He Hm']]%list_elem_of_fmap. naive_solver.
    + intros [m' [He Hm']]%list_elem_of_fmap. naive_solver.
    + naive_solver.
  - intros ((_ & Hall) & (Hd1 & Hd1') & (Hd2 & Hd2') & Hids). split_and!; auto.
    intros m' Hm'. destruct (Hids m' (or_intror Hm')). split; intros [He|He]; try done.
    + apply Hd1, list_elem_of_fmap. by exists m'.
    + apply Hd2, list_elem_of_fmap. by exists m'.
Qed.

(** ** Theorems *)

(** [commit] is all or nothing.  An error leaves the catalog (published
    view, identity history and counters) exactly as it was and reports the
    unchanged generation; otherwise a view whose generation is one more is
    published, and only success, partial or unsupported is reported. *)
Theorem catalog_commit_atomic c d :
  let r := fst (sc_commit c d) in
  let c' := snd (sc_commit c d) in
  if ccr_committed r
  then cv_generation_ (snapshot_ c') = cv_generation_ (snapshot_ c) + 1 /\
       ccr_catalog_generation r = cv_generation_ (snapshot_ c') /\
       target_catalog_ c' = target_catalog_ c /\
       ccr_diff r = difference (snapshot_ c) (snapshot_ c') /\
       st_code (ccr_status r) ∈ [PDCM_STATUS_SUCCESS; PDCM_STATUS_PARTIAL_RESULT; PDCM_STATUS_UNSUPPORTED]
  else c' = c /\ ccr_catalog_generation r = cv_generation_ (snapshot_ c) /\ st_ok (ccr_status r) = false.
Proof.
  destruct (sc_commit c d) as [r c'] eqn:E. cbn [fst snd]. unfold sc_commit in E. cbv zeta in E.
  do 4 (guard E as G; [by simplify_eq|]; clear G).
  destruct (if pd_detected_device_count d =? 1 then _ else None) as [pe|].
  - destruct (select_identity _ _ _ _ _) as [st|[h next_id]] eqn:Es; simplify_eq/=.
    + repeat split. unfold select_identity in Es. repeat (case_match; try done); simplify_eq; done.
    + repeat split. destruct (_ || _); set_solver.
  - simplify_eq/=. repeat split. destruct (1 <? _); set_solver.
Qed.

(** C40: entity references are stable and never re-bound.  If a reference taken
    from one published view still resolves in a later one, it denotes the same
    device identity and the same incarnation of it: a device that was replaced,
    re-incarnated or that disappeared and came back is never reached through an
    old reference. *)
Theorem catalog_ref_denotes t c0 ds ds' e1 e2 :
  sc_construct t = inr c0 ->
  let c1 := catalog_run c0 ds in
  let c2 := catalog_run c1 ds' in
  e1 ∈ cv_entities_ (snapshot_ c1) ->
  cv_resolve (snapshot_ c2) (ent_ref e1) = (st_success, Some e2) ->
  ent_ref e2 = ent_ref e1 /\
  record_key c2 e2 = record_key c1 e1 /\
  option_map ih_incarnation (om_find (record_key c2 e2) (identity_history_ c2)) =
  option_map ih_incarnation (om_find (record_key c1 e1) (identity_history_ c1)).
Proof.
  intros Hc c1 c2 He1 Hr. pose proof (catalog_run_wf _ ds (sc_construct_wf _ _ Hc)) as Hwf1.
  fold c1 in Hwf1. pose proof (catalog_run_wf _ ds' Hwf1) as Hwf2. fold c2 in Hwf2.
  pose proof (catalog_run_history_le c1 ds') as Hle. fold c2 in Hle. clearbody c1 c2.
  apply resolve_Some in Hr as [He2 Href]. split; [done|].
  destruct (sw_entities c1 Hwf1 _ He1) as (h1 & Hk1 & Hp1 & Hr1).
  destruct (sw_entities c2 Hwf2 _ He2) as (h2 & Hk2 & Hp2 & Hr2).
  destruct (Hle _ _ Hk1) as (h1' & Hk1' & Hid & Hg & Heq).
  rewrite Href, Hr1 in Hr2. unfold history_ref in Hr2. injection Hr2 as Hi2 Hg2.
  assert (record_key c2 e2 = record_key c1 e1) as Hkey.
  { eapply (sw_inj c2 Hwf2); [done|done|congruence]. }
  rewrite Hkey in Hk2 |- *. rewrite Hk1, Hk1'. assert (h1' = h2) as -> by congruence.
  split; [done|]. cbn. destruct Heq as [-> _]; congruence.
Qed.

Lemma catalog_ref_denotes_witness :
  exists e1 e2,
    let c1 := catalog_run sample_catalog [sample_descriptor "a"] in
    let c2 := catalog_run c1 [sample_descriptor "a"] in
    ent_ref e2 = ent_ref e1 /\
    record_key c2 e2 = record_key c1 e1 /\
    option_map ih_incarnation (om_find (record_key c2 e2) (identity_history_ c2)) =
    option_map ih_incarnation (om_find (record_key c1 e1) (identity_history_ c1)).
Proof.
  pose (e := build_record (sample_descriptor "a") (sample_device "a") (mkHistory 0 1 "a" true)).
  exists e, e. apply (catalog_ref_denotes (tc_blocked TK_Emu)).
  - vm_compute. reflexivity.
  - vm_compute. left.
  - vm_compute. reflexivity.
Defined.

(** The identity a commit publishes.  For a ready descriptor with one
    manageable device the reference of the published entity is decided by the
    history alone: a new identity gets a fresh identifier and generation 1, a
    device that was present with the same incarnation keeps its reference, and
    any other known device keeps its identifier with the next generation. *)
Theorem catalog_commit_identity c d pe :
  List.filter pe_manageable (pd_entities d) = [pe] ->
  ccr_committed (fst (sc_commit c d)) = true ->
  let c' := snd (sc_commit c d) in
  map ent_ref (cv_entities_ (snapshot_ c')) =
  [match om_find (identityKey c pe) (identity_history_ c) with
   | None => mkEntityRef EK_Device (next_entity_id_ c) 1
   | Some h => mkEntityRef EK_Device (ih_id h)
       (if ih_present h && (ih_incarnation h ==? pe_incarnation pe) then ih_generation h
        else ih_generation h + 1)
   end] /\
  (forall k h, k <> identityKey c pe -> om_find k (identity_history_ c) = Some h ->
     om_find k (identity_history_ c') = Some (ih_absent h)).
Proof.
  intros Hm Hok. destruct (sc_commit c d) as [r c'] eqn:E. cbn [fst snd] in *.
  unfold sc_commit in E. cbv zeta in E. rewrite Hm in E. cbn [head] in E.
  guard E as G1; [by simplify_eq|]. guard E as G2; [by simplify_eq|]. bprop in G2.
  change (zlen [pe]) with 1 in G2. rewrite <- G2 in E. change (1 =? 1) with true in E. cbn iota in E.
  guard E as G3; [by simplify_eq|]. guard E as G4; [by simplify_eq|].
  fold (absent_history (identity_history_ c)) in E.
  destruct (select_identity _ _ _ _ _) as [st|[h next_id]] eqn:Es; simplify_eq/=.
  apply select_identity_spec in Es as (_ & _ & Hs'). unfold was_present in Hs'. split.
  - destruct (om_find (identityKey c pe) (identity_history_ c)) as [h0|].
    + destruct Hs' as (-> & _ & -> & _). destruct (ih_present h0); [|done].
      by destruct (ih_incarnation h0 ==? pe_incarnation pe).
    + by destruct Hs' as (-> & -> & _).
  - intros k h0 Hne Hk0. by rewrite om_find_set_ne, om_find_absent, Hk0.
Qed.

Lemma catalog_commit_identity_witness :
  let c := catalog_run sample_catalog [sample_descriptor "a"] in
  let d := sample_descriptor "b" in
  let pe := sample_device "b" in
  let c' := snd (sc_commit c d) in
  map ent_ref (cv_entities_ (snapshot_ c')) =
  [match om_find (identityKey c pe) (identity_history_ c) with
   | None => mkEntityRef EK_Device (next_entity_id_ c) 1
   | Some h => mkEntityRef EK_Device (ih_id h)
       (if ih_present h && (ih_incarnation h ==? pe_incarnation pe) then ih_generation h
        else ih_generation h + 1)
   end] /\
  (forall k h, k <> identityKey c pe -> om_find k (identity_history_ c) = Some h ->
     om_find k (identity_history_ c') = Some (ih_absent h)).
Proof. apply catalog_commit_identity; vm_compute; reflexivity. Defined.

(** Capability answers.  For every entity of a published view the
    capability query succeeds, and its metric entry for a metric of the target
    catalog is supported exactly when the provider's first capability record
    for that metric says so. *)
Theorem catalog_capabilities_published t c0 ds d e :
  sc_construct t = inr c0 ->
  let c1 := catalog_run c0 ds in
  let c2 := snd (sc_commit c1 d) in
  ccr_committed (fst (sc_commit c1 d)) = true ->
  e ∈ cv_entities_ (snapshot_ c2) ->
  exists set, cv_capabilities (snapshot_ c2) (ent_ref e) = (st_success, Some set) /\
    cs_entity set = ent_ref e /\ cs_catalog_generation set = cv_generation_ (snapshot_ c2) /\
    forall m, m ∈ tc_metrics (target_catalog_ c1) ->
      mkCapabilityItem CAP_Metric (md_id m) (provider_supports d PDK_Metric (md_id m))
        (supported_reason (provider_supports d PDK_Metric (md_id m))) (md_semantic_version m)
        (cv_generation_ (snapshot_ c2)) ∈ cs_items set.
Proof.
  intros Hc c1 c2 Hok He. pose proof (catalog_run_wf _ ds (sc_construct_wf _ _ Hc)) as Hwf1.
  fold c1 in Hwf1. clearbody c1. pose proof (sc_commit_wf c1 d Hwf1) as Hwf2. fold c2 in Hwf2.
  pose proof (single_entity c2 e Hwf2 He) as Hone.
  destruct (sc_commit_cases c1 d) as
    [(Hf & _)|(history & next_id & entities & sets & Hc2 & _ & Hgen & Hcase)]; [congruence|].
  fold c2 in Hc2. rewrite Hc2 in *. clear c2 Hc2. cbn [snapshot_ cv_entities_ cv_generation_] in *. subst entities.
  destruct Hcase as [(? & _)|(pe & h & _ & _ & [= ->] & -> & _)]; [done|].
  eexists. split; [|split; [|split]].
  - unfold cv_capabilities. rewrite (resolve_own _ (build_record d pe h)) by done.
    change (negb (st_ok st_success)) with false. cbn iota. cbn [cv_capability_sets_].
    rewrite find_if_cons. by rewrite bool_decide_true by done.
  - done.
  - done.
  - intros m Hm. cbn. right. apply elem_of_app. left. apply list_elem_of_fmap. by exists m.
Qed.

Lemma catalog_capabilities_published_witness :
  let c1 := catalog_run sample_catalog [] in
  let d := sample_descriptor "a" in
  let c2 := snd (sc_commit c1 d) in
  let e := build_record d (sample_device "a") (mkHistory 0 1 "a" true) in
  exists set, cv_capabilities (snapshot_ c2) (ent_ref e) = (st_success, Some set) /\
    cs_entity set = ent_ref e /\ cs_catalog_generation set = cv_generation_ (snapshot_ c2) /\
    forall m, m ∈ tc_metrics (target_catalog_ c1) ->
      mkCapabilityItem CAP_Metric (md_id m) (provider_supports d PDK_Metric (md_id m))
        (supported_reason (provider_supports d PDK_Metric (md_id m))) (md_semantic_version m)
        (cv_generation_ (snapshot_ c2)) ∈ cs_items set.
Proof.
  apply (catalog_capabilities_published (tc_blocked TK_Emu)); vm_compute; try reflexivity.
  left.
Defined.

(** [TargetCatalog::validate] accepts exactly the catalogs that have a
    version and a public target, publish no metric while blocked, list metrics
    that are individually well-formed with pairwise distinct identifiers and
    names, and carry one well-formed firmware-heartbeat health entry. *)
Theorem tc_validate_exact c :
  st_ok (tc_validate c) = true <->
  tc_catalog_version c <> 0 /\ (tc_target c = TK_Fpga \/ tc_target c = TK_Emu) /\
  (tc_metrics_status c = MCS_BlockedExternal -> tc_metrics c = []) /\
  Forall (fun m => metric_rejected [] [] m = false /\ mapping_missing m = false) (tc_metrics c) /\
  NoDup (map md_id (tc_metrics c)) /\ NoDup (map md_name (tc_metrics c)) /\
  exists h, tc_health c = [h] /\ health_rejected h = false.
Proof.
  unfold tc_validate. guard as G1.
  { split; [done|]. intros (Hv & Ht & _). bprop in G1. naive_solver. }
  bprop in G1. guard as G2.
  { split; [done|]. intros (_ & _ & Hb & _). bprop in G2. destruct G2 as [G2 G3].
    rewrite Hb in G3 by done. done. }
  bprop in G2. cbv zeta. pose proof (metrics_ok_iff [] [] (tc_metrics c)) as Hms.
  destruct (st_ok (validate_metrics [] [] (tc_metrics c))) eqn:Em; cbn [negb].
  - destruct (proj1 Hms eq_refl) as (Ha & Hb & Hd & _).
    assert (tc_target c = TK_Fpga \/ tc_target c = TK_Emu) as Ht.
    { destruct (tc_target c); naive_solver. }
    destruct (tc_health c) as [|h [|h' hs]]; [naive_solver| |naive_solver].
    destruct (health_rejected h) eqn:Eh; split; try done; [naive_solver|].
    intros _. split_and!; try naive_solver.
  - rewrite Em. split; [done|]. intros (_ & _ & _ & Ha & Hb & Hd & _). apply Hms. split_and!; auto.
    intros m _. split; apply not_elem_of_nil.
Qed.
