(* ===== verification/Frame.v ===== *)
(** The framing layer of the local protocol (src/product/src/ipc/frame.hpp and
    frame.cpp): big-endian header encoding and the incremental decoder.

    A byte is a [Z] in [0, 256); the pointer arguments that the code tests
    against [nullptr] are options.  The decoding loop of [FrameDecoder::append]
    consumes at least one header per turn, so it runs on fuel [S (length buffer)]. *)
From S2P Require Import Prelude Containers Common.
Open Scope Z_scope.
Open Scope pdcm_scope.

Definition kProtocolMajor : Z := 1.
Definition kProtocolMinor : Z := 0.
Definition kFrameHeaderBytes : Z := 20.

(** [MessageType] has [std::uint16_t] as its underlying type and is read off
    the wire by a cast, so any 16-bit value can occur. *)
Definition kHelloRequest : Z := 1.
Definition kHelloResponse : Z := 2.
Definition kErrorResponse : Z := 3.
Definition kVersionRequest : Z := 4.
Definition kVersionResponse : Z := 5.
Definition kEntityListRequest : Z := 6.
Definition kEntityListResponse : Z := 7.
Definition kCapabilityQueryRequest : Z := 8.
Definition kCapabilityQueryResponse : Z := 9.
Definition kHealthQueryRequest : Z := 10.
Definition kHealthQueryResponse : Z := 11.

Record Frame := mkFrame {
  protocol_major : Z;
  protocol_minor : Z;
  message_type : Z;
  flags : Z;
  request_id : Z;
  payload : list Z }.

Definition frame_default : Frame :=
  mkFrame kProtocolMajor kProtocolMinor kErrorResponse 0 0 [].

(** ** Byte access *)

Definition byte_of (value shift : Z) : Z := Z.land (Z.shiftr value shift) 255.

Definition writeU16 (bytes : list Z) (offset : nat) (value : Z) : list Z :=
  <[(offset + 1)%nat := byte_of value 0]> (<[offset := byte_of value 8]> bytes).

Definition writeU32 (bytes : list Z) (offset : nat) (value : Z) : list Z :=
  <[(offset + 3)%nat := byte_of value 0]>
  (<[(offset + 2)%nat := byte_of value 8]>
  (<[(offset + 1)%nat := byte_of value 16]>
  (<[offset := byte_of value 24]> bytes))).

Definition writeU64 (bytes : list Z) (offset : nat) (value : Z) : list Z :=
  foldl (fun bs index => <[(offset + index)%nat := byte_of value ((7 - Z.of_nat index) * 8)]> bs)
    bytes (seq 0 8).

Definition byte_at (bytes : list Z) (i : nat) : Z := default 0 (bytes !! i).

Definition readU16 (bytes : list Z) : Z :=
  Z.lor (Z.shiftl (byte_at bytes 0) 8) (byte_at bytes 1).

Definition readU32 (bytes : list Z) : Z :=
  Z.lor (Z.lor (Z.lor (Z.shiftl (byte_at bytes 0) 24) (Z.shiftl (byte_at bytes 1) 16))
    (Z.shiftl (byte_at bytes 2) 8)) (byte_at bytes 3).

Definition readU64 (bytes : list Z) : Z :=
  foldl (fun value index => wrap64 (Z.lor (Z.shiftl value 8) (byte_at bytes index))) 0 (seq 0 8).

(** ** Encoding *)

Definition encodeFrame (frame : Frame) (max_frame_bytes : Z) (output : option (list Z))
    : Status * option (list Z) :=
  match output with
  | None => (invalid_argument "output buffer is null", None)
  | Some old =>
      if (max_frame_bytes <? kFrameHeaderBytes)
         || (u32_max - kFrameHeaderBytes <? zlen (payload frame))
      then (invalid_argument "invalid frame size limit", Some old)
      else
      let frame_size := kFrameHeaderBytes + zlen (payload frame) in
      if max_frame_bytes <? frame_size
      then (mkStatus PDCM_STATUS_RESOURCE_EXHAUSTED "frame exceeds configured maximum", Some old)
      else
      let out := replicate (Z.to_nat frame_size) 0 in
      let out := writeU32 out 0 frame_size in
      let out := writeU16 out 4 (protocol_major frame) in
      let out := writeU16 out 6 (protocol_minor frame) in
      let out := writeU16 out 8 (message_type frame) in
      let out := writeU16 out 10 (flags frame) in
      let out := writeU64 out 12 (request_id frame) in
      (* std::copy of the payload behind the header *)
      (st_success, Some (take 20 out ++ payload frame))
  end.

(** ** Decoding *)

Record FrameDecoder := mkDecoder {
  max_frame_bytes_ : Z;
  buffer_ : list Z;
  poisoned_ : bool }.

Definition decoder_init (max_frame_bytes : Z) : FrameDecoder := mkDecoder max_frame_bytes [] false.

Definition decoder_fail (d : FrameDecoder) (status : pdcm_status_t) (msg : string)
    : Status * FrameDecoder :=
  (mkStatus status msg, mkDecoder (max_frame_bytes_ d) [] true).

Definition decoder_reset (d : FrameDecoder) : FrameDecoder := mkDecoder (max_frame_bytes_ d) [] false.
Definition bufferedBytes (d : FrameDecoder) : Z := zlen (buffer_ d).

Definition read_frame (current : list Z) (frame_size : nat) : Frame :=
  mkFrame (readU16 (drop 4 current)) (readU16 (drop 6 current)) (readU16 (drop 8 current))
    (readU16 (drop 10 current)) (readU64 (drop 12 current))
    (take (frame_size - 20) (drop 20 current)).

(** The [while] loop of [append]: [inl] is an early failure, with the frames
    pushed before it; [inr] is the number of consumed bytes. *)
Fixpoint decode_loop (fuel : nat) (max_frame_bytes : Z) (buffer : list Z) (consumed : nat)
    (frames : list Frame) : (pdcm_status_t * string * list Frame) + (nat * list Frame) :=
  match fuel with
  | O => inr (consumed, frames)
  | S fuel' =>
      let current := drop consumed buffer in
      if (length buffer - consumed <? 4)%nat then inr (consumed, frames)
      else
      let frame_size := readU32 current in
      if frame_size <? kFrameHeaderBytes
      then inl (PDCM_STATUS_INVALID_ARGUMENT, "frame length is smaller than header"%string, frames)
      else if max_frame_bytes <? frame_size
      then inl (PDCM_STATUS_RESOURCE_EXHAUSTED, "frame length exceeds configured maximum"%string, frames)
      else if Z.of_nat (length buffer - consumed) <? frame_size then inr (consumed, frames)
      else
      decode_loop fuel' max_frame_bytes buffer (consumed + Z.to_nat frame_size)
        (frames ++ [read_frame current (Z.to_nat frame_size)])
  end.

(** [FrameDecoder::append].  [data = None] is a null pointer with a non-zero
    size, [frames = None] a null output vector. *)
Definition decoder_append (d : FrameDecoder) (data : option (list Z)) (frames : option (list Frame))
    : Status * FrameDecoder * option (list Frame) :=
  if poisoned_ d then (invalid_argument "frame decoder is poisoned", d, frames)
  else
  match data, frames with
  | Some bytes, Some fs =>
      let size := zlen bytes in
      if size =? 0 then (st_success, d, frames)
      else
      let buffer_limit :=
        if u64_max / 2 <? max_frame_bytes_ d then u64_max else max_frame_bytes_ d * 2 in
      if (max_frame_bytes_ d <? kFrameHeaderBytes) || (max_frame_bytes_ d <? size)
         || (max_frame_bytes_ d <? zlen (buffer_ d))
         || (size_sub buffer_limit (zlen (buffer_ d)) <? size)
      then (decoder_fail d PDCM_STATUS_RESOURCE_EXHAUSTED "decoder buffer exceeds configured maximum",
            frames)
      else
      let buffer := buffer_ d ++ bytes in
      match decode_loop (S (length buffer)) (max_frame_bytes_ d) buffer 0 fs with
      | inl (code, msg, fs') => (decoder_fail d code msg, Some fs')
      | inr (consumed, fs') =>
          (st_success, mkDecoder (max_frame_bytes_ d) (drop consumed buffer) false, Some fs')
      end
  | _, _ => (decoder_fail d PDCM_STATUS_INVALID_ARGUMENT "invalid decoder argument", frames)
  end.

(** A connection feeding received chunks to its decoder, stopping at the first
    failure. *)
Fixpoint decoder_feed (d : FrameDecoder) (chunks : list (list Z)) (frames : list Frame)
    : Status * FrameDecoder * list Frame :=
  match chunks with
  | [] => (st_success, d, frames)
  | c :: chunks' =>
      let '(status, d', frames') := decoder_append d (Some c) (Some frames) in
      let frames' := default frames frames' in
      if st_ok status then decoder_feed d' chunks' frames' else (status, d', frames')
  end.

(** The calls a connection makes on its decoder, in any order. *)
Inductive decoder_op :=
  | OpAppend (data : option (list Z)) (frames : option (list Frame))
  | OpReset.

Definition decoder_step (d : FrameDecoder) (op : decoder_op) : FrameDecoder :=
  match op with
  | OpAppend data frames => snd (fst (decoder_append d data frames))
  | OpReset => decoder_reset d
  end.

(** Two frames used as examples. *)
Definition sample_frame1 : Frame := mkFrame 1 0 kHelloRequest 0 7 [1; 2; 3].
Definition sample_frame2 : Frame := mkFrame 1 0 kVersionRequest 0 65537 [].

(** ** Big-endian fields *)

(** Well-formed frames: every field within its width. *)
Record frame_wf (f : Frame) : Prop := {
  fw_major : 0 <= protocol_major f <= u16_max;
  fw_minor : 0 <= protocol_minor f <= u16_max;
  fw_type : 0 <= message_type f <= u16_max;
  fw_flags : 0 <= flags f <= u16_max;
  fw_id : 0 <= request_id f <= u64_max }.

(** The byte string of a frame. *)
Definition be16 (v : Z) : list Z := [byte_of v 8; byte_of v 0].
Definition be32 (v : Z) : list Z := [byte_of v 24; byte_of v 16; byte_of v 8; byte_of v 0].
Definition be64 (v : Z) : list Z :=
  [byte_of v 56; byte_of v 48; byte_of v 40; byte_of v 32; byte_of v 24; byte_of v 16;
   byte_of v 8; byte_of v 0].
Definition frame_bytes (f : Frame) : list Z :=
  be32 (20 + zlen (payload f)) ++ be16 (protocol_major f) ++ be16 (protocol_minor f) ++
  be16 (message_type f) ++ be16 (flags f) ++ be64 (request_id f) ++ payload f.

Lemma lor_add hi lo k : 0 <= k -> 0 <= lo < 2 ^ k -> Z.lor (Z.shiftl hi k) lo = hi * 2 ^ k + lo.
Proof.
  intros Hk Hlo. rewrite <- Z.shiftl_mul_pow2 by lia.
  assert (Z.land (Z.shiftl hi k) lo = 0) as H0.
  { apply Z.bits_inj'. intros n Hn. rewrite Z.land_spec, Z.bits_0.
    destruct (Z.lt_ge_cases n k) as [Hlt|Hge].
    - rewrite Z.shiftl_spec_low by lia. done.
    - destruct (Z.eq_dec lo 0) as [->|Hne]; [by rewrite Z.bits_0, andb_false_r|].
      rewrite (Z.bits_above_log2 lo n); [by rewrite andb_false_r|lia|].
      apply Z.log2_lt_pow2; [lia|].
      eapply Z.lt_le_trans; [apply Hlo|]. apply Z.pow_le_mono_r; lia. }
  rewrite <- Z.lxor_lor by done. by rewrite Z.add_nocarry_lxor by done.
Qed.

Lemma byte_of_div v s : 0 <= s -> byte_of v s = (v / 2 ^ s) mod 256.
Proof.
  intros Hs. unfold byte_of. rewrite Z.shiftr_div_pow2 by done.
  change 255 with (Z.ones 8). by rewrite Z.land_ones by lia.
Qed.
Lemma byte_of_range v s : 0 <= s -> 0 <= byte_of v s < 256.
Proof. intros Hs. rewrite byte_of_div by done. apply Z.mod_pos_bound. lia. Qed.

Ltac bytes v :=
  repeat match goal with |- context [byte_of v ?s] =>
    rewrite (byte_of_div v s) by lia; let e := eval vm_compute in (2 ^ s) in change (2 ^ s) with e
  end.

Lemma readU16_be16 v rest : 0 <= v <= u16_max -> readU16 (be16 v ++ rest) = v.
Proof.
  intros Hv. unfold u16_max in Hv. unfold readU16, byte_at. cbn.
  rewrite lor_add by (pose proof (byte_of_range v 0); lia). change (2 ^ 8) with 256.
  bytes v. Z.to_euclidean_division_equations. lia.
Qed.

Lemma readU32_be32 v rest : 0 <= v <= u32_max -> readU32 (be32 v ++ rest) = v.
Proof.
  intros Hv. unfold u32_max in Hv. unfold readU32, byte_at. cbn.
  pose proof (byte_of_range v 0). pose proof (byte_of_range v 8). pose proof (byte_of_range v 16).
  rewrite <- !Z.lor_assoc.
  rewrite (lor_add (byte_of v 8)) by lia.
  rewrite (lor_add (byte_of v 16)) by lia.
  rewrite (lor_add (byte_of v 24)) by lia.
  change (2 ^ 8) with 256. change (2 ^ 16) with 65536. change (2 ^ 24) with 16777216.
  bytes v. Z.to_euclidean_division_equations. lia.
Qed.

Lemma readU64_be64 v rest : 0 <= v <= u64_max -> readU64 (be64 v ++ rest) = v.
Proof.
  intros Hv. unfold u64_max in Hv. unfold readU64, byte_at. cbn.
  assert (forall acc s, 0 <= acc < 2 ^ 56 -> 0 <= s ->
            wrap64 (Z.lor (Z.shiftl acc 8) (byte_of v s)) = acc * 256 + byte_of v s) as Hstep.
  { intros acc s Hacc Hs. pose proof (byte_of_range v s Hs) as Hb.
    rewrite lor_add by lia. rewrite wrap64_small; [done|]. unfold u64_max. lia. }
  rewrite (Hstep 0 56) by lia.
  pose proof (byte_of_range v 56). pose proof (byte_of_range v 48). pose proof (byte_of_range v 40).
  pose proof (byte_of_range v 32). pose proof (byte_of_range v 24). pose proof (byte_of_range v 16).
  pose proof (byte_of_range v 8). pose proof (byte_of_range v 0).
  rewrite (Hstep _ 48) by lia. rewrite (Hstep _ 40) by lia. rewrite (Hstep _ 32) by lia.
  rewrite (Hstep _ 24) by lia. rewrite (Hstep _ 16) by lia. rewrite (Hstep _ 8) by lia.
  rewrite (Hstep _ 0) by lia. bytes v. Z.to_euclidean_division_equations. lia.
Qed.

(** The encoder produces exactly the header fields followed by the payload. *)
Lemma encodeFrame_bytes f max old :
  20 <= max -> zlen (payload f) <= u32_max - 20 -> 20 + zlen (payload f) <= max ->
  encodeFrame f max (Some old) = (st_success, Some (frame_bytes f)).
Proof.
  intros H1 H2 H3. unfold encodeFrame, kFrameHeaderBytes.
  rewrite (proj2 (Z.ltb_ge max 20)), (proj2 (Z.ltb_ge _ (zlen _))) by lia. cbn [orb].
  rewrite (proj2 (Z.ltb_ge max _)) by lia.
  replace (Z.to_nat (20 + zlen (payload f))) with (20 + length (payload f))%nat
    by (unfold zlen; lia).
  done.
Qed.

(** An encoding that succeeds is that byte string. *)
Lemma encodeFrame_ok f max old status bytes :
  encodeFrame f max (Some old) = (status, bytes) -> st_ok status = true ->
  20 <= max /\ zlen (payload f) <= u32_max - 20 /\ 20 + zlen (payload f) <= max /\
  status = st_success /\ bytes = Some (frame_bytes f).
Proof.
  intros He Hok. destruct (decide (20 <= max /\ zlen (payload f) <= u32_max - 20 /\ 20 + zlen (payload f) <= max))
    as [(D1 & D2 & D3)|Hn].
  - rewrite encodeFrame_bytes in He by done. by injection He as <- <-.
  - exfalso. revert He. unfold encodeFrame, kFrameHeaderBytes. cbv zeta. guard as G1; [by intros [= <- _]|].
    guard as G2; [by intros [= <- _]|]. bprop in G1. bprop in G2. destruct Hn. split_and!; lia.
Qed.

Lemma frame_bytes_length f : zlen (frame_bytes f) = 20 + zlen (payload f).
Proof. unfold frame_bytes, zlen. rewrite !length_app. simpl. lia. Qed.

(** ** The decoding loop *)

(** A frame the peer may send under a decoder limit. *)
Definition sendable (max : Z) (f : Frame) : Prop :=
  frame_wf f /\ zlen (payload f) <= u32_max - 20 /\ 20 + zlen (payload f) <= max.

(** The bytes left in the decoder are an incomplete frame. *)
Definition incomplete (b : list Z) (fs : list Frame) : Prop :=
  match fs with [] => b = [] | f :: _ => zlen b < zlen (frame_bytes f) end.

Lemma read_frame_bytes f rest :
  frame_wf f -> read_frame (frame_bytes f ++ rest) (20 + length (payload f)) = f.
Proof.
  intros [H1 H2 H3 H4 H5]. unfold read_frame, frame_bytes. rewrite <- !app_assoc.
  pose proof (readU16_be16 (protocol_major f)) as R1. pose proof (readU16_be16 (protocol_minor f)) as R2.
  pose proof (readU16_be16 (message_type f)) as R3. pose proof (readU16_be16 (flags f)) as R4.
  pose proof (readU64_be64 (request_id f)) as R5.
  replace (20 + length (payload f) - 20)%nat with (length (payload f)) by lia.
  generalize dependent (20 + zlen (payload f)). intros n.
  unfold be16, be32, be64 in *. cbn [app drop] in *.
  rewrite R1, R2, R3, R4, R5 by done. rewrite drop_0, take_app_length. by destruct f.
Qed.

Lemma decode_loop_shift fuel max b c fs :
  (c <= length b)%nat ->
  decode_loop fuel max b c fs =
  match decode_loop fuel max (drop c b) 0 [] with
  | inl (code, msg, fs') => inl (code, msg, fs ++ fs')
  | inr (n, fs') => inr ((c + n)%nat, fs ++ fs')
  end.
Proof.
  revert b c fs. induction fuel as [|fuel IH]; intros b c fs Hc; simpl.
  { by rewrite app_nil_r, Nat.add_0_r. }
  rewrite drop_0, length_drop, Nat.sub_0_r.
  destruct (_ <? 4)%nat; [by rewrite app_nil_r, Nat.add_0_r|].
  guard as G1; [by rewrite app_nil_r|]. guard as G2; [by rewrite app_nil_r|].
  guard as G3; [by rewrite app_nil_r, Nat.add_0_r|].
  bprop in G1. bprop in G3. unfold kFrameHeaderBytes in G1.
  set (sz := Z.to_nat (readU32 (drop c b))).
  rewrite (IH b (c + sz)%nat) by lia.
  rewrite (IH (drop c b) sz) by (rewrite length_drop; lia).
  rewrite drop_drop. destruct (decode_loop fuel max (drop (c + sz) b) 0 []) as [[[??]?]|[??]].
  - by rewrite <- app_assoc.
  - rewrite <- app_assoc. f_equal. f_equal. lia.
Qed.

(** One complete frame is consumed by one turn of the loop. *)
Lemma decode_loop_frame fuel max f rest :
  sendable max f ->
  decode_loop (S fuel) max (frame_bytes f ++ rest) 0 [] =
  match decode_loop fuel max rest 0 [] with
  | inl (code, msg, fs') => inl (code, msg, f :: fs')
  | inr (n, fs') => inr ((length (frame_bytes f) + n)%nat, f :: fs')
  end.
Proof.
  intros (Hwf & Hp & Hmax). pose proof (frame_bytes_length f) as Hlen. unfold zlen in Hlen.
  pose proof (zlen_nonneg (payload f)).
  cbn [decode_loop]. rewrite drop_0, Nat.sub_0_r.
  assert (readU32 (frame_bytes f ++ rest) = 20 + zlen (payload f)) as Hr.
  { unfold frame_bytes. rewrite <- app_assoc. apply readU32_be32. lia. }
  rewrite Hr, length_app. unfold kFrameHeaderBytes, zlen in *.
  rewrite (proj2 (Nat.ltb_ge _ 4)) by lia. rewrite (proj2 (Z.ltb_ge _ 20)) by lia.
  rewrite (proj2 (Z.ltb_ge max _)) by lia. rewrite (proj2 (Z.ltb_ge _ _)) by lia.
  replace (Z.to_nat (20 + Z.of_nat (length (payload f)))) with (20 + length (payload f))%nat by lia.
  rewrite read_frame_bytes by done.
  rewrite decode_loop_shift by (rewrite length_app; lia).
  replace (0 + (20 + length (payload f)))%nat with (length (frame_bytes f)) by lia.
  rewrite drop_app_length. cbn [app].
  by destruct (decode_loop fuel max rest 0 []) as [[[??]?]|[??]].
Qed.

Lemma decode_loop_incomplete fuel max f b q :
  sendable max f -> b ++ q = frame_bytes f -> zlen b < zlen (frame_bytes f) ->
  decode_loop fuel max b 0 [] = inr (0%nat, []).
Proof.
  intros (Hwf & Hp & Hmax) Hb Hlt. destruct fuel as [|fuel]; [done|].
  pose proof (frame_bytes_length f) as Hlen. pose proof (zlen_nonneg (payload f)).
  cbn [decode_loop]. rewrite drop_0, Nat.sub_0_r.
  destruct (_ <? 4)%nat eqn:E; [done|]. apply Nat.ltb_ge in E.
  assert (readU32 b = 20 + zlen (payload f)) as Hr.
  { rewrite <- (readU32_be32 (20 + zlen (payload f)) []) by lia.
    assert (take 4 (frame_bytes f) = be32 (20 + zlen (payload f))) as Ht by done.
    rewrite app_nil_r, <- Ht, <- Hb, take_app_le by lia.
    destruct b as [|?[|?[|?[|??]]]]; simpl in E; try lia. done. }
  rewrite Hr. unfold kFrameHeaderBytes, zlen in *.
  rewrite (proj2 (Z.ltb_ge _ 20)) by lia. rewrite (proj2 (Z.ltb_ge max _)) by lia.
  by rewrite (proj2 (Z.ltb_lt _ _)) by lia.
Qed.

(** Any prefix of a stream of frames decodes to the frames it completes. *)
Lemma decode_loop_prefix max fs : Forall (sendable max) fs ->
  forall p q fuel, p ++ q = concat (map frame_bytes fs) -> (length p < fuel)%nat ->
  exists fs1 fs2 n, fs = fs1 ++ fs2 /\ decode_loop fuel max p 0 [] = inr (n, fs1) /\
    drop n p ++ q = concat (map frame_bytes fs2) /\ incomplete (drop n p) fs2.
Proof.
  induction 1 as [|f fs Hf Hfs IH]; intros p q fuel Hpq Hfuel.
  - apply app_nil in Hpq as [-> ->]. exists [], [], 0%nat. destruct fuel; done.
  - destruct (Z.lt_ge_cases (zlen p) (zlen (frame_bytes f))) as [Hlt|Hge].
    + exists [], (f :: fs), 0%nat. rewrite drop_0. repeat split; try done.
      cbn [map concat] in Hpq. apply app_eq_inv in Hpq as [(k & -> & _)|(k & Hk & _)].
      * exfalso. rewrite zlen_app in Hlt. pose proof (zlen_nonneg k). lia.
      * by eapply decode_loop_incomplete.
    + assert (exists k, p = frame_bytes f ++ k /\ k ++ q = concat (map frame_bytes fs)) as (k & -> & Hk).
      { cbn [map concat] in Hpq. apply app_eq_inv in Hpq as [(k & -> & ->)|(k & Hk & ->)]; [by exists k|].
        rewrite Hk, zlen_app in Hge. destruct k; [by exists []; rewrite !app_nil_r in *|].
        rewrite zlen_cons in Hge. pose proof (zlen_nonneg k). lia. }
      destruct fuel as [|fuel]; [lia|]. rewrite decode_loop_frame by done.
      rewrite length_app in Hfuel. pose proof (frame_bytes_length f) as Hl.
      pose proof (zlen_nonneg (payload f)). unfold zlen in Hl.
      destruct (IH k q fuel) as (fs1 & fs2 & n & -> & Hd & Hn & Hi); [done|lia|].
      exists (f :: fs1), fs2, (length (frame_bytes f) + n)%nat. rewrite Hd.
      by rewrite drop_app_add.
Qed.

(** Whatever the loop consumed lies within the buffer, and what it left is
    shorter than a maximal frame. *)
Lemma decode_loop_consumed fuel max b n fs :
  20 <= max -> (length b < fuel)%nat -> decode_loop fuel max b 0 [] = inr (n, fs) ->
  (n <= length b)%nat /\ zlen (drop n b) < max.
Proof.
  revert b n fs. induction fuel as [|fuel IH]; intros b n fs Hmax Hfuel; [lia|].
  cbn [decode_loop]. rewrite drop_0, Nat.sub_0_r.
  destruct (_ <? 4)%nat eqn:E.
  { intros [= <- <-]. apply Nat.ltb_lt in E. rewrite drop_0. unfold zlen. lia. }
  guard as G1; [done|]. guard as G2; [done|]. guard as G3; bprop in *; unfold kFrameHeaderBytes in *.
  { intros [= <- <-]. rewrite drop_0. unfold zlen. lia. }
  rewrite decode_loop_shift by lia. cbn [Nat.add].
  set (k := Z.to_nat (readU32 b)).
  destruct (decode_loop fuel max (drop k b) 0 []) as [[[??]?]|[m fs']] eqn:Ed; [done|].
  intros [= <- <-]. apply IH in Ed as [Hm Hlt]; [|lia|rewrite length_drop; lia].
  rewrite length_drop in Hm. rewrite drop_drop in Hlt. split; [lia|done].
Qed.

(** [append] on a non-poisoned decoder whose buffer is short of one frame
    passes the capacity guard for every chunk of at most one frame's size. *)
Lemma append_guard (max : Z) (b c : list Z) :
  20 <= max <= i64_max -> zlen b < max -> zlen c <= max ->
  (max <? kFrameHeaderBytes) || (max <? zlen c) || (max <? zlen b)
  || (size_sub (if u64_max / 2 <? max then u64_max else max * 2) (zlen b) <? zlen c) = false.
Proof.
  intros Hmax Hb Hc. pose proof (zlen_nonneg b). unfold i64_max, kFrameHeaderBytes in *.
  change (u64_max / 2) with 9223372036854775807.
  rewrite (proj2 (Z.ltb_ge 9223372036854775807 max)) by lia.
  rewrite size_sub_small by (unfold u64_max; lia). bprop. lia.
Qed.

Lemma decoder_append_ok max b acc c n fs :
  20 <= max <= i64_max -> zlen b < max -> zlen c <= max -> c <> [] ->
  decode_loop (S (length (b ++ c))) max (b ++ c) 0 [] = inr (n, fs) ->
  decoder_append (mkDecoder max b false) (Some c) (Some acc) =
  (st_success, mkDecoder max (drop n (b ++ c)) false, Some (acc ++ fs)).
Proof.
  intros Hmax Hb Hc Hne Hd. unfold decoder_append. cbn [poisoned_ max_frame_bytes_ buffer_].
  assert (zlen c =? 0 = false) as ->.
  { apply Z.eqb_neq. destruct c; [done|]. rewrite zlen_cons. pose proof (zlen_nonneg c). lia. }
  rewrite append_guard by done. rewrite decode_loop_shift by lia. by rewrite drop_0, Hd.
Qed.

Lemma decoder_feed_stream max chunks :
  20 <= max <= i64_max ->
  Forall (fun c => c <> [] /\ zlen c <= max) chunks ->
  forall b fs acc, Forall (sendable max) fs -> incomplete b fs ->
  b ++ concat chunks = concat (map frame_bytes fs) ->
  decoder_feed (mkDecoder max b false) chunks acc =
  (st_success, mkDecoder max [] false, acc ++ fs).
Proof.
  intros Hmax. induction 1 as [|c chunks [Hne Hc] Hcs IH]; intros b fs acc Hfs Hi Hstream.
  - cbn [concat] in Hstream. rewrite app_nil_r in Hstream. cbn [decoder_feed].
    destruct fs as [|f fs].
    + cbn in Hstream. subst b. by rewrite app_nil_r.
    + exfalso. cbn [incomplete] in Hi. rewrite Hstream in Hi. cbn [map concat] in Hi.
      rewrite zlen_app in Hi. pose proof (zlen_nonneg (concat (map frame_bytes fs))). lia.
  - cbn [concat] in Hstream. rewrite app_assoc in Hstream.
    assert (zlen b < max) as Hb.
    { destruct fs as [|f fs]; cbn [incomplete] in Hi; [subst b; rewrite zlen_nil; lia|].
      inversion Hfs as [|?? (_ & _ & Hm)]; subst. pose proof (frame_bytes_length f). lia. }
    destruct (decode_loop_prefix max fs Hfs (b ++ c) (concat chunks) (S (length (b ++ c))))
      as (fs1 & fs2 & n & -> & Hd & Hn & Hi'); [done|lia|].
    cbn [decoder_feed]. erewrite decoder_append_ok by done.
    rewrite Forall_app in Hfs. change (st_ok st_success) with true. cbn [from_option id].
    rewrite (IH _ fs2) by (tauto || done). by rewrite <- app_assoc.
Qed.

(** ** Theorems *)

(** C39: streaming round trip.  Frames encoded one after the other and cut into
    arbitrary non-empty chunks of at most the configured maximum are decoded
    to exactly the same frames, in order, with nothing left in the buffer. *)
Theorem frame_stream_roundtrip max fs chunks :
  20 <= max <= i64_max ->
  Forall (sendable max) fs ->
  Forall (fun c => c <> [] /\ zlen c <= max) chunks ->
  concat chunks = concat (map (fun f => default [] (snd (encodeFrame f max (Some [])))) fs) ->
  decoder_feed (decoder_init max) chunks [] = (st_success, decoder_init max, fs).
Proof.
  intros Hmax Hfs Hchunks Hc. unfold decoder_init.
  rewrite (decoder_feed_stream max chunks Hmax Hchunks [] fs []); [done|done|by destruct fs as [|f ?]; [|cbn [incomplete]; rewrite frame_bytes_length, zlen_nil; pose proof (zlen_nonneg (payload f)); lia]|].
  cbn [app]. rewrite Hc. f_equal. apply list_fmap_ext. intros i f Hf.
  rewrite Forall_lookup in Hfs. destruct (Hfs i f Hf) as (Hw & Hp & Hm).
  by rewrite encodeFrame_bytes by lia.
Qed.

Lemma frame_stream_roundtrip_witness :
  decoder_feed (decoder_init 64)
    [take 3 (frame_bytes sample_frame1); drop 3 (frame_bytes sample_frame1) ++ take 10 (frame_bytes sample_frame2);
     drop 10 (frame_bytes sample_frame2)] []
  = (st_success, decoder_init 64, [sample_frame1; sample_frame2]).
Proof.
  apply (frame_stream_roundtrip 64).
  - unfold i64_max. lia.
  - repeat constructor; vm_compute; congruence.
  - repeat constructor; vm_compute; congruence.
  - vm_compute. reflexivity.
Defined.

(** What the decoder holds between two calls. *)
Definition decoder_wf (d : FrameDecoder) : Prop :=
  (poisoned_ d = true -> buffer_ d = []) /\
  (buffer_ d = [] \/ bufferedBytes d < max_frame_bytes_ d).

Lemma decoder_append_wf d data frames :
  decoder_wf d ->
  decoder_wf (snd (fst (decoder_append d data frames))) /\
  max_frame_bytes_ (snd (fst (decoder_append d data frames))) = max_frame_bytes_ d.
Proof.
  intros Hwf. unfold decoder_append. destruct (poisoned_ d) eqn:Hp; [by split|].
  destruct data as [bytes|], frames as [fs|]; try by repeat split; auto.
  destruct (zlen bytes =? 0); [by split|]. guard as G; [by repeat split; auto|].
  bprop in G. destruct G as [[[G _] _] _].
  rewrite decode_loop_shift, drop_0 by lia.
  destruct (decode_loop _ _ _ _ _) as [[[code msg] fs']|[n fs']] eqn:Ed;
    [by repeat split; auto|].
  apply decode_loop_consumed in Ed as [_ Hlt]; [|unfold kFrameHeaderBytes in G; lia|lia].
  cbn [fst snd]. split; [split; [done|right; exact Hlt]|done].
Qed.

(** Bounded buffering and poisoning.  After any sequence of [append] and
    [reset] calls, with any arguments, the decoder buffers less than one
    maximal frame, and a poisoned decoder holds no byte, accepts no byte and
    produces no frame until it is reset. *)
Theorem decoder_bounded max ops data frames :
  let d := foldl decoder_step (decoder_init max) ops in
  max_frame_bytes_ d = max /\
  (bufferedBytes d = 0 \/ bufferedBytes d < max) /\
  (poisoned_ d = true ->
     bufferedBytes d = 0 /\
     decoder_append d data frames = (invalid_argument "frame decoder is poisoned", d, frames) /\
     decoder_reset d = decoder_init max).
Proof.
  assert (forall d, decoder_wf d -> max_frame_bytes_ d = max ->
    decoder_wf (foldl decoder_step d ops) /\ max_frame_bytes_ (foldl decoder_step d ops) = max) as Hinv.
  { induction ops as [|op ops IH]; intros d Hwf Hm; [done|]. cbn [foldl].
    destruct op as [data' frames'|]; cbn [decoder_step].
    - destruct (decoder_append_wf d data' frames' Hwf) as [Hw He]. apply IH; congruence.
    - apply IH; [split; [done|by left]|done]. }
  destruct (Hinv (decoder_init max)) as [[Hp Hb] Hm]; [split; [done|by left]|done|].
  intros d. fold d in Hp, Hb, Hm. unfold bufferedBytes in *. split; [done|]. split.
  - destruct Hb as [->|Hb]; [by left|right; lia].
  - intros Hd. rewrite (Hp Hd). split; [done|]. split.
    + unfold decoder_append. by rewrite Hd.
    + unfold decoder_reset, decoder_init. by rewrite Hm.
Qed.
