(* ===== verification/EventStore.v ===== *)
(** The event log (src/product/src/data/event.hpp, event_store.hpp and .cpp).

    [events_] is a deque of pointers to immutable events, so a list of events.
    [publish] and [since] run under the store's mutex. *)
From S2P Require Import Prelude Containers Common.
Open Scope Z_scope.
Open Scope pdcm_scope.

(** ** Events *)

Inductive EventType :=
  | ET_CatalogChanged | ET_EntityChanged | ET_CapabilityChanged | ET_MetricUpdate
  | ET_FirmwareHeartbeatHealthChanged | ET_ProviderStateChanged | ET_SubscriptionLossMarker
  | ET_DaemonDraining.
#[export] Instance EventType_eq_dec : EqDecision EventType.
Proof. solve_decision. Defined.

Definition event_type_value (t : EventType) : Z :=
  match t with
  | ET_CatalogChanged => 0 | ET_EntityChanged => 1 | ET_CapabilityChanged => 2 | ET_MetricUpdate => 3
  | ET_FirmwareHeartbeatHealthChanged => 4 | ET_ProviderStateChanged => 5
  | ET_SubscriptionLossMarker => 6 | ET_DaemonDraining => 7
  end.

Inductive EventSeverity := SEV_Info | SEV_Warning | SEV_Error | SEV_Critical.
Definition severity_value (s : EventSeverity) : Z :=
  match s with SEV_Info => 0 | SEV_Warning => 1 | SEV_Error => 2 | SEV_Critical => 3 end.

Record MetricUpdatePayload := mkMetricUpdate { mup_status : ObservationStatus; mup_commit_epoch : Z }.
Record SubscriptionLossPayload := mkLoss {
  first_dropped_sequence : Z; last_dropped_sequence : Z; dropped_count : Z }.
Record HealthChangePayload := mkHealthChange {
  hcp_previous_state : HealthState;
  hcp_state : HealthState;
  hcp_previous_code : StableHealthCode;
  hcp_code : StableHealthCode;
  hcp_evidence : list EvidenceRef;
  hcp_evidence_age_ns : Z }.

Inductive EventPayload :=
  | EP_Monostate
  | EP_MetricUpdate (p : MetricUpdatePayload)
  | EP_SubscriptionLoss (p : SubscriptionLossPayload)
  | EP_HealthChange (p : HealthChangePayload)
  | EP_String (s : string).

Record EventDraft := mkDraft {
  ed_type : EventType;
  ed_severity : EventSeverity;
  ed_entity : option EntityRef;
  ed_metric : option MetricId;
  ed_health_subsystem : option Z;
  ed_occurrence_time_ns : Z;
  ed_catalog_generation : Z;
  ed_payload : EventPayload }.

Record PdcmEvent := mkEvent {
  ev_boot_epoch : Z;
  ev_sequence : Z;
  ev_type : EventType;
  ev_severity : EventSeverity;
  ev_entity : option EntityRef;
  ev_metric : option MetricId;
  ev_health_subsystem : option Z;
  ev_occurrence_time_ns : Z;
  ev_catalog_generation : Z;
  ev_payload : EventPayload }.

Definition isNonDroppable (t : EventType) : bool :=
  (t ==? ET_SubscriptionLossMarker) || (t ==? ET_DaemonDraining).

Definition isStateChange (t : EventType) : bool :=
  (t ==? ET_CatalogChanged) || (t ==? ET_EntityChanged) || (t ==? ET_CapabilityChanged)
  || (t ==? ET_FirmwareHeartbeatHealthChanged) || (t ==? ET_ProviderStateChanged).

(** ** The store *)

Record EventStoreLimits := mkEventLimits { esl_max_events : Z; esl_max_bytes : Z }.
Definition event_limits_default : EventStoreLimits := mkEventLimits 4096 (4 * 1024 * 1024).

Definition esl_validate (l : EventStoreLimits) : Status :=
  if (esl_max_events l =? 0) || (esl_max_bytes l =? 0)
  then invalid_argument "event store limits must be non-zero"
  else st_success.

Record EventStore := mkEventStore {
  es_limits_ : EventStoreLimits;
  es_boot_epoch_ : Z;
  es_next_sequence_ : Z;
  es_stored_bytes_ : Z;
  es_events_ : list PdcmEvent }.

(** The constructor throws on an invalid configuration. *)
Definition es_construct (limits : EventStoreLimits) (boot_epoch : Z) : string + EventStore :=
  if negb (st_ok (esl_validate limits)) || (boot_epoch =? 0)
  then inl "event store configuration is invalid"%string
  else inr (mkEventStore limits boot_epoch 1 0 []).

Record EventSnapshot := mkEventSnapshot {
  snap_first_available_sequence : Z; snap_latest_sequence : Z; snap_events : list PdcmEvent }.

(** A draft used in examples. *)
Definition sample_draft : EventDraft :=
  mkDraft ET_CatalogChanged SEV_Info None None None 5 1 EP_Monostate.

Section EventStore.
Context `{Layout}.

Definition evidence_ref_bytes (e : EvidenceRef) : Z :=
  str_size (src_provider (evr_source e)) + str_size (src_native_source (evr_source e)).

Definition payload_bytes (p : EventPayload) : Z :=
  match p with
  | EP_Monostate => sizeof_monostate
  | EP_MetricUpdate _ => sizeof_MetricUpdatePayload
  | EP_SubscriptionLoss _ => sizeof_SubscriptionLossPayload
  | EP_HealthChange h =>
      sizeof_HealthChangePayload + zlen (hcp_evidence h) * sizeof_EvidenceRef
      + sum_by evidence_ref_bytes (hcp_evidence h)
  | EP_String s => str_size s
  end.

Definition eventBytes (e : PdcmEvent) : Z := sizeof_PdcmEvent + payload_bytes (ev_payload e).

Definition draft_malformed (d : EventDraft) : bool :=
  (ed_occurrence_time_ns d <? 0) || (ed_catalog_generation d =? 0)
  || ((ed_type d ==? ET_MetricUpdate)
      && (negb (has_value (ed_entity d)) || negb (has_value (ed_metric d))))
  || ((ed_type d ==? ET_FirmwareHeartbeatHealthChanged)
      && (ed_health_subsystem d !=? Some kFirmwareHeartbeatHealthId)).

Definition event_of (boot_epoch sequence : Z) (d : EventDraft) : PdcmEvent :=
  mkEvent boot_epoch sequence (ed_type d) (ed_severity d) (ed_entity d) (ed_metric d)
    (ed_health_subsystem d) (ed_occurrence_time_ns d) (ed_catalog_generation d) (ed_payload d).

(** The [while] loop of [publish]: pop from the front until both limits hold. *)
Fixpoint trim (l : EventStoreLimits) (events : list PdcmEvent) (stored : Z) : list PdcmEvent * Z :=
  match events with
  | [] => ([], stored)
  | e :: events' =>
      if (esl_max_events l <? zlen events) || (esl_max_bytes l <? stored)
      then trim l events' (stored - eventBytes e)
      else (events, stored)
  end.

Definition publish (s : EventStore) (d : EventDraft) : Status * option PdcmEvent * EventStore :=
  if draft_malformed d then (invalid_argument "event draft is malformed", None, s)
  else if es_next_sequence_ s =? u64_max
  then (mkStatus PDCM_STATUS_INTERNAL "event sequence overflow", None, s)
  else
  let event := event_of (es_boot_epoch_ s) (es_next_sequence_ s) d in
  let next := es_next_sequence_ s + 1 in
  let bytes := eventBytes event in
  if esl_max_bytes (es_limits_ s) <? bytes
  then (mkStatus PDCM_STATUS_RESOURCE_EXHAUSTED "event exceeds byte limit", None,
        mkEventStore (es_limits_ s) (es_boot_epoch_ s) next (es_stored_bytes_ s) (es_events_ s))
  else
  let '(events, stored) := trim (es_limits_ s) (es_events_ s ++ [event]) (es_stored_bytes_ s + bytes) in
  (st_success, Some event, mkEventStore (es_limits_ s) (es_boot_epoch_ s) next stored events).

Definition es_since (s : EventStore) (sequence : Z) : EventSnapshot :=
  mkEventSnapshot
    (match es_events_ s with [] => es_next_sequence_ s | e :: _ => ev_sequence e end)
    (es_next_sequence_ s - 1)
    (drop (bisect (fun e => negb (sequence <? ev_sequence e)) (es_events_ s)) (es_events_ s)).

Definition eventCount (s : EventStore) : Z := zlen (es_events_ s).
Definition storedBytes (s : EventStore) : Z := es_stored_bytes_ s.

(** ** Specification: the log of accepted events and the part retained *)

(** The events accepted by a sequence of [publish] calls. *)
Fixpoint accepted (s : EventStore) (ds : list EventDraft) : list PdcmEvent :=
  match ds with
  | [] => []
  | d :: ds' =>
      let '(_, e, s') := publish s d in
      match e with Some e => e :: accepted s' ds' | None => accepted s' ds' end
  end.

Definition publish_all (s : EventStore) (ds : list EventDraft) : EventStore :=
  foldl (fun s d => snd (publish s d)) s ds.

Definition fits (l : EventStoreLimits) (events : list PdcmEvent) : bool :=
  (zlen events <=? esl_max_events l) && (sum_by eventBytes events <=? esl_max_bytes l).

(** The longest suffix of a log that fits the limits. *)
Fixpoint retained (l : EventStoreLimits) (log : list PdcmEvent) : list PdcmEvent :=
  match log with
  | [] => []
  | _ :: log' => if fits l log then log else retained l log'
  end.

Definition seq_lt (a b : PdcmEvent) : Prop := ev_sequence a < ev_sequence b.

(** The store holds the retained part of its log. *)
Record es_repr (s : EventStore) (log : list PdcmEvent) : Prop := {
  er_events : es_events_ s = retained (es_limits_ s) log;
  er_bytes : es_stored_bytes_ s = sum_by eventBytes (es_events_ s);
  er_sorted : StronglySorted seq_lt log;
  er_below : Forall (fun e => 1 <= ev_sequence e < es_next_sequence_ s) log;
  er_next : 1 <= es_next_sequence_ s <= u64_max }.

(** ** Lemmas *)

Lemma evidence_ref_bytes_nonneg e : 0 <= evidence_ref_bytes e.
Proof. unfold evidence_ref_bytes, str_size. lia. Qed.

Lemma layout_positive :
  0 < sizeof_PdcmEvent /\ 0 < sizeof_monostate /\ 0 < sizeof_MetricUpdatePayload /\
  0 < sizeof_SubscriptionLossPayload /\ 0 < sizeof_HealthChangePayload /\ 0 < sizeof_EvidenceRef.
Proof. pose proof layout_pos as Hl. rewrite !Forall_cons in Hl. tauto. Qed.

Lemma eventBytes_pos e : 0 < eventBytes e.
Proof.
  pose proof layout_positive as (H1 & H2 & H3 & H4 & H5 & H6). unfold eventBytes.
  destruct (ev_payload e) as [| | |h|s]; cbn [payload_bytes]; try lia.
  - pose proof (sum_by_nonneg evidence_ref_bytes (hcp_evidence h) evidence_ref_bytes_nonneg).
    pose proof (zlen_nonneg (hcp_evidence h)). nia.
  - unfold str_size. lia.
Qed.

Lemma fits_cons l e events : fits l (e :: events) = true -> fits l events = true.
Proof.
  unfold fits. rewrite sum_by_cons, zlen_cons. bprop. pose proof (eventBytes_pos e). lia.
Qed.

(** The trimming loop computes the retained suffix. *)
Lemma trim_retained l events :
  trim l events (sum_by eventBytes events) = (retained l events, sum_by eventBytes (retained l events)).
Proof.
  induction events as [|e events IH]; [done|].
  cbn [trim retained].
  assert ((esl_max_events l <? zlen (e :: events)) || (esl_max_bytes l <? sum_by eventBytes (e :: events))
          = negb (fits l (e :: events))) as ->.
  { unfold fits. rewrite negb_andb, !Z.leb_antisym, !negb_involutive. done. }
  destruct (fits l (e :: events)); cbn [negb]; [done|].
  rewrite sum_by_cons. replace (_ + _ - _) with (sum_by eventBytes events) by lia. done.
Qed.

Lemma retained_suffix l log : exists pre, log = pre ++ retained l log.
Proof.
  induction log as [|e log [pre IH]]; [by exists []|]. cbn [retained].
  destruct (fits l (e :: log)); [by exists []|]. exists (e :: pre). cbn. by f_equal.
Qed.

Lemma retained_fits l log : 0 <= esl_max_events l -> 0 <= esl_max_bytes l -> fits l (retained l log) = true.
Proof.
  intros H1 H2. induction log as [|e log IH]; [change (fits l [] = true); unfold fits; bprop; rewrite zlen_nil; change (sum_by eventBytes []) with 0; lia|].
  cbn [retained]. by destruct (fits l (e :: log)) eqn:E.
Qed.

(** Retention is incremental: the retained part of a longer log only depends
    on what was retained before. *)
Lemma retained_app l log e : retained l (log ++ [e]) = retained l (retained l log ++ [e]).
Proof.
  induction log as [|x log IH]; [done|]. cbn [app retained].
  destruct (fits l (x :: log)) eqn:E1.
  - done.
  - destruct (fits l (x :: log ++ [e])) eqn:E2; [|done].
    exfalso. assert (fits l (x :: log) = true); [|congruence].
    revert E2. unfold fits. rewrite !sum_by_cons, sum_by_app, !zlen_cons, zlen_app. bprop.
    rewrite sum_by_cons, zlen_cons. pose proof (eventBytes_pos e). cbn. pose proof (zlen_nonneg (@nil PdcmEvent)). lia.
Qed.

Lemma publish_repr s log d :
  es_repr s log ->
  let '(_, e, s') := publish s d in
  es_repr s' (log ++ match e with Some e => [e] | None => [] end) /\ es_limits_ s' = es_limits_ s.
Proof.
  intros [He Hb Hs Hl Hn]. unfold publish. guard as G1; [by rewrite app_nil_r|].
  guard as G2; [by rewrite app_nil_r|]. bprop in G2. cbv zeta.
  set (event := event_of _ _ d).
  assert (Forall (fun e => 1 <= ev_sequence e < es_next_sequence_ s + 1) log) as Hl'.
  { eapply Forall_impl; [exact Hl|]. intros x. cbn. lia. }
  guard as G3.
  { rewrite app_nil_r. split; [|done]. split; cbn; auto. lia. }
  rewrite Hb. replace (sum_by eventBytes (es_events_ s) + eventBytes event)
    with (sum_by eventBytes (es_events_ s ++ [event])) by (rewrite sum_by_app; cbn; lia).
  rewrite trim_retained. cbn. split; [|done]. split; cbn.
  - by rewrite He, <- retained_app.
  - done.
  - apply StronglySorted_app. split_and!; [|done|repeat constructor].
    intros x y Hx ->%list_elem_of_singleton. rewrite Forall_forall in Hl. by apply Hl.
  - apply Forall_app. split; [done|]. repeat constructor; cbn; lia.
  - lia.
Qed.

Lemma publish_all_repr s log ds :
  es_repr s log ->
  es_repr (publish_all s ds) (log ++ accepted s ds) /\ es_limits_ (publish_all s ds) = es_limits_ s.
Proof.
  unfold publish_all. revert s log. induction ds as [|d ds IH]; intros s log Hr.
  { cbn. by rewrite app_nil_r. }
  cbn [foldl accepted]. pose proof (publish_repr s log d Hr) as Hp.
  destruct (publish s d) as [[st e] s']. destruct Hp as [Hp <-]. cbn [snd].
  destruct (IH _ _ Hp) as [H1 H2]. split; [|done]. rewrite <- app_assoc in H1.
  by destruct e.
Qed.

Lemma es_construct_repr l b s : es_construct l b = inr s -> es_repr s [] /\ es_limits_ s = l.
Proof.
  unfold es_construct. guard as G; [done|]. intros [= <-].
  split; [|done]. split; cbn; auto; [constructor|unfold u64_max; lia].
Qed.

Lemma sorted_partition s (l : list PdcmEvent) :
  StronglySorted seq_lt l ->
  drop (bisect (fun e => negb (s <? ev_sequence e)) l) l = List.filter (fun e => s <? ev_sequence e) l.
Proof.
  intros Hs.
  assert (exists l1 l2, l = l1 ++ l2 /\ Forall (fun e => s <? ev_sequence e = false) l1 /\
            Forall (fun e => s <? ev_sequence e = true) l2) as (l1 & l2 & -> & H1 & H2).
  { induction Hs as [|e l Hs IH Hall]; [by exists [], []|].
    destruct (s <? ev_sequence e) eqn:E.
    - exists [], (e :: l). repeat split; auto. constructor; [done|].
      eapply Forall_impl; [exact Hall|]. intros x Hx. cbn. unfold seq_lt in Hx. lia.
    - destruct IH as (l1 & l2 & -> & H1 & H2). exists (e :: l1), l2. auto. }
  rewrite bisect_partitioned.
  - rewrite drop_app_length, List.filter_app.
    replace (List.filter _ l1) with (@nil PdcmEvent).
    + cbn. clear Hs. induction H2 as [|x l2 Hx H2 IH]; [done|]. cbn. rewrite Hx. by f_equal.
    + clear Hs. induction H1 as [|x l1 Hx H1 IH]; [done|]. cbn. by rewrite Hx.
  - eapply Forall_impl; [exact H1|]. cbn. intros x ->. done.
  - eapply Forall_impl; [exact H2|]. cbn. intros x ->. done.
Qed.

(** ** Theorems *)

(** C34: retention refines an append-only log.  After any sequence of
    [publish] calls on a new store, the stored events are exactly the longest
    suffix of the accepted events that fits both limits, [stored_bytes_] is
    their total size, and sequence numbers strictly increase. *)
Theorem event_store_refines_log limits boot s0 ds :
  es_construct limits boot = inr s0 ->
  0 <= esl_max_events limits -> 0 <= esl_max_bytes limits ->
  let s := publish_all s0 ds in
  es_events_ s = retained limits (accepted s0 ds) /\
  storedBytes s = sum_by eventBytes (es_events_ s) /\
  eventCount s <= esl_max_events limits /\ storedBytes s <= esl_max_bytes limits /\
  StronglySorted seq_lt (accepted s0 ds).
Proof.
  intros Hc H1 H2. destruct (es_construct_repr _ _ _ Hc) as [Hr Hl].
  destruct (publish_all_repr s0 [] ds Hr) as [[He Hb Hs _ _] Hl']. cbn [app] in *.
  rewrite Hl', Hl in He. pose proof (retained_fits limits (accepted s0 ds) H1 H2) as Hf.
  unfold storedBytes, eventCount. rewrite Hb, He. unfold fits in Hf. bprop in Hf. tauto.
Qed.

(** [since] reports exactly the retained events with a larger sequence
    number, in order, and a reader that knows of no gap loses nothing: if
    [first_available_sequence] is at most [sequence + 1], the answer is every
    event accepted after [sequence]. *)
Theorem event_store_since limits boot s0 ds sequence :
  es_construct limits boot = inr s0 ->
  let s := publish_all s0 ds in
  let answer := es_since s sequence in
  let newer := List.filter (fun e => sequence <? ev_sequence e) in
  snap_events answer = newer (es_events_ s) /\
  snap_latest_sequence answer = es_next_sequence_ s - 1 /\
  (snap_first_available_sequence answer <= sequence + 1 ->
     snap_events answer = newer (accepted s0 ds)).
Proof.
  intros Hc s answer newer. destruct (es_construct_repr _ _ _ Hc) as [Hr Hl].
  destruct (publish_all_repr s0 [] ds Hr) as [[He Hb Hs Hbelow Hn] Hl']. fold s in He, Hb, Hs, Hbelow, Hn, Hl'.
  cbn [app] in *. destruct (retained_suffix (es_limits_ s) (accepted s0 ds)) as [pre Hpre].
  rewrite <- He in Hpre. rewrite Hpre in Hs, Hbelow. apply StronglySorted_app in Hs as (Hcross & _ & Hs2).
  assert (snap_events answer = newer (es_events_ s)) as Hev by by apply sorted_partition.
  split; [done|]. split; [done|]. intros Hgap. rewrite Hev, Hpre. unfold newer.
  rewrite List.filter_app. replace (List.filter _ pre) with (@nil PdcmEvent); [done|].
  symmetry. apply filter_false_nil. intros x Hx. apply Z.ltb_ge.
  unfold answer, es_since in Hgap. cbn in Hgap. apply Forall_app in Hbelow as [Hbelow _].
  rewrite Forall_forall in Hbelow. apply Hbelow in Hx as Hx'.
  destruct (es_events_ s) as [|e es]; [lia|].
  assert (seq_lt x e) as Hlt by (apply Hcross; [done|left]). unfold seq_lt in Hlt. lia.
Qed.
End EventStore.

Lemma event_store_refines_log_witness :
  let _ := sample_layout in
  let s0 := mkEventStore (mkEventLimits 1 1000) 7 1 0 [] in
  let ds := [sample_draft; sample_draft] in
  let s := publish_all s0 ds in
  es_events_ s = retained (mkEventLimits 1 1000) (accepted s0 ds) /\
  storedBytes s = sum_by eventBytes (es_events_ s) /\
  eventCount s <= 1 /\ storedBytes s <= 1000 /\
  StronglySorted seq_lt (accepted s0 ds).
Proof.
  apply (@event_store_refines_log sample_layout (mkEventLimits 1 1000) 7); [reflexivity|cbn; lia|cbn; lia].
Defined.

Lemma event_store_since_witness :
  let _ := sample_layout in
  let s0 := mkEventStore (mkEventLimits 1 1000) 7 1 0 [] in
  let s := publish_all s0 [sample_draft; sample_draft] in
  let answer := es_since s 1 in
  let newer := List.filter (fun e => 1 <? ev_sequence e) in
  snap_events answer = newer (es_events_ s) /\
  snap_latest_sequence answer = es_next_sequence_ s - 1 /\
  (snap_first_available_sequence answer <= 1 + 1 ->
     snap_events answer = newer (accepted s0 [sample_draft; sample_draft])).
Proof. apply (@event_store_since sample_layout (mkEventLimits 1 1000) 7). reflexivity. Defined.
