(* ===== verification/DataStore.v ===== *)
(** The metric half of the data manager (src/product/src/data/data_manager.hpp
    and .cpp): limits, the active catalog, the sharded store of latest and
    historical observations, [commit], [readLatest] and [history].

    Every operation holds [state_mutex_] and all shard mutexes, so it is one
    state-passing function on the record [DataManager]; the events an
    operation publishes after releasing the locks are appended to the same
    state.  The heartbeat and health operations are in HealthStore.v. *)
From S2P Require Import Prelude Containers Common Provider Catalog EventStore.
Local Open Scope string_scope.
Local Open Scope list_scope.
Open Scope Z_scope.
Open Scope pdcm_scope.

(** ** Keys and their order *)

Definition entity_tuple (e : EntityRef) : Z * Z * Z :=
  (entity_kind_value (er_kind e), er_id e, er_generation e).
Lemma entity_tuple_inj a b : entity_tuple a = entity_tuple b -> a = b.
Proof. destruct a as [ka ia ga], b as [kb ib gb]. intros [= Hk -> ->]. by destruct ka, kb. Qed.
#[export] Instance EntityRef_ordered : Ordered EntityRef := ordered_by entity_tuple entity_tuple_inj.

Record DataKey := mkKey { dk_entity : EntityRef; dk_metric : MetricId }.
#[export] Instance DataKey_eq_dec : EqDecision DataKey.
Proof. solve_decision. Defined.
Definition key_tuple (k : DataKey) : Z * Z * Z * Z := (entity_tuple (dk_entity k), dk_metric k).
Lemma key_tuple_inj a b : key_tuple a = key_tuple b -> a = b.
Proof.
  destruct a as [ea ma], b as [eb mb]. unfold key_tuple. cbn. intros Ht.
  apply pair_equal_spec in Ht as [He ->]. f_equal. by apply entity_tuple_inj.
Qed.
#[export] Instance DataKey_ordered : Ordered DataKey := ordered_by key_tuple key_tuple_inj.

Definition key_of (o : Observation) : DataKey := mkKey (obs_entity o) (obs_metric o).

(** ** Limits *)

Record DataStoreLimits := mkDataLimits {
  shard_count : Z;
  max_keys : Z;
  max_history_samples_per_key : Z;
  max_history_duration_ns : Z;
  max_total_bytes : Z;
  max_value_bytes : Z;
  max_query_items : Z;
  max_tombstones : Z;
  max_events : Z;
  max_event_bytes : Z;
  max_evidence_items : Z;
  max_evidence_bytes : Z;
  evidence_ttl_ns : Z;
  max_health_entries : Z;
  max_health_evidence_refs : Z;
  max_health_result_bytes : Z;
  max_health_bytes : Z }.
Definition data_limits_default : DataStoreLimits :=
  mkDataLimits 8 4096 64 60000000000 (16 * 1024 * 1024) 4096 4096 1024 4096 (4 * 1024 * 1024)
    1024 (1024 * 1024) 60000000000 8 8 16384 (128 * 1024).

Definition dsl_validate (l : DataStoreLimits) : Status :=
  if (shard_count l =? 0) || (256 <? shard_count l) || (max_keys l =? 0)
     || (max_history_samples_per_key l =? 0) || (max_history_duration_ns l <=? 0)
     || (max_total_bytes l =? 0) || (max_value_bytes l =? 0) || (max_query_items l =? 0)
     || (max_tombstones l =? 0) || (max_events l =? 0) || (max_event_bytes l =? 0)
     || (max_evidence_items l =? 0) || (max_evidence_bytes l =? 0)
     || (evidence_ttl_ns l <=? 0) || (max_health_entries l =? 0)
     || (max_health_evidence_refs l =? 0) || (max_health_result_bytes l =? 0)
     || (max_health_bytes l =? 0) || (max_total_bytes l <? max_value_bytes l)
  then invalid_argument "data store limits must be positive and bounded"
  else st_success.

(** ** State *)

Record Entry := mkEntry {
  e_latest : option Observation; e_last_valid : option Observation; e_history : list Observation }.
Definition entry_default : Entry := mkEntry None None [].

Notation Shard := (list (DataKey * Entry)) (only parsing).

Record CatalogState := mkCatalogState {
  cst_generation : Z;
  cst_topology_unsupported : bool;
  cst_entities : list EntityRef;
  cst_metrics : list (Z * MetricDescriptor);
  cst_heartbeat : option HealthCatalogEntry;
  cst_heartbeat_supported : bool }.
Definition catalog_state_default : CatalogState := mkCatalogState 0 false [] [] None false.

Record EntityTombstone := mkTombstone { tb_entity : EntityRef; tb_retired_catalog_generation : Z }.

Record DataManager := mkDataManager {
  dm_limits_ : DataStoreLimits;
  dm_event_store_ : EventStore;
  dm_shards_ : list Shard;
  dm_catalog_ : CatalogState;
  dm_commit_epoch_ : Z;
  dm_tombstones_ : list EntityTombstone;
  heartbeat_evidence_ : list FirmwareHeartbeatEvidence;
  latest_heartbeat_ : list (EntityRef * Z);
  health_ : list (EntityRef * HealthResult);
  next_evidence_id_ : Z }.

Definition dm_with_events (m : DataManager) (s : EventStore) : DataManager :=
  mkDataManager (dm_limits_ m) s (dm_shards_ m) (dm_catalog_ m) (dm_commit_epoch_ m) (dm_tombstones_ m)
    (heartbeat_evidence_ m) (latest_heartbeat_ m) (health_ m) (next_evidence_id_ m).
Definition dm_with_store (m : DataManager) (shards : list Shard) (epoch : Z) : DataManager :=
  mkDataManager (dm_limits_ m) (dm_event_store_ m) shards (dm_catalog_ m) epoch (dm_tombstones_ m)
    (heartbeat_evidence_ m) (latest_heartbeat_ m) (health_ m) (next_evidence_id_ m).

(** The constructors of the event store and of the manager throw on invalid
    limits. *)
Definition dm_construct (limits : DataStoreLimits) : string + DataManager :=
  match es_construct (mkEventLimits (max_events limits) (max_event_bytes limits)) 1 with
  | inl msg => inl msg
  | inr store =>
      let validation := dsl_validate limits in
      if negb (st_ok validation) then inl (st_message validation)
      else inr (mkDataManager limits store (replicate (Z.to_nat (shard_count limits)) [])
                  catalog_state_default 0 [] [] [] [] 1)
  end.

(** The shard of a key among [count] shards. *)
Definition shard_index (count : Z) (key : DataKey) : nat :=
  let mixed := Z.lxor (Z.lxor (er_id (dk_entity key))
                         (wrap64 (er_generation (dk_entity key) + 11400714819323198485)))
                 (dk_metric key) in
  Z.to_nat (mixed mod count).
Definition shardIndex (m : DataManager) (key : DataKey) : nat := shard_index (zlen (dm_shards_ m)) key.

Definition valueMatches (d : MetricDescriptor) (v : MetricValue) : bool :=
  match md_value_type d, v with
  | MVK_Int64, MV_Int64 _ => true
  | (MVK_Uint64 | MVK_Enum), MV_Uint64 _ => true
  | MVK_Double, MV_Double _ => true
  | MVK_Bool, MV_Bool _ => true
  | MVK_String, MV_String _ => true
  | _, _ => false
  end.

Definition valueBytes (v : MetricValue) : Z :=
  match v with
  | MV_Int64 _ | MV_Uint64 _ | MV_Double _ => 8
  | MV_Bool _ => 1
  | MV_String s => str_size s
  end.

Definition sameLogicalEntity (a b : EntityRef) : bool :=
  (er_kind a ==? er_kind b) && (er_id a =? er_id b).

Definition err_status (code : pdcm_status_t) (msg : string) : Status := mkStatus code msg.
Definition not_active : Status := mkStatus PDCM_STATUS_NOT_INITIALIZED "data catalog is not active".

Section DataStore.
Context `{Layout}.

Definition observationBytes (o : Observation) : Z :=
  sizeof_Observation
  + match obs_value o with Some v => valueBytes v | None => 0 end
  + str_size (src_provider (obs_source o)) + str_size (src_native_source (obs_source o))
  + str_size (st_message (em_status (obs_error o)))
  + str_size (dm_processor_id (obs_derivation o))
  + zlen (dm_input_sequences (obs_derivation o)) * 8
  + match obs_latest_failure o with Some f => str_size (st_message (em_status f)) | None => 0 end.

Definition opt_bytes (o : option Observation) : Z :=
  match o with Some x => observationBytes x | None => 0 end.

Definition entryBytes (e : Entry) : Z :=
  sizeof_Entry + opt_bytes (e_latest e) + opt_bytes (e_last_valid e)
  + sum_by observationBytes (e_history e).

(** Sum over all entries of all shards. *)
Definition total_by (f : Entry -> Z) (ss : list Shard) : Z :=
  sum_by (fun s => sum_by (fun ke => f ke.2) s) ss.
Definition shards_bytes (ss : list Shard) : Z := total_by entryBytes ss.
Definition shards_keys (ss : list Shard) : Z := sum_by zlen ss.

(** ** Catalog activation *)

Definition view_entity_invalid (t : TargetCatalog) (e : EntityRecord) : bool :=
  (ent_target e !=? tc_target t) || (er_kind (ent_ref e) !=? EK_Device)
  || (er_generation (ent_ref e) =? 0).

(** Appending one tombstone and popping from the front beyond the limit. *)
Definition add_tombstone (limit : Z) (ts : list EntityTombstone) (t : EntityTombstone)
    : list EntityTombstone :=
  let ts' := ts ++ [t] in drop (Z.to_nat (zlen ts' - limit)) ts'.

Definition retire_entities (limit generation : Z) (present : list EntityRef)
    (old : list EntityRef) (ts : list EntityTombstone) : list EntityTombstone :=
  foldl (fun ts e => if existsb (fun c => e ==? c) present then ts
                     else add_tombstone limit ts (mkTombstone e generation)) ts old.

Definition heartbeat_capability (v : CatalogView) (entities : list EntityRef) : bool :=
  match entities with
  | [entity] =>
      match cv_capabilities v entity with
      | (status, Some set) =>
          if st_ok status then
            match find_if (fun i => (cap_kind i ==? CAP_Health) && (cap_id i =? kFirmwareHeartbeatHealthId))
                    (cs_items set) with
            | Some item => cap_supported item
            | None => false
            end
          else false
      | (_, None) => false
      end
  | _ => false
  end.

Definition next_catalog (v : CatalogView) (t : TargetCatalog) : CatalogState :=
  let entities := map ent_ref (cv_entities_ v) in
  mkCatalogState (cv_generation_ v) (cv_topology_unsupported_ v) entities
    (foldl (fun ms d => om_emplace (md_id d) d ms) [] (tc_metrics t))
    (* health.front(): validate admits exactly one entry *)
    (head (tc_health t)) (heartbeat_capability v entities).

Definition catalog_event (generation : Z) : EventDraft :=
  mkDraft ET_CatalogChanged SEV_Info None None None 0 generation EP_Monostate.

(** A null snapshot pointer is [None]. *)
Definition activateCatalog (m : DataManager) (catalog : option CatalogView) (t : TargetCatalog)
    : Status * DataManager :=
  match catalog with
  | None => (invalid_argument "data catalog snapshot is invalid", m)
  | Some v =>
      if cv_generation_ v =? 0 then (invalid_argument "data catalog snapshot is invalid", m)
      else
      let target_status := tc_validate t in
      if negb (st_ok target_status) then (target_status, m)
      else if existsb (view_entity_invalid t) (cv_entities_ v)
      then (invalid_argument "data catalog entity is invalid", m)
      else
      let old := dm_catalog_ m in
      if negb (cst_generation old =? 0) && (cv_generation_ v <? cst_generation old)
      then (err_status PDCM_STATUS_STALE_GENERATION "data catalog generation moved backward", m)
      else if cv_generation_ v =? cst_generation old then (st_success, m)
      else
      let tombstones := retire_entities (max_tombstones (dm_limits_ m)) (cv_generation_ v)
                          (map ent_ref (cv_entities_ v)) (cst_entities old) (dm_tombstones_ m) in
      let '(_, _, store) := publish (dm_event_store_ m) (catalog_event (cv_generation_ v)) in
      (st_success,
       mkDataManager (dm_limits_ m) store (map (fun _ => []) (dm_shards_ m)) (next_catalog v t)
         (dm_commit_epoch_ m) tombstones [] [] [] (next_evidence_id_ m))
  end.

(** ** Commit *)

(** The validation loop of [commit]; [seen] is the set of keys of the
    previous turns. *)
Fixpoint validate_batch (m : DataManager) (seen : list DataKey) (observations : list Observation) : Status :=
  match observations with
  | [] => st_success
  | o :: observations' =>
      if bool_decide (key_of o ∈ seen) then invalid_argument "duplicate observation key"
      else if negb (obs_commit_epoch o =? 0)
              || negb (obs_catalog_generation o =? cst_generation (dm_catalog_ m))
              || (obs_status o ==? OS_Stale)
      then err_status PDCM_STATUS_STALE_GENERATION "observation generation or epoch is invalid"
      else if negb (existsb (fun c => c ==? obs_entity o) (cst_entities (dm_catalog_ m)))
      then err_status PDCM_STATUS_STALE_GENERATION "observation entity is stale"
      else
      match om_find (obs_metric o) (cst_metrics (dm_catalog_ m)) with
      | None => err_status PDCM_STATUS_UNSUPPORTED "observation metric is unknown"
      | Some d =>
          if negb (st_ok (validateObservation o))
             || negb (obs_metric_semantic_version o =? md_semantic_version d)
             || match obs_value o with Some v => negb (valueMatches d v) | None => false end
             || match obs_value o with
                | Some v => max_value_bytes (dm_limits_ m) <? valueBytes v
                | None => false
                end
          then invalid_argument "observation does not match metric contract"
          else validate_batch m (key_of o :: seen) observations'
      end
  end.

Definition obs_with_epoch (o : Observation) (epoch : Z) : Observation :=
  mkObservation (obs_entity o) (obs_metric o) (obs_value o) (obs_status o)
    (obs_scheduled_monotonic_time_ns o) (obs_source_sample_time_ns o)
    (obs_observed_monotonic_time_ns o) (obs_metric_semantic_version o) (obs_observed_wall_time_ns o)
    (obs_catalog_generation o) epoch (obs_counter_epoch o) (obs_source o) (obs_stale_age_ns o)
    (obs_latest_failure o) (obs_error o) (obs_derivation o).

(** The two trimming loops on the history of an entry. *)
Definition trim_count (limit : Z) (h : list Observation) : list Observation :=
  drop (Z.to_nat (zlen h - limit)) h.
Fixpoint trim_age (limit now : Z) (h : list Observation) : list Observation :=
  match h with
  | [] => []
  | x :: h' =>
      if limit <? now - obs_observed_monotonic_time_ns x then trim_age limit now h' else h
  end.

(** Recording one observation in its entry; [None] is time moving backward. *)
Definition record_entry (l : DataStoreLimits) (o : Observation) (e : Entry) : option Entry :=
  if match e_latest e with
     | Some x => obs_observed_monotonic_time_ns o <? obs_observed_monotonic_time_ns x
     | None => false
     end
  then None
  else if obs_status o ==? OS_Valid
  then Some (mkEntry (Some o) (Some o)
         (trim_age (max_history_duration_ns l) (obs_observed_monotonic_time_ns o)
            (trim_count (max_history_samples_per_key l) (e_history e ++ [o]))))
  else Some (mkEntry (Some o) (e_last_valid e) (e_history e)).

Definition shard_at (staged : list Shard) (i : nat) : Shard := default [] (staged !! i).

Definition store_entry (staged : list Shard) (i : nat) (key : DataKey) (e : Entry) : list Shard :=
  <[i := om_set key e (shard_at staged i)]> staged.

(** The staging loop of [commit]; [None] when an observation is rejected. *)
Fixpoint stage_batch (m : DataManager) (epoch : Z) (observations : list Observation)
    (staged : list Shard) (partial : bool) : option (list Shard * bool) :=
  match observations with
  | [] => Some (staged, partial)
  | o :: observations' =>
      let o' := obs_with_epoch o epoch in
      let key := key_of o' in
      let i := shardIndex m key in
      match record_entry (dm_limits_ m) o' (default entry_default (om_find key (shard_at staged i))) with
      | None => None
      | Some e =>
          stage_batch m epoch observations' (store_entry staged i key e)
            (partial || (obs_status o' !=? OS_Valid))
      end
  end.

(** The scan for the entry with the oldest first sample: the first minimum
    below the largest [int64]. *)
Fixpoint oldest_in_shard (i : nat) (s : Shard) (best : option (nat * DataKey * Entry)) (time : Z)
    : option (nat * DataKey * Entry) * Z :=
  match s with
  | [] => (best, time)
  | (k, e) :: s' =>
      match e_history e with
      | x :: _ =>
          if obs_observed_monotonic_time_ns x <? time
          then oldest_in_shard i s' (Some (i, k, e)) (obs_observed_monotonic_time_ns x)
          else oldest_in_shard i s' best time
      | [] => oldest_in_shard i s' best time
      end
  end.
Fixpoint oldest_from (i : nat) (ss : list Shard) (best : option (nat * DataKey * Entry)) (time : Z)
    : option (nat * DataKey * Entry) :=
  match ss with
  | [] => best
  | s :: ss' => let '(best', time') := oldest_in_shard i s best time in oldest_from (S i) ss' best' time'
  end.
Definition oldest_entry (ss : list Shard) : option (nat * DataKey * Entry) := oldest_from 0 ss None i64_max.

(** The eviction loop.  Each turn removes one sample, so [history_total]
    turns are enough. *)
Definition history_total (ss : list Shard) : nat :=
  Z.to_nat (total_by (fun e => zlen (e_history e)) ss).

Fixpoint evict (fuel : nat) (limit : Z) (ss : list Shard) (total : Z) : list Shard * Z :=
  match fuel with
  | O => (ss, total)
  | S fuel' =>
      if limit <? total then
        match oldest_entry ss with
        | None => (ss, total)
        | Some (i, k, e) =>
            match e_history e with
            | x :: h => evict fuel' limit
                          (store_entry ss i k (mkEntry (e_latest e) (e_last_valid e) h))
                          (total - observationBytes x)
            | [] => (ss, total)
            end
        end
      else (ss, total)
  end.

Definition update_event (epoch : Z) (o : Observation) : EventDraft :=
  mkDraft ET_MetricUpdate (if obs_status o ==? OS_Valid then SEV_Info else SEV_Warning)
    (Some (obs_entity o)) (Some (obs_metric o)) None (obs_observed_monotonic_time_ns o)
    (obs_catalog_generation o) (EP_MetricUpdate (mkMetricUpdate (obs_status o) epoch)).

Record DataCommitResult := mkDataCommit {
  dcr_status : Status; dcr_commit_epoch : Z; dcr_committed_items : Z }.

Definition dm_commit (m : DataManager) (observations : list Observation)
    : DataCommitResult * DataManager :=
  let failed status := (mkDataCommit status 0 0, m) in
  if is_nil observations then failed (invalid_argument "observation batch is empty")
  else if cst_generation (dm_catalog_ m) =? 0 then failed not_active
  else if cst_topology_unsupported (dm_catalog_ m)
  then failed (err_status PDCM_STATUS_UNSUPPORTED "data commit rejects multi-device P0")
  else if dm_commit_epoch_ m =? u64_max
  then failed (err_status PDCM_STATUS_INTERNAL "data commit epoch overflow")
  else
  let validation := validate_batch m [] observations in
  if negb (st_ok validation) then failed validation
  else
  let next_epoch := dm_commit_epoch_ m + 1 in
  match stage_batch m next_epoch observations (dm_shards_ m) false with
  | None => failed (invalid_argument "observation time moved backward")
  | Some (staged, partial) =>
      if max_keys (dm_limits_ m) <? shards_keys staged
      then failed (err_status PDCM_STATUS_RESOURCE_EXHAUSTED "data key limit exceeded")
      else
      let '(staged, total) :=
        evict (S (history_total staged)) (max_total_bytes (dm_limits_ m)) staged (shards_bytes staged) in
      if max_total_bytes (dm_limits_ m) <? total
      then failed (err_status PDCM_STATUS_RESOURCE_EXHAUSTED "data byte limit exceeded")
      else
      let m' := dm_with_store m staged next_epoch in
      (mkDataCommit
         (if partial
          then err_status PDCM_STATUS_PARTIAL_RESULT "observation batch contains failed items"
          else st_success) next_epoch (zlen observations),
       dm_with_events m' (publish_all (dm_event_store_ m') (map (update_event next_epoch) observations)))
  end.

(** ** Reads *)

Definition md_default : MetricDescriptor :=
  mkMetricDescriptor 0 "" MVK_Uint64 "" MT_Gauge EK_Device MCM_Poll 0 0 0 false false RL_Conditional 0
    false [].

Definition unavailable (key : DataKey) (d : MetricDescriptor) (catalog_generation commit_epoch now : Z)
    (status : pdcm_status_t) (observation_status : ObservationStatus) (message : string) : Observation :=
  mkObservation (dk_entity key) (dk_metric key) None observation_status 0 None now
    (if md_semantic_version d =? 0 then 1 else md_semantic_version d) 0 catalog_generation commit_epoch
    0 (mkSource "pdcm-data" "") None None (mkError (mkStatus status message) 0 false) dm_default.

(** The stale view of an entry: its last valid sample with the latest
    failure. *)
Definition stale_of (last latest : Observation) (now : Z) : Observation :=
  mkObservation (obs_entity last) (obs_metric last) (obs_value last) OS_Stale
    (obs_scheduled_monotonic_time_ns last) (obs_source_sample_time_ns last)
    (obs_observed_monotonic_time_ns last) (obs_metric_semantic_version last)
    (obs_observed_wall_time_ns last) (obs_catalog_generation last) (obs_commit_epoch latest)
    (obs_counter_epoch last) (obs_source last) (Some (now - obs_observed_monotonic_time_ns last))
    (Some (obs_error latest)) (obs_error latest) (obs_derivation last).

(** One turn of the loop of [readLatest]: an item, or the status that aborts
    the whole query. *)
Definition read_item (m : DataManager) (allow_stale : bool) (now : Z) (key : DataKey)
    : Status + Observation :=
  let c := dm_catalog_ m in
  match find_if (fun candidate => sameLogicalEntity candidate (dk_entity key)) (cst_entities c) with
  | None => inl (err_status PDCM_STATUS_NOT_FOUND "query entity is not present")
  | Some current =>
      if current !=? dk_entity key
      then inl (err_status PDCM_STATUS_STALE_GENERATION "query entity generation is stale")
      else
      match om_find (dk_metric key) (cst_metrics c) with
      | None => inr (unavailable key md_default (cst_generation c) (dm_commit_epoch_ m) now
                       PDCM_STATUS_UNSUPPORTED OS_Unsupported "metric is not in active catalog")
      | Some d =>
          match om_find key (shard_at (dm_shards_ m) (shardIndex m key)) with
          | Some (mkEntry (Some latest) last_valid _) =>
              match last_valid with
              | Some last =>
                  if (obs_status latest !=? OS_Valid) && allow_stale then
                    if now <? obs_observed_monotonic_time_ns last
                    then inl (invalid_argument "query time moved backward")
                    else inr (stale_of last latest now)
                  else inr latest
              | None => inr latest
              end
          | _ => inr (unavailable key d (cst_generation c) (dm_commit_epoch_ m) now
                        PDCM_STATUS_UNAVAILABLE OS_NotAvailable "metric has not been sampled")
          end
      end
  end.

Fixpoint read_items (m : DataManager) (allow_stale : bool) (now : Z) (keys : list DataKey)
    : Status + list Observation :=
  match keys with
  | [] => inr []
  | k :: keys' =>
      match read_item m allow_stale now k with
      | inl st => inl st
      | inr o => match read_items m allow_stale now keys' with
                 | inl st => inl st
                 | inr os => inr (o :: os)
                 end
      end
  end.

Record DataReadResult := mkDataRead {
  drr_status : Status;
  drr_catalog_generation : Z;
  drr_observed_commit_epoch : Z;
  drr_items : list Observation }.

Definition readLatest (m : DataManager) (keys : list DataKey) (allow_stale : bool)
    (now required_catalog_generation : Z) : DataReadResult :=
  if is_nil keys || (max_query_items (dm_limits_ m) <? zlen keys) || (now <? 0)
  then mkDataRead (invalid_argument "data query arguments are invalid") 0 0 []
  else
  let keys := std_sort keys in
  if has_adjacent_dup keys
  then mkDataRead (invalid_argument "data query contains duplicates") 0 0 []
  else
  let c := dm_catalog_ m in
  let result status items := mkDataRead status (cst_generation c) (dm_commit_epoch_ m) items in
  if cst_generation c =? 0 then result not_active []
  else if negb (required_catalog_generation =? 0)
          && negb (required_catalog_generation =? cst_generation c)
  then result (err_status PDCM_STATUS_STALE_GENERATION "query catalog generation is stale") []
  else if cst_topology_unsupported c
  then result (err_status PDCM_STATUS_UNSUPPORTED "data query rejects multi-device P0") []
  else
  match read_items m allow_stale now keys with
  | inl status => result status []
  | inr items =>
      result (if existsb (fun o => obs_status o !=? OS_Valid) items
              then err_status PDCM_STATUS_PARTIAL_RESULT "data query contains non-valid items"
              else st_success) items
  end.

Definition dm_history (m : DataManager) (key : DataKey) : Status * list Observation :=
  if cst_generation (dm_catalog_ m) =? 0 then (not_active, [])
  else
  match om_find key (shard_at (dm_shards_ m) (shardIndex m key)) with
  | None => (err_status PDCM_STATUS_NOT_FOUND "data history is not present", [])
  | Some e => (st_success, e_history e)
  end.

Definition metricDescriptor (m : DataManager) (metric : MetricId) : option MetricDescriptor :=
  om_find metric (cst_metrics (dm_catalog_ m)).
Definition catalogGeneration (m : DataManager) : Z := cst_generation (dm_catalog_ m).
Definition commitEpoch (m : DataManager) : Z := dm_commit_epoch_ m.
Definition keyCount (m : DataManager) : Z := shards_keys (dm_shards_ m).

Definition publishEvent (m : DataManager) (d : EventDraft) : Status * option PdcmEvent * DataManager :=
  let '(st, e, s) := publish (dm_event_store_ m) d in (st, e, dm_with_events m s).
Definition eventsSince (m : DataManager) (sequence : Z) : EventSnapshot :=
  es_since (dm_event_store_ m) sequence.

(** ** The sharded store as a finite map *)

Implicit Types (ss : list Shard).

Definition lookup_entry (ss : list Shard) (key : DataKey) : option Entry :=
  om_find key (shard_at ss (shard_index (zlen ss) key)).

(** The latest and the last valid observation of a key. *)
Definition latest_of (ss : list Shard) (key : DataKey) : option Observation :=
  match lookup_entry ss key with Some e => e_latest e | None => None end.
Definition last_valid_of (ss : list Shard) (key : DataKey) : option Observation :=
  match lookup_entry ss key with Some e => e_last_valid e | None => None end.

(** No two references of a catalog denote the same device. *)
Definition logical_unique (es : list EntityRef) : Prop :=
  forall a b, a ∈ es -> b ∈ es -> sameLogicalEntity a b = true -> a = b.

(** Shards are ordered maps and every key lies in its own shard. *)
Record placed (ss : list Shard) : Prop := {
  pl_nonempty : ss <> [];
  pl_wf : forall i s, ss !! i = Some s -> om_wf s;
  pl_index : forall i s k, ss !! i = Some s -> k ∈ s.*1 -> shard_index (zlen ss) k = i }.

Lemma shard_index_lt ss k : ss <> [] -> (shard_index (zlen ss) k < length ss)%nat.
Proof.
  intros Hne. unfold shard_index. cbv zeta. set (mixed := Z.lxor _ _).
  assert (0 < zlen ss) by (destruct ss; [done|rewrite zlen_cons; pose proof (zlen_nonneg ss); lia]).
  pose proof (Z.mod_pos_bound mixed (zlen ss)). unfold zlen in *. lia.
Qed.

Lemma store_entry_zlen ss i k e : zlen (store_entry ss i k e) = zlen ss.
Proof. unfold store_entry, zlen. by rewrite length_insert. Qed.

Lemma shard_at_Some ss i s : ss !! i = Some s -> shard_at ss i = s.
Proof. intros Hs. unfold shard_at. by rewrite Hs. Qed.

Lemma store_entry_lookup ss k e k' :
  ss <> [] ->
  lookup_entry (store_entry ss (shard_index (zlen ss) k) k e) k' =
  if decide (k = k') then Some e else lookup_entry ss k'.
Proof.
  intros Hne. unfold lookup_entry. rewrite store_entry_zlen.
  set (i := shard_index (zlen ss) k). pose proof (shard_index_lt ss k Hne) as Hlt. fold i in Hlt.
  destruct (decide (i = shard_index (zlen ss) k')) as [Hi|Hi].
  - rewrite <- Hi. unfold shard_at at 1, store_entry. rewrite list_lookup_insert_eq by done. cbn.
    destruct (decide (k = k')) as [->|Hk]; [by rewrite om_find_set_eq|by rewrite om_find_set_ne].
  - destruct (decide (k = k')) as [->|Hk]; [done|].
    unfold shard_at at 1, store_entry. by rewrite list_lookup_insert_ne.
Qed.

Lemma store_entry_placed ss k e :
  placed ss -> placed (store_entry ss (shard_index (zlen ss) k) k e).
Proof.
  intros [Hne Hwf Hidx]. pose proof (shard_index_lt ss k Hne) as Hlt.
  assert (om_wf (shard_at ss (shard_index (zlen ss) k))) as Hs.
  { destruct (lookup_lt_is_Some_2 _ _ Hlt) as [s Hs]. rewrite (shard_at_Some _ _ _ Hs). by eapply Hwf. }
  split.
  - intros Hnil. apply (f_equal length) in Hnil. unfold store_entry in Hnil.
    rewrite length_insert in Hnil. cbn in Hnil. lia.
  - intros i s. unfold store_entry. intros [(<- & <- & _)|[_ Hi]]%list_lookup_insert_Some; eauto with pdcm.
  - rewrite store_entry_zlen. intros i s k'. unfold store_entry.
    intros [(<- & <- & _)|[_ Hi]]%list_lookup_insert_Some; [|by eapply Hidx].
    intros [->|Hk]%om_set_keys; [done|].
    destruct (lookup_lt_is_Some_2 _ _ Hlt) as [s' Hs']. rewrite (shard_at_Some _ _ _ Hs') in Hk.
    by eapply Hidx.
Qed.

Lemma lookup_entry_elem ss i s k e :
  placed ss -> ss !! i = Some s -> (k, e) ∈ s -> i = shard_index (zlen ss) k /\ lookup_entry ss k = Some e.
Proof.
  intros [Hne Hwf Hidx] Hs Hke.
  assert (shard_index (zlen ss) k = i) as Hi.
  { eapply Hidx; [done|]. apply list_elem_of_fmap. by exists (k, e). }
  split; [done|]. unfold lookup_entry. rewrite Hi, (shard_at_Some _ _ _ Hs).
  apply om_elem_find; [|done]. by eapply Hwf.
Qed.

Lemma lookup_entry_inv ss k e :
  lookup_entry ss k = Some e ->
  exists s, ss !! shard_index (zlen ss) k = Some s /\ (k, e) ∈ s.
Proof.
  unfold lookup_entry, shard_at. destruct (ss !! _) as [s|]; cbn; [|done].
  intros He%om_find_elem. by exists s.
Qed.

(** ** Sums over the store *)

Lemma sum_by_om_set (f : Entry -> Z) k e (s : Shard) :
  om_wf s ->
  sum_by (fun ke => f ke.2) (om_set k e s) =
  sum_by (fun ke => f ke.2) s + f e - match om_find k s with Some e0 => f e0 | None => 0 end.
Proof.
  unfold om_wf. induction s as [|[k' e'] s IH]; intros Hwf; [cbn; lia|].
  apply StronglySorted_inv in Hwf as [Hs Hall]. cbn [om_set om_find]. unfold key_eqb.
  destruct (key_ltb k k') eqn:E1; rewrite ?sum_by_cons; cbn [snd negb andb].
  - replace (om_find k s) with (@None Entry); [lia|]. symmetry. apply om_find_None. intros Hk.
    rewrite Forall_forall in Hall. apply Hall in Hk. unfold key_lt in Hk.
    assert (key_ltb k k = true) as Hkk by by eapply key_ltb_trans. by rewrite key_ltb_irrefl in Hkk.
  - destruct (key_ltb k' k) eqn:E2; rewrite ?sum_by_cons; cbn [snd negb andb]; [|lia].
    rewrite IH by done. lia.
Qed.

Lemma sum_by_insert {A} (f : A -> Z) (l : list A) i x y :
  l !! i = Some y -> sum_by f (<[i := x]> l) = sum_by f l + f x - f y.
Proof.
  revert i. induction l as [|z l IH]; intros [|i] Hi; simplify_eq/=; [lia|]. rewrite IH by done. lia.
Qed.

Lemma total_by_store (f : Entry -> Z) ss k e :
  placed ss ->
  total_by f (store_entry ss (shard_index (zlen ss) k) k e) =
  total_by f ss + f e - match lookup_entry ss k with Some e0 => f e0 | None => 0 end.
Proof.
  intros [Hne Hwf _]. pose proof (shard_index_lt ss k Hne) as Hlt.
  destruct (lookup_lt_is_Some_2 _ _ Hlt) as [s Hs]. unfold total_by, store_entry, lookup_entry.
  rewrite (shard_at_Some _ _ _ Hs). erewrite sum_by_insert by done.
  rewrite sum_by_om_set by (by eapply Hwf). lia.
Qed.

Lemma shards_keys_total ss : shards_keys ss = total_by (fun _ => 1) ss.
Proof.
  unfold shards_keys, total_by. induction ss as [|s ss IH]; [done|].
  rewrite !sum_by_cons, IH. f_equal. clear. induction s as [|ke s IH]; [done|].
  rewrite zlen_cons, sum_by_cons. lia.
Qed.

Lemma observationBytes_pos o : 0 < observationBytes o.
Proof.
  pose proof layout_pos as Hl. rewrite !Forall_cons in Hl. unfold observationBytes, str_size.
  pose proof (zlen_nonneg (dm_input_sequences (obs_derivation o))).
  destruct (obs_value o) as [[]|], (obs_latest_failure o); cbn [valueBytes]; unfold str_size; lia.
Qed.

Lemma total_by_nonneg (f : Entry -> Z) ss : (forall e, 0 <= f e) -> 0 <= total_by f ss.
Proof. intros Hf. apply sum_by_nonneg. intros s. apply sum_by_nonneg. auto. Qed.

(** ** Eviction *)

Definition best_ok (ss : list Shard) (b : option (nat * DataKey * Entry)) : Prop :=
  match b with
  | None => True
  | Some (i, k, e) => exists s, ss !! i = Some s /\ (k, e) ∈ s /\ e_history e <> []
  end.

Lemma oldest_in_shard_ok ss i s0 s best time :
  ss !! i = Some s0 -> (forall ke, ke ∈ s -> ke ∈ s0) -> best_ok ss best ->
  best_ok ss (fst (oldest_in_shard i s best time)).
Proof.
  intros Hi. revert best time. induction s as [|[k e] s IH]; intros best time Hsub Hb; [done|].
  cbn [oldest_in_shard]. assert (forall ke, ke ∈ s -> ke ∈ s0) as Hsub' by (intros; apply Hsub; by right).
  destruct (e_history e) as [|x h] eqn:Eh; [by apply IH|]. guard as G; [|by apply IH].
  apply IH; [done|]. exists s0. split; [done|]. split; [apply Hsub; left|congruence].
Qed.

Lemma oldest_from_ok ss pre post best time :
  ss = pre ++ post -> best_ok ss best -> best_ok ss (oldest_from (length pre) post best time).
Proof.
  revert pre best time. induction post as [|s post IH]; intros pre best time Hss Hb; [done|].
  cbn [oldest_from]. pose proof (oldest_in_shard_ok ss (length pre) s s best time) as Hs.
  destruct (oldest_in_shard (length pre) s best time) as [best' time'].
  replace (S (length pre)) with (length (pre ++ [s])) by (rewrite length_app; cbn; lia).
  apply IH; [by rewrite <- app_assoc|]. apply Hs; [|done|done].
  rewrite Hss. by apply list_lookup_middle.
Qed.

Lemma oldest_entry_Some ss i k e :
  placed ss -> oldest_entry ss = Some (i, k, e) ->
  i = shard_index (zlen ss) k /\ lookup_entry ss k = Some e /\ e_history e <> [].
Proof.
  intros Hp Ho. pose proof (oldest_from_ok ss [] ss None i64_max eq_refl I) as Hok.
  cbn [length] in Hok. fold (oldest_entry ss) in Hok. rewrite Ho in Hok.
  destruct Hok as (s & Hs & Hke & Hne). by destruct (lookup_entry_elem ss i s k e Hp Hs Hke).
Qed.

(** What eviction may change in an entry. *)
Definition evicted (e e' : Entry) : Prop :=
  e_latest e' = e_latest e /\ e_last_valid e' = e_last_valid e /\
  exists pre, e_history e = pre ++ e_history e'.

Lemma evicted_refl e : evicted e e.
Proof. split; [done|]. split; [done|]. by exists []. Qed.
Lemma evicted_trans e1 e2 e3 : evicted e1 e2 -> evicted e2 e3 -> evicted e1 e3.
Proof.
  intros (H1 & H2 & p & H3) (H4 & H5 & q & H6). split; [congruence|]. split; [congruence|].
  exists (p ++ q). by rewrite H3, H6, app_assoc.
Qed.

(** The loop keeps the placement, only drops leading history samples, keeps
    its byte count exact, and stops because the limit holds or because nothing
    is left to evict, never for lack of fuel. *)
Lemma evict_spec fuel limit ss :
  placed ss -> (history_total ss < fuel)%nat ->
  let '(ss', total) := evict fuel limit ss (shards_bytes ss) in
  placed ss' /\ zlen ss' = zlen ss /\ total = shards_bytes ss' /\ shards_keys ss' = shards_keys ss /\
  (total <= limit \/ oldest_entry ss' = None) /\
  (forall k, match lookup_entry ss k, lookup_entry ss' k with
             | Some e, Some e' => evicted e e'
             | None, None => True
             | _, _ => False
             end).
Proof.
  revert ss. induction fuel as [|fuel IH]; intros ss Hp Hf; [lia|]. cbn [evict].
  assert (forall k, match lookup_entry ss k, lookup_entry ss k with
             | Some e, Some e' => evicted e e' | None, None => True | _, _ => False end) as Hrefl.
  { intros k. destruct (lookup_entry ss k); [apply evicted_refl|done]. }
  guard as G; bprop in G; [|split_and!; auto].
  destruct (oldest_entry ss) as [[[i k] e]|] eqn:Eo; [|split_and!; auto].
  destruct (oldest_entry_Some _ _ _ _ Hp Eo) as (-> & Hk & Hne).
  destruct (e_history e) as [|x h] eqn:Eh; [done|].
  set (e1 := mkEntry (e_latest e) (e_last_valid e) h).
  set (ss1 := store_entry ss (shard_index (zlen ss) k) k e1).
  assert (placed ss1) as Hp1 by by apply store_entry_placed.
  pose proof (total_by_store entryBytes ss k e1 Hp) as Hb. fold ss1 in Hb. rewrite Hk in Hb.
  pose proof (total_by_store (fun e => zlen (e_history e)) ss k e1 Hp) as Hh. fold ss1 in Hh. rewrite Hk in Hh.
  pose proof (total_by_store (fun _ => 1) ss k e1 Hp) as Hn. fold ss1 in Hn. rewrite Hk in Hn.
  replace (shards_bytes ss - observationBytes x) with (shards_bytes ss1).
  2:{ unfold shards_bytes. rewrite Hb. unfold e1, entryBytes. rewrite Eh. cbn [e_latest e_last_valid e_history].
      rewrite sum_by_cons. lia. }
  specialize (IH ss1 Hp1). destruct (evict fuel limit ss1 (shards_bytes ss1)) as [ss' total].
  destruct IH as (H1 & H2 & H3 & H4 & H5 & H6).
  { unfold history_total in *. rewrite Eh in Hh. cbn [e1 e_history] in Hh. rewrite zlen_cons in Hh.
    pose proof (total_by_nonneg (fun e => zlen (e_history e)) ss1 (fun e => zlen_nonneg (e_history e))). lia. }
  rewrite !shards_keys_total in *. unfold ss1 in H2. rewrite store_entry_zlen in H2.
  split_and!; auto; [lia|]. intros k'. specialize (H6 k'). unfold ss1 in H6.
  rewrite store_entry_lookup in H6 by apply Hp. destruct (decide (k = k')) as [<-|Hkk]; [|done].
  rewrite Hk. destruct (lookup_entry ss' k) as [e'|]; [|done].
  eapply evicted_trans; [|exact H6]. split; [done|]. split; [done|]. exists [x]. by rewrite Eh.
Qed.

(** ** Store invariant *)

(** A stored observation of key [k]. *)
Record stored_ok (c : CatalogState) (epoch : Z) (k : DataKey) (o : Observation) : Prop := {
  sk_key : key_of o = k;
  sk_valid : ObservationOk o;
  sk_not_stale : obs_status o <> OS_Stale;
  sk_generation : obs_catalog_generation o = cst_generation c;
  sk_epoch : 1 <= obs_commit_epoch o <= epoch;
  sk_entity : obs_entity o ∈ cst_entities c;
  sk_metric : exists d, om_find (obs_metric o) (cst_metrics c) = Some d /\
    obs_metric_semantic_version o = md_semantic_version d }.

Definition time_le (a b : Observation) : Prop :=
  obs_observed_monotonic_time_ns a <= obs_observed_monotonic_time_ns b.

Record entry_wf (l : DataStoreLimits) (c : CatalogState) (epoch : Z) (k : DataKey) (e : Entry) : Prop := {
  ew_latest : exists o, e_latest e = Some o /\ stored_ok c epoch k o /\
    (obs_status o = OS_Valid -> e_last_valid e = Some o) /\
    (forall v, e_last_valid e = Some v -> time_le v o);
  ew_last_valid : forall o, e_last_valid e = Some o -> stored_ok c epoch k o /\ obs_status o = OS_Valid;
  ew_history : Forall (fun o => stored_ok c epoch k o /\ obs_status o = OS_Valid) (e_history e);
  ew_sorted : StronglySorted time_le (e_history e);
  ew_samples : zlen (e_history e) <= max_history_samples_per_key l;
  ew_recent : forall v, e_last_valid e = Some v -> Forall (fun o => time_le o v /\
    obs_observed_monotonic_time_ns v - obs_observed_monotonic_time_ns o <= max_history_duration_ns l)
    (e_history e);
  ew_no_valid : e_last_valid e = None -> e_history e = [] }.

Record store_wf (l : DataStoreLimits) (c : CatalogState) (epoch : Z) (ss : list Shard) : Prop := {
  stw_placed : placed ss;
  stw_entries : forall k e, lookup_entry ss k = Some e -> entry_wf l c epoch k e }.

Lemma stored_ok_mono c n n' k o : n <= n' -> stored_ok c n k o -> stored_ok c n' k o.
Proof. intros Hn [H1 H2 H3 H4 H5 H6 H7]. split; auto. lia. Qed.

Lemma entry_wf_mono l c n n' k e : n <= n' -> entry_wf l c n k e -> entry_wf l c n' k e.
Proof.
  intros Hn [(o & H1 & H2 & H3 & H3') H4 H5 H6 H7 H8 H9]. split; auto.
  - exists o. split_and!; auto. by eapply stored_ok_mono.
  - intros v Hv. destruct (H4 v Hv). split; [by eapply stored_ok_mono|done].
  - eapply Forall_impl; [exact H5|]. intros x [Hx ?]. split; [by eapply stored_ok_mono|done].
Qed.

Lemma suffix_sorted {A} (R : A -> A -> Prop) (p q : list A) : StronglySorted R (p ++ q) -> StronglySorted R q.
Proof. by intros (_ & _ & ?)%StronglySorted_app. Qed.

Lemma entry_wf_evicted l c n k e e' : entry_wf l c n k e -> evicted e e' -> entry_wf l c n k e'.
Proof.
  intros [H1 H2 H3 H4 H5 H6 H7] (Hl & Hv & pre & Hh). rewrite Hh in *.
  split; rewrite ?Hl, ?Hv; auto.
  - apply Forall_app in H3. tauto.
  - by eapply suffix_sorted.
  - rewrite zlen_app in H5. pose proof (zlen_nonneg pre). lia.
  - intros v Hv'. specialize (H6 v Hv'). apply Forall_app in H6. tauto.
  - intros Hn. specialize (H7 Hn). by apply app_nil in H7 as [_ ?].
Qed.

Lemma evict_wf l c n fuel limit ss :
  store_wf l c n ss -> (history_total ss < fuel)%nat ->
  store_wf l c n (fst (evict fuel limit ss (shards_bytes ss))).
Proof.
  intros [Hp He] Hf. pose proof (evict_spec fuel limit ss Hp Hf) as Hs.
  destruct (evict _ _ _ _) as [ss' total]. destruct Hs as (Hp' & _ & _ & _ & _ & Hk).
  split; [done|]. cbn [fst]. intros k e' He'. specialize (Hk k). rewrite He' in Hk.
  destruct (lookup_entry ss k) as [e|] eqn:E; [|done]. eapply entry_wf_evicted; [by apply He|done].
Qed.

(** ** Validation and staging of a batch *)

Record batch_ok (m : DataManager) (o : Observation) : Prop := {
  bo_epoch : obs_commit_epoch o = 0;
  bo_generation : obs_catalog_generation o = cst_generation (dm_catalog_ m);
  bo_not_stale : obs_status o <> OS_Stale;
  bo_entity : obs_entity o ∈ cst_entities (dm_catalog_ m);
  bo_valid : ObservationOk o;
  bo_metric : exists d, om_find (obs_metric o) (cst_metrics (dm_catalog_ m)) = Some d /\
    obs_metric_semantic_version o = md_semantic_version d /\
    forall v, obs_value o = Some v ->
      valueMatches d v = true /\ valueBytes v <= max_value_bytes (dm_limits_ m) }.

Lemma validate_batch_ok m seen os :
  st_ok (validate_batch m seen os) = true ->
  Forall (batch_ok m) os /\ NoDup (map key_of os) /\ (forall o, o ∈ os -> key_of o ∉ seen).
Proof.
  revert seen. induction os as [|o os IH]; intros seen; cbn [validate_batch map].
  { intros _. split_and!; try constructor. by intros o ?%elem_of_nil. }
  guard as G1; [done|]. guard as G2; [done|]. guard as G3; [done|].
  destruct (om_find _ _) as [d|] eqn:Ed; [|done]. guard as G4; [done|]. intros Hok.
  apply bool_decide_eq_false in G1. rewrite !orb_false_iff in G2. repeat rewrite orb_false_iff in G4. destruct G2 as [[G2a G2b] G2c].
  destruct G4 as [[[G4a G4b] G4c] G4d]. bprop in G2a. bprop in G2b. bprop in G2c.
  apply negb_false_iff in G3, G4a. apply existsb_elem in G3 as (c & Hc & Hce). bprop in Hce. subst c.
  apply validateObservation_ok in G4a. bprop in G4b.
  destruct (IH _ Hok) as (Ha & Hn & Hs). split_and!.
  - constructor; [|done]. split; auto. exists d. split_and!; auto. intros v Hv. rewrite Hv in G4c, G4d.
    bprop in G4c. bprop in G4d. done.
  - constructor; [|done]. intros (o' & Ho' & Hin)%list_elem_of_fmap. apply Hs in Hin.
    rewrite Ho' in Hin. apply Hin. left.
  - intros o' [->|Hin]%elem_of_cons; [done|]. apply Hs in Hin. intros Hseen. apply Hin. by right.
Qed.

Lemma validate_batch_accepts m seen os :
  Forall (batch_ok m) os -> NoDup (map key_of os) -> (forall o, o ∈ os -> key_of o ∉ seen) ->
  st_ok (validate_batch m seen os) = true.
Proof.
  intros Hf. revert seen. induction Hf as [|o os [B1 B2 B3 B4 B5 (d & B6 & B7 & B8)] _ IH]; intros seen Hn Hs;
    cbn [validate_batch]; [done|]. cbn [map] in Hn. apply NoDup_cons in Hn as [Ho Hn].
  rewrite bool_decide_false by (apply Hs; left). rewrite B1, B2, (Z.eqb_refl (cst_generation (dm_catalog_ m))), (bool_decide_false (obs_status o = _)) by done.
  change (0 =? 0) with true. cbn [negb orb].
  assert (existsb (fun c => c ==? obs_entity o) (cst_entities (dm_catalog_ m)) = true) as ->.
  { apply existsb_elem. exists (obs_entity o). split; [done|]. by bprop. }
  rewrite B6, B7, (proj2 (validateObservation_ok o) B5), (Z.eqb_refl (md_semantic_version d)). cbn [negb orb].
  assert (st_ok (validate_batch m (key_of o :: seen) os) = true) as Hrest.
  { apply IH; [done|]. intros o' Ho' [Heq|Hseen]%elem_of_cons.
    - apply Ho. rewrite <- Heq. by apply list_elem_of_fmap_2.
    - apply (Hs o'); [by right|done]. }
  destruct (obs_value o) as [v|]; [|exact Hrest]. destruct (B8 v eq_refl) as [-> Hb]. cbn [negb orb].
  by rewrite (proj2 (Z.ltb_ge _ _)).
Qed.

Lemma obs_with_epoch_ok m o epoch :
  1 <= epoch -> batch_ok m o -> stored_ok (dm_catalog_ m) epoch (key_of o) (obs_with_epoch o epoch).
Proof.
  intros He [H1 H2 H3 H4 H5 (d & Hd & Hv & _)]. split; auto; [|cbn; lia|by exists d].
  apply validateObservation_ok. by apply validateObservation_ok in H5.
Qed.

Lemma trim_count_suffix limit h : exists pre, h = pre ++ trim_count limit h.
Proof. exists (take (Z.to_nat (zlen h - limit)) h). unfold trim_count. by rewrite take_drop. Qed.
Lemma trim_count_length limit h : 0 <= limit -> zlen (trim_count limit h) <= limit.
Proof. intros Hl. unfold trim_count, zlen. rewrite length_drop. lia. Qed.
Lemma trim_age_suffix limit now h : exists pre, h = pre ++ trim_age limit now h.
Proof.
  induction h as [|x h [pre IH]]; [by exists []|]. cbn [trim_age]. guard as G; [|by exists []].
  exists (x :: pre). cbn. by f_equal.
Qed.
Lemma trim_age_recent limit now h :
  StronglySorted time_le h ->
  Forall (fun o => now - obs_observed_monotonic_time_ns o <= limit) (trim_age limit now h).
Proof.
  induction 1 as [|x h Hs IH Hall]; [constructor|]. cbn [trim_age]. guard as G; [done|]. bprop in G.
  constructor; [done|]. eapply Forall_impl; [exact Hall|]. unfold time_le. intros y Hy. cbn. lia.
Qed.

(** Recording an observation keeps the entry well-formed. *)
Lemma record_entry_wf l c n k o e e' :
  0 <= max_history_samples_per_key l ->
  e = entry_default \/ entry_wf l c n k e -> stored_ok c n k o ->
  record_entry l o e = Some e' -> entry_wf l c n k e'.
Proof.
  intros Hl He Ho. unfold record_entry. guard as G1; [done|].
  assert (forall v, e_last_valid e = Some v -> time_le v o) as Hlv.
  { intros v Hv. destruct He as [->|[(x & Hx & _ & _ & Hle) _ _ _ _ _ _]]; [done|].
    rewrite Hx in G1. bprop in G1. specialize (Hle v Hv). unfold time_le in *. lia. }
  assert (Forall (fun x => time_le x o) (e_history e)) as Hho.
  { destruct He as [->|[_ _ _ _ _ Hrec Hno]]; [constructor|].
    destruct (e_last_valid e) as [v|]; [|rewrite Hno by done; constructor].
    specialize (Hlv v eq_refl). eapply Forall_impl; [exact (Hrec v eq_refl)|].
    intros x [Hx _]. unfold time_le in *. lia. }
  assert (StronglySorted time_le (e_history e) /\
    Forall (fun x => stored_ok c n k x /\ obs_status x = OS_Valid) (e_history e)) as [Hs0 Ha0].
  { destruct He as [->|He]; [|by split; apply He]. split; [constructor|by apply Forall_nil]. }
  guard as G2; intros [= <-]; bprop in G2.
  - set (h := e_history e ++ [o]).
    assert (StronglySorted time_le h) as Hsort.
    { apply StronglySorted_app. split_and!; [|done|repeat constructor].
      intros x y Hx ->%list_elem_of_singleton. rewrite Forall_forall in Hho. auto. }
    assert (Forall (fun x => stored_ok c n k x /\ obs_status x = OS_Valid) h) as Hall.
    { apply Forall_app. split; [done|]. by apply Forall_singleton. }
    assert (Forall (fun x => time_le x o) h) as Hle.
    { apply Forall_app. split; [done|]. repeat constructor. unfold time_le. lia. }
    destruct (trim_count_suffix (max_history_samples_per_key l) h) as [p1 Hp1].
    set (h1 := trim_count _ h) in *. rewrite Hp1 in Hsort, Hall, Hle.
    apply suffix_sorted in Hsort. apply Forall_app in Hall as [_ Hall]. apply Forall_app in Hle as [_ Hle].
    assert (zlen h1 <= max_history_samples_per_key l) as Hlen1 by by apply trim_count_length.
    pose proof (trim_age_recent (max_history_duration_ns l) (obs_observed_monotonic_time_ns o) h1 Hsort) as Hrec.
    destruct (trim_age_suffix (max_history_duration_ns l) (obs_observed_monotonic_time_ns o) h1) as [p2 Hp2].
    set (h2 := trim_age _ _ h1) in *. rewrite Hp2 in Hsort, Hall, Hle, Hlen1.
    apply suffix_sorted in Hsort. apply Forall_app in Hall as [_ Hall]. apply Forall_app in Hle as [_ Hle].
    rewrite zlen_app in Hlen1. pose proof (zlen_nonneg p2).
    split; cbn [e_latest e_last_valid e_history]; auto; [|by intros x [= <-]|lia| |done].
    + exists o. split_and!; auto. intros v [= <-]. unfold time_le. lia.
    + intros v [= <-]. apply Forall_and. done.
  - split; cbn [e_latest e_last_valid e_history]; destruct He as [->|He]; try (by apply He); auto; try constructor.
    all: try (exists o; split_and!; auto; done). all: try done.
Qed.

(** The staging loop updates the entry of every key of the batch and no other. *)
Lemma stage_batch_spec m epoch os ss p ss' p' :
  0 <= max_history_samples_per_key (dm_limits_ m) -> 1 <= epoch ->
  zlen ss = zlen (dm_shards_ m) ->
  store_wf (dm_limits_ m) (dm_catalog_ m) epoch ss ->
  Forall (batch_ok m) os -> NoDup (map key_of os) ->
  stage_batch m epoch os ss p = Some (ss', p') ->
  store_wf (dm_limits_ m) (dm_catalog_ m) epoch ss' /\ zlen ss' = zlen ss /\
  p' = p || existsb (fun o => obs_status o !=? OS_Valid) os /\
  (forall o, o ∈ os -> exists e, lookup_entry ss' (key_of o) = Some e /\
     record_entry (dm_limits_ m) (obs_with_epoch o epoch)
       (default entry_default (lookup_entry ss (key_of o))) = Some e) /\
  (forall k, k ∉ map key_of os -> lookup_entry ss' k = lookup_entry ss k).
Proof.
  intros Hl He. revert ss p. induction os as [|o os IH]; intros ss p Hz Hwf Hok Hnd; cbn [stage_batch map].
  { intros [= <- <-]. split_and!; auto; [by rewrite orb_false_r|]. by intros o ?%elem_of_nil. }
  apply Forall_cons in Hok as [Ho Hok]. apply NoDup_cons in Hnd as [Hno Hnd].
  change (key_of (obs_with_epoch o epoch)) with (key_of o).
  unfold shardIndex. rewrite <- Hz. fold (lookup_entry ss (key_of o)).
  destruct (record_entry _ _ _) as [e|] eqn:Er; [|done]. intros Hst.
  destruct Hwf as [Hp Hent].
  assert (entry_wf (dm_limits_ m) (dm_catalog_ m) epoch (key_of o) e) as Hew.
  { eapply record_entry_wf; [done| |by apply obs_with_epoch_ok|exact Er].
    destruct (lookup_entry ss (key_of o)) as [e0|] eqn:E0; cbn; [right; by apply Hent|by left]. }
  set (ss1 := store_entry ss (shard_index (zlen ss) (key_of o)) (key_of o) e) in *.
  assert (forall k, lookup_entry ss1 k = if decide (key_of o = k) then Some e else lookup_entry ss k) as Hlk.
  { intros k. unfold ss1. by rewrite store_entry_lookup by apply Hp. }
  assert (store_wf (dm_limits_ m) (dm_catalog_ m) epoch ss1) as Hwf1.
  { split; [by apply store_entry_placed|]. intros k e'. rewrite Hlk.
    destruct (decide (key_of o = k)) as [<-|Hne]; [by intros [= <-]|apply Hent]. }
  assert (zlen ss1 = zlen ss) as Hz1 by apply store_entry_zlen.
  apply IH in Hst as (H1 & H2 & H3 & H4 & H5); [|congruence|done|done|done].
  split_and!; [done|congruence| | |].
  - rewrite H3. cbn. by rewrite orb_assoc.
  - intros o' [->|Ho']%elem_of_cons.
    + exists e. split; [|done]. rewrite H5 by done. rewrite Hlk. by rewrite decide_True.
    + destruct (H4 o' Ho') as (e' & He' & Hr'). exists e'. split; [done|].
      rewrite Hlk, decide_False in Hr'; [done|]. intros Heq. apply Hno. rewrite Heq.
      apply list_elem_of_fmap. by exists o'.
  - intros k Hk. apply not_elem_of_cons in Hk as [Hk1 Hk2]. rewrite H5 by done. rewrite Hlk.
    by rewrite decide_False by congruence.
Qed.

(** ** Invariant of the manager *)

Definition data_limits_wf (l : DataStoreLimits) : Prop :=
  st_ok (dsl_validate l) = true /\ 0 <= shard_count l /\ 0 <= max_keys l /\ 0 <= max_query_items l /\
  0 <= max_history_samples_per_key l /\ 0 <= max_total_bytes l /\ 0 <= max_tombstones l /\
  0 <= max_events l /\ 0 <= max_event_bytes l /\ 0 <= max_evidence_items l /\
  0 <= max_evidence_bytes l /\ 0 <= max_health_entries l /\ 0 <= max_health_bytes l.

Record data_wf (m : DataManager) : Prop := {
  dw_limits : data_limits_wf (dm_limits_ m);
  dw_shards : zlen (dm_shards_ m) = shard_count (dm_limits_ m);
  dw_entities : Forall (fun e => er_kind e = EK_Device /\ er_generation e <> 0) (cst_entities (dm_catalog_ m));
  dw_store : store_wf (dm_limits_ m) (dm_catalog_ m) (dm_commit_epoch_ m) (dm_shards_ m);
  dw_keys : keyCount m <= max_keys (dm_limits_ m);
  dw_bytes : shards_bytes (dm_shards_ m) <= max_total_bytes (dm_limits_ m);
  dw_epoch : 0 <= dm_commit_epoch_ m <= u64_max;
  dw_tombstones : zlen (dm_tombstones_ m) <= max_tombstones (dm_limits_ m);
  dw_events : es_limits_ (dm_event_store_ m) =
      mkEventLimits (max_events (dm_limits_ m)) (max_event_bytes (dm_limits_ m)) /\
    exists log, es_repr (dm_event_store_ m) log }.

Lemma dsl_validate_nonzero l :
  st_ok (dsl_validate l) = true -> shard_count l <> 0 /\ max_query_items l <> 0.
Proof. unfold dsl_validate. guard as G; [done|]. bprop in G. tauto. Qed.

(** A manager whose events only changed. *)
Lemma data_wf_events m ds :
  data_wf m -> data_wf (dm_with_events m (publish_all (dm_event_store_ m) ds)).
Proof.
  intros [H1 H2 H0 H3 H4 H5 H6 H7 [H8 [log H9]]]. destruct (publish_all_repr _ _ ds H9) as [Hr Hl].
  split; auto. cbn. split; [congruence|]. by eexists.
Qed.

Lemma store_wf_mono l c n n' ss : n <= n' -> store_wf l c n ss -> store_wf l c n' ss.
Proof. intros Hn [Hp He]. split; [done|]. intros k e Hk. eapply entry_wf_mono; [done|]. by apply He. Qed.

Lemma total_by_empty (f : Entry -> Z) ss : total_by f (map (fun _ => []) ss) = 0.
Proof. unfold total_by. induction ss as [|s ss IH]; [done|]. cbn [map]. rewrite sum_by_cons, IH. done. Qed.

Lemma empty_placed ss : ss <> [] -> placed (map (fun _ => @nil (DataKey * Entry)) ss).
Proof.
  intros Hne. split.
  - by destruct ss.
  - intros i s Hs. apply list_lookup_fmap_Some in Hs as (x & -> & _). constructor.
  - intros i s k Hs. apply list_lookup_fmap_Some in Hs as (x & -> & _). by intros ?%elem_of_nil.
Qed.

Lemma empty_store_wf l c n ss : ss <> [] -> store_wf l c n (map (fun _ => @nil (DataKey * Entry)) ss).
Proof.
  intros Hne. split; [by apply empty_placed|]. intros k e. unfold lookup_entry, shard_at.
  rewrite list_lookup_fmap. by destruct (ss !! _).
Qed.

Lemma add_tombstone_length limit ts t : 0 <= limit -> zlen (add_tombstone limit ts t) <= limit.
Proof. intros Hl. unfold add_tombstone. cbv zeta. unfold zlen. rewrite length_drop. lia. Qed.

Lemma retire_entities_length limit g present old ts :
  0 <= limit -> zlen ts <= limit -> zlen (retire_entities limit g present old ts) <= limit.
Proof.
  intros Hl. unfold retire_entities. revert ts. induction old as [|e old IH]; intros ts Hts; [done|].
  cbn. apply IH. destruct (existsb _ _); [done|by apply add_tombstone_length].
Qed.

Lemma shards_nonempty m : data_wf m -> dm_shards_ m <> [].
Proof.
  intros Hwf Hnil. pose proof (dw_shards m Hwf) as Hs. rewrite Hnil, zlen_nil in Hs.
  destruct (dw_limits m Hwf) as [Hv _]. unfold dsl_validate in Hv. rewrite <- Hs in Hv. done.
Qed.

Lemma activateCatalog_wf m v t : data_wf m -> data_wf (snd (activateCatalog m v t)).
Proof.
  intros Hwf. unfold activateCatalog. destruct v as [v|]; [|done]. cbv zeta.
  do 2 (guard as G; [done|]; clear G). guard as Gent; [done|]. do 2 (guard as G; [done|]; clear G).
  pose proof (publish_repr (dm_event_store_ m)) as Hpub. pose proof (shards_nonempty m Hwf) as Hne.
  destruct Hwf as [H1 H2 _ H3 H4 H5 H6 H7 [H8 [log H9]]].
  specialize (Hpub log (catalog_event (cv_generation_ v)) H9).
  destruct (publish _ _) as [[st e] store]. destruct Hpub as [Hr Hl].
  split; cbn [snd dm_limits_ dm_shards_ dm_catalog_ dm_commit_epoch_ dm_tombstones_ dm_event_store_]; auto.
  - unfold zlen in *. by rewrite length_map.
  - cbn. apply Forall_fmap, Forall_forall. intros r He. cbn.
    destruct (view_entity_invalid t r) eqn:Ev.
    + assert (existsb (view_entity_invalid t) (cv_entities_ v) = true); [|congruence].
      apply existsb_elem. by exists r.
    + unfold view_entity_invalid in Ev. bprop in Ev. tauto.
  - by apply empty_store_wf.
  - unfold keyCount. cbn. rewrite shards_keys_total, total_by_empty. apply H1.
  - unfold shards_bytes. rewrite total_by_empty. apply H1.
  - apply retire_entities_length; [apply H1|done].
  - split; [congruence|]. by eexists.
Qed.

(** ** Commit *)

Definition accepted_code (s : pdcm_status_t) : bool :=
  (s ==? PDCM_STATUS_SUCCESS) || (s ==? PDCM_STATUS_PARTIAL_RESULT).

Lemma validate_batch_rejects m seen os :
  st_ok (validate_batch m seen os) = false -> accepted_code (st_code (validate_batch m seen os)) = false.
Proof.
  revert seen. induction os as [|o os IH]; intros seen; [done|]. cbn [validate_batch].
  do 3 (guard as G; [done|]; clear G). destruct (om_find _ _) as [d|]; [|done].
  guard as G; [done|]. apply IH.
Qed.

(** A batch that fails validation changes nothing. *)
Lemma dm_commit_invalid m os : st_ok (validate_batch m [] os) = false -> snd (dm_commit m os) = m.
Proof. intros Hv. unfold dm_commit. do 4 (guard as G; [done|]; clear G). by rewrite Hv. Qed.

(** A commit is refused without effect, or it installs the staged shards. *)
Lemma dm_commit_cases m os :
  (accepted_code (st_code (dcr_status (fst (dm_commit m os)))) = false /\ snd (dm_commit m os) = m) \/
  exists staged partial, let epoch := dm_commit_epoch_ m + 1 in
    let result := evict (S (history_total staged)) (max_total_bytes (dm_limits_ m)) staged (shards_bytes staged) in
    dm_commit_epoch_ m <> u64_max /\ cst_generation (dm_catalog_ m) <> 0 /\
    cst_topology_unsupported (dm_catalog_ m) = false /\
    st_ok (validate_batch m [] os) = true /\
    stage_batch m epoch os (dm_shards_ m) false = Some (staged, partial) /\
    shards_keys staged <= max_keys (dm_limits_ m) /\
    snd result <= max_total_bytes (dm_limits_ m) /\
    dm_commit m os =
      (mkDataCommit (if partial then err_status PDCM_STATUS_PARTIAL_RESULT "observation batch contains failed items"
                     else st_success) epoch (zlen os),
       dm_with_events (dm_with_store m (fst result) epoch)
         (publish_all (dm_event_store_ m) (map (update_event epoch) os))).
Proof.
  unfold dm_commit. cbv zeta. guard as G1; [by left|]. guard as G2; [by left|]. guard as G3; [by left|].
  guard as G4; [by left|]. guard as G5.
  { left. split; [|done]. cbn [fst dcr_status]. apply validate_batch_rejects. by apply negb_true_iff. }
  apply negb_false_iff in G5. bprop in G2. bprop in G4.
  destruct (stage_batch _ _ _ _ _) as [[staged partial]|] eqn:Es; [|by left].
  guard as G6; [by left|]. bprop in G6.
  destruct (evict _ _ _ _) as [staged' total] eqn:Ee. guard as G7; [by left|]. bprop in G7.
  right. exists staged, partial. cbv zeta. rewrite Ee. cbn [fst snd]. split_and!; auto.
Qed.

Lemma staged_wf m os staged partial :
  data_wf m -> dm_commit_epoch_ m <> u64_max ->
  st_ok (validate_batch m [] os) = true ->
  stage_batch m (dm_commit_epoch_ m + 1) os (dm_shards_ m) false = Some (staged, partial) ->
  store_wf (dm_limits_ m) (dm_catalog_ m) (dm_commit_epoch_ m + 1) staged /\
  zlen staged = zlen (dm_shards_ m) /\
  partial = existsb (fun o => obs_status o !=? OS_Valid) os /\
  (forall o, o ∈ os -> exists e, lookup_entry staged (key_of o) = Some e /\
     record_entry (dm_limits_ m) (obs_with_epoch o (dm_commit_epoch_ m + 1))
       (default entry_default (lookup_entry (dm_shards_ m) (key_of o))) = Some e) /\
  (forall k, k ∉ map key_of os -> lookup_entry staged k = lookup_entry (dm_shards_ m) k).
Proof.
  intros Hwf He Hv Hs. apply validate_batch_ok in Hv as (Hok & Hnd & _).
  pose proof (dw_epoch m Hwf). apply stage_batch_spec in Hs; auto; [apply (dw_limits m Hwf)|lia|].
  eapply store_wf_mono; [|apply Hwf]. lia.
Qed.

Lemma dm_commit_wf m os : data_wf m -> data_wf (snd (dm_commit m os)).
Proof.
  intros Hwf. destruct (dm_commit_cases m os) as [[_ ->]|(staged & partial & He & _ & _ & Hv & Hs & Hk & Hb & Hc)];
    [done|].
  destruct (staged_wf m os staged partial Hwf He Hv Hs) as (Hst & Hz & _).
  cbv zeta in *. rewrite Hc. cbn [snd].
  pose proof (evict_spec (S (history_total staged)) (max_total_bytes (dm_limits_ m)) staged
                (stw_placed _ _ _ _ Hst) ltac:(lia)) as Hspec.
  pose proof (evict_wf _ _ _ (S (history_total staged)) (max_total_bytes (dm_limits_ m)) staged Hst ltac:(lia)) as Hwf'.
  destruct (evict _ _ _ _) as [ss' total]. cbn [fst snd] in *.
  destruct Hspec as (_ & Hz' & -> & Hk' & _).
  apply (data_wf_events (dm_with_store m ss' (dm_commit_epoch_ m + 1))).
  pose proof (dw_epoch m Hwf). destruct Hwf as [H1 H2 Hent H3 H4 H5 H6 H7 H8].
  split; cbn [dm_with_store dm_limits_ dm_shards_ dm_catalog_ dm_commit_epoch_ dm_tombstones_ dm_event_store_]; auto.
  - congruence.
  - unfold keyCount. cbn [dm_with_store dm_shards_]. lia.
  - lia.
Qed.

(** ** Reads *)

Lemma unavailable_ok key d g epoch now status ostatus msg :
  er_kind (dk_entity key) <> EK_Unknown -> er_generation (dk_entity key) <> 0 -> dk_metric key <> 0 ->
  0 <= now -> g <> 0 -> status <> PDCM_STATUS_SUCCESS ->
  ostatus = OS_NotAvailable \/ ostatus = OS_Unsupported ->
  ObservationOk (unavailable key d g epoch now status ostatus msg).
Proof.
  intros Hk Hg Hm Hn Hgen Hst Hos. split; cbn; auto; try lia; try done.
  - destruct (md_semantic_version d =? 0) eqn:E; bprop in E; lia.
  - split; cbn; destruct Hos as [-> | ->]; done.
Qed.

Lemma stale_ok c n k last latest now :
  stored_ok c n k last -> obs_status last = OS_Valid -> stored_ok c n k latest ->
  obs_status latest <> OS_Valid -> obs_observed_monotonic_time_ns last <= now ->
  ObservationOk (stale_of last latest now).
Proof.
  intros [_ Hv _ _ _ _ _] Hs [_ Hl Hns _ _ _ _] Hnv Hnow.
  destruct Hv as [H1 H2 H3 H4 H5 H6 H7 H8 [H9 _ _] H10].
  destruct (H9 Hs) as (Hval & _). destruct (so_failed _ (oo_status _ Hl) Hnv Hns) as (_ & Herr & _).
  split; cbn; auto. split; cbn; try done. intros _. split; [done|]. split.
  - eexists. split; [done|]. lia.
  - by eexists.
Qed.

(** Every item a query returns is a well-formed observation of its key. *)
Lemma read_item_ok m allow now key o :
  data_wf m -> cst_generation (dm_catalog_ m) <> 0 -> 0 <= now -> dk_metric key <> 0 ->
  read_item m allow now key = inr o ->
  ObservationOk o /\ key_of o = key /\ obs_catalog_generation o = cst_generation (dm_catalog_ m) /\
  obs_commit_epoch o <= dm_commit_epoch_ m /\
  (obs_status o = OS_Stale -> allow = true).
Proof.
  intros Hwf Hg Hn Hm. unfold read_item. cbv zeta.
  destruct (find_if _ _) as [cur|] eqn:Ef; [|done]. guard as G1; [done|]. bprop in G1. subst cur.
  apply find_if_Some in Ef as [Hin _]. pose proof (dw_entities m Hwf) as Hent.
  rewrite Forall_forall in Hent. destruct (Hent _ Hin) as [Hk Hgen].
  assert (forall d st os msg, os = OS_NotAvailable \/ os = OS_Unsupported -> st <> PDCM_STATUS_SUCCESS ->
    let o := unavailable key d (cst_generation (dm_catalog_ m)) (dm_commit_epoch_ m) now st os msg in
    ObservationOk o /\ key_of o = key /\ obs_catalog_generation o = cst_generation (dm_catalog_ m) /\
    obs_commit_epoch o <= dm_commit_epoch_ m /\ (obs_status o = OS_Stale -> allow = true)) as Hun.
  { intros d st os msg Hos Hst. cbv zeta. split; [apply unavailable_ok; auto; congruence|].
    split; [by destruct key|]. split; [done|]. split; [cbn; lia|]. cbn. by destruct Hos as [-> | ->]. }
  destruct (om_find (dk_metric key) _) as [d|]; [|intros [= <-]; apply Hun; auto].
  fold (lookup_entry (dm_shards_ m) key) || unfold shardIndex. fold (lookup_entry (dm_shards_ m) key).
  destruct (lookup_entry (dm_shards_ m) key) as [[lat lv h]|] eqn:El; [|intros [= <-]; apply Hun; auto].
  apply (stw_entries _ _ _ _ (dw_store m Hwf)) in El as [(x & Hx & Hsx & Hvx & _) Hlv _ _ _ _ _].
  cbn in *. subst lat.
  assert (inr x = (inr o : Status + Observation) -> ObservationOk o /\ key_of o = key /\
    obs_catalog_generation o = cst_generation (dm_catalog_ m) /\
    obs_commit_epoch o <= dm_commit_epoch_ m /\ (obs_status o = OS_Stale -> allow = true)) as Hlat.
  { intros [= <-]. destruct Hsx as [E1 E2 E3 E4 E5 _ _]. split_and!; auto; try done; lia. }
  destruct lv as [last|]; [|exact Hlat]. guard as G2; [|exact Hlat]. bprop in G2. destruct G2 as [G2 ->].
  guard as G3; [done|]. bprop in G3. intros [= <-]. destruct (Hlv last eq_refl) as [Hsl Hvl].
  split; [by eapply stale_ok|]. destruct Hsl as [E1 E2 E3 E4 E5 _ _], Hsx as [F1 F2 F3 F4 F5 _ _].
  split; [done|]. split; [done|]. split; [cbn; lia|done].
Qed.

Lemma read_items_ok m allow now keys os :
  data_wf m -> cst_generation (dm_catalog_ m) <> 0 -> 0 <= now ->
  Forall (fun k => dk_metric k <> 0) keys ->
  read_items m allow now keys = inr os ->
  map key_of os = keys /\
  Forall (fun o => ObservationOk o /\ obs_catalog_generation o = cst_generation (dm_catalog_ m) /\
    obs_commit_epoch o <= dm_commit_epoch_ m /\ (obs_status o = OS_Stale -> allow = true)) os.
Proof.
  intros Hwf Hg Hn. revert os. induction keys as [|k keys IH]; intros os Hm; cbn [read_items].
  { intros [= <-]. by split. }
  apply Forall_cons in Hm as [Hk Hm]. destruct (read_item m allow now k) as [st|o] eqn:Ei; [done|].
  destruct (read_items m allow now keys) as [st|os'] eqn:Es; [done|]. intros [= <-].
  destruct (IH os' Hm eq_refl) as [<- Hall]. apply read_item_ok in Ei; auto.
  destruct Ei as (H1 & <- & H2 & H3 & H4). split; [done|]. by constructor.
Qed.

Lemma read_items_rejects m allow now keys st :
  read_items m allow now keys = inl st -> accepted_code (st_code st) = false.
Proof.
  induction keys as [|k keys IH]; cbn [read_items]; [done|].
  destruct (read_item m allow now k) as [st'|o] eqn:Ei.
  - intros [= <-]. unfold read_item in Ei. repeat (case_match; try done); by simplify_eq.
  - destruct (read_items m allow now keys); [|done]. intros [= <-]. by apply IH.
Qed.

Lemma dm_construct_wf l m : data_limits_wf l -> dm_construct l = inr m -> data_wf m.
Proof.
  intros Hl. unfold dm_construct. destruct (es_construct _ _) as [msg|store] eqn:Ees; [done|]. cbv zeta.
  rewrite (proj1 Hl). cbn [negb]. intros [= <-]. destruct (es_construct_repr _ _ _ Ees) as [Hr Hlim].
  assert (Z.to_nat (shard_count l) <> 0%nat) as Hc.
  { destruct Hl as (Hv & Hs & _). apply dsl_validate_nonzero in Hv. lia. }
  assert (replicate (Z.to_nat (shard_count l)) [] =
    map (fun _ => @nil (DataKey * Entry)) (replicate (Z.to_nat (shard_count l)) tt)) as Hrep.
  { generalize (Z.to_nat (shard_count l)). intros n. induction n as [|n IH]; [done|]. cbn. by f_equal. }
  assert (forall (us : list unit), us <> [] -> store_wf l catalog_state_default 0
    (map (fun _ => @nil (DataKey * Entry)) us) /\ total_by (fun _ => 1) (map (fun _ => @nil (DataKey * Entry)) us) = 0 /\
    shards_bytes (map (fun _ => @nil (DataKey * Entry)) us) = 0) as Hempty.
  { intros us Hus. replace (map (fun _ => @nil (DataKey * Entry)) us)
      with (map (fun _ => @nil (DataKey * Entry)) (map (fun _ => @nil (DataKey * Entry)) us))
      by by rewrite map_map.
    split_and!; [apply empty_store_wf; by destruct us|apply total_by_empty|apply total_by_empty]. }
  destruct (Hempty (replicate (Z.to_nat (shard_count l)) tt)) as (E1 & E2 & E3).
  { intros Hnil. apply (f_equal length) in Hnil. by rewrite length_replicate in Hnil. }
  rewrite <- Hrep in E1, E2, E3.
  split; cbn [dm_limits_ dm_shards_ dm_catalog_ dm_commit_epoch_ dm_tombstones_ dm_event_store_]; auto.
  - unfold zlen. rewrite length_replicate. destruct Hl as (_ & Hl & _). lia.
  - unfold keyCount. cbn [dm_shards_]. rewrite shards_keys_total, E2. apply Hl.
  - rewrite E3. apply Hl.
  - unfold u64_max. lia.
  - apply Hl.
  - split; [done|]. by eexists.
Qed.

Lemma record_entry_latest l o e e' : record_entry l o e = Some e' -> e_latest e' = Some o.
Proof. unfold record_entry. guard as G1; [done|]. guard as G2; by intros [= <-]. Qed.

(** A query for one key whose latest observation is valid. *)
Lemma readLatest_single m o d allow now :
  data_limits_wf (dm_limits_ m) -> cst_generation (dm_catalog_ m) <> 0 ->
  cst_topology_unsupported (dm_catalog_ m) = false -> logical_unique (cst_entities (dm_catalog_ m)) ->
  obs_entity o ∈ cst_entities (dm_catalog_ m) ->
  om_find (obs_metric o) (cst_metrics (dm_catalog_ m)) = Some d ->
  latest_of (dm_shards_ m) (key_of o) = Some o -> obs_status o = OS_Valid -> 0 <= now ->
  readLatest m [key_of o] allow now 0 =
  mkDataRead st_success (cst_generation (dm_catalog_ m)) (dm_commit_epoch_ m) [o].
Proof.
  intros Hl Hg Ht Hu He Hd Hlat Hv Hn. unfold readLatest. cbv zeta. cbn [is_nil orb].
  assert (max_query_items (dm_limits_ m) <? zlen [key_of o] = false) as ->.
  { destruct Hl as (Hval & _ & _ & Hq & _). apply dsl_validate_nonzero in Hval.
    apply Z.ltb_ge. change (zlen [key_of o]) with 1. lia. }
  rewrite (proj2 (Z.ltb_ge now 0)), (proj2 (Z.eqb_neq _ _) Hg), Ht by done. cbn [orb std_sort insert_sorted].
  assert (read_item m allow now (key_of o) = inr o) as Hri.
  { unfold read_item. cbv zeta. destruct (find_if _ _) as [cur|] eqn:Ef.
    - apply find_if_Some in Ef as [Hcin Hcs]. rewrite (Hu cur (obs_entity o)) by done.
      rewrite bool_decide_true by done. cbn [negb key_of dk_metric]. rewrite Hd.
      unfold shardIndex. fold (lookup_entry (dm_shards_ m) (key_of o)). unfold latest_of in Hlat.
      destruct (lookup_entry _ _) as [[lat lv h]|]; [|done]. cbn in Hlat. subst lat.
      rewrite Hv. by destruct lv.
    - exfalso. apply find_if_None in Ef. rewrite Forall_forall in Ef. specialize (Ef _ He).
      unfold sameLogicalEntity in Ef. by rewrite bool_decide_true, Z.eqb_refl in Ef by done. }
  cbn [has_adjacent_dup read_items]. change (0 =? 0) with true. cbn [negb andb].
  rewrite Hri. cbn [existsb]. by rewrite Hv.
Qed.

(** ** Theorems *)

(** What the answer to an accepted query contains. *)
Definition query_answer (keys : list DataKey) (allow : bool) (r : DataReadResult) : Prop :=
  map key_of (drr_items r) = std_sort keys /\ NoDup keys /\
  Forall (fun o => st_ok (validateObservation o) = true /\
    obs_catalog_generation o = drr_catalog_generation r /\
    obs_commit_epoch o <= drr_observed_commit_epoch r /\
    (obs_status o = OS_Stale -> allow = true)) (drr_items r) /\
  (st_ok (drr_status r) = true <-> Forall (fun o => obs_status o = OS_Valid) (drr_items r)).

Lemma readLatest_ok m keys allow now g :
  data_wf m -> Forall (fun k => dk_metric k <> 0) keys ->
  accepted_code (st_code (drr_status (readLatest m keys allow now g))) = true ->
  query_answer keys allow (readLatest m keys allow now g).
Proof.
  intros Hwf Hkeys. unfold query_answer, readLatest. cbv zeta. guard as G1; [done|]. guard as G2; [done|].
  guard as G3; [done|]. guard as G4; [done|]. guard as G5; [done|]. bprop in G1. bprop in G3.
  destruct (read_items m allow now (std_sort keys)) as [st|os] eqn:Er.
  { cbn. intros Hacc. exfalso. apply read_items_rejects in Er. congruence. }
  intros _. cbn [drr_status drr_items drr_catalog_generation drr_observed_commit_epoch].
  apply read_items_ok in Er as [Hmap Hall]; auto; [|lia|].
  2:{ apply Forall_forall. intros k Hk. rewrite Forall_forall in Hkeys. apply Hkeys. by apply std_sort_elem. }
  split_and!; [done|by apply std_sort_dup| |].
  - eapply Forall_impl; [exact Hall|]. intros o (Ho & H1 & H2 & H3). split_and!; auto.
    by apply validateObservation_ok.
  - destruct (existsb _ os) eqn:Ex.
    + split; [done|]. intros Hv. apply existsb_elem in Ex as (o & Ho & Hne). rewrite Forall_forall in Hv.
      rewrite (Hv o Ho) in Hne. done.
    + split; [|done]. intros _. apply Forall_forall. intros o Ho.
      destruct (decide (obs_status o = OS_Valid)) as [|Hne]; [done|].
      assert (existsb (fun o => obs_status o !=? OS_Valid) os = true); [|congruence].
      apply existsb_elem. exists o. split; [done|]. by rewrite bool_decide_false.
Qed.

(** C1: [commit] is all or nothing.  Unless it reports success or a partial
    result, the manager is exactly as before (no entry, no epoch, no event);
    otherwise the commit epoch is one more, the catalog is untouched, and one
    metric-update event per observation was published, in batch order. *)
Theorem data_commit_atomic m os :
  let r := fst (dm_commit m os) in
  let m' := snd (dm_commit m os) in
  if accepted_code (st_code (dcr_status r))
  then dm_commit_epoch_ m' = dm_commit_epoch_ m + 1 /\ dcr_commit_epoch r = dm_commit_epoch_ m' /\
       dcr_committed_items r = zlen os /\ dm_catalog_ m' = dm_catalog_ m /\
       heartbeat_evidence_ m' = heartbeat_evidence_ m /\ health_ m' = health_ m /\
       dm_event_store_ m' = publish_all (dm_event_store_ m) (map (update_event (dm_commit_epoch_ m')) os)
  else m' = m.
Proof.
  cbv zeta. destruct (dm_commit_cases m os) as [[-> ->]|(staged & partial & _ & _ & _ & _ & _ & _ & _ & Hc)];
    [done|]. cbv zeta in Hc. rewrite Hc. by destruct partial.
Qed.

(** What readers see of an accepted commit. *)
Lemma dm_commit_visible m os :
  data_wf m -> logical_unique (cst_entities (dm_catalog_ m)) ->
  accepted_code (st_code (dcr_status (fst (dm_commit m os)))) = true ->
  let m' := snd (dm_commit m os) in
  let epoch := dm_commit_epoch_ m + 1 in
  (forall o, o ∈ os -> latest_of (dm_shards_ m') (key_of o) = Some (obs_with_epoch o epoch)) /\
  (forall k, k ∉ map key_of os ->
     latest_of (dm_shards_ m') k = latest_of (dm_shards_ m) k /\
     last_valid_of (dm_shards_ m') k = last_valid_of (dm_shards_ m) k) /\
  (forall o allow now, o ∈ os -> obs_status o = OS_Valid -> 0 <= now ->
     readLatest m' [key_of o] allow now 0 =
     mkDataRead st_success (cst_generation (dm_catalog_ m)) epoch [obs_with_epoch o epoch]).
Proof.
  intros Hwf Huniq Hacc m' epoch.
  destruct (dm_commit_cases m os) as [[Hf _]|(staged & partial & He & Hg & Ht & Hv & Hs & Hk & Hb & Hc)];
    [congruence|].
  destruct (staged_wf m os staged partial Hwf He Hv Hs) as (Hst & Hz & _ & Hupd & Hsame).
  cbv zeta in *. unfold m'. rewrite Hc. cbn [snd dm_with_events dm_with_store dm_shards_].
  pose proof (evict_spec (S (history_total staged)) (max_total_bytes (dm_limits_ m)) staged
                (stw_placed _ _ _ _ Hst) ltac:(lia)) as Hspec.
  destruct (evict _ _ _ _) as [ss' total]. cbn [fst snd] in *. destruct Hspec as (_ & Hz' & _ & _ & _ & Hev).
  assert (forall o, o ∈ os -> latest_of ss' (key_of o) = Some (obs_with_epoch o epoch)) as Hlatest.
  { intros o Ho. destruct (Hupd o Ho) as (e & Hlk & Hr). specialize (Hev (key_of o)). rewrite Hlk in Hev.
    unfold latest_of. destruct (lookup_entry ss' (key_of o)) as [e'|]; [|done].
    destruct Hev as (-> & _). by apply record_entry_latest in Hr. }
  split_and!; [done| |].
  - intros k Hk'. specialize (Hev k). rewrite (Hsame k Hk') in Hev. unfold latest_of, last_valid_of.
    destruct (lookup_entry (dm_shards_ m) k) as [e|], (lookup_entry ss' k) as [e'|]; try done.
    by destruct Hev as (E1 & E2 & _).
  - intros o allow now Ho Hval Hnow. apply validate_batch_ok in Hv as (Hok & _).
    rewrite Forall_forall in Hok. destruct (Hok o Ho) as [_ _ _ Hent _ (d & Hd & _)].
    match goal with |- readLatest ?m2 _ _ _ _ = _ =>
      pose proof (readLatest_single m2 (obs_with_epoch o epoch) d allow now) as Hrl end.
    apply Hrl; auto; [apply Hwf|]. exact (Hlatest o Ho).
Qed.

(** a committed observation is what readers see.  After an accepted
    commit, the latest observation of each key of the batch is the committed
    one, stamped with the new epoch; all other keys keep their latest and last
    valid observations; and a query for a key committed with a valid value
    succeeds and returns exactly that observation. *)
Theorem data_read_after_commit m os :
  data_wf m -> logical_unique (cst_entities (dm_catalog_ m)) ->
  accepted_code (st_code (dcr_status (fst (dm_commit m os)))) = true ->
  let m' := snd (dm_commit m os) in
  let epoch := dm_commit_epoch_ m + 1 in
  (forall o, o ∈ os -> latest_of (dm_shards_ m') (key_of o) = Some (obs_with_epoch o epoch)) /\
  (forall k, k ∉ map key_of os ->
     latest_of (dm_shards_ m') k = latest_of (dm_shards_ m) k /\
     last_valid_of (dm_shards_ m') k = last_valid_of (dm_shards_ m) k) /\
  (forall o allow now, o ∈ os -> obs_status o = OS_Valid -> 0 <= now ->
     readLatest m' [key_of o] allow now 0 =
     mkDataRead st_success (cst_generation (dm_catalog_ m)) epoch [obs_with_epoch o epoch]).
Proof. apply dm_commit_visible. Qed.

(** What a query returns.  When [readLatest] reports success or a partial
    result, it returns one item per requested key, in key order; each item is
    an observation that passes [validateObservation], of the current catalog
    generation and of no later epoch than the reported one; stale items occur
    only when stale data was allowed; and success is reported exactly when all
    items are valid. *)
Theorem data_query_items m keys allow now g :
  data_wf m -> Forall (fun k => dk_metric k <> 0) keys ->
  accepted_code (st_code (drr_status (readLatest m keys allow now g))) = true ->
  let r := readLatest m keys allow now g in
  map key_of (drr_items r) = std_sort keys /\ NoDup keys /\
  Forall (fun o => st_ok (validateObservation o) = true /\
    obs_catalog_generation o = drr_catalog_generation r /\
    obs_commit_epoch o <= drr_observed_commit_epoch r /\
    (obs_status o = OS_Stale -> allow = true)) (drr_items r) /\
  (st_ok (drr_status r) = true <-> Forall (fun o => obs_status o = OS_Valid) (drr_items r)).
Proof. apply readLatest_ok. Qed.

End DataStore.

(** ** An example: one device, one metric *)

Definition sample_metric : MetricDescriptor :=
  mkMetricDescriptor 7 "temperature" MVK_Uint64 "celsius" MT_Gauge EK_Device MCM_Poll 100 100 300 false true
    RL_Conditional 1 true [].
Definition sample_target : TargetCatalog :=
  mkTargetCatalog 1 TK_Emu MCS_Ready [sample_metric] (tc_health (tc_blocked TK_Emu)).
Definition sample_entity : EntityRef := mkEntityRef EK_Device 0 1.
Definition sample_view : CatalogView :=
  mkCatalogView 1 1 false
    [mkEntityRecord sample_entity ES_Ready (validAttribute "native-0") (validAttribute "0000:01:00.0")
       (validAttribute "1.2") "prov-1" TK_Emu PDCM_STATUS_SUCCESS] [].
Definition sample_observation (time value : Z) : Observation :=
  mkObservation sample_entity 7 (Some (MV_Uint64 value)) OS_Valid time None time 1 0 1 0 0
    (mkSource "prov-1" "reg") None None em_default dm_default.
Definition sample_empty : DataManager :=
  mkDataManager data_limits_default (mkEventStore (mkEventLimits 4096 (4 * 1024 * 1024)) 1 1 0 [])
    (replicate 8 []) catalog_state_default 0 [] [] [] [] 1.
Definition sample_manager : DataManager :=
  snd (@activateCatalog sample_layout sample_empty (Some sample_view) sample_target).

Lemma sample_limits_wf : data_limits_wf data_limits_default.
Proof. unfold data_limits_wf. split; [reflexivity|]. cbn. lia. Qed.

Lemma sample_manager_wf : @data_wf sample_layout sample_manager.
Proof.
  apply (@activateCatalog_wf sample_layout). apply (@dm_construct_wf sample_layout data_limits_default).
  - apply sample_limits_wf.
  - reflexivity.
Qed.

Lemma data_read_after_commit_witness :
  let _ := sample_layout in
  let m := sample_manager in
  let os := [sample_observation 5 40] in
  let m' := snd (dm_commit m os) in
  let epoch := dm_commit_epoch_ m + 1 in
  (forall o, o ∈ os -> latest_of (dm_shards_ m') (key_of o) = Some (obs_with_epoch o epoch)) /\
  (forall k, k ∉ map key_of os ->
     latest_of (dm_shards_ m') k = latest_of (dm_shards_ m) k /\
     last_valid_of (dm_shards_ m') k = last_valid_of (dm_shards_ m) k) /\
  (forall o allow now, o ∈ os -> obs_status o = OS_Valid -> 0 <= now ->
     readLatest m' [key_of o] allow now 0 =
     mkDataRead st_success (cst_generation (dm_catalog_ m)) epoch [obs_with_epoch o epoch]).
Proof.
  apply (@data_read_after_commit sample_layout).
  - apply sample_manager_wf.
  - intros a b ->%list_elem_of_singleton ->%list_elem_of_singleton. reflexivity.
  - vm_compute. reflexivity.
Defined.

Lemma data_query_items_witness :
  let _ := sample_layout in
  let m := sample_manager in
  let keys := [mkKey sample_entity 9; mkKey sample_entity 7] in
  let r := readLatest m keys true 10 0 in
  map key_of (drr_items r) = std_sort keys /\ NoDup keys /\
  Forall (fun o => st_ok (validateObservation o) = true /\
    obs_catalog_generation o = drr_catalog_generation r /\
    obs_commit_epoch o <= drr_observed_commit_epoch r /\
    (obs_status o = OS_Stale -> true = true)) (drr_items r) /\
  (st_ok (drr_status r) = true <-> Forall (fun o => obs_status o = OS_Valid) (drr_items r)).
Proof.
  apply (@data_query_items sample_layout).
  - apply sample_manager_wf.
  - repeat constructor; discriminate.
  - vm_compute. reflexivity.
Defined.
