(* ===== verification/HealthStore.v ===== *)
(** The heartbeat and health half of the data manager
    (src/product/src/data/data_manager.cpp, from [commitHeartbeatEvidence] on):
    the bounded evidence log, the per-entity health results that refer to it,
    and the invariant of the whole manager under every operation.

    Each operation holds [state_mutex_] and is one state-passing function. *)
From S2P Require Import Prelude Containers Common Provider Catalog EventStore DataStore.
Local Open Scope string_scope.
Local Open Scope list_scope.
Open Scope Z_scope.
Open Scope pdcm_scope.

Section HealthStore.
Context `{Layout}.

(** ** Sizes and comparisons *)

Definition heartbeatEvidenceBytes (e : FirmwareHeartbeatEvidence) : Z :=
  sizeof_FirmwareHeartbeatEvidence + str_size (src_provider (fhe_source e))
  + str_size (src_native_source (fhe_source e)) + str_size (st_message (em_status (fhe_error e))).

Definition healthResultBytes (r : HealthResult) : Z :=
  sizeof_HealthResult
  + sum_by (fun e => sizeof_EvidenceRef + str_size (src_provider (evr_source e))
                     + str_size (src_native_source (evr_source e))) (hr_evidence r)
  + sum_by (fun l => sizeof_HealthLimitation + str_size (lim_detail l)) (hr_limitations r).

Definition evidence_bytes (l : list FirmwareHeartbeatEvidence) : Z := sum_by heartbeatEvidenceBytes l.
Definition health_bytes (hs : list (EntityRef * HealthResult)) : Z :=
  sum_by (fun eh => healthResultBytes eh.2) hs.

(** Equality of every field but the identifier. *)
Definition sameHeartbeatEvidence (a b : FirmwareHeartbeatEvidence) : bool :=
  (fhe_entity a ==? fhe_entity b) && (fhe_provider_data_id a =? fhe_provider_data_id b)
  && (fhe_native_class a ==? fhe_native_class b) && (fhe_status a ==? fhe_status b)
  && (fhe_sequence_or_token a =? fhe_sequence_or_token b)
  && (fhe_source_sample_time_ns a ==? fhe_source_sample_time_ns b)
  && (fhe_observed_monotonic_time_ns a =? fhe_observed_monotonic_time_ns b)
  && (fhe_source a ==? fhe_source b) && (fhe_error a ==? fhe_error b)
  && (fhe_catalog_generation a =? fhe_catalog_generation b).

Definition sameHealthState (a b : HealthResult) : bool :=
  (hr_state a ==? hr_state b) && (hr_code a ==? hr_code b) && (hr_limitations a ==? hr_limitations b).

Definition healthSeverity (s : HealthState) : EventSeverity :=
  match s with
  | HS_Healthy => SEV_Info
  | HS_Unknown | HS_Warning => SEV_Warning
  | HS_Error => SEV_Error
  end.

Definition fhe_with_id (e : FirmwareHeartbeatEvidence) (id : Z) : FirmwareHeartbeatEvidence :=
  mkEvidence id (fhe_entity e) (fhe_provider_data_id e) (fhe_native_class e) (fhe_status e)
    (fhe_sequence_or_token e) (fhe_source_sample_time_ns e) (fhe_observed_monotonic_time_ns e)
    (fhe_source e) (fhe_error e) (fhe_catalog_generation e).

(** ** Evidence *)

Definition find_evidence (l : list FirmwareHeartbeatEvidence) (id : Z) : option FirmwareHeartbeatEvidence :=
  find_if (fun c => fhe_evidence_id c =? id) l.

(** Both operands are present: a valid evidence has a sample time. *)
Definition sample_time_le (a b : option Z) : bool :=
  match a, b with Some x, Some y => x <=? y | _, _ => false end.

Definition is_referenced (hs : list (EntityRef * HealthResult)) (id : Z) : bool :=
  existsb (fun eh => existsb (fun r => evr_evidence_id r =? id) (hr_evidence eh.2)) hs.

Definition expired (ttl : Z) (hs : list (EntityRef * HealthResult)) (e c : FirmwareHeartbeatEvidence) : bool :=
  negb (fhe_evidence_id c =? fhe_evidence_id e)
  && (fhe_observed_monotonic_time_ns c <=? fhe_observed_monotonic_time_ns e)
  && (ttl <? fhe_observed_monotonic_time_ns e - fhe_observed_monotonic_time_ns c)
  && negb (is_referenced hs (fhe_evidence_id c)).

(** The eviction loop; each turn removes one item, so the length is enough
    fuel.  [None]: nothing can be evicted. *)
Fixpoint evict_evidence (fuel : nat) (max_items max_bytes : Z) (hs : list (EntityRef * HealthResult)) (id : Z)
    (staged : list FirmwareHeartbeatEvidence) : option (list FirmwareHeartbeatEvidence) :=
  if (max_items <? zlen staged) || (max_bytes <? evidence_bytes staged) then
    match fuel with
    | O => None
    | S fuel' =>
        match split_if (fun c => negb (fhe_evidence_id c =? id) && negb (is_referenced hs (fhe_evidence_id c)))
                staged with
        | None => None
        | Some (pre, _, post) => evict_evidence fuel' max_items max_bytes hs id (pre ++ post)
        end
    end
  else Some staged.

Record EvidenceCommitResult := mkEvidenceCommit {
  ecr_status : Status; ecr_evidence_id : Z; ecr_commit_epoch : Z; ecr_committed : bool }.

(** The checks of new evidence against what is stored: [Some] answers the
    call without storing. *)
Definition evidence_answer (m : DataManager) (e : FirmwareHeartbeatEvidence) : option EvidenceCommitResult :=
  let latest := match om_find (fhe_entity e) (latest_heartbeat_ m) with
                | Some id => find_evidence (heartbeat_evidence_ m) id
                | None => None
                end in
  let stale msg := Some (mkEvidenceCommit (err_status PDCM_STATUS_STALE_GENERATION msg) 0 0 false) in
  let check_valid :=
    if fhe_status e ==? OS_Valid then
      match find_if (fun c => (fhe_entity c ==? fhe_entity e) && (fhe_status c ==? OS_Valid))
              (rev (heartbeat_evidence_ m)) with
      | Some last =>
          if (fhe_sequence_or_token e <=? fhe_sequence_or_token last)
             || sample_time_le (fhe_source_sample_time_ns e) (fhe_source_sample_time_ns last)
          then stale "heartbeat token or sample time is not newer" else None
      | None => None
      end
    else None in
  match latest with
  | Some l =>
      if sameHeartbeatEvidence l e
      then Some (mkEvidenceCommit st_success (fhe_evidence_id l) (dm_commit_epoch_ m) false)
      else if fhe_observed_monotonic_time_ns e <=? fhe_observed_monotonic_time_ns l
      then stale "heartbeat evidence is not newer"
      else check_valid
  | None => check_valid
  end.

Definition commitHeartbeatEvidence (m : DataManager) (e : FirmwareHeartbeatEvidence)
    : EvidenceCommitResult * DataManager :=
  let failed status := (mkEvidenceCommit status 0 0 false, m) in
  if negb (fhe_evidence_id e =? 0)
  then failed (invalid_argument "heartbeat evidence id is store-assigned")
  else
  let validation := validateFirmwareHeartbeatEvidence e in
  if negb (st_ok validation) then failed validation
  else
  let c := dm_catalog_ m in
  if cst_generation c =? 0 then failed not_active
  else if cst_topology_unsupported c
  then failed (err_status PDCM_STATUS_UNSUPPORTED "heartbeat evidence rejects multi-device P0")
  else if negb (fhe_catalog_generation e =? cst_generation c)
          || negb (existsb (fun x => x ==? fhe_entity e) (cst_entities c))
  then failed (err_status PDCM_STATUS_STALE_GENERATION "heartbeat evidence entity or catalog is stale")
  else if match cst_heartbeat c with
          | Some h => match hce_provider_data_id h with
                      | Some id => negb (fhe_provider_data_id e =? id) || negb (cst_heartbeat_supported c)
                      | None => true
                      end
          | None => true
          end
  then failed (err_status PDCM_STATUS_UNSUPPORTED "heartbeat evidence mapping is unavailable")
  else if (dm_commit_epoch_ m =? u64_max) || (next_evidence_id_ m =? u64_max)
  then failed (err_status PDCM_STATUS_INTERNAL "heartbeat evidence counter overflow")
  else
  match evidence_answer m e with
  | Some r => (r, m)
  | None =>
      let e' := fhe_with_id e (next_evidence_id_ m) in
      let staged := List.filter (fun x => negb (expired (evidence_ttl_ns (dm_limits_ m)) (health_ m) e' x))
                      (heartbeat_evidence_ m ++ [e']) in
      match evict_evidence (length staged) (max_evidence_items (dm_limits_ m))
              (max_evidence_bytes (dm_limits_ m)) (health_ m) (next_evidence_id_ m) staged with
      | None => failed (err_status PDCM_STATUS_RESOURCE_EXHAUSTED "heartbeat evidence store limit exceeded")
      | Some staged =>
          let epoch := dm_commit_epoch_ m + 1 in
          (mkEvidenceCommit st_success (fhe_evidence_id e') epoch true,
           mkDataManager (dm_limits_ m) (dm_event_store_ m) (dm_shards_ m) (dm_catalog_ m) epoch
             (dm_tombstones_ m) staged (om_set (fhe_entity e) (fhe_evidence_id e') (latest_heartbeat_ m))
             (health_ m) (next_evidence_id_ m + 1))
      end
  end.

(** The entity checks shared by the two heartbeat queries. *)
Definition current_entity (m : DataManager) (entity : EntityRef) (absent stale : string) : option Status :=
  match find_if (fun c => sameLogicalEntity c entity) (cst_entities (dm_catalog_ m)) with
  | None => Some (err_status PDCM_STATUS_NOT_FOUND absent)
  | Some current => if current !=? entity then Some (err_status PDCM_STATUS_STALE_GENERATION stale) else None
  end.

Definition generation_mismatch (m : DataManager) (g : Z) : bool :=
  negb (g =? 0) && negb (g =? cst_generation (dm_catalog_ m)).

Definition latestHeartbeatEvidence (m : DataManager) (entity : EntityRef) (g : Z)
    : Status * option FirmwareHeartbeatEvidence :=
  if cst_generation (dm_catalog_ m) =? 0 then (not_active, None)
  else if generation_mismatch m g
  then (err_status PDCM_STATUS_STALE_GENERATION "heartbeat query catalog is stale", None)
  else
  match current_entity m entity "heartbeat query entity is not present" "heartbeat query entity is stale" with
  | Some st => (st, None)
  | None =>
      match om_find entity (latest_heartbeat_ m) with
      | None => (err_status PDCM_STATUS_NOT_FOUND "heartbeat evidence is not present", None)
      | Some id =>
          match find_evidence (heartbeat_evidence_ m) id with
          | None => (err_status PDCM_STATUS_NOT_FOUND "heartbeat evidence has been evicted", None)
          | Some e => (st_success, Some e)
          end
      end
  end.

Definition heartbeatEvidence (m : DataManager) (id : Z) : Status * option FirmwareHeartbeatEvidence :=
  if id =? 0 then (invalid_argument "heartbeat evidence id must be non-zero", None)
  else if cst_generation (dm_catalog_ m) =? 0 then (not_active, None)
  else
  match find_evidence (heartbeat_evidence_ m) id with
  | None => (err_status PDCM_STATUS_NOT_FOUND "heartbeat evidence is not present", None)
  | Some e => (st_success, Some e)
  end.

(** ** Health *)

(** The stored evidence a reference of a health result denotes. *)
Definition reference_matches (r : HealthResult) (ref : EvidenceRef) (c : FirmwareHeartbeatEvidence) : bool :=
  (fhe_evidence_id c =? evr_evidence_id ref) && (fhe_entity c ==? hr_entity r)
  && (fhe_catalog_generation c =? hr_catalog_generation r)
  && (fhe_sequence_or_token c =? evr_sequence_or_token ref)
  && (fhe_source_sample_time_ns c ==? evr_source_sample_time_ns ref)
  && (fhe_observed_monotonic_time_ns c =? evr_observed_monotonic_time_ns ref)
  && (fhe_source c ==? evr_source ref).

Fixpoint check_references (evidence : list FirmwareHeartbeatEvidence) (r : HealthResult) (seen : list Z)
    (refs : list EvidenceRef) : option Status :=
  match refs with
  | [] => None
  | ref :: refs' =>
      if bool_decide (evr_evidence_id ref ∈ seen)
      then Some (invalid_argument "health result repeats evidence")
      else if negb (has_value (find_if (reference_matches r ref) evidence))
      then Some (err_status PDCM_STATUS_NOT_FOUND "health evidence reference is not stored")
      else check_references evidence r (evr_evidence_id ref :: seen) refs'
  end.

Record HealthCommitResult := mkHealthCommit {
  hcr_status : Status; hcr_commit_epoch : Z; hcr_state_changed : bool }.

Definition health_event (previous_state : HealthState) (previous_code : StableHealthCode) (r : HealthResult)
    : EventDraft :=
  mkDraft ET_FirmwareHeartbeatHealthChanged (healthSeverity (hr_state r)) (Some (hr_entity r)) None
    (Some (hr_subsystem_id r)) (hr_evaluated_monotonic_time_ns r) (hr_catalog_generation r)
    (EP_HealthChange (mkHealthChange previous_state (hr_state r) previous_code (hr_code r) (hr_evidence r)
       (hr_evidence_age_ns r))).

Definition commitHealth (m : DataManager) (r : HealthResult) : HealthCommitResult * DataManager :=
  let failed status := (mkHealthCommit status 0 false, m) in
  let validation := validateHealthResult r in
  if negb (st_ok validation) then failed validation
  else if (max_health_evidence_refs (dm_limits_ m) <? zlen (hr_evidence r))
          || (max_health_result_bytes (dm_limits_ m) <? healthResultBytes r)
  then failed (err_status PDCM_STATUS_RESOURCE_EXHAUSTED "health result exceeds configured limits")
  else
  let c := dm_catalog_ m in
  if cst_generation c =? 0 then failed not_active
  else if negb (hr_catalog_generation r =? cst_generation c)
          || negb (existsb (fun x => x ==? hr_entity r) (cst_entities c))
  then failed (err_status PDCM_STATUS_STALE_GENERATION "health result entity or catalog is stale")
  else if negb (has_value (cst_heartbeat c))
  then failed (err_status PDCM_STATUS_UNSUPPORTED "heartbeat health is not in the catalog")
  else
  match check_references (heartbeat_evidence_ m) r [] (hr_evidence r) with
  | Some status => failed status
  | None =>
      let current := om_find (hr_entity r) (health_ m) in
      if negb (has_value current) && (max_health_entries (dm_limits_ m) <=? zlen (health_ m))
      then failed (err_status PDCM_STATUS_RESOURCE_EXHAUSTED "health entry limit exceeded")
      else
      let bytes := healthResultBytes r
                   + health_bytes (List.filter (fun eh => eh.1 !=? hr_entity r) (health_ m)) in
      if max_health_bytes (dm_limits_ m) <? bytes
      then failed (err_status PDCM_STATUS_RESOURCE_EXHAUSTED "health store byte limit exceeded")
      else if dm_commit_epoch_ m =? u64_max
      then failed (err_status PDCM_STATUS_INTERNAL "health commit epoch overflow")
      else
      let previous_state := match current with Some p => hr_state p | None => HS_Unknown end in
      let previous_code := match current with Some p => hr_code p | None => HC_HeartbeatMissing end in
      let changed := match current with
                     | Some p => negb (sameHealthState p r)
                     | None => isDeterminateHealth (hr_state r)
                     end in
      let epoch := dm_commit_epoch_ m + 1 in
      let store := if changed
                   then publish_all (dm_event_store_ m) [health_event previous_state previous_code r]
                   else dm_event_store_ m in
      (mkHealthCommit st_success epoch changed,
       mkDataManager (dm_limits_ m) store (dm_shards_ m) c epoch (dm_tombstones_ m) (heartbeat_evidence_ m)
         (latest_heartbeat_ m) (om_set (hr_entity r) r (health_ m)) (next_evidence_id_ m))
  end.

Definition readHealth (m : DataManager) (entity : EntityRef) (g : Z) : Status * option HealthResult :=
  if cst_generation (dm_catalog_ m) =? 0 then (not_active, None)
  else if generation_mismatch m g
  then (err_status PDCM_STATUS_STALE_GENERATION "health query catalog is stale", None)
  else
  match current_entity m entity "health query entity is not present" "health query entity is stale" with
  | Some st => (st, None)
  | None =>
      match om_find entity (health_ m) with
      | None => (err_status PDCM_STATUS_NOT_FOUND "health result is not present", None)
      | Some r => (st_success, Some r)
      end
  end.

Definition heartbeatCatalog (m : DataManager) : option (HealthCatalogEntry * bool) :=
  match cst_heartbeat (dm_catalog_ m) with
  | None => None
  | Some h => Some (h, cst_heartbeat_supported (dm_catalog_ m))
  end.

(** Total bytes accounted to the store. *)
Definition dm_storedBytes (m : DataManager) : Z :=
  shards_bytes (dm_shards_ m) + evidence_bytes (heartbeat_evidence_ m)
  + sum_by (fun eh => sizeof_EntityRef + healthResultBytes eh.2) (health_ m).

(** ** Runs of the manager *)

Inductive data_op :=
  | DoActivate (v : option CatalogView) (t : TargetCatalog)
  | DoCommit (os : list Observation)
  | DoPublish (d : EventDraft)
  | DoEvidence (e : FirmwareHeartbeatEvidence)
  | DoHealth (r : HealthResult).

Definition data_step (m : DataManager) (op : data_op) : DataManager :=
  match op with
  | DoActivate v t => snd (activateCatalog m v t)
  | DoCommit os => snd (dm_commit m os)
  | DoPublish d => snd (publishEvent m d)
  | DoEvidence e => snd (commitHeartbeatEvidence m e)
  | DoHealth r => snd (commitHealth m r)
  end.

(** ** Eviction of evidence *)

Definition evidence_fits (max_items max_bytes : Z) (l : list FirmwareHeartbeatEvidence) : Prop :=
  zlen l <= max_items /\ evidence_bytes l <= max_bytes.

Definition keep (hs : list (EntityRef * HealthResult)) (id : Z) (c : FirmwareHeartbeatEvidence) : bool :=
  (fhe_evidence_id c =? id) || is_referenced hs (fhe_evidence_id c).

Lemma evidence_bytes_nonneg e : 0 <= heartbeatEvidenceBytes e.
Proof.
  pose proof layout_pos as Hl. rewrite !Forall_cons in Hl. unfold heartbeatEvidenceBytes, str_size. lia.
Qed.

(** The loop succeeds with a list that fits, drops nothing that must be kept,
    and gives up only when what must be kept does not fit by itself. *)
Lemma evict_evidence_spec fuel mi mb hs id staged :
  (length staged <= fuel)%nat ->
  match evict_evidence fuel mi mb hs id staged with
  | Some s => s `sublist_of` staged /\ evidence_fits mi mb s /\
      List.filter (keep hs id) s = List.filter (keep hs id) staged
  | None => ~ evidence_fits mi mb (List.filter (keep hs id) staged)
  end.
Proof.
  revert staged. induction fuel as [|fuel IH]; intros staged Hf; cbn [evict_evidence].
  - destruct staged as [|x staged]; [|cbn in Hf; lia]. guard as G; bprop in G.
    + unfold evidence_fits. cbn. change (evidence_bytes []) with 0 in *. rewrite zlen_nil in G |- *. lia.
    + done.
  - guard as G; [|bprop in G; done].
    destruct (split_if _ staged) as [[[pre x] post]|] eqn:Es.
    + apply split_if_Some in Es as (-> & Hx & _). rewrite length_app in Hf. cbn in Hf.
      specialize (IH (pre ++ post)). rewrite length_app in IH. specialize (IH ltac:(lia)).
      assert (List.filter (keep hs id) (pre ++ x :: post) = List.filter (keep hs id) (pre ++ post)) as ->.
      { rewrite !List.filter_app. f_equal. cbn. unfold keep at 1. bprop in Hx. destruct Hx as [Hx1 Hx2].
        rewrite (proj2 (Z.eqb_neq _ _) Hx1), Hx2. done. }
      destruct (evict_evidence _ _ _ _ _ _) as [s|]; [|done]. destruct IH as (H1 & H2 & H3).
      split; [|done]. rewrite H1. apply sublist_app; [done|]. by apply sublist_cons.
    + apply split_if_None in Es. rewrite (filter_true_id (keep hs id) staged).
      * unfold evidence_fits. bprop in G. lia.
      * intros y Hy. rewrite Forall_forall in Es. apply Es in Hy. unfold keep.
        destruct (fhe_evidence_id y =? id), (is_referenced hs (fhe_evidence_id y)); done.
Qed.

(** ** Invariant *)

Definition evidence_newer (a b : FirmwareHeartbeatEvidence) : Prop :=
  fhe_evidence_id a < fhe_evidence_id b /\
  (fhe_entity a = fhe_entity b -> fhe_status a = OS_Valid -> fhe_status b = OS_Valid ->
     fhe_sequence_or_token a < fhe_sequence_or_token b).

Record evidence_ok (m : DataManager) (e : FirmwareHeartbeatEvidence) : Prop := {
  eo_id : 1 <= fhe_evidence_id e < next_evidence_id_ m;
  eo_valid : st_ok (validateFirmwareHeartbeatEvidence e) = true;
  eo_generation : fhe_catalog_generation e = cst_generation (dm_catalog_ m);
  eo_entity : fhe_entity e ∈ cst_entities (dm_catalog_ m) }.

Record health_ok (m : DataManager) (e : EntityRef) (r : HealthResult) : Prop := {
  ho_entity : hr_entity r = e;
  ho_valid : st_ok (validateHealthResult r) = true;
  ho_generation : hr_catalog_generation r = cst_generation (dm_catalog_ m);
  ho_current : e ∈ cst_entities (dm_catalog_ m);
  ho_refs : Forall (fun ref => exists ev, ev ∈ heartbeat_evidence_ m /\ reference_matches r ref ev = true)
    (hr_evidence r) }.

Record health_wf (m : DataManager) : Prop := {
  hw_evidence : Forall (evidence_ok m) (heartbeat_evidence_ m);
  hw_order : StronglySorted evidence_newer (heartbeat_evidence_ m);
  hw_fits : evidence_fits (max_evidence_items (dm_limits_ m)) (max_evidence_bytes (dm_limits_ m))
    (heartbeat_evidence_ m);
  hw_next : 1 <= next_evidence_id_ m <= u64_max;
  hw_map : om_wf (health_ m);
  hw_health : forall e r, om_find e (health_ m) = Some r -> health_ok m e r;
  hw_entries : zlen (health_ m) <= max_health_entries (dm_limits_ m);
  hw_bytes : health_bytes (health_ m) <= max_health_bytes (dm_limits_ m);
  hw_latest : forall e id, om_find e (latest_heartbeat_ m) = Some id ->
    id < next_evidence_id_ m /\
    (forall ev, ev ∈ heartbeat_evidence_ m -> fhe_evidence_id ev = id -> fhe_entity ev = e) }.

(** The invariant only reads the catalog, the limits and the heartbeat state. *)
Lemma health_wf_frame m m' :
  dm_limits_ m' = dm_limits_ m -> dm_catalog_ m' = dm_catalog_ m ->
  heartbeat_evidence_ m' = heartbeat_evidence_ m -> health_ m' = health_ m ->
  next_evidence_id_ m' = next_evidence_id_ m -> latest_heartbeat_ m' = latest_heartbeat_ m ->
  health_wf m -> health_wf m'.
Proof.
  intros E1 E2 E3 E4 E5 E6 [H1 H2 H3 H4 H5 H6 H7 H8 H9].
  split; rewrite ?E1, ?E3, ?E4, ?E5, ?E6; auto.
  - eapply Forall_impl; [exact H1|]. intros e [A1 A2 A3 A4]. split; rewrite ?E2, ?E5; done.
  - intros e r Hr. destruct (H6 e r Hr) as [A1 A2 A3 A4 A5]. split; rewrite ?E2, ?E3; done.
Qed.

Lemma activateCatalog_health m v t : data_wf m -> health_wf m -> health_wf (snd (activateCatalog m v t)).
Proof.
  intros Hd Hwf. unfold activateCatalog. destruct v as [v|]; [|done]. cbv zeta.
  do 5 (guard as G; [done|]; clear G). destruct (publish _ _) as [[st e] store].
  destruct (dw_limits m Hd) as (_ & _ & _ & _ & _ & _ & _ & _ & _ & L1 & L2 & L3 & L4).
  split; cbn; try (by constructor); try done; try apply Hwf.
Qed.

Lemma find_evidence_newest m (e : FirmwareHeartbeatEvidence) last :
  find_if (fun c => (fhe_entity c ==? fhe_entity e) && (fhe_status c ==? OS_Valid))
    (rev (heartbeat_evidence_ m)) = Some last ->
  StronglySorted evidence_newer (heartbeat_evidence_ m) ->
  forall c, c ∈ heartbeat_evidence_ m -> fhe_entity c = fhe_entity e -> fhe_status c = OS_Valid ->
  fhe_sequence_or_token c <= fhe_sequence_or_token last.
Proof.
  generalize (heartbeat_evidence_ m). intros l. induction l as [|x l IH]; [done|]. cbn [rev].
  rewrite find_if_app, find_if_cons. intros Hf Hs c Hc Hce Hcv.
  apply StronglySorted_inv in Hs as [Hs Hall].
  apply elem_of_cons in Hc as [->|Hc].
  - destruct (find_if _ (rev l)) as [y|] eqn:Ey.
    + simplify_eq. apply find_if_Some in Ey as [Hy Hp]. bprop in Hp. destruct Hp as [Hp1 Hp2].
      rewrite list_elem_of_In, <- in_rev, <- list_elem_of_In in Hy.
      rewrite Forall_forall in Hall. destruct (Hall last Hy) as [_ Hn].
      specialize (Hn ltac:(congruence) Hcv Hp2). lia.
    + rewrite !bool_decide_true in Hf by done. cbn in Hf. simplify_eq. lia.
  - assert (exists y, find_if (fun c => (fhe_entity c ==? fhe_entity e) && (fhe_status c ==? OS_Valid)) (rev l) = Some y)
      as [y Hy].
    { destruct (find_if _ (rev l)) as [y|] eqn:Ey; [by exists y|]. exfalso.
      apply find_if_None in Ey. rewrite Forall_forall in Ey. specialize (Ey c).
      rewrite !bool_decide_true in Ey by done. cbn in Ey.
      discriminate Ey. by rewrite list_elem_of_In, <- in_rev, <- list_elem_of_In. }
    rewrite Hy in Hf. simplify_eq. by apply IH.
Qed.

(** Evidence is refused or answered without effect, or it is appended. *)
Lemma commitHeartbeatEvidence_cases m e :
  (snd (commitHeartbeatEvidence m e) = m /\ ecr_committed (fst (commitHeartbeatEvidence m e)) = false) \/
  exists staged',
    let e' := fhe_with_id e (next_evidence_id_ m) in
    let staged := List.filter (fun x => negb (expired (evidence_ttl_ns (dm_limits_ m)) (health_ m) e' x))
                    (heartbeat_evidence_ m ++ [e']) in
    st_ok (validateFirmwareHeartbeatEvidence e) = true /\
    fhe_catalog_generation e = cst_generation (dm_catalog_ m) /\
    fhe_entity e ∈ cst_entities (dm_catalog_ m) /\
    dm_commit_epoch_ m <> u64_max /\ next_evidence_id_ m <> u64_max /\
    evidence_answer m e = None /\
    evict_evidence (length staged) (max_evidence_items (dm_limits_ m)) (max_evidence_bytes (dm_limits_ m))
      (health_ m) (next_evidence_id_ m) staged = Some staged' /\
    commitHeartbeatEvidence m e =
      (mkEvidenceCommit st_success (next_evidence_id_ m) (dm_commit_epoch_ m + 1) true,
       mkDataManager (dm_limits_ m) (dm_event_store_ m) (dm_shards_ m) (dm_catalog_ m) (dm_commit_epoch_ m + 1)
         (dm_tombstones_ m) staged' (om_set (fhe_entity e) (next_evidence_id_ m) (latest_heartbeat_ m))
         (health_ m) (next_evidence_id_ m + 1)).
Proof.
  unfold commitHeartbeatEvidence. cbv zeta. guard as G1; [by left|]. guard as G2; [by left|].
  apply negb_false_iff in G2. guard as G3; [by left|]. guard as G4; [by left|]. guard as G5; [by left|].
  guard as G6; [by left|]. guard as G7; [by left|]. clear G6.
  destruct (evidence_answer m e) as [r|] eqn:Ea.
  { left. split; [done|]. cbn. unfold evidence_answer in Ea. repeat (case_match; try done); by simplify_eq. }
  destruct (evict_evidence _ _ _ _ _ _) as [staged'|] eqn:Es; [|by left].
  right. exists staged'. rewrite !orb_false_iff, !negb_false_iff in G5. destruct G5 as [G5a G5b].
  apply existsb_elem in G5b as (x & Hx & Hxe). bprop in Hxe. subst x. bprop in G5a. bprop in G7.
  split_and!; auto; tauto.
Qed.

Lemma evidence_newer_last m e x :
  health_wf m -> evidence_answer m e = None -> x ∈ heartbeat_evidence_ m ->
  evidence_newer x (fhe_with_id e (next_evidence_id_ m)).
Proof.
  intros Hwf Ha Hx. pose proof (hw_evidence m Hwf) as Hev. rewrite Forall_forall in Hev.
  split; cbn; [apply (eo_id _ _ (Hev x Hx))|]. intros Hent Hxv Hev'. unfold evidence_answer in Ha. cbv zeta in Ha.
  rewrite Hev', bool_decide_true in Ha by done.
  destruct (find_if _ (rev (heartbeat_evidence_ m))) as [last|] eqn:El.
  - pose proof (find_evidence_newest m e last El (hw_order m Hwf) x Hx Hent Hxv).
    assert ((fhe_sequence_or_token e <=? fhe_sequence_or_token last)
      || sample_time_le (fhe_source_sample_time_ns e) (fhe_source_sample_time_ns last) = false) as Hn.
    { destruct ((fhe_sequence_or_token e <=? fhe_sequence_or_token last) || _) eqn:Eor; [|done]. exfalso.
      destruct (match om_find _ _ with Some _ => _ | None => _ end) as [l|]; [|done].
      destruct (sameHeartbeatEvidence l e); [done|]. by destruct (_ <=? fhe_observed_monotonic_time_ns l). }
    apply orb_false_iff in Hn as [Hn _]. bprop in Hn. lia.
  - apply find_if_None in El. rewrite Forall_forall in El. specialize (El x).
    rewrite !bool_decide_true in El by done. discriminate El.
    by rewrite list_elem_of_In, <- in_rev, <- list_elem_of_In.
Qed.

(** Evidence referenced by a health result survives. *)
Lemma referenced_survives m e staged' ev er ref r :
  health_wf m -> om_find er (health_ m) = Some r -> ref ∈ hr_evidence r ->
  ev ∈ heartbeat_evidence_ m -> reference_matches r ref ev = true ->
  let e' := fhe_with_id e (next_evidence_id_ m) in
  let staged := List.filter (fun x => negb (expired (evidence_ttl_ns (dm_limits_ m)) (health_ m) e' x))
                  (heartbeat_evidence_ m ++ [e']) in
  List.filter (keep (health_ m) (next_evidence_id_ m)) staged' =
  List.filter (keep (health_ m) (next_evidence_id_ m)) staged -> ev ∈ staged'.
Proof.
  intros Hwf Hr Href Hev Hmatch e' staged Hkeep.
  assert (is_referenced (health_ m) (fhe_evidence_id ev) = true) as Hisr.
  { apply existsb_elem. exists (er, r). split; [by apply om_find_elem|]. apply existsb_elem. exists ref.
    split; [done|]. unfold reference_matches in Hmatch. rewrite !andb_true_iff in Hmatch.
    destruct Hmatch as [[[[[[Hid _] _] _] _] _] _]. cbn. rewrite Z.eqb_sym. done. }
  assert (ev ∈ List.filter (keep (health_ m) (next_evidence_id_ m)) staged) as Hin.
  { apply elem_of_filterb. split.
    - apply elem_of_filterb. split; [apply elem_of_app; by left|]. unfold expired. rewrite Hisr.
      by rewrite andb_false_r.
    - unfold keep. rewrite Hisr. apply orb_true_r. }
  rewrite <- Hkeep in Hin. apply elem_of_filterb in Hin. tauto.
Qed.

Lemma commitHeartbeatEvidence_health m e : health_wf m -> health_wf (snd (commitHeartbeatEvidence m e)).
Proof.
  intros Hwf. destruct (commitHeartbeatEvidence_cases m e)
    as [[-> _]|(staged' & Hv & Hg & Hent & _ & Hid & Ha & Hs & Hc)]; [done|].
  cbv zeta in *. rewrite Hc. cbn [snd].
  set (e' := fhe_with_id e (next_evidence_id_ m)) in *.
  set (staged := List.filter _ (heartbeat_evidence_ m ++ [e'])) in *.
  pose proof (evict_evidence_spec (length staged) (max_evidence_items (dm_limits_ m))
    (max_evidence_bytes (dm_limits_ m)) (health_ m) (next_evidence_id_ m) staged ltac:(lia)) as Hspec.
  rewrite Hs in Hspec. destruct Hspec as (Hsub & Hfits & Hkeep).
  assert (staged' `sublist_of` heartbeat_evidence_ m ++ [e']) as Hsub'.
  { rewrite Hsub. apply filter_sublist. }
  destruct Hwf as [H1 H2 H3 H4 H5 H6 H7 H8 H9] eqn:Ewf. clear Ewf.
  split; cbn [heartbeat_evidence_ dm_limits_ next_evidence_id_ health_ dm_catalog_ latest_heartbeat_]; auto.
  - apply Forall_forall. intros x Hx. apply (sublist_elem _ _ _ Hsub') in Hx.
    apply elem_of_app in Hx as [Hx|Hx%list_elem_of_singleton].
    + rewrite Forall_forall in H1. destruct (H1 x Hx) as [A1 A2 A3 A4]. split; cbn; auto; lia.
    + subst x. split; cbn; auto. lia.
  - eapply sublist_sorted; [exact Hsub'|]. apply StronglySorted_app. split_and!; [|done|repeat constructor].
    intros x y Hx ->%list_elem_of_singleton. by apply evidence_newer_last.
  - lia.
  - intros en r Hr. destruct (H6 en r Hr) as [A1 A2 A3 A4 A5]. split; cbn; auto.
    apply Forall_forall. intros ref Href. rewrite Forall_forall in A5. destruct (A5 ref Href) as (ev & Hev & Hm).
    exists ev. split; [|done]. by eapply (referenced_survives m e).
  - intros en id. assert (forall ev, ev ∈ staged' -> ev ∈ heartbeat_evidence_ m \/ ev = e') as Hold.
    { intros ev Hev%(sublist_elem _ _ _ Hsub'). by rewrite elem_of_app, list_elem_of_singleton in Hev. }
    destruct (decide (fhe_entity e = en)) as [<-|Hne].
    + rewrite om_find_set_eq. intros [= <-]. split; [lia|]. intros ev [Hev| ->]%Hold; [|done].
      rewrite Forall_forall in H1. pose proof (eo_id _ _ (H1 ev Hev)). lia.
    + rewrite om_find_set_ne by done. intros [Hlt Hl]%H9. split; [lia|]. intros ev [Hev| ->]%Hold; [by apply Hl|].
      cbn. lia.
Qed.

Lemma check_references_ok ev r seen refs :
  check_references ev r seen refs = None ->
  Forall (fun ref => exists x, x ∈ ev /\ reference_matches r ref x = true) refs.
Proof.
  revert seen. induction refs as [|ref refs IH]; intros seen; cbn [check_references]; [constructor|].
  guard as G1; [done|]. guard as G2; [done|]. intros Hc. constructor; [|by eapply IH].
  apply negb_false_iff, has_value_true in G2 as [x Hx]. apply find_if_Some in Hx. by exists x.
Qed.

Lemma health_bytes_om_set k r hs :
  om_wf hs ->
  health_bytes (om_set k r hs) = healthResultBytes r + health_bytes (List.filter (fun eh => eh.1 !=? k) hs).
Proof.
  unfold health_bytes, om_wf. induction hs as [|[k' r'] hs IH]; intros Hwf; [cbn; lia|].
  apply StronglySorted_inv in Hwf as [Hs Hall]. cbn [om_set List.filter fst].
  assert (forall k0, key_ltb k0 k' = true \/ k0 = k' ->
    List.filter (fun eh : EntityRef * HealthResult => eh.1 !=? k0) hs = hs) as Hid.
  { intros k0 Hk0. apply filter_true_id. intros [k2 r2] Hin. cbn. rewrite bool_decide_false; [done|]. intros ->.
    rewrite Forall_forall in Hall. assert (key_lt k' k0) as Hlt.
    { apply Hall. apply list_elem_of_fmap. by exists (k0, r2). }
    destruct Hk0 as [Hk0| ->]; [|by apply key_lt_irrefl in Hlt].
    assert (key_ltb k0 k0 = true) as Hbad by (eapply key_ltb_trans; [exact Hk0|exact Hlt]).
    by rewrite key_ltb_irrefl in Hbad. }
  destruct (key_ltb k k') eqn:E1.
  - rewrite (Hid k) by by left. rewrite bool_decide_false; [cbn [negb]; rewrite !sum_by_cons; cbn [snd]; lia|].
    intros ->. by rewrite key_ltb_irrefl in E1.
  - destruct (key_ltb k' k) eqn:E2.
    + rewrite bool_decide_false; [|intros ->; by rewrite key_ltb_irrefl in E2].
      cbn [negb]. rewrite !sum_by_cons, IH by done. lia.
    + rewrite (key_ltb_total _ _ E1 E2). rewrite bool_decide_true by done. cbn [negb].
      rewrite (Hid k') by by right. rewrite sum_by_cons. done.
Qed.

(** A health result is refused without effect, or it is installed. *)
Lemma commitHealth_cases m r :
  (snd (commitHealth m r) = m /\ st_ok (hcr_status (fst (commitHealth m r))) = false) \/
  exists previous_state previous_code changed,
    st_ok (validateHealthResult r) = true /\
    hr_catalog_generation r = cst_generation (dm_catalog_ m) /\
    hr_entity r ∈ cst_entities (dm_catalog_ m) /\
    check_references (heartbeat_evidence_ m) r [] (hr_evidence r) = None /\
    (om_find (hr_entity r) (health_ m) = None -> zlen (health_ m) < max_health_entries (dm_limits_ m)) /\
    healthResultBytes r + health_bytes (List.filter (fun eh => eh.1 !=? hr_entity r) (health_ m))
      <= max_health_bytes (dm_limits_ m) /\
    dm_commit_epoch_ m <> u64_max /\
    changed = match om_find (hr_entity r) (health_ m) with
              | Some p => negb (sameHealthState p r) | None => isDeterminateHealth (hr_state r) end /\
    commitHealth m r =
      (mkHealthCommit st_success (dm_commit_epoch_ m + 1) changed,
       mkDataManager (dm_limits_ m)
         (if (changed : bool) then publish_all (dm_event_store_ m) [health_event previous_state previous_code r]
          else dm_event_store_ m)
         (dm_shards_ m) (dm_catalog_ m) (dm_commit_epoch_ m + 1) (dm_tombstones_ m) (heartbeat_evidence_ m)
         (latest_heartbeat_ m) (om_set (hr_entity r) r (health_ m)) (next_evidence_id_ m)).
Proof.
  unfold commitHealth. cbv zeta. guard as G1; [left; split; [done|by apply negb_true_iff]|].
  apply negb_false_iff in G1. guard as G2; [by left|]. guard as G3; [by left|]. guard as G4; [by left|].
  rewrite orb_false_iff, !negb_false_iff in G4. destruct G4 as [G4a G4b].
  apply existsb_elem in G4b as (x & Hx & Hxe). bprop in Hxe. subst x. bprop in G4a.
  guard as G5; [by left|]. destruct (check_references _ _ _ _) as [st|] eqn:Ec.
  { left. split; [done|]. cbn. clear -Ec. revert Ec. generalize (@nil Z).
    induction (hr_evidence r) as [|ref refs IH]; intros seen; cbn [check_references]; [done|].
    guard as G1; [by intros [= <-]|]. guard as G2; [by intros [= <-]|]. apply IH. }
  guard as G6; [by left|]. guard as G7; [by left|]. guard as G8; [by left|]. bprop in G7. bprop in G8.
  right. do 3 eexists. split_and!; [done|done|done|done| |done|done|reflexivity|reflexivity].
  intros Hnone. rewrite Hnone in G6. cbn in G6. bprop in G6. lia.
Qed.

Lemma om_set_zlen {K V} `{Ordered K} (k : K) (v : V) m :
  om_wf m -> zlen (om_set k v m) = match om_find k m with Some _ => zlen m | None => zlen m + 1 end.
Proof.
  intros Hwf. unfold zlen. destruct (om_find k m) eqn:E.
  - by erewrite om_set_length_old by done.
  - rewrite om_set_length_new by done. lia.
Qed.

Lemma commitHealth_health m r : health_wf m -> health_wf (snd (commitHealth m r)).
Proof.
  intros Hwf. destruct (commitHealth_cases m r)
    as [[-> _]|(ps & pc & ch & Hv & Hg & Hent & Href & Hlim & Hb & _ & _ & Hc)]; [done|].
  rewrite Hc. cbn [snd]. destruct Hwf as [H1 H2 H3 H4 H5 H6 H7 H8 H9].
  split; cbn [heartbeat_evidence_ dm_limits_ next_evidence_id_ health_ dm_catalog_ latest_heartbeat_]; auto.
  - eapply Forall_impl; [exact H1|]. intros e [A1 A2 A3 A4]. by split.
  - by apply om_wf_set.
  - intros e r0. destruct (decide (hr_entity r = e)) as [<-|Hne].
    + rewrite om_find_set_eq. intros [= <-]. split; auto. by apply check_references_ok in Href.
    + rewrite om_find_set_ne by done. intros Hr. destruct (H6 e r0 Hr) as [A1 A2 A3 A4 A5]. by split.
  - rewrite om_set_zlen by done. destruct (om_find _ _) eqn:E; [done|]. specialize (Hlim eq_refl). lia.
  - by rewrite health_bytes_om_set.
Qed.

Lemma data_wf_bump m m' :
  dm_limits_ m' = dm_limits_ m -> dm_catalog_ m' = dm_catalog_ m -> dm_shards_ m' = dm_shards_ m ->
  dm_tombstones_ m' = dm_tombstones_ m -> dm_commit_epoch_ m <= dm_commit_epoch_ m' <= u64_max ->
  dm_event_store_ m' = dm_event_store_ m -> data_wf m -> data_wf m'.
Proof.
  intros E1 E2 E3 E4 E5 E6 [D1 D2 D3 D4 D5 D6 D7 D8 D9].
  split; rewrite ?E1, ?E2, ?E3, ?E4, ?E6; auto; [| |lia].
  - eapply store_wf_mono; [|done]. lia.
  - unfold keyCount in *. by rewrite E3.
Qed.

Lemma data_step_wf m op : data_wf m /\ health_wf m -> data_wf (data_step m op) /\ health_wf (data_step m op).
Proof.
  intros [Hd Hh]. pose proof (dw_epoch m Hd). destruct op as [v t|os|d|e|r]; cbn [data_step].
  - split; [by apply activateCatalog_wf|by apply activateCatalog_health].
  - split; [by apply dm_commit_wf|].
    destruct (dm_commit_cases m os) as [[_ ->]|(staged & partial & _ & _ & _ & _ & _ & _ & _ & Hc)]; [done|].
    cbv zeta in Hc. rewrite Hc. by apply (health_wf_frame m).
  - unfold publishEvent. pose proof (data_wf_events m [d] Hd) as Hd'. cbn in Hd'.
    destruct (publish (dm_event_store_ m) d) as [[st ev] store]. split; [done|]. by apply (health_wf_frame m).
  - split; [|by apply commitHeartbeatEvidence_health].
    destruct (commitHeartbeatEvidence_cases m e) as [[-> _]|(staged' & _ & _ & _ & He & _ & _ & _ & Hc)]; [done|].
    cbv zeta in Hc. rewrite Hc. eapply data_wf_bump; [..|exact Hd]; try done. cbn. lia.
  - split; [|by apply commitHealth_health].
    destruct (commitHealth_cases m r) as [[-> _]|(ps & pc & ch & _ & _ & _ & _ & _ & _ & He & _ & Hc)]; [done|].
    rewrite Hc. cbn [snd].
    assert (data_wf (mkDataManager (dm_limits_ m) (dm_event_store_ m) (dm_shards_ m) (dm_catalog_ m)
      (dm_commit_epoch_ m + 1) (dm_tombstones_ m) (heartbeat_evidence_ m) (latest_heartbeat_ m)
      (om_set (hr_entity r) r (health_ m)) (next_evidence_id_ m))) as Hd1.
    { eapply data_wf_bump; [..|exact Hd]; try done. cbn. lia. }
    destruct ch; [|exact Hd1]. exact (data_wf_events _ [health_event ps pc r] Hd1).
Qed.

Lemma data_run_wf m ops :
  data_wf m /\ health_wf m -> data_wf (foldl data_step m ops) /\ health_wf (foldl data_step m ops).
Proof.
  revert m. induction ops as [|op ops IH]; intros m Hwf; [done|]. cbn. by apply IH, data_step_wf.
Qed.

Lemma dm_construct_health l m : data_limits_wf l -> dm_construct l = inr m -> health_wf m.
Proof.
  intros Hl. unfold dm_construct. destruct (es_construct _ _) as [msg|store]; [done|]. cbv zeta.
  rewrite (proj1 Hl). cbn [negb]. intros [= <-].
  destruct Hl as (_ & _ & _ & _ & _ & _ & _ & _ & _ & L1 & L2 & L3 & L4).
  split; cbn; try (by constructor); try done.
Qed.

Lemma data_run_limits m ops : dm_limits_ (foldl data_step m ops) = dm_limits_ m.
Proof.
  revert m. induction ops as [|op ops IH]; intros m; [done|]. cbn. rewrite IH.
  destruct op as [v t|os|d|e|r]; cbn [data_step].
  - unfold activateCatalog. destruct v as [v|]; [|done]. cbv zeta. do 5 (guard as G; [done|]; clear G).
    by destruct (publish _ _) as [[st e] store].
  - destruct (dm_commit_cases m os) as [[_ ->]|(staged & partial & _ & _ & _ & _ & _ & _ & _ & Hc)]; [done|].
    cbv zeta in Hc. by rewrite Hc.
  - unfold publishEvent. by destruct (publish _ _) as [[st ev] store].
  - destruct (commitHeartbeatEvidence_cases m e) as [[-> _]|(staged' & _ & _ & _ & He & _ & _ & _ & Hc)]; [done|].
    cbv zeta in Hc. by rewrite Hc.
  - destruct (commitHealth_cases m r) as [[-> _]|(ps & pc & ch & _ & _ & _ & _ & _ & _ & He & _ & Hc)]; [done|].
    by rewrite Hc.
Qed.

(** Identifiers are unique, so a lookup finds the evidence that has it. *)
Lemma find_evidence_unique l ev :
  StronglySorted evidence_newer l -> ev ∈ l -> find_evidence l (fhe_evidence_id ev) = Some ev.
Proof.
  unfold find_evidence. induction 1 as [|x l Hs IH Hall]; [by intros ?%elem_of_nil|].
  rewrite find_if_cons. intros [->|Hin]%elem_of_cons; [by rewrite Z.eqb_refl|].
  rewrite Forall_forall in Hall. destruct (Hall ev Hin) as [Hlt _].
  rewrite (proj2 (Z.eqb_neq _ _)) by lia. by apply IH.
Qed.

(** ** Theorems *)

(** C2: the data manager stays within its limits.  After any sequence of
    catalog activations, commits, event publications, evidence and health
    commits, with any arguments, the number of keys, the bytes of metric
    entries, the history of every entry, the tombstones, the evidence, the
    health entries and the event log all respect the configured limits. *)
Theorem data_manager_bounded limits m0 ops :
  data_limits_wf limits -> dm_construct limits = inr m0 ->
  let m := foldl data_step m0 ops in
  keyCount m <= max_keys limits /\
  shards_bytes (dm_shards_ m) <= max_total_bytes limits /\
  (forall k e, lookup_entry (dm_shards_ m) k = Some e ->
     zlen (e_history e) <= max_history_samples_per_key limits /\
     forall a b, a ∈ e_history e -> b ∈ e_history e ->
       obs_observed_monotonic_time_ns a - obs_observed_monotonic_time_ns b <= max_history_duration_ns limits) /\
  zlen (dm_tombstones_ m) <= max_tombstones limits /\
  zlen (heartbeat_evidence_ m) <= max_evidence_items limits /\
  evidence_bytes (heartbeat_evidence_ m) <= max_evidence_bytes limits /\
  zlen (health_ m) <= max_health_entries limits /\
  health_bytes (health_ m) <= max_health_bytes limits /\
  eventCount (dm_event_store_ m) <= max_events limits /\
  storedBytes (dm_event_store_ m) <= max_event_bytes limits.
Proof.
  intros Hl Hc m. assert (dm_limits_ m = limits) as Hlim.
  { unfold m. rewrite data_run_limits. unfold dm_construct in Hc. destruct (es_construct _ _); [done|].
    cbv zeta in Hc. guard Hc as G; [done|]. by simplify_eq. }
  destruct (data_run_wf m0 ops) as [Hd Hh];
    [split; [by eapply dm_construct_wf|by eapply dm_construct_health]|]. fold m in Hd, Hh.
  destruct Hd as [_ _ _ Hst Hk Hb _ Ht [Hel [log Hr]]], Hh as [_ _ [Hei Heb] _ _ _ Hhe Hhb].
  rewrite Hlim in *. split_and!; try done.
  - intros k e He. apply (stw_entries _ _ _ _ Hst) in He as [_ _ _ _ Hs Hrec Hno]. split; [done|].
    intros a b Ha Hb'. destruct (e_last_valid e) as [v|].
    + specialize (Hrec v eq_refl). rewrite Forall_forall in Hrec.
      destruct (Hrec a Ha) as [Ha1 _], (Hrec b Hb') as [_ Hb2]. unfold time_le in Ha1. lia.
    + rewrite Hno in Ha by done. by apply elem_of_nil in Ha.
  - unfold eventCount. rewrite (er_events _ _ Hr), Hel.
    pose proof (retained_fits (mkEventLimits (max_events limits) (max_event_bytes limits)) log) as Hf.
    unfold fits in Hf. bprop in Hf. apply Hf; apply Hl.
  - unfold storedBytes. rewrite (er_bytes _ _ Hr), (er_events _ _ Hr), Hel.
    pose proof (retained_fits (mkEventLimits (max_events limits) (max_event_bytes limits)) log) as Hf.
    unfold fits in Hf. bprop in Hf. apply Hf; apply Hl.
Qed.

(** C3: health never refers to evidence that is gone.  In every reachable
    state, a health result that [readHealth] returns passes
    [validateHealthResult], belongs to the current catalog generation, and each
    of its evidence references is still answered by [heartbeatEvidence], with
    evidence of the same entity, token, times and source. *)
Theorem health_evidence_resolvable limits m0 ops entity g r :
  data_limits_wf limits -> dm_construct limits = inr m0 ->
  let m := foldl data_step m0 ops in
  readHealth m entity g = (st_success, Some r) ->
  st_ok (validateHealthResult r) = true /\ hr_entity r = entity /\
  hr_catalog_generation r = cst_generation (dm_catalog_ m) /\
  Forall (fun ref => exists ev, heartbeatEvidence m (evr_evidence_id ref) = (st_success, Some ev) /\
    reference_matches r ref ev = true) (hr_evidence r).
Proof.
  intros Hl Hc m Hr. destruct (data_run_wf m0 ops) as [Hd Hh];
    [split; [by eapply dm_construct_wf|by eapply dm_construct_health]|]. fold m in Hd, Hh.
  unfold readHealth in Hr. guard Hr as G1; [done|]. guard Hr as G2; [done|].
  destruct (current_entity _ _ _ _) as [st|] eqn:Ec.
  { unfold current_entity in Ec. repeat (case_match; try done); by simplify_eq. }
  destruct (om_find entity (health_ m)) as [r'|] eqn:Ef; [|done]. simplify_eq.
  destruct (hw_health m Hh _ _ Ef) as [A1 A2 A3 A4 A5]. split_and!; auto.
  eapply Forall_impl; [exact A5|]. intros ref (ev & Hev & Hm). exists ev. split; [|done].
  assert (fhe_evidence_id ev = evr_evidence_id ref) as Hid.
  { unfold reference_matches in Hm. rewrite !andb_true_iff in Hm. bprop in Hm. tauto. }
  pose proof (hw_evidence m Hh) as He. rewrite Forall_forall in He. pose proof (eo_id _ _ (He ev Hev)).
  unfold heartbeatEvidence. rewrite (proj2 (Z.eqb_neq _ 0)) by lia. rewrite G1, <- Hid.
  by rewrite find_evidence_unique by (done || apply Hh).
Qed.

(** replayed heartbeats are refused.  In every reachable state, valid
    evidence whose token is not larger than the token of some stored valid
    evidence of the same entity is not committed and changes nothing. *)
Theorem heartbeat_replay_refused limits m0 ops e c :
  data_limits_wf limits -> dm_construct limits = inr m0 ->
  let m := foldl data_step m0 ops in
  c ∈ heartbeat_evidence_ m -> fhe_entity c = fhe_entity e ->
  fhe_status c = OS_Valid -> fhe_status e = OS_Valid ->
  fhe_sequence_or_token e <= fhe_sequence_or_token c ->
  ecr_committed (fst (commitHeartbeatEvidence m e)) = false /\ snd (commitHeartbeatEvidence m e) = m.
Proof.
  intros Hl Hc m Hin Hent Hcv Hev Htok. destruct (data_run_wf m0 ops) as [Hd Hh];
    [split; [by eapply dm_construct_wf|by eapply dm_construct_health]|]. fold m in Hd, Hh.
  destruct (commitHeartbeatEvidence_cases m e) as [[-> ->]|(staged' & _ & _ & _ & _ & _ & Ha & _ & _)]; [done|].
  destruct (evidence_newer_last m e c Hh Ha Hin) as [_ Hn]. specialize (Hn Hent Hcv Hev). cbn in Hn. lia.
Qed.

(** Capacity refusals of the evidence store are exact.  Evidence that
    passes every other check is refused with RESOURCE_EXHAUSTED only when the
    new item together with the referenced items does not fit the limits by
    itself; otherwise it is stored, and no referenced evidence is evicted. *)
Theorem heartbeat_capacity_exact m e :
  let e' := fhe_with_id e (next_evidence_id_ m) in
  let pinned := List.filter (fun x => is_referenced (health_ m) (fhe_evidence_id x)) (heartbeat_evidence_ m) in
  Forall (fun x => fhe_evidence_id x < next_evidence_id_ m) (heartbeat_evidence_ m) ->
  is_referenced (health_ m) (next_evidence_id_ m) = false ->
  (ecr_status (fst (commitHeartbeatEvidence m e)) =
     err_status PDCM_STATUS_RESOURCE_EXHAUSTED "heartbeat evidence store limit exceeded" ->
   ~ evidence_fits (max_evidence_items (dm_limits_ m)) (max_evidence_bytes (dm_limits_ m)) (pinned ++ [e'])) /\
  (ecr_committed (fst (commitHeartbeatEvidence m e)) = true ->
   evidence_fits (max_evidence_items (dm_limits_ m)) (max_evidence_bytes (dm_limits_ m))
     (heartbeat_evidence_ (snd (commitHeartbeatEvidence m e))) /\
   forall x, x ∈ pinned ++ [e'] -> x ∈ heartbeat_evidence_ (snd (commitHeartbeatEvidence m e))).
Proof.
  intros e' pinned Hids Hunref.
  set (staged := List.filter (fun x => negb (expired (evidence_ttl_ns (dm_limits_ m)) (health_ m) e' x))
                   (heartbeat_evidence_ m ++ [e'])).
  assert (List.filter (keep (health_ m) (next_evidence_id_ m)) staged = pinned ++ [e']) as Hkeep.
  { unfold staged, pinned. rewrite !List.filter_app. f_equal.
    - clear Hunref. induction Hids as [|x l Hx Hids IH]; [done|]. cbn [List.filter].
      destruct (is_referenced (health_ m) (fhe_evidence_id x)) eqn:Er.
      + assert (expired (evidence_ttl_ns (dm_limits_ m)) (health_ m) e' x = false) as ->
          by (unfold expired; by rewrite Er, andb_false_r).
        cbn [negb List.filter]. assert (keep (health_ m) (next_evidence_id_ m) x = true) as ->
          by (unfold keep; by rewrite Er, orb_true_r). by f_equal.
      + destruct (negb (expired _ _ e' x)); cbn [List.filter]; [|done].
        assert (keep (health_ m) (next_evidence_id_ m) x = false) as ->; [|done].
        unfold keep. rewrite Er, (proj2 (Z.eqb_neq _ _)) by lia. done.
    - cbn. unfold expired. cbn [e' fhe_with_id fhe_evidence_id]. rewrite Z.eqb_refl. cbn [negb andb List.filter].
      unfold keep. cbn. by rewrite Z.eqb_refl. }
  pose proof (evict_evidence_spec (length staged) (max_evidence_items (dm_limits_ m))
    (max_evidence_bytes (dm_limits_ m)) (health_ m) (next_evidence_id_ m) staged ltac:(lia)) as Hspec.
  rewrite Hkeep in Hspec. split.
  - unfold commitHeartbeatEvidence. cbv zeta. fold e' staged. guard as G1; [done|]. guard as G2.
    { cbn. unfold validateFirmwareHeartbeatEvidence. repeat (case_match; try done). }
    do 5 (guard as G; [done|]; clear G).
    destruct (evidence_answer m e) as [r|] eqn:Ea.
    { intros Hst. exfalso. unfold evidence_answer in Ea. repeat (case_match; try done); by simplify_eq. }
    destruct (evict_evidence _ _ _ _ _ _); [done|]. by intros _.
  - intros Hok. destruct (commitHeartbeatEvidence_cases m e)
      as [[_ Hf]|(staged' & _ & _ & _ & _ & _ & _ & Hs & Hc)]; [congruence|].
    cbv zeta in *. fold e' staged in Hs. rewrite Hs in Hspec. destruct Hspec as (_ & Hfits & Hk).
    rewrite Hc. cbn [snd heartbeat_evidence_]. split; [done|]. intros x Hx. rewrite <- Hk in Hx.
    apply elem_of_filterb in Hx. tauto.
Qed.

(** Generations never mix.  In every reachable state all stored metric
    observations, evidence and health results belong to the active catalog
    generation and to an entity of it, stored observations are valid and never
    stale, and activating a different generation leaves none of them behind. *)
Theorem data_generation_isolated limits m0 ops :
  data_limits_wf limits -> dm_construct limits = inr m0 ->
  let m := foldl data_step m0 ops in
  let c := dm_catalog_ m in
  (forall k o, latest_of (dm_shards_ m) k = Some o ->
     key_of o = k /\ obs_catalog_generation o = cst_generation c /\ obs_entity o ∈ cst_entities c /\
     st_ok (validateObservation o) = true /\ obs_status o <> OS_Stale) /\
  (forall e, e ∈ heartbeat_evidence_ m ->
     fhe_catalog_generation e = cst_generation c /\ fhe_entity e ∈ cst_entities c) /\
  (forall e r, om_find e (health_ m) = Some r ->
     hr_entity r = e /\ hr_catalog_generation r = cst_generation c /\ e ∈ cst_entities c) /\
  (forall v t, let m' := snd (activateCatalog m v t) in
     cst_generation (dm_catalog_ m') <> cst_generation c ->
     keyCount m' = 0 /\ heartbeat_evidence_ m' = [] /\ health_ m' = []).
Proof.
  intros Hl Hc m c. destruct (data_run_wf m0 ops) as [Hd Hh];
    [split; [by eapply dm_construct_wf|by eapply dm_construct_health]|]. fold m in Hd, Hh. split_and!.
  - intros k o Ho. unfold latest_of in Ho. destruct (lookup_entry _ k) as [e|] eqn:E; [|done].
    apply (stw_entries _ _ _ _ (dw_store m Hd)) in E as [(x & Hx & [B1 B2 B3 B4 _ B6 _] & _) _ _ _ _ _ _].
    simplify_eq. split_and!; auto; by apply validateObservation_ok.
  - intros e He. pose proof (hw_evidence m Hh) as Hev. rewrite Forall_forall in Hev.
    by destruct (Hev e He) as [_ _ B3 B4].
  - intros e r Hr. by destruct (hw_health m Hh e r Hr) as [B1 _ B3 B4 _].
  - intros v t m' Hne. unfold m' in *. clear m'. unfold activateCatalog in *. destruct v as [v|]; [|done].
    cbv zeta in *. do 5 (guard as G; [done|]; clear G). destruct (publish _ _) as [[st e] store].
    cbn [snd heartbeat_evidence_ health_]. split; [|done]. unfold keyCount. cbn [dm_shards_].
    by rewrite shards_keys_total, total_by_empty.
Qed.

End HealthStore.

(** ** An example: a device whose firmware heartbeat is supported *)

Definition sample_hb_target : TargetCatalog :=
  mkTargetCatalog 1 TK_Emu MCS_Ready [sample_metric]
    [mkHealthEntry kFirmwareHeartbeatHealthId EK_Device RL_Required "firmware_heartbeat" (Some 3) 5000000000 1
       "native mapping pending"].
Definition sample_hb_view : CatalogView :=
  mkCatalogView 1 1 false (cv_entities_ sample_view)
    [mkCapabilitySet sample_entity 1 [mkCapabilityItem CAP_Health 1 true CR_Supported 1 1]].
Definition sample_evidence (time token : Z) : FirmwareHeartbeatEvidence :=
  mkEvidence 0 sample_entity 3 HN_Normal OS_Valid token (Some time) time (mkSource "prov-1" "hb") em_default 1.
Definition sample_health : HealthResult :=
  mkHealthResult sample_entity 1 HS_Healthy OS_Valid 1 20 10
    [mkEvidenceRef 1 5 (Some 10) 10 (mkSource "prov-1" "hb")] [] HC_HeartbeatOk.
Definition sample_data_ops : list data_op :=
  [DoActivate (Some sample_hb_view) sample_hb_target; DoCommit [sample_observation 5 40];
   DoEvidence (sample_evidence 10 5); DoHealth sample_health].

(** The manager after the evidence, before the health result. *)
Definition sample_health_data : DataManager := foldl (@data_step sample_layout) sample_empty (take 3 sample_data_ops).

Lemma sample_health_data_wf : @data_wf sample_layout sample_health_data /\ @health_wf sample_layout sample_health_data.
Proof.
  apply (@data_run_wf sample_layout). split.
  - apply (@dm_construct_wf sample_layout data_limits_default); [apply sample_limits_wf|reflexivity].
  - apply (@dm_construct_health sample_layout data_limits_default); [apply sample_limits_wf|reflexivity].
Qed.

Lemma sample_entities : cst_entities (dm_catalog_ sample_health_data) = [sample_entity].
Proof. vm_compute. reflexivity. Qed.

Lemma data_manager_bounded_witness :
  let _ := sample_layout in
  let m := foldl data_step sample_empty sample_data_ops in
  let limits := data_limits_default in
  keyCount m <= max_keys limits /\
  shards_bytes (dm_shards_ m) <= max_total_bytes limits /\
  (forall k e, lookup_entry (dm_shards_ m) k = Some e ->
     zlen (e_history e) <= max_history_samples_per_key limits /\
     forall a b, a ∈ e_history e -> b ∈ e_history e ->
       obs_observed_monotonic_time_ns a - obs_observed_monotonic_time_ns b <= max_history_duration_ns limits) /\
  zlen (dm_tombstones_ m) <= max_tombstones limits /\
  zlen (heartbeat_evidence_ m) <= max_evidence_items limits /\
  evidence_bytes (heartbeat_evidence_ m) <= max_evidence_bytes limits /\
  zlen (health_ m) <= max_health_entries limits /\
  health_bytes (health_ m) <= max_health_bytes limits /\
  eventCount (dm_event_store_ m) <= max_events limits /\
  storedBytes (dm_event_store_ m) <= max_event_bytes limits.
Proof. apply (@data_manager_bounded sample_layout); [apply sample_limits_wf|reflexivity]. Defined.

Lemma health_evidence_resolvable_witness :
  let _ := sample_layout in
  let m := foldl data_step sample_empty sample_data_ops in
  st_ok (validateHealthResult sample_health) = true /\ hr_entity sample_health = sample_entity /\
  hr_catalog_generation sample_health = cst_generation (dm_catalog_ m) /\
  Forall (fun ref => exists ev, heartbeatEvidence m (evr_evidence_id ref) = (st_success, Some ev) /\
    reference_matches sample_health ref ev = true) (hr_evidence sample_health).
Proof.
  apply (@health_evidence_resolvable sample_layout data_limits_default sample_empty sample_data_ops
           sample_entity 1); [apply sample_limits_wf|reflexivity|vm_compute; reflexivity].
Defined.

Lemma heartbeat_replay_refused_witness :
  let _ := sample_layout in
  let m := foldl data_step sample_empty sample_data_ops in
  ecr_committed (fst (commitHeartbeatEvidence m (sample_evidence 30 5))) = false /\
  snd (commitHeartbeatEvidence m (sample_evidence 30 5)) = m.
Proof.
  apply (@heartbeat_replay_refused sample_layout data_limits_default sample_empty sample_data_ops
           (sample_evidence 30 5) (fhe_with_id (sample_evidence 10 5) 1));
    try reflexivity; [apply sample_limits_wf|vm_compute; left].
Defined.

Lemma heartbeat_capacity_exact_witness :
  let _ := sample_layout in
  let m := foldl data_step sample_empty sample_data_ops in
  let e := sample_evidence 30 6 in
  let e' := fhe_with_id e (next_evidence_id_ m) in
  let pinned := List.filter (fun x => is_referenced (health_ m) (fhe_evidence_id x)) (heartbeat_evidence_ m) in
  (ecr_status (fst (commitHeartbeatEvidence m e)) =
     err_status PDCM_STATUS_RESOURCE_EXHAUSTED "heartbeat evidence store limit exceeded" ->
   ~ evidence_fits (max_evidence_items (dm_limits_ m)) (max_evidence_bytes (dm_limits_ m)) (pinned ++ [e'])) /\
  (ecr_committed (fst (commitHeartbeatEvidence m e)) = true ->
   evidence_fits (max_evidence_items (dm_limits_ m)) (max_evidence_bytes (dm_limits_ m))
     (heartbeat_evidence_ (snd (commitHeartbeatEvidence m e))) /\
   forall x, x ∈ pinned ++ [e'] -> x ∈ heartbeat_evidence_ (snd (commitHeartbeatEvidence m e))).
Proof.
  apply (@heartbeat_capacity_exact sample_layout); [vm_compute; repeat constructor|vm_compute; reflexivity].
Defined.

Lemma data_generation_isolated_witness :
  let _ := sample_layout in
  let m := foldl data_step sample_empty sample_data_ops in
  let c := dm_catalog_ m in
  (forall k o, latest_of (dm_shards_ m) k = Some o ->
     key_of o = k /\ obs_catalog_generation o = cst_generation c /\ obs_entity o ∈ cst_entities c /\
     st_ok (validateObservation o) = true /\ obs_status o <> OS_Stale) /\
  (forall e, e ∈ heartbeat_evidence_ m ->
     fhe_catalog_generation e = cst_generation c /\ fhe_entity e ∈ cst_entities c) /\
  (forall e r, om_find e (health_ m) = Some r ->
     hr_entity r = e /\ hr_catalog_generation r = cst_generation c /\ e ∈ cst_entities c) /\
  (forall v t, let m' := snd (activateCatalog m v t) in
     cst_generation (dm_catalog_ m') <> cst_generation c ->
     keyCount m' = 0 /\ heartbeat_evidence_ m' = [] /\ health_ m' = []).
Proof. apply (@data_generation_isolated sample_layout data_limits_default); [apply sample_limits_wf|reflexivity]. Defined.
