(* ===== verification/Subscription.v ===== *)
(** Event subscriptions (src/product/src/data/subscription_manager.hpp and
    .cpp): filters, the bounded per-subscription queue with its loss marker,
    dispatch from the event log, delivery, closing and draining.

    A subscription's operations run under its mutex and are state-passing
    functions on [Subscription].  [deliverNext] and [close] release the mutex
    while the callback runs or while they wait, so they are split at those
    points ([deliver_begin]/[deliver_end], [close_begin]/[close_end]) and the
    interleavings are the runs of [sub_step].  [std::get] on a payload that is
    not a loss payload throws; [Threw] carries the state at that point. *)
From S2P Require Import Prelude Containers Common Provider Catalog EventStore DataStore.
Local Open Scope string_scope.
Local Open Scope list_scope.
Open Scope Z_scope.
Open Scope pdcm_scope.

(** ** Filters *)

Record SubscriptionFilter := mkFilter {
  sf_event_types : list EventType;
  sf_entity : option EntityRef;
  sf_metrics : list MetricId;
  sf_health_subsystem : option Z;
  sf_minimum_severity : EventSeverity;
  sf_follow_rediscovery : bool }.

Record SubscriptionLimits := mkSubLimits { sl_max_events : Z; sl_max_bytes : Z }.
Definition sub_limits_default : SubscriptionLimits := mkSubLimits 64 (256 * 1024).

Definition sl_validate (l : SubscriptionLimits) : Status :=
  if (sl_max_events l =? 0) || (sl_max_bytes l =? 0)
  then invalid_argument "subscription limits must be non-zero"
  else st_success.

Lemma event_type_value_inj a b : event_type_value a = event_type_value b -> a = b.
Proof. by destruct a, b. Qed.
#[export] Instance EventType_ordered : Ordered EventType := ordered_by event_type_value event_type_value_inj.

Definition severityAtLeast (actual minimum : EventSeverity) : bool :=
  severity_value minimum <=? severity_value actual.

(** [validateFilter] sorts the two vectors of the filter in place. *)
Definition validateFilter (f : SubscriptionFilter) : Status * SubscriptionFilter :=
  if is_nil (sf_event_types f)
     || match sf_health_subsystem f with Some h => negb (h =? kFirmwareHeartbeatHealthId) | None => false end
  then (invalid_argument "subscription filter is invalid", f)
  else
  let types := std_sort (sf_event_types f) in
  let f1 := mkFilter types (sf_entity f) (sf_metrics f) (sf_health_subsystem f) (sf_minimum_severity f)
              (sf_follow_rediscovery f) in
  if has_adjacent_dup types
  then (invalid_argument "subscription event types contain duplicates", f1)
  else
  let metrics := std_sort (sf_metrics f) in
  let f2 := mkFilter types (sf_entity f) metrics (sf_health_subsystem f) (sf_minimum_severity f)
              (sf_follow_rediscovery f) in
  if has_adjacent_dup metrics
  then (invalid_argument "subscription metrics contain duplicates", f2)
  else (st_success, f2).

Definition matches (f : SubscriptionFilter) (e : PdcmEvent) : bool :=
  if negb (binary_search (sf_event_types f) (ev_type e))
     || negb (severityAtLeast (ev_severity e) (sf_minimum_severity f))
  then false
  else if match sf_entity f with
          | Some fe =>
              match ev_entity e with
              | None => true
              | Some ee =>
                  negb (fe ==? ee)
                  && negb (sf_follow_rediscovery f && (er_kind fe ==? er_kind ee) && (er_id fe =? er_id ee))
              end
          | None => false
          end
  then false
  else if negb (is_nil (sf_metrics f))
          && match ev_metric e with Some m => negb (binary_search (sf_metrics f) m) | None => true end
  then false
  else if has_value (sf_health_subsystem f) && (ev_health_subsystem e !=? sf_health_subsystem f)
  then false
  else true.

(** ** The queue of a subscription *)

Record Subscription := mkSubscription {
  sub_filter : SubscriptionFilter;
  sub_limits : SubscriptionLimits;
  sub_pending : list PdcmEvent;
  sub_pending_bytes : Z;
  sub_active_deliveries : Z;
  sub_closing : bool;
  sub_closed : bool }.

Definition sub_init (f : SubscriptionFilter) (l : SubscriptionLimits) : Subscription :=
  mkSubscription f l [] 0 0 false false.
Definition sub_with_queue (s : Subscription) (q : list PdcmEvent) (bytes : Z) : Subscription :=
  mkSubscription (sub_filter s) (sub_limits s) q bytes (sub_active_deliveries s) (sub_closing s) (sub_closed s).
Definition sub_overflow (s : Subscription) : Subscription :=
  mkSubscription (sub_filter s) (sub_limits s) [] 0 (sub_active_deliveries s) (sub_closing s) true.

Inductive outcome (A : Type) := Returned (a : A) | Threw (a : A).
Arguments Returned {A}.
Arguments Threw {A}.

Definition droppable (e : PdcmEvent) : bool := negb (isNonDroppable (ev_type e)).
Definition is_marker (e : PdcmEvent) : bool := ev_type e ==? ET_SubscriptionLossMarker.

Definition sameMetricKey (a b : PdcmEvent) : bool :=
  (ev_type a ==? ET_MetricUpdate) && (ev_type b ==? ET_MetricUpdate)
  && (ev_entity a ==? ev_entity b) && (ev_metric a ==? ev_metric b).

Definition marker_event (boot seq time gen : Z) (p : SubscriptionLossPayload) : PdcmEvent :=
  mkEvent boot seq ET_SubscriptionLossMarker SEV_Warning None None None time gen (EP_SubscriptionLoss p).

(** [lossMarker]; [None] is [std::bad_variant_access]. *)
Definition lossMarker (dropped : PdcmEvent) (existing : option PdcmEvent) : option PdcmEvent :=
  match existing with
  | None =>
      Some (marker_event (ev_boot_epoch dropped) (ev_sequence dropped) (ev_occurrence_time_ns dropped)
              (ev_catalog_generation dropped) (mkLoss (ev_sequence dropped) (ev_sequence dropped) 1))
  | Some x =>
      match ev_payload x with
      | EP_SubscriptionLoss p =>
          Some (marker_event (ev_boot_epoch dropped) (ev_sequence x) (ev_occurrence_time_ns x)
                  (ev_catalog_generation dropped)
                  (mkLoss (Z.min (first_dropped_sequence p) (ev_sequence dropped))
                     (Z.max (last_dropped_sequence p) (ev_sequence dropped)) (dropped_count p + 1)))
      | _ => None
      end
  end.

Section Queue.
Context `{Layout}.

Definition exceeds_limits (l : SubscriptionLimits) (no_marker : bool) (reserve incoming : Z)
    (pending : list PdcmEvent) (bytes : Z) (dropped : list PdcmEvent) : bool :=
  let needs_marker := no_marker && negb (is_nil dropped) in
  let reserved := if needs_marker then reserve else 0 in
  let event_limit := sl_max_events l <? zlen pending + 1 + (if needs_marker then 1 else 0) in
  let byte_limit := (size_sub (sl_max_bytes l) bytes <? incoming)
                    || (size_sub (size_sub (sl_max_bytes l) bytes) incoming <? reserved) in
  event_limit || byte_limit.

Definition drop_candidate (event queued : PdcmEvent) : bool :=
  if ev_type event ==? ET_MetricUpdate then sameMetricKey queued event else droppable queued.

(** The dropping loop; each turn removes one queued event.  [None]: no
    candidate is left. *)
Fixpoint drop_loop (fuel : nat) (l : SubscriptionLimits) (no_marker : bool) (reserve incoming : Z)
    (event : PdcmEvent) (pending : list PdcmEvent) (bytes : Z) (dropped : list PdcmEvent)
    : option (list PdcmEvent * Z * list PdcmEvent) :=
  if exceeds_limits l no_marker reserve incoming pending bytes dropped then
    match fuel with
    | O => None
    | S fuel' =>
        match split_if (drop_candidate event) pending with
        | None => None
        | Some (pre, x, post) =>
            drop_loop fuel' l no_marker reserve incoming event (pre ++ post) (bytes - eventBytes x)
              (dropped ++ [x])
        end
    end
  else Some (pending, bytes, dropped).

(** Folding the dropped events into the marker. *)
Fixpoint fold_marker (dropped : list PdcmEvent) (marker : option PdcmEvent) : option (option PdcmEvent) :=
  match dropped with
  | [] => Some marker
  | d :: dropped' =>
      match lossMarker d marker with
      | None => None
      | Some m => fold_marker dropped' (Some m)
      end
  end.

(** Installing the updated marker in the queue. *)
Definition place_marker (marker : PdcmEvent) (pending : list PdcmEvent) (bytes : Z) : list PdcmEvent * Z :=
  match split_if is_marker pending with
  | Some (pre, old, post) => (pre ++ marker :: post, bytes - eventBytes old + eventBytes marker)
  | None => (pending ++ [marker], bytes + eventBytes marker)
  end.

Definition enqueue (s : Subscription) (event : PdcmEvent) : outcome Subscription :=
  if sub_closing s || sub_closed s then Returned s
  else
  let incoming := eventBytes event in
  let l := sub_limits s in
  if sl_max_bytes l <? incoming then Returned (sub_overflow s)
  else
  let marker := find_if is_marker (sub_pending s) in
  (* the size of a fresh marker; lossMarker with no existing marker never throws *)
  let reserve := match marker with
                 | None => match lossMarker event None with Some m => eventBytes m | None => 0 end
                 | Some _ => 0
                 end in
  match drop_loop (length (sub_pending s)) l (negb (has_value marker)) reserve incoming event
          (sub_pending s) (sub_pending_bytes s) [] with
  | None => Returned (sub_overflow s)
  | Some (pending, bytes, dropped) =>
      match fold_marker dropped marker with
      | None => Threw (sub_with_queue s pending bytes)
      | Some marker' =>
          let '(pending, bytes) :=
            match dropped, marker' with
            | _ :: _, Some mk => place_marker mk pending bytes
            | _, _ => (pending, bytes)
            end in
          if (sl_max_events l <=? zlen pending) || (size_sub (sl_max_bytes l) incoming <? bytes)
          then Returned (sub_overflow s)
          else Returned (sub_with_queue s (pending ++ [event]) (bytes + incoming))
      end
  end.

(** ** Delivery and closing, split at the points where the mutex is free *)

Definition deliver_begin (s : Subscription) : Status * option PdcmEvent * Subscription :=
  if sub_closing s || sub_closed s
  then (err_status PDCM_STATUS_UNAVAILABLE "subscription is closed", None, s)
  else
  match sub_pending s with
  | [] => (err_status PDCM_STATUS_NOT_FOUND "subscription queue is empty", None, s)
  | e :: rest =>
      (st_success, Some e,
       mkSubscription (sub_filter s) (sub_limits s) rest (sub_pending_bytes s - eventBytes e)
         (sub_active_deliveries s + 1) (sub_closing s) (sub_closed s))
  end.

Definition deliver_end (s : Subscription) : Subscription :=
  mkSubscription (sub_filter s) (sub_limits s) (sub_pending s) (sub_pending_bytes s)
    (sub_active_deliveries s - 1) (sub_closing s) (sub_closed s).

Definition close_begin (s : Subscription) : Subscription :=
  mkSubscription (sub_filter s) (sub_limits s) [] 0 (sub_active_deliveries s) true (sub_closed s).

(** The wait of [close] ends when no delivery is active. *)
Definition close_end (s : Subscription) : option Subscription :=
  if sub_active_deliveries s =? 0
  then Some (mkSubscription (sub_filter s) (sub_limits s) (sub_pending s) (sub_pending_bytes s)
               (sub_active_deliveries s) (sub_closing s) true)
  else None.

(** Interleavings of producers, consumers and a closing thread on one
    subscription: the state is the subscription, the number of callbacks
    running and whether [close] has returned. *)
Record sub_sys := mkSys { sys_sub : Subscription; sys_running : nat; sys_close_done : bool }.

Inductive sub_step : sub_sys -> sub_sys -> Prop :=
  | StepEnqueue s n d e s' :
      enqueue s e = Returned s' -> sub_step (mkSys s n d) (mkSys s' n d)
  | StepDeliverBegin s n d e s' :
      deliver_begin s = (st_success, Some e, s') -> sub_step (mkSys s n d) (mkSys s' (S n) d)
  | StepDeliverEnd s n d :
      sub_step (mkSys s (S n) d) (mkSys (deliver_end s) n d)
  | StepCloseBegin s n d :
      sub_step (mkSys s n d) (mkSys (close_begin s) n d)
  | StepCloseEnd s n d s' :
      sub_closing s = true -> close_end s = Some s' -> sub_step (mkSys s n d) (mkSys s' n true).

(** ** The registry *)

Record SubscriptionManager := mkSubManager {
  max_subscriptions_ : Z;
  subscriptions_ : list (Z * Subscription);
  known_subscriptions_ : list (Z * unit);
  next_subscription_id_ : Z;
  last_seen_sequence_ : Z;
  subm_draining_ : bool }.

(** The constructor throws on a zero limit. *)
Definition subm_construct (max_subscriptions : Z) : string + SubscriptionManager :=
  if max_subscriptions =? 0 then inl "subscription limit must be non-zero"
  else inr (mkSubManager max_subscriptions [] [] 1 0 false).

Definition subm_with (m : SubscriptionManager) (subs : list (Z * Subscription)) (seen : Z) : SubscriptionManager :=
  mkSubManager (max_subscriptions_ m) subs (known_subscriptions_ m) (next_subscription_id_ m) seen
    (subm_draining_ m).

Definition subscribe (m : SubscriptionManager) (filter : SubscriptionFilter) (limits : SubscriptionLimits)
    : Status * Z * SubscriptionManager :=
  let '(status, filter) := validateFilter filter in
  if negb (st_ok status) then (status, 0, m)
  else
  let status := sl_validate limits in
  if negb (st_ok status) then (status, 0, m)
  else if subm_draining_ m
  then (err_status PDCM_STATUS_UNAVAILABLE "subscription manager is draining", 0, m)
  else if (max_subscriptions_ m <=? zlen (subscriptions_ m)) || (next_subscription_id_ m =? u64_max)
  then (err_status PDCM_STATUS_RESOURCE_EXHAUSTED "subscription registry limit reached", 0, m)
  else
  let id := next_subscription_id_ m in
  (st_success, id,
   mkSubManager (max_subscriptions_ m) (om_emplace id (sub_init filter limits) (subscriptions_ m))
     (om_set id tt (known_subscriptions_ m)) (id + 1) (last_seen_sequence_ m) (subm_draining_ m)).

(** The inner loop of [dispatch]: one event to every registered
    subscription. *)
Fixpoint offer (e : PdcmEvent) (subs : list (Z * Subscription)) : outcome (list (Z * Subscription)) :=
  match subs with
  | [] => Returned []
  | (id, s) :: subs' =>
      match (if matches (sub_filter s) e then enqueue s e else Returned s) with
      | Threw s' => Threw ((id, s') :: subs')
      | Returned s' =>
          match offer e subs' with
          | Returned subs'' => Returned ((id, s') :: subs'')
          | Threw subs'' => Threw ((id, s') :: subs'')
          end
      end
  end.

Fixpoint offer_all (es : list PdcmEvent) (subs : list (Z * Subscription)) : outcome (list (Z * Subscription)) :=
  match es with
  | [] => Returned subs
  | e :: es' => match offer e subs with
                | Returned subs' => offer_all es' subs'
                | Threw subs' => Threw subs'
                end
  end.

(** [dispatch]; the first component is [None] when an exception escapes. *)
Definition dispatch (dm : DataManager) (m : SubscriptionManager) : option Status * SubscriptionManager :=
  let snapshot := eventsSince dm (last_seen_sequence_ m) in
  if is_nil (snap_events snapshot) then (Some st_success, m)
  else
  match offer_all (snap_events snapshot) (subscriptions_ m) with
  | Returned subs => (Some st_success, subm_with m subs (snap_latest_sequence snapshot))
  | Threw subs => (None, subm_with m subs (snap_latest_sequence snapshot))
  end.

(** [deliverNext] without interference; [callback] answers whether it
    returned normally. *)
Definition deliverNext (m : SubscriptionManager) (id : Z) (callback : option (PdcmEvent -> bool))
    : Status * option PdcmEvent * SubscriptionManager :=
  match callback with
  | None => (invalid_argument "event callback is empty", None, m)
  | Some cb =>
      match om_find id (subscriptions_ m) with
      | None => (err_status PDCM_STATUS_NOT_FOUND "subscription is not active", None, m)
      | Some s =>
          match deliver_begin s with
          | (st, None, _) => (st, None, m)
          | (_, Some e, s1) =>
              (if cb e then st_success
               else err_status PDCM_STATUS_INTERNAL "event callback threw an exception",
               Some e,
               subm_with m (om_set id (deliver_end s1) (subscriptions_ m)) (last_seen_sequence_ m))
          end
      end
  end.

(** [close] without deliveries in progress. *)
Definition subm_close (m : SubscriptionManager) (id : Z) : Status * SubscriptionManager :=
  match om_find id (subscriptions_ m) with
  | None => (err_status PDCM_STATUS_NOT_FOUND "subscription is not active", m)
  | Some _ => (st_success, subm_with m (om_erase id (subscriptions_ m)) (last_seen_sequence_ m))
  end.

Definition draining_event (time generation : Z) : EventDraft :=
  mkDraft ET_DaemonDraining SEV_Warning None None None time generation EP_Monostate.

Definition drain (dm : DataManager) (m : SubscriptionManager) (time : Z)
    : option Status * DataManager * SubscriptionManager :=
  if time <? 0 then (Some (invalid_argument "drain time is invalid"), dm, m)
  else
  let m1 := mkSubManager (max_subscriptions_ m) (subscriptions_ m) (known_subscriptions_ m)
              (next_subscription_id_ m) (last_seen_sequence_ m) true in
  let '(st, _, dm1) := publishEvent dm (draining_event time (catalogGeneration dm)) in
  if negb (st_ok st) then (Some st, dm1, m1)
  else let '(st, m2) := dispatch dm1 m1 in (st, dm1, m2).

(** A weak pointer of [known_subscriptions_] locks while the registry owns
    the subscription. *)
Definition known (m : SubscriptionManager) (id : Z) : option Subscription :=
  if om_mem id (known_subscriptions_ m) then om_find id (subscriptions_ m) else None.
Definition pendingCount (m : SubscriptionManager) (id : Z) : Z :=
  match known m id with Some s => zlen (sub_pending s) | None => 0 end.
Definition pendingBytes (m : SubscriptionManager) (id : Z) : Z :=
  match known m id with Some s => sub_pending_bytes s | None => 0 end.
Definition isClosed (m : SubscriptionManager) (id : Z) : bool :=
  match known m id with Some s => sub_closed s | None => true end.

(** ** Specification of the queue *)

(** Events of the queue other than the marker, and the number the marker
    accounts for. *)
Definition real_events (q : list PdcmEvent) : list PdcmEvent := List.filter (fun e => negb (is_marker e)) q.
Definition loss_count (e : PdcmEvent) : Z :=
  match ev_payload e with EP_SubscriptionLoss p => dropped_count p | _ => 0 end.
Definition lost (q : list PdcmEvent) : Z :=
  match find_if is_marker q with Some m => loss_count m | None => 0 end.

(** An event from the store: markers are only made by the queue itself. *)
Definition stored_event (e : PdcmEvent) : Prop := is_marker e = false.

Definition marker_ok (e : PdcmEvent) : Prop :=
  is_marker e = true -> exists p, ev_payload e = EP_SubscriptionLoss p.

Record queue_wf (s : Subscription) : Prop := {
  qw_limits : 0 <= sl_max_events (sub_limits s) /\ 0 <= sl_max_bytes (sub_limits s) <= u64_max;
  qw_events : zlen (sub_pending s) <= sl_max_events (sub_limits s);
  qw_bytes : sub_pending_bytes s = sum_by eventBytes (sub_pending s) /\
    sub_pending_bytes s <= sl_max_bytes (sub_limits s);
  qw_markers : Forall marker_ok (sub_pending s) /\ zlen (List.filter is_marker (sub_pending s)) <= 1;
  qw_active : 0 <= sub_active_deliveries s }.

(** ** Lemmas on the queue *)

Definition marker_size : Z := sizeof_PdcmEvent + sizeof_SubscriptionLossPayload.

Lemma find_if_filter {A} (p : A -> bool) l : find_if p l = head (List.filter p l).
Proof. induction l as [|x l IH]; [done|]. rewrite find_if_cons. cbn. by destruct (p x). Qed.

Lemma candidate_not_marker e x : drop_candidate e x = true -> is_marker x = false.
Proof.
  unfold drop_candidate, sameMetricKey, droppable, isNonDroppable, is_marker.
  case_bool_decide; bprop; intros Hx; destruct (ev_type x); tauto || (exfalso; naive_solver) || naive_solver.
Qed.

(** With the queue within its byte limit the unsigned subtractions of
    [exceeds_limits] do not wrap. *)
Lemma exceeds_limits_false l nm reserve incoming pending bytes dropped :
  0 <= sl_max_bytes l <= u64_max -> 0 <= bytes <= sl_max_bytes l -> 0 <= incoming ->
  exceeds_limits l nm reserve incoming pending bytes dropped = false <->
  let extra := nm && negb (is_nil dropped) in
  zlen pending + 1 + (if extra then 1 else 0) <= sl_max_events l /\
  bytes + incoming + (if extra then reserve else 0) <= sl_max_bytes l /\ bytes + incoming <= sl_max_bytes l.
Proof.
  intros Hl Hb Hi. unfold exceeds_limits. cbv zeta. set (extra := nm && negb (is_nil dropped)).
  rewrite (size_sub_small (sl_max_bytes l) bytes) by lia. bprop.
  destruct (Z.le_gt_cases (bytes + incoming) (sl_max_bytes l)) as [Hle|Hgt].
  - rewrite size_sub_small by lia. destruct extra; lia.
  - destruct extra; lia.
Qed.

Record drop_rel (event : PdcmEvent) (p : list PdcmEvent) (d : list PdcmEvent)
    (p' : list PdcmEvent) (d' : list PdcmEvent) : Prop := {
  dr_sublist : p' `sublist_of` p;
  dr_bytes : sum_by eventBytes p' <= sum_by eventBytes p;
  dr_markers : List.filter is_marker p' = List.filter is_marker p;
  dr_kept : List.filter (fun x => negb (drop_candidate event x)) p' =
    List.filter (fun x => negb (drop_candidate event x)) p;
  dr_count : zlen p' + zlen d' = zlen p + zlen d;
  dr_dropped : exists dd, d' = d ++ dd /\ Forall (fun x => drop_candidate event x = true /\ x ∈ p) dd }.

Lemma drop_rel_step event pre x post d p' d' :
  drop_candidate event x = true ->
  drop_rel event (pre ++ post) (d ++ [x]) p' d' -> drop_rel event (pre ++ x :: post) d p' d'.
Proof.
  intros Hx [H1 H2 H3 H3' H4 (dd & -> & H5)]. pose proof (candidate_not_marker _ _ Hx) as Hm. split.
  - rewrite H1. apply sublist_app; [done|]. by apply sublist_cons.
  - rewrite !sum_by_app, sum_by_cons in *. pose proof (eventBytes_pos x). lia.
  - rewrite H3, !List.filter_app. cbn. by rewrite Hm.
  - rewrite H3', !List.filter_app. cbn. by rewrite Hx.
  - rewrite !zlen_app, !zlen_cons, zlen_nil in *. lia.
  - exists (x :: dd). rewrite <- app_assoc. split; [done|]. constructor.
    + split; [done|]. apply elem_of_app. right. left.
    + eapply Forall_impl; [exact H5|]. intros y [Hy1 Hy2]. split; [done|].
      apply elem_of_app in Hy2 as [?|?]; apply elem_of_app; [by left|right; by right].
Qed.

Lemma drop_loop_spec fuel l nm reserve incoming event p b d :
  (length p <= fuel)%nat -> b = sum_by eventBytes p ->
  match drop_loop fuel l nm reserve incoming event p b d with
  | Some (p', b', d') =>
      b' = sum_by eventBytes p' /\ drop_rel event p d p' d' /\
      exceeds_limits l nm reserve incoming p' b' d' = false
  | None => exists p' d', drop_rel event p d p' d' /\
      Forall (fun x => drop_candidate event x = false) p' /\
      exceeds_limits l nm reserve incoming p' (sum_by eventBytes p') d' = true
  end.
Proof.
  assert (forall p d, drop_rel event p d p d) as Hrefl.
  { intros p0 d0. split; auto; [lia|]. exists []. by rewrite app_nil_r. }
  revert p b d. induction fuel as [|fuel IH]; intros p b d Hf Hb; cbn [drop_loop]; guard as G.
  - exists p, d. destruct p; [|cbn in Hf; lia]. split_and!; auto. by subst.
  - auto.
  - destruct (split_if _ p) as [[[pre x] post]|] eqn:Es.
    + apply split_if_Some in Es as (-> & Hx & _). rewrite length_app in Hf. cbn in Hf.
      specialize (IH (pre ++ post) (b - eventBytes x) (d ++ [x])).
      rewrite length_app in IH. specialize (IH ltac:(lia)).
      rewrite sum_by_app, sum_by_cons in Hb. rewrite sum_by_app in IH. specialize (IH ltac:(lia)).
      destruct (drop_loop _ _ _ _ _ _ _ _ _) as [[[p' b'] d']|].
      * destruct IH as (H1 & H2 & H3). split_and!; auto. by apply drop_rel_step.
      * destruct IH as (p' & d' & H1 & H2 & H3). exists p', d'. split_and!; auto. by apply drop_rel_step.
    + apply split_if_None in Es. exists p, d. split_and!; auto. by subst.
  - auto.
Qed.

Lemma lossMarker_Some d mk :
  (forall x, mk = Some x -> exists p, ev_payload x = EP_SubscriptionLoss p) ->
  exists m p, lossMarker d mk = Some m /\ ev_payload m = EP_SubscriptionLoss p /\ is_marker m = true /\
    dropped_count p = match mk with Some x => loss_count x | None => 0 end + 1.
Proof.
  intros Hmk. destruct mk as [x|].
  - destruct (Hmk x eq_refl) as [p Hp]. unfold lossMarker, loss_count. rewrite Hp.
    do 2 eexists; split_and!; done.
  - do 2 eexists; split_and!; done.
Qed.

Lemma fold_marker_Some dd mk :
  dd <> [] -> (forall x, mk = Some x -> exists p, ev_payload x = EP_SubscriptionLoss p) ->
  exists m p, fold_marker dd mk = Some (Some m) /\ ev_payload m = EP_SubscriptionLoss p /\
    is_marker m = true /\
    dropped_count p = match mk with Some x => loss_count x | None => 0 end + zlen dd.
Proof.
  revert mk. induction dd as [|d dd IH]; intros mk Hne Hmk; [done|]. cbn [fold_marker].
  destruct (lossMarker_Some d mk Hmk) as (m & p & -> & Hp & Hm & Hc).
  destruct dd as [|d' dd].
  - exists m, p. split_and!; auto.
  - destruct (IH (Some m)) as (m' & p' & H1 & H2 & H3 & H4); [done|intros x [= <-]; by exists p|].
    assert (loss_count m = dropped_count p) as Hlc by (unfold loss_count; by rewrite Hp).
    exists m', p'. split_and!; auto. rewrite (zlen_cons d). lia.
Qed.

Lemma marker_bytes m p : ev_payload m = EP_SubscriptionLoss p -> eventBytes m = marker_size.
Proof. intros Hp. unfold eventBytes. by rewrite Hp. Qed.

Lemma filter_split {A} (p : A -> bool) l pre x post :
  split_if p l = Some (pre, x, post) -> l = pre ++ x :: post /\ p x = true /\ List.filter p pre = [].
Proof.
  intros (-> & Hx & Hpre)%split_if_Some. split_and!; auto. apply filter_false_nil.
  intros y Hy. rewrite Forall_forall in Hpre. auto.
Qed.

(** What installing the marker does to the queue. *)
Lemma place_marker_spec mk p0 q :
  ev_payload mk = EP_SubscriptionLoss p0 -> is_marker mk = true ->
  Forall marker_ok q -> zlen (List.filter is_marker q) <= 1 ->
  let '(q', b') := place_marker mk q (sum_by eventBytes q) in
  let extra := is_nil (List.filter is_marker q) in
  b' = sum_by eventBytes q' /\ b' = sum_by eventBytes q + (if extra then marker_size else 0) /\
  zlen q' = zlen q + (if extra then 1 else 0) /\
  List.filter is_marker q' = [mk] /\ real_events q' = real_events q /\ Forall marker_ok q'.
Proof.
  intros Hp Hm Hok Hone. assert (marker_ok mk) as Hmk by (intros _; by exists p0).
  pose proof (marker_bytes mk p0 Hp) as Hb. unfold place_marker.
  destruct (split_if is_marker q) as [[[pre old] post]|] eqn:Es.
  - apply filter_split in Es as (-> & Hold & Hpre). rewrite List.filter_app, Hpre in Hone |- *.
    cbn [List.filter app] in *. rewrite Hold in *. rewrite zlen_cons in Hone.
    assert (List.filter is_marker post = []) as Hpost.
    { destruct (List.filter is_marker post); [done|]. rewrite zlen_cons in Hone.
      pose proof (zlen_nonneg l). lia. }
    apply Forall_app in Hok as [Hok1 Hok2]. apply Forall_cons in Hok2 as [Hok2 Hok3].
    destruct (Hok2 Hold) as [po Hpo]. pose proof (marker_bytes old po Hpo).
    cbn [is_nil]. unfold real_events.
    rewrite !sum_by_app, !sum_by_cons, !zlen_app, !zlen_cons, !List.filter_app.
    cbn [List.filter]. rewrite Hold, Hm, Hpre, Hpost. cbn [negb app]. split_and!; auto; try lia.
    apply Forall_app. split; [done|]. by constructor.
  - apply split_if_None in Es.
    assert (List.filter is_marker q = []) as Hnone.
    { apply filter_false_nil. intros y Hy. rewrite Forall_forall in Es. auto. }
    rewrite Hnone. cbn [is_nil]. unfold real_events.
    rewrite !sum_by_app, !zlen_app, !List.filter_app, Hnone, zlen_cons, zlen_nil. cbn [List.filter].
    rewrite Hm. cbn [negb]. rewrite app_nil_r. cbn. split_and!; auto; try lia.
    apply Forall_app. split; [done|]. by constructor.
Qed.

Lemma real_sublist p q : p `sublist_of` q -> real_events p `sublist_of` real_events q.
Proof.
  unfold real_events. induction 1 as [|x p q Hs IH|x p q Hs IH]; cbn; [constructor| |].
  - destruct (negb (is_marker x)); [by constructor|done].
  - destruct (negb (is_marker x)); [by constructor|done].
Qed.

Lemma count_split (q : list PdcmEvent) : zlen q = zlen (real_events q) + zlen (List.filter is_marker q).
Proof.
  unfold real_events. induction q as [|x q IH]; [done|]. cbn [List.filter].
  destruct (is_marker x); cbn [negb]; rewrite !zlen_cons; lia.
Qed.

Lemma lost_filter q : lost q = match head (List.filter is_marker q) with Some m => loss_count m | None => 0 end.
Proof. unfold lost. by rewrite find_if_filter. Qed.

Lemma overflow_wf s : queue_wf s -> queue_wf (sub_overflow s).
Proof.
  intros [H1 H2 H3 H4 H5].
  split; cbn; [done|apply H1|split; [done|lia]|split; [constructor|done]|done].
Qed.

(** What one accepted event does to an open queue: the queue stays within its
    bounds, keeps the order of what it holds, ends with the new event, and
    every event not in it any more is counted by the marker. *)
Record enqueued (s : Subscription) (e : PdcmEvent) (s' : Subscription) : Prop := {
  en_open : sub_closing s' = false /\ sub_closed s' = false;
  en_order : real_events (sub_pending s') `sublist_of` real_events (sub_pending s) ++ [e];
  en_last : last (sub_pending s') = Some e;
  en_account : zlen (real_events (sub_pending s')) + lost (sub_pending s') =
    zlen (real_events (sub_pending s)) + lost (sub_pending s) + 1;
  en_metric : ev_type e = ET_MetricUpdate ->
    forall x, x ∈ sub_pending s -> is_marker x = false -> sameMetricKey x e = false ->
    x ∈ sub_pending s' }.

(** Appending the event to a queue [q'] that has room for it and accounts for
    everything that was dropped. *)
Lemma append_spec s e q' :
  queue_wf s -> stored_event e -> sub_closing s = false -> sub_closed s = false ->
  Forall marker_ok q' -> zlen (List.filter is_marker q') <= 1 ->
  zlen q' + 1 <= sl_max_events (sub_limits s) ->
  sum_by eventBytes q' + eventBytes e <= sl_max_bytes (sub_limits s) ->
  real_events q' `sublist_of` real_events (sub_pending s) ->
  zlen (real_events q') + lost q' = zlen (real_events (sub_pending s)) + lost (sub_pending s) ->
  (forall x, x ∈ sub_pending s -> is_marker x = false -> drop_candidate e x = false -> x ∈ q') ->
  let s' := sub_with_queue s (q' ++ [e]) (sum_by eventBytes q' + eventBytes e) in
  queue_wf s' /\ enqueued s e s'.
Proof.
  intros [[L1 L2] _ _ _ Hact] He Hc1 Hc2 Hok Hone Hev Hby Hsub Hacc Hkept s'.
  assert (real_events (q' ++ [e]) = real_events q' ++ [e]) as Hreal.
  { unfold real_events. rewrite List.filter_app. cbn. by rewrite He. }
  assert (List.filter is_marker (q' ++ [e]) = List.filter is_marker q') as Hmk.
  { rewrite List.filter_app. cbn. by rewrite He, app_nil_r. }
  split; split; unfold s'; cbn [sub_with_queue sub_limits sub_pending sub_pending_bytes sub_active_deliveries
    sub_closing sub_closed]; auto.
  - rewrite zlen_app, zlen_cons, zlen_nil. lia.
  - rewrite sum_by_app, sum_by_cons. change (sum_by eventBytes []) with 0. lia.
  - rewrite Hmk. split; [|done]. apply Forall_app. split; [done|]. constructor; [|done]. intros Hm. congruence.
  - rewrite Hreal. by apply sublist_app.
  - apply last_snoc.
  - rewrite Hreal, lost_filter, Hmk, <- lost_filter, zlen_app. change (zlen [e]) with 1. lia.
  - intros Ht x Hx Hm Hs. apply elem_of_app. left. apply Hkept; auto.
    unfold drop_candidate. by rewrite bool_decide_true.
Qed.

(** The queue after the dropping loop: what was dropped is replaced by the
    marker, and there is room left for the event. *)
Lemma settle_spec s e p d reserve :
  queue_wf s -> drop_rel e (sub_pending s) [] p d ->
  let mk := find_if is_marker (sub_pending s) in
  reserve = (if has_value mk then 0 else marker_size) ->
  exceeds_limits (sub_limits s) (negb (has_value mk)) reserve (eventBytes e) p (sum_by eventBytes p) d = false ->
  exists mk' q', fold_marker d mk = Some mk' /\
    match d, mk' with
    | _ :: _, Some m => place_marker m p (sum_by eventBytes p)
    | _, _ => (p, sum_by eventBytes p)
    end = (q', sum_by eventBytes q') /\
    Forall marker_ok q' /\ zlen (List.filter is_marker q') <= 1 /\
    zlen q' + 1 <= sl_max_events (sub_limits s) /\
    sum_by eventBytes q' + eventBytes e <= sl_max_bytes (sub_limits s) /\
    real_events q' = real_events p /\
    zlen (real_events q') + lost q' = zlen (real_events (sub_pending s)) + lost (sub_pending s).
Proof.
  intros [[L1 L2] Hev [Hb Hbm] [Hok Hone] _] [D1 D2 D3 _ D4 _] mk -> Hex.
  pose proof (eventBytes_pos e) as Hpos. rewrite zlen_nil in D4.
  apply exceeds_limits_false in Hex as (Hx1 & Hx2 & Hx3); [|lia| |lia].
  2:{ split; [|lia]. apply sum_by_nonneg. intros x. pose proof (eventBytes_pos x). lia. }
  assert (Forall marker_ok p) as Hok'.
  { apply Forall_forall. intros x Hx. rewrite Forall_forall in Hok. apply Hok. by eapply sublist_elem. }
  assert (mk = head (List.filter is_marker p)) as Hmk by (unfold mk; by rewrite find_if_filter, D3).
  pose proof (count_split p) as C1. pose proof (count_split (sub_pending s)) as C2. rewrite D3 in C1.
  destruct d as [|x d].
  - rewrite zlen_nil in D4. exists mk, p. cbn [is_nil negb] in *. rewrite andb_false_r in Hx1.
    rewrite !lost_filter, D3. split_and!; auto; lia.
  - cbn [is_nil negb] in *. rewrite andb_true_r in Hx1, Hx2.
    destruct (fold_marker_Some (x :: d) mk ltac:(done)) as (m & p0 & -> & Hp0 & Hm0 & Hcnt).
    { intros y Hy. unfold mk in Hy. apply find_if_Some in Hy as [Hin Hm]. rewrite Forall_forall in Hok.
      by apply Hok. }
    pose proof (place_marker_spec m p0 p Hp0 Hm0 Hok' ltac:(by rewrite D3)) as Hpl.
    destruct (place_marker m p (sum_by eventBytes p)) as [q' bq] eqn:Epl. cbv zeta in Hpl.
    destruct Hpl as (P1 & P2 & P3 & P4 & P5 & P6).
    assert (is_nil (List.filter is_marker p) = negb (has_value mk)) as Hnil.
    { rewrite Hmk. by destruct (List.filter is_marker p). }
    rewrite Hnil in P2, P3. exists (Some m), q'. rewrite Epl, P1. rewrite P1 in P2.
    assert (loss_count m = dropped_count p0) as Hlc by (unfold loss_count; by rewrite Hp0).
    assert (lost (sub_pending s) = match mk with Some y => loss_count y | None => 0 end) as Hlost by done.
    assert (lost q' = loss_count m) as Hlost' by (by rewrite lost_filter, P4).
    rewrite P4, P5, Hlost, Hlost', Hlc, Hcnt. change (zlen [m]) with 1.
    split_and!; auto; destruct (has_value mk); cbn [negb] in *; lia.
Qed.

Lemma enqueue_spec s e :
  queue_wf s -> stored_event e -> sub_closing s = false -> sub_closed s = false ->
  exists s', enqueue s e = Returned s' /\ queue_wf s' /\
    (s' = sub_overflow s \/ enqueued s e s').
Proof.
  intros Hwf He Hc1 Hc2. pose proof (overflow_wf s Hwf) as Hover. unfold enqueue. rewrite Hc1, Hc2. cbn [orb].
  cbv zeta. guard as G1; [by eexists; split_and!; [done|done|by left]|]. bprop in G1.
  rewrite (proj1 (qw_bytes s Hwf)). set (reserve := match find_if is_marker (sub_pending s) with None => _ | Some _ => 0 end).
  pose proof (drop_loop_spec (length (sub_pending s)) (sub_limits s)
    (negb (has_value (find_if is_marker (sub_pending s)))) reserve (eventBytes e) e (sub_pending s)
    (sum_by eventBytes (sub_pending s)) [] ltac:(lia) eq_refl) as Hloop.
  destruct (drop_loop _ _ _ _ _ _ _ _ _) as [[[p b] d]|];
    [|by eexists; split_and!; [done|done|by left]].
  destruct Hloop as (-> & Hrel & Hex).
  edestruct (settle_spec s e p d reserve Hwf Hrel) as (mk' & q' & -> & Hpl & Q1 & Q2 & Q3 & Q4 & Q5 & Q6);
    [unfold reserve; by destruct (find_if _ _)|exact Hex|].
  rewrite Hpl. pose proof (qw_limits s Hwf) as [L1 L2]. pose proof (eventBytes_pos e).
  pose proof (sum_by_nonneg eventBytes q' (fun x => Z.lt_le_incl _ _ (eventBytes_pos x))).
  rewrite size_sub_small by lia.
  assert ((sl_max_events (sub_limits s) <=? zlen q')
    || (sl_max_bytes (sub_limits s) - eventBytes e <? sum_by eventBytes q') = false) as -> by (bprop; lia).
  eexists. split; [done|]. destruct (append_spec s e q') as [Hwf' Hen]; auto.
  - rewrite Q5. apply real_sublist, Hrel.
  - intros x Hx Hm Hd.
    assert (x ∈ real_events q') as Hxr; [|apply elem_of_filterb in Hxr; tauto].
    rewrite Q5. apply elem_of_filterb. rewrite Hm. split; [|done].
    assert (x ∈ List.filter (fun x => negb (drop_candidate e x)) p) as Hin; [|apply elem_of_filterb in Hin; tauto].
    rewrite (dr_kept _ _ _ _ _ Hrel). apply elem_of_filterb. by rewrite Hd.
Qed.

(** ** Runs of one queue *)

Inductive queue_op := QOffer (e : PdcmEvent) | QDeliver.

(** The queue with two ghost counters: events offered while it was open, and
    events its consumer has received or been told about by a marker. *)
Record queue_run := mkRun { qr_sub : Subscription; qr_offered : Z; qr_received : Z }.

Definition received (e : PdcmEvent) : Z := if is_marker e then loss_count e else 1.

Definition queue_step (r : queue_run) (op : queue_op) : queue_run :=
  let s := qr_sub r in
  match op with
  | QOffer e =>
      let offered := if sub_closing s || sub_closed s then qr_offered r else qr_offered r + 1 in
      match enqueue s e with Returned s' | Threw s' => mkRun s' offered (qr_received r) end
  | QDeliver =>
      match deliver_begin s with
      | (_, Some e, s') => mkRun (deliver_end s') (qr_offered r) (qr_received r + received e)
      | (_, None, _) => r
      end
  end.

Definition op_ok (op : queue_op) : Prop := match op with QOffer e => stored_event e | QDeliver => True end.

Definition run_wf (r : queue_run) : Prop :=
  queue_wf (qr_sub r) /\ sub_closing (qr_sub r) = false /\
  (sub_closed (qr_sub r) = true \/
   qr_offered r = qr_received r + zlen (real_events (sub_pending (qr_sub r))) + lost (sub_pending (qr_sub r))).

Lemma sub_init_wf f l : 0 <= sl_max_events l -> 0 <= sl_max_bytes l <= u64_max -> queue_wf (sub_init f l).
Proof.
  intros H1 H2. split; cbn; [done|done|split; [done|lia]|split; [constructor|done]|lia].
Qed.

Lemma deliver_wf s st e s' :
  queue_wf s -> deliver_begin s = (st, Some e, s') -> queue_wf (deliver_end s') /\
  sub_closing (deliver_end s') = sub_closing s /\ sub_closed (deliver_end s') = sub_closed s /\
  zlen (real_events (sub_pending s)) + lost (sub_pending s) =
  received e + zlen (real_events (sub_pending s')) + lost (sub_pending s').
Proof.
  intros [[L1 L2] Hev [Hb Hbm] [Hok Hone] Hact]. unfold deliver_begin. guard as G; [done|].
  destruct (sub_pending s) as [|x q] eqn:Eq; [done|]. intros [= <- <- <-]. pose proof (eventBytes_pos x).
  rewrite sum_by_cons in Hb. rewrite zlen_cons in Hev. apply Forall_cons in Hok as [Hx Hok].
  split_and!; [|done|done|].
  - split; cbn [deliver_end sub_limits sub_pending sub_pending_bytes sub_active_deliveries]; auto; try lia.
    split; [done|]. cbn [List.filter] in Hone. destruct (is_marker x); [rewrite zlen_cons in Hone|]; lia.
  - cbn [sub_pending]. rewrite !lost_filter. unfold real_events, received. cbn [List.filter] in *.
    destruct (is_marker x); cbn [negb head]; [|rewrite zlen_cons; lia].
    rewrite zlen_cons in Hone. destruct (List.filter is_marker q) as [|y l]; [cbn; lia|].
    rewrite zlen_cons in Hone. pose proof (zlen_nonneg l). lia.
Qed.

Lemma queue_step_wf r op : op_ok op -> run_wf r -> run_wf (queue_step r op).
Proof.
  intros Hop (Hwf & Hcl & Hacc). destruct op as [e|]; cbn [queue_step].
  - destruct (sub_closed (qr_sub r)) eqn:Hc.
    + unfold enqueue. rewrite Hcl, Hc. cbn. split_and!; auto.
    + destruct (enqueue_spec (qr_sub r) e Hwf Hop Hcl Hc) as (s' & -> & Hwf' & [->|Hen]).
      * split_and!; [done|done|by left].
      * destruct Hen as [[Ho1 Ho2] _ _ Ha _]. destruct Hacc as [Hacc|Hacc]; [done|].
        split_and!; [done|done|right]. cbn [qr_sub qr_offered qr_received]. rewrite Hcl. cbn [orb]. lia.
  - destruct (deliver_begin (qr_sub r)) as [[st [e|]] s'] eqn:Ed; [|by split_and!].
    destruct (deliver_wf _ _ _ _ Hwf Ed) as (Hwf' & E1 & E2 & E3).
    split_and!; cbn [qr_sub qr_offered qr_received]; [done|congruence|]. rewrite E2.
    destruct Hacc as [Hacc|Hacc]; [by left|right]. cbn [deliver_end sub_pending]. lia.
Qed.

Lemma queue_run_wf r ops : Forall op_ok ops -> run_wf r -> run_wf (foldl queue_step r ops).
Proof.
  intros Hops. revert r. induction Hops as [|op ops Hop Hops IH]; intros r Hr; [done|].
  cbn. by apply IH, queue_step_wf.
Qed.

(** ** Interleavings with [close] *)

Definition sys_wf (y : sub_sys) : Prop :=
  sub_active_deliveries (sys_sub y) = Z.of_nat (sys_running y) /\
  (sub_closing (sys_sub y) = true -> sub_pending (sys_sub y) = []) /\
  (sys_close_done y = true ->
     sub_closing (sys_sub y) = true /\ sub_closed (sys_sub y) = true /\ sys_running y = 0%nat).

Lemma sub_step_wf y y' : sys_wf y -> sub_step y y' -> sys_wf y'.
Proof.
  intros (H1 & H2 & H3) Hstep. destruct Hstep as [s n d e s' He|s n d e s' He|s n d|s n d|s n d s' Hcl He];
    cbn [sys_sub sys_running sys_close_done] in *.
  - unfold enqueue in He. destruct (sub_closing s || sub_closed s) eqn:Ec; [by simplify_eq|].
    apply orb_false_iff in Ec as [Ec1 Ec2].
    assert (sub_active_deliveries s' = sub_active_deliveries s /\ sub_closing s' = false) as [E1 E2].
    { cbv zeta in He. repeat (case_match; try done); simplify_eq; done. }
    split_and!; cbn; [congruence|congruence|]. intros Hd. destruct (H3 Hd). congruence.
  - unfold deliver_begin in He. guard He as G; [done|]. apply orb_false_iff in G as [G1 G2].
    destruct (sub_pending s) as [|x q]; simplify_eq.
    split_and!; cbn; [lia|congruence|]. intros Hd. destruct (H3 Hd). congruence.
  - split_and!; cbn; [lia|done|]. intros Hd. destruct (H3 Hd) as (_ & _ & ?). lia.
  - split_and!; cbn; [done|done|]. intros Hd. by destruct (H3 Hd) as (_ & ? & ?).
  - unfold close_end in He. guard He as G; [|done]. bprop in G. simplify_eq.
    split_and!; cbn; [done|done|]. intros _. split_and!; [done|done|lia].
Qed.

Lemma sub_steps_wf y y' : rtc sub_step y y' -> sys_wf y -> sys_wf y'.
Proof. induction 1; eauto using sub_step_wf. Qed.

Lemma close_done_stays y y' : rtc sub_step y y' -> sys_close_done y = true -> sys_close_done y' = true.
Proof. induction 1 as [|y1 y2 y3 Hs Hss IH]; [done|]. intros Hd. apply IH. by destruct Hs. Qed.

(** ** Filters, declaratively *)

Definition filter_valid (f : SubscriptionFilter) : Prop :=
  sf_event_types f <> [] /\ NoDup (sf_event_types f) /\ NoDup (sf_metrics f) /\
  (sf_health_subsystem f = None \/ sf_health_subsystem f = Some kFirmwareHeartbeatHealthId).

(** An event of a wanted type and severity, on the wanted entity (or on one
    rediscovered under the same identity), of a wanted metric and of the
    wanted health subsystem. *)
Definition filter_accepts (f : SubscriptionFilter) (e : PdcmEvent) : Prop :=
  ev_type e ∈ sf_event_types f /\
  severity_value (sf_minimum_severity f) <= severity_value (ev_severity e) /\
  (forall fe, sf_entity f = Some fe -> exists ee, ev_entity e = Some ee /\
     (fe = ee \/ (sf_follow_rediscovery f = true /\ er_kind fe = er_kind ee /\ er_id fe = er_id ee))) /\
  (sf_metrics f = [] \/ exists m, ev_metric e = Some m /\ m ∈ sf_metrics f) /\
  (sf_health_subsystem f = None \/ ev_health_subsystem e = sf_health_subsystem f).

Lemma matches_sorted f e :
  StronglySorted key_le (sf_event_types f) -> StronglySorted key_le (sf_metrics f) ->
  matches f e = true <-> filter_accepts f e.
Proof.
  intros Ht Hm. unfold matches, filter_accepts, severityAtLeast.
  rewrite <- (binary_search_elem _ (ev_type e) Ht), <- Z.leb_le.
  destruct (binary_search (sf_event_types f) (ev_type e)); cbn [negb orb]; [|naive_solver].
  destruct (_ <=? _); cbn [negb]; [|naive_solver].
  assert (match sf_entity f with
          | Some fe =>
              match ev_entity e with
              | None => true
              | Some ee => negb (fe ==? ee)
                  && negb (sf_follow_rediscovery f && (er_kind fe ==? er_kind ee) && (er_id fe =? er_id ee))
              end
          | None => false
          end = false <->
    (forall fe, sf_entity f = Some fe -> exists ee, ev_entity e = Some ee /\
      (fe = ee \/ (sf_follow_rediscovery f = true /\ er_kind fe = er_kind ee /\ er_id fe = er_id ee)))) as He.
  { destruct (sf_entity f) as [fe|]; [|naive_solver]. destruct (ev_entity e) as [ee|]; [|naive_solver].
    rewrite andb_false_iff, !negb_false_iff, !andb_true_iff, !bool_decide_eq_true, Z.eqb_eq. naive_solver. }
  rewrite <- He. destruct (match sf_entity f with Some _ => _ | None => _ end); [naive_solver|].
  assert (negb (is_nil (sf_metrics f))
          && match ev_metric e with Some m => negb (binary_search (sf_metrics f) m) | None => true end = false <->
    (sf_metrics f = [] \/ exists m, ev_metric e = Some m /\ m ∈ sf_metrics f)) as Hme.
  { rewrite andb_false_iff, negb_false_iff, is_nil_true. destruct (ev_metric e) as [m|]; [|naive_solver].
    rewrite negb_false_iff, (binary_search_elem _ m Hm). naive_solver. }
  rewrite <- Hme. destruct (negb (is_nil _) && _); [naive_solver|].
  destruct (sf_health_subsystem f) as [h|]; cbn [has_value andb]; [|naive_solver].
  case_bool_decide; cbn; naive_solver.
Qed.

(** ** Dispatch *)

(** What one subscription makes of a batch of events, whatever the others do. *)
Definition receive (s : Subscription) (e : PdcmEvent) : Subscription :=
  if matches (sub_filter s) e then match enqueue s e with Returned s' | Threw s' => s' end else s.

Definition sub_ok (s : Subscription) : Prop := queue_wf s /\ sub_closing s = false.

Lemma receive_ok s e :
  sub_ok s -> stored_event e ->
  sub_ok (receive s e) /\ (if matches (sub_filter s) e then enqueue s e else Returned s) = Returned (receive s e).
Proof.
  intros [Hwf Hcl] He. unfold receive. destruct (matches _ e); [|done].
  destruct (sub_closed s) eqn:Hc.
  - unfold enqueue. rewrite Hcl, Hc. done.
  - destruct (enqueue_spec s e Hwf He Hcl Hc) as (s' & -> & Hwf' & [->|Hen]); split; try done.
    split; [done|apply Hen].
Qed.

Lemma offer_spec e subs :
  Forall (fun p => sub_ok p.2) subs -> stored_event e ->
  offer e subs = Returned (map (fun p => (p.1, receive p.2 e)) subs) /\
  Forall (fun p => sub_ok p.2) (map (fun p => (p.1, receive p.2 e)) subs).
Proof.
  intros Hs He. induction Hs as [|[id s] subs Hs Hss [IH1 IH2]]; [by split; [|constructor]|].
  cbn [offer map fst snd] in *. destruct (receive_ok s e Hs He) as [Hok ->]. rewrite IH1.
  split; [done|]. by constructor.
Qed.

Lemma offer_all_spec es subs :
  Forall (fun p => sub_ok p.2) subs -> Forall stored_event es ->
  offer_all es subs = Returned (map (fun p => (p.1, foldl receive p.2 es)) subs) /\
  Forall (fun p => sub_ok p.2) (map (fun p => (p.1, foldl receive p.2 es)) subs).
Proof.
  intros Hs He. revert subs Hs. induction He as [|e es He Hes IH]; intros subs Hs; cbn [offer_all foldl].
  - rewrite (map_ext _ id) by (by intros []). by rewrite map_id.
  - destruct (offer_spec e subs Hs He) as [-> Hs']. destruct (IH _ Hs') as [-> Hs''].
    rewrite !map_map in *. cbn [fst snd] in *. done.
Qed.

(** ** Theorems *)

(** C32: no silent loss.  Whatever events are offered to a new subscription
    and whenever its consumer takes events, the queue never exceeds its event
    and byte limits, its byte count is exact, and while the subscription is
    open every event offered to it is queued, was received, or is counted by
    the loss marker that the consumer receives. *)
Theorem subscription_no_silent_loss f l ops :
  0 <= sl_max_events l -> 0 <= sl_max_bytes l <= u64_max -> Forall op_ok ops ->
  let r := foldl queue_step (mkRun (sub_init f l) 0 0) ops in
  let s := qr_sub r in
  zlen (sub_pending s) <= sl_max_events (sub_limits s) /\
  sub_pending_bytes s = sum_by eventBytes (sub_pending s) /\
  sub_pending_bytes s <= sl_max_bytes (sub_limits s) /\
  (sub_closed s = false ->
     qr_offered r = qr_received r + zlen (real_events (sub_pending s)) + lost (sub_pending s)).
Proof.
  intros H1 H2 Hops r s. assert (run_wf r) as (Hwf & _ & Hacc).
  { apply queue_run_wf; [done|]. split_and!; [by apply sub_init_wf|done|by right]. }
  fold s in Hwf, Hacc. destruct Hwf as [_ Hev [Hb Hbm] _ _]. split_and!; auto.
  intros Hc. destruct Hacc; [congruence|done].
Qed.

(** An offer to an open, well-formed queue always returns, and unless it
    overflows (which closes the subscription) it appends the event, keeps the
    order of the queued events, and drops, for a metric update, only updates
    of the same entity and metric. *)
Theorem enqueue_functional s e :
  queue_wf s -> stored_event e -> sub_closing s = false -> sub_closed s = false ->
  exists s', enqueue s e = Returned s' /\
    (s' = sub_overflow s \/
     (sub_closed s' = false /\ last (sub_pending s') = Some e /\
      real_events (sub_pending s') `sublist_of` real_events (sub_pending s) ++ [e] /\
      (ev_type e = ET_MetricUpdate -> forall x, x ∈ sub_pending s -> is_marker x = false ->
         sameMetricKey x e = false -> x ∈ sub_pending s'))).
Proof.
  intros Hwf He H1 H2. destruct (enqueue_spec s e Hwf He H1 H2) as (s' & -> & _ & [->|Hen]).
  - eexists. split; [done|]. by left.
  - destruct Hen as [[_ Ho] Hord Hlast _ Hmet]. eexists. split; [done|]. right. split_and!; auto.
Qed.

(** [close] is quiescent.  Whatever producers, consumers and closing
    threads interleave, once [close] has returned no callback is running, none
    starts again, and nothing is queued any more, ever. *)
Theorem close_quiescent f l y y' :
  rtc sub_step (mkSys (sub_init f l) 0 false) y -> sys_close_done y = true -> rtc sub_step y y' ->
  sys_running y' = 0%nat /\ sub_pending (sys_sub y') = [] /\
  (forall e, enqueue (sys_sub y') e = Returned (sys_sub y')) /\
  snd (fst (deliver_begin (sys_sub y'))) = None.
Proof.
  intros H0 Hd H1. assert (sys_wf y') as (_ & Hp & Hdone).
  { eapply sub_steps_wf; [exact H1|]. eapply sub_steps_wf; [exact H0|]. by split_and!. }
  destruct (Hdone (close_done_stays _ _ H1 Hd)) as (Hc1 & Hc2 & Hr). split_and!; auto.
  - intros e. unfold enqueue. by rewrite Hc1.
  - unfold deliver_begin. by rewrite Hc1.
Qed.

(** [validateFilter] accepts exactly the filters with some event type,
    no duplicates and the one supported health subsystem, and the filter it
    leaves behind (sorted for binary search) matches exactly the events the
    original filter describes. *)
Theorem filter_matches_exact f :
  let '(st, f') := validateFilter f in
  (st_ok st = true <-> filter_valid f) /\
  (st_ok st = true -> forall e, matches f' e = true <-> filter_accepts f e).
Proof.
  unfold validateFilter, filter_valid. cbv zeta.
  pose proof (std_sort_dup (sf_event_types f)) as D1. pose proof (std_sort_dup (sf_metrics f)) as D2.
  guard as G1.
  - cbn. split; [|done]. split; [done|]. intros (H1 & _ & _ & H4). apply orb_true_iff in G1 as [G1|G1].
    + by apply is_nil_true in G1.
    + destruct H4 as [H4|H4]; rewrite H4 in G1; [done|]. by rewrite Z.eqb_refl in G1.
  - apply orb_false_iff in G1 as [G1 G1']. guard as G2; [cbn; naive_solver congruence|].
    guard as G3; [cbn; naive_solver congruence|].
    split; [split; [intros _|done]|].
    + split_and!; [by intros Hn%is_nil_true; congruence|by apply D1|by apply D2|].
      destruct (sf_health_subsystem f) as [h|]; [right|by left]. bprop in G1'. by subst.
    + intros _ e. rewrite matches_sorted by apply std_sort_sorted. unfold filter_accepts.
      cbn [sf_event_types sf_entity sf_metrics sf_health_subsystem sf_minimum_severity sf_follow_rediscovery].
      rewrite std_sort_elem. setoid_rewrite std_sort_elem.
      assert (std_sort (sf_metrics f) = [] <-> sf_metrics f = []) as ->; [|done].
      rewrite <- !length_zero_iff_nil. by rewrite std_sort_length.
Qed.

(** C33: [dispatch] hands every retained event above [last_seen_sequence_] to
    every registered subscription exactly once and in order: it returns
    successfully, each subscription is what it makes of those events alone,
    and a second [dispatch] changes nothing. *)
Theorem dispatch_exactly_once dm m log :
  es_repr (dm_event_store_ dm) log -> Forall stored_event (es_events_ (dm_event_store_ dm)) ->
  Forall (fun p => sub_ok p.2) (subscriptions_ m) -> last_seen_sequence_ m < es_next_sequence_ (dm_event_store_ dm) ->
  let news := List.filter (fun e => last_seen_sequence_ m <? ev_sequence e) (es_events_ (dm_event_store_ dm)) in
  exists m', dispatch dm m = (Some st_success, m') /\
    subscriptions_ m' = map (fun p => (p.1, foldl receive p.2 news)) (subscriptions_ m) /\
    Forall (fun p => sub_ok p.2) (subscriptions_ m') /\
    dispatch dm m' = (Some st_success, m').
Proof.
  intros [He _ Hsort Hbelow _] Hst Hok Hlast news. set (store := dm_event_store_ dm) in *.
  destruct (retained_suffix (es_limits_ store) log) as [pre Hpre]. rewrite <- He in Hpre.
  rewrite Hpre in Hsort, Hbelow. apply StronglySorted_app in Hsort as (_ & _ & Hsort).
  apply Forall_app in Hbelow as [_ Hbelow].
  assert (forall q, snap_events (eventsSince dm q) = List.filter (fun e => q <? ev_sequence e) (es_events_ store)) as Hnews
    by (intros q; by apply sorted_partition).
  assert (forall m1, last_seen_sequence_ m1 = es_next_sequence_ store - 1 -> dispatch dm m1 = (Some st_success, m1)) as Hidle.
  { intros m1 H1. unfold dispatch. cbv zeta. rewrite Hnews, H1, filter_false_nil; [done|].
    intros x Hx. rewrite Forall_forall in Hbelow. apply Hbelow in Hx. apply Z.ltb_ge. lia. }
  unfold dispatch at 1. cbv zeta. rewrite Hnews. fold news. destruct (is_nil news) eqn:En.
  - apply is_nil_true in En. exists m. rewrite En. cbn [foldl].
    rewrite (map_ext _ id) by (by intros []). rewrite map_id. split_and!; auto.
    unfold dispatch. cbv zeta. rewrite Hnews. fold news. by rewrite En.
  - destruct (offer_all_spec news (subscriptions_ m)) as [-> Hok']; [done| |].
    { apply Forall_forall. intros x Hx. rewrite Forall_forall in Hst. apply elem_of_filterb in Hx as [Hx _].
      by apply Hst. }
    eexists. split_and!; [done|done|done|]. by apply Hidle.
Qed.

End Queue.

(** ** Examples *)

Definition sample_update (metric sequence : Z) : PdcmEvent :=
  mkEvent 7 sequence ET_MetricUpdate SEV_Info (Some sample_entity) (Some metric) None 5 1
    (EP_MetricUpdate (mkMetricUpdate OS_Valid 1)).
Definition sample_filter : SubscriptionFilter :=
  mkFilter [ET_MetricUpdate; ET_CatalogChanged] None [] None SEV_Info false.
Definition sample_queue_limits : SubscriptionLimits := mkSubLimits 3 4096.
Definition sample_queue_ops : list queue_op :=
  [QOffer (sample_update 1 1); QOffer (sample_update 2 2); QOffer (sample_update 1 3);
   QOffer (sample_update 1 4); QDeliver].

Lemma subscription_no_silent_loss_witness :
  let _ := sample_layout in
  let r := foldl queue_step (mkRun (sub_init sample_filter sample_queue_limits) 0 0) sample_queue_ops in
  let s := qr_sub r in
  zlen (sub_pending s) <= sl_max_events (sub_limits s) /\
  sub_pending_bytes s = sum_by eventBytes (sub_pending s) /\
  sub_pending_bytes s <= sl_max_bytes (sub_limits s) /\
  (sub_closed s = false ->
     qr_offered r = qr_received r + zlen (real_events (sub_pending s)) + lost (sub_pending s)).
Proof.
  apply (@subscription_no_silent_loss sample_layout sample_filter sample_queue_limits sample_queue_ops);
    [vm_compute; discriminate|split; vm_compute; discriminate|repeat constructor].
Defined.

Lemma enqueue_functional_witness :
  let _ := sample_layout in
  let s := sub_init sample_filter sample_queue_limits in
  exists s', enqueue s (sample_update 1 1) = Returned s' /\
    (s' = sub_overflow s \/
     (sub_closed s' = false /\ last (sub_pending s') = Some (sample_update 1 1) /\
      real_events (sub_pending s') `sublist_of` real_events (sub_pending s) ++ [sample_update 1 1] /\
      (ev_type (sample_update 1 1) = ET_MetricUpdate -> forall x, x ∈ sub_pending s -> is_marker x = false ->
         sameMetricKey x (sample_update 1 1) = false -> x ∈ sub_pending s'))).
Proof.
  apply (@enqueue_functional sample_layout (sub_init sample_filter sample_queue_limits));
    [|reflexivity|reflexivity|reflexivity].
  apply (@sub_init_wf sample_layout); [vm_compute; discriminate|split; vm_compute; discriminate].
Defined.

(** A delivery is in progress when [close] starts; it ends, then [close]
    returns. *)
Lemma close_quiescent_witness :
  let _ := sample_layout in
  let s0 := sub_init sample_filter sample_queue_limits in
  exists y, rtc sub_step (mkSys s0 0 false) y /\ sys_close_done y = true /\
  sys_running y = 0%nat /\ sub_pending (sys_sub y) = [] /\
  (forall e, enqueue (sys_sub y) e = Returned (sys_sub y)) /\
  snd (fst (deliver_begin (sys_sub y))) = None.
Proof.
  intros layout s0.
  assert (exists y, rtc (@sub_step layout) (mkSys s0 0 false) y /\ sys_close_done y = true) as (y & H1 & H2).
  { eexists. split.
    - eapply rtc_l; [apply (@StepEnqueue layout _ _ _ (sample_update 1 1)); vm_compute; reflexivity|].
      eapply rtc_l; [eapply StepDeliverBegin; reflexivity|].
      eapply rtc_l; [apply StepCloseBegin|].
      eapply rtc_l; [apply StepDeliverEnd|].
      eapply rtc_l; [eapply StepCloseEnd; reflexivity|]. apply rtc_refl.
    - reflexivity. }
  exists y. split; [exact H1|]. split; [exact H2|].
  apply (@close_quiescent layout sample_filter sample_queue_limits y y H1 H2). apply rtc_refl.
Defined.

Lemma dispatch_exactly_once_witness :
  let _ := sample_layout in
  let dm := sample_manager in
  let m := mkSubManager 4 [(1, sub_init sample_filter sample_queue_limits)] [(1, tt)] 2 0 false in
  let news := List.filter (fun e => last_seen_sequence_ m <? ev_sequence e) (es_events_ (dm_event_store_ dm)) in
  exists m', dispatch dm m = (Some st_success, m') /\
    subscriptions_ m' = map (fun p => (p.1, foldl receive p.2 news)) (subscriptions_ m) /\
    Forall (fun p => sub_ok p.2) (subscriptions_ m') /\
    dispatch dm m' = (Some st_success, m').
Proof.
  intros layout dm m.
  apply (@dispatch_exactly_once layout dm m (es_events_ (dm_event_store_ dm))).
  - split; vm_compute; try reflexivity; repeat constructor; discriminate.
  - vm_compute. repeat constructor.
  - constructor; [|constructor]. split; [|reflexivity].
    apply (@sub_init_wf layout); [vm_compute; discriminate|split; vm_compute; discriminate].
  - vm_compute. reflexivity.
Defined.

(** A marker is queued where the event that caused the first loss arrived but
    carries the sequence number of the event that was dropped: the consumer of
    this queue sees sequence numbers 2, 1 and 4. *)
Theorem loss_marker_out_of_order :
  let _ := sample_layout in
  let s := foldl (fun s e => match enqueue s e with Returned s' | Threw s' => s' end)
             (sub_init sample_filter sample_queue_limits)
             [sample_update 1 1; sample_update 2 2; sample_update 1 3; sample_update 1 4] in
  map ev_sequence (sub_pending s) = [2; 1; 4].
Proof. vm_compute. reflexivity. Qed.
