(* ===== verification/Watch.v ===== *)
(** Watches (src/product/src/collection/watch_manager.hpp and .cpp): logical
    watches of the clients, the effective watches they merge into, the
    published snapshot, and the sample tokens that retire limited watches.

    Every public operation holds the manager's mutex, so each is one
    state-passing function on [WatchManager].  The snapshot pointer is swapped
    atomically at the end of [publish]; it is the field [wm_snapshot_]. *)
From S2P Require Import Prelude Containers Common Provider Catalog EventStore DataStore.
Local Open Scope string_scope.
Local Open Scope list_scope.
Open Scope Z_scope.
Open Scope pdcm_scope.

(** ** Data *)

Notation WatchId := Z (only parsing).
Notation Nanoseconds := Z (only parsing).

Inductive WatchOwnerKind := WOK_Session | WOK_FirmwareHeartbeat | WOK_SystemBaseline.
#[export] Instance WatchOwnerKind_eq_dec : EqDecision WatchOwnerKind.
Proof. solve_decision. Defined.

Record WatchOwner := mkOwner { wo_kind : WatchOwnerKind; wo_id : Z }.
#[export] Instance WatchOwner_eq_dec : EqDecision WatchOwner.
Proof. solve_decision. Defined.

Inductive WatchPriority := WP_Low | WP_Normal | WP_High | WP_Heartbeat.
#[export] Instance WatchPriority_eq_dec : EqDecision WatchPriority.
Proof. solve_decision. Defined.
Definition priority_value (p : WatchPriority) : Z :=
  match p with WP_Low => 0 | WP_Normal => 1 | WP_High => 2 | WP_Heartbeat => 3 end.

Inductive WatchDeliveryMode := WDM_CacheOnly | WDM_Event.
#[export] Instance WatchDeliveryMode_eq_dec : EqDecision WatchDeliveryMode.
Proof. solve_decision. Defined.

Record WatchRequirement := mkRequirement {
  wr_catalog_generation : Z;
  wr_entity : EntityRef;
  wr_metrics : list MetricId;
  wr_period : Nanoseconds;
  wr_freshness : Nanoseconds;
  wr_retention : Nanoseconds;
  wr_sample_limit : Z;
  wr_priority : WatchPriority;
  wr_delivery : WatchDeliveryMode;
  wr_allow_partial : bool }.

Record LogicalWatch := mkLogical { lw_id : WatchId; lw_owner : WatchOwner; lw_requirement : WatchRequirement }.

Record EffectiveWatchKey := mkEffectiveKey {
  ewk_provider_id : string;
  ewk_entity : EntityRef;
  ewk_kind : ProviderDataKind;
  ewk_data_id : Z;
  ewk_isolation_class : Z }.
#[export] Instance EffectiveWatchKey_eq_dec : EqDecision EffectiveWatchKey.
Proof. solve_decision. Defined.

Definition data_kind_value (k : ProviderDataKind) : Z :=
  match k with PDK_Metric => 0 | PDK_HeartbeatEvidence => 1 end.
Definition effective_key_tuple (k : EffectiveWatchKey) : string * (Z * Z * Z) * (Z * Z * Z) :=
  (ewk_provider_id k, entity_tuple (ewk_entity k),
   (data_kind_value (ewk_kind k), ewk_data_id k, ewk_isolation_class k)).
Lemma effective_key_tuple_inj a b : effective_key_tuple a = effective_key_tuple b -> a = b.
Proof.
  destruct a as [p e k d i], b as [p' e' k' d' i']. unfold effective_key_tuple. cbn.
  intros Ht. apply pair_equal_spec in Ht as [Ht Ht2]. apply pair_equal_spec in Ht as [-> He].
  apply entity_tuple_inj in He as ->. injection Ht2 as Hk -> ->. f_equal. by destruct k, k'.
Qed.
#[export] Instance EffectiveWatchKey_ordered : Ordered EffectiveWatchKey :=
  ordered_by effective_key_tuple effective_key_tuple_inj.

Record EffectiveWatch := mkEffective {
  ew_key : EffectiveWatchKey;
  ew_period : Nanoseconds;
  ew_freshness : Nanoseconds;
  ew_retention : Nanoseconds;
  ew_priority : WatchPriority;
  ew_logical_watches : list WatchId }.
Definition ew_default : EffectiveWatch :=
  mkEffective (mkEffectiveKey "" er_default PDK_Metric 0 0) 0 0 0 WP_Low [].

Record WatchSnapshot := mkWatchSnapshot {
  ws_version : Z;
  ws_catalog_generation : Z;
  ws_logical_watches : list LogicalWatch;
  ws_effective_watches : list EffectiveWatch }.

Record WatchLimits := mkWatchLimits {
  max_logical_watches : Z; max_effective_watches : Z; max_metrics_per_watch : Z }.
Definition watch_limits_default : WatchLimits := mkWatchLimits 4096 4096 256.

Definition wl_validate (l : WatchLimits) : Status :=
  if (max_logical_watches l =? 0) || (max_effective_watches l =? 0) || (max_metrics_per_watch l =? 0)
  then invalid_argument "watch limits must be non-zero"
  else st_success.

Record WatchCreateResult := mkWatchCreate {
  wcr_status : Status; wcr_watch_id : WatchId; wcr_unsupported_metrics : list MetricId }.

Record WatchCatalogState := mkWatchCatalog {
  wc_view : option CatalogView;
  wc_descriptors : list (Z * MetricDescriptor);
  wc_supported : list (Z * bool);
  wc_heartbeat : option HealthCatalogEntry;
  wc_heartbeat_supported : bool;
  wc_provider_id : string;
  wc_entity : option EntityRef;
  wc_topology_unsupported : bool }.
Definition watch_catalog_default : WatchCatalogState := mkWatchCatalog None [] [] None false "" None false.

Record WatchManager := mkWatchManager {
  wm_limits_ : WatchLimits;
  wm_catalog_ : WatchCatalogState;
  logical_ : list (WatchId * LogicalWatch);
  wm_snapshot_ : WatchSnapshot;
  sample_counts_ : list (WatchId * Z);
  last_sample_times_ : list (WatchId * MonotonicTime);
  heartbeat_baseline_ : option EffectiveWatch;
  next_watch_id_ : WatchId }.

(** The constructor throws on invalid limits. *)
Definition wm_construct (limits : WatchLimits) : string + WatchManager :=
  let status := wl_validate limits in
  if negb (st_ok status) then inl (st_message status)
  else inr (mkWatchManager limits watch_catalog_default [] (mkWatchSnapshot 0 0 [] []) [] [] None 1).

Definition wm_with_catalog (m : WatchManager) (c : WatchCatalogState) : WatchManager :=
  mkWatchManager (wm_limits_ m) c (logical_ m) (wm_snapshot_ m) (sample_counts_ m) (last_sample_times_ m)
    None (next_watch_id_ m).
Definition wm_with_baseline (m : WatchManager) (b : option EffectiveWatch) : WatchManager :=
  mkWatchManager (wm_limits_ m) (wm_catalog_ m) (logical_ m) (wm_snapshot_ m) (sample_counts_ m)
    (last_sample_times_ m) b (next_watch_id_ m).
Definition wm_with_samples (m : WatchManager) (counts : list (WatchId * Z)) (times : list (WatchId * Z))
    : WatchManager :=
  mkWatchManager (wm_limits_ m) (wm_catalog_ m) (logical_ m) (wm_snapshot_ m) counts times
    (heartbeat_baseline_ m) (next_watch_id_ m).
Definition wm_with_next_id (m : WatchManager) (id : WatchId) : WatchManager :=
  mkWatchManager (wm_limits_ m) (wm_catalog_ m) (logical_ m) (wm_snapshot_ m) (sample_counts_ m)
    (last_sample_times_ m) (heartbeat_baseline_ m) id.

(** ** The snapshot *)

Definition prio_max (a b : WatchPriority) : WatchPriority :=
  if priority_value a <? priority_value b then b else a.

Definition metric_key (provider_id : string) (entity : EntityRef) (metric : MetricId) : EffectiveWatchKey :=
  mkEffectiveKey provider_id entity PDK_Metric metric 0.

(** One turn of the inner loop of [buildSnapshot]. *)
Definition merge_metric (provider_id : string) (w : WatchId * LogicalWatch)
    (effective : list (EffectiveWatchKey * EffectiveWatch)) (metric : MetricId)
    : list (EffectiveWatchKey * EffectiveWatch) :=
  let r := lw_requirement w.2 in
  let key := metric_key provider_id (wr_entity r) metric in
  let merged := match om_find key effective with Some e => e | None => ew_default end in
  om_set key
    (if is_nil (ew_logical_watches merged)
     then mkEffective key (wr_period r) (wr_freshness r) (wr_retention r) (wr_priority r)
            (ew_logical_watches merged ++ [w.1])
     else mkEffective (ew_key merged) (Z.min (ew_period merged) (wr_period r))
            (Z.min (ew_freshness merged) (wr_freshness r)) (Z.max (ew_retention merged) (wr_retention r))
            (prio_max (ew_priority merged) (wr_priority r)) (ew_logical_watches merged ++ [w.1]))
    effective.

Definition merge_watch (provider_id : string) (effective : list (EffectiveWatchKey * EffectiveWatch))
    (w : WatchId * LogicalWatch) : list (EffectiveWatchKey * EffectiveWatch) :=
  foldl (merge_metric provider_id w) effective (wr_metrics (lw_requirement w.2)).

Definition buildSnapshot (c : WatchCatalogState) (baseline : option EffectiveWatch)
    (logical : list (WatchId * LogicalWatch)) (version : Z) : WatchSnapshot :=
  let start := match baseline with Some b => [(ew_key b, b)] | None => [] end in
  let effective := foldl (merge_watch (wc_provider_id c)) start logical in
  mkWatchSnapshot version (match wc_view c with Some v => cv_generation_ v | None => 0 end)
    logical.*2 effective.*2.

(** [publish]; the two pruning loops keep the samples of the watches left. *)
Definition wm_publish (m : WatchManager) (next : list (WatchId * LogicalWatch)) : Status * WatchManager :=
  if max_logical_watches (wm_limits_ m) <? zlen next
  then (err_status PDCM_STATUS_RESOURCE_EXHAUSTED "logical watch limit exceeded", m)
  else
  let current_version := ws_version (wm_snapshot_ m) in
  if current_version =? u64_max
  then (err_status PDCM_STATUS_INTERNAL "watch snapshot version overflow", m)
  else
  let snapshot := buildSnapshot (wm_catalog_ m) (heartbeat_baseline_ m) next (current_version + 1) in
  if max_effective_watches (wm_limits_ m) <? zlen (ws_effective_watches snapshot)
  then (err_status PDCM_STATUS_RESOURCE_EXHAUSTED "effective watch limit exceeded", m)
  else
  (st_success,
   mkWatchManager (wm_limits_ m) (wm_catalog_ m) next snapshot
     (List.filter (fun kv => om_mem kv.1 next) (sample_counts_ m))
     (List.filter (fun kv => om_mem kv.1 next) (last_sample_times_ m))
     (heartbeat_baseline_ m) (next_watch_id_ m)).

(** ** Catalog activation *)

Definition note_capability (s : list (Z * bool) * bool) (item : CapabilityItem) : list (Z * bool) * bool :=
  if cap_kind item ==? CAP_Metric then (om_set (cap_id item) (cap_supported item) s.1, s.2)
  else if (cap_kind item ==? CAP_Health) && (cap_id item =? kFirmwareHeartbeatHealthId)
  then (s.1, cap_supported item)
  else s.

Definition next_watch_catalog (v : CatalogView) (t : TargetCatalog) : WatchCatalogState :=
  let descriptors := foldl (fun ds d => om_emplace (md_id d) d ds) [] (tc_metrics t) in
  let state supported heartbeat provider entity :=
    (* health.front(): validate admits exactly one entry *)
    mkWatchCatalog (Some v) descriptors supported (head (tc_health t)) heartbeat provider entity
      (cv_topology_unsupported_ v) in
  match cv_entities_ v with
  | [entity] =>
      if cv_topology_unsupported_ v then state [] false "" None
      else
      let '(supported, heartbeat) :=
        match cv_capabilities v (ent_ref entity) with
        | (status, Some set) => if st_ok status then foldl note_capability ([], false) (cs_items set) else ([], false)
        | (_, None) => ([], false)
        end in
      state supported heartbeat (ent_provider_version entity) (Some (ent_ref entity))
  | _ => state [] false "" None
  end.

(** Whether a watch survives the activation of a catalog. *)
Definition watch_current (c : WatchCatalogState) (generation : Z) (w : WatchId * LogicalWatch) : bool :=
  match wc_entity c with
  | Some e => (wr_catalog_generation (lw_requirement w.2) =? generation) && (wr_entity (lw_requirement w.2) ==? e)
  | None => false
  end.

Definition wm_activateCatalog (m : WatchManager) (catalog : option CatalogView) (t : TargetCatalog)
    : Status * WatchManager :=
  match catalog with
  | None => (invalid_argument "watch catalog snapshot is invalid", m)
  | Some v =>
      if cv_generation_ v =? 0 then (invalid_argument "watch catalog snapshot is invalid", m)
      else
      let target_status := tc_validate t in
      if negb (st_ok target_status) then (target_status, m)
      else
      let next := next_watch_catalog v t in
      let activate :=
        let m1 := wm_with_catalog m next in
        wm_publish m1 (List.filter (watch_current next (cv_generation_ v)) (logical_ m)) in
      match wc_view (wm_catalog_ m) with
      | Some old =>
          if cv_generation_ v <? cv_generation_ old
          then (err_status PDCM_STATUS_STALE_GENERATION "watch catalog generation moved backward", m)
          else if cv_generation_ v =? cv_generation_ old then (st_success, m)
          else activate
      | None => activate
      end
  end.

(** ** The firmware heartbeat baseline *)

Definition setFirmwareHeartbeatBaseline (m : WatchManager) (period retention : Nanoseconds)
    : Status * WatchManager :=
  let c := wm_catalog_ m in
  match wc_view c with
  | None => (err_status PDCM_STATUS_NOT_INITIALIZED "watch catalog is not active", m)
  | Some _ =>
      match wc_entity c, wc_heartbeat c with
      | Some entity, Some heartbeat =>
          match hce_provider_data_id heartbeat with
          | Some data_id =>
              if wc_topology_unsupported c || negb (wc_heartbeat_supported c)
              then (err_status PDCM_STATUS_UNSUPPORTED "firmware heartbeat baseline is not supported", m)
              else if (i64_max <? hce_freshness_ns heartbeat) || (period <=? 0)
                      || (hce_freshness_ns heartbeat <? period)
                      || (retention <? to_i64 (hce_freshness_ns heartbeat))
              then (invalid_argument "firmware heartbeat baseline timing is invalid", m)
              else
              let baseline :=
                mkEffective (mkEffectiveKey (wc_provider_id c) entity PDK_HeartbeatEvidence data_id 0)
                  period (to_i64 (hce_freshness_ns heartbeat)) retention WP_Heartbeat [] in
              let '(status, m') := wm_publish (wm_with_baseline m (Some baseline)) (logical_ m) in
              (status, if st_ok status then m' else wm_with_baseline m' (heartbeat_baseline_ m))
          | None => (err_status PDCM_STATUS_UNSUPPORTED "firmware heartbeat baseline is not supported", m)
          end
      | _, _ => (err_status PDCM_STATUS_UNSUPPORTED "firmware heartbeat baseline is not supported", m)
      end
  end.

Definition clearFirmwareHeartbeatBaseline (m : WatchManager) : Status * WatchManager :=
  if negb (has_value (heartbeat_baseline_ m)) then (st_success, m)
  else
  let '(status, m') := wm_publish (wm_with_baseline m None) (logical_ m) in
  (status, if st_ok status then m' else wm_with_baseline m' (heartbeat_baseline_ m)).

(** ** Creating and destroying watches *)

(** The answer for one metric: refused, unsupported, or supported. *)
Definition metric_supported (c : WatchCatalogState) (metric : MetricId) : option MetricDescriptor :=
  match om_find metric (wc_descriptors c), om_find metric (wc_supported c) with
  | Some d, Some true => if md_collection_mode d ==? MCM_Poll then Some d else None
  | _, _ => None
  end.

(** The loop of [validateRequirement]; the two lists are its out-parameters. *)
Fixpoint select_metrics (c : WatchCatalogState) (period : Nanoseconds) (unique : list Z)
    (metrics : list MetricId) (supported unsupported : list MetricId)
    : Status * list MetricId * list MetricId :=
  match metrics with
  | [] => (st_success, supported, unsupported)
  | metric :: metrics' =>
      if (metric =? 0) || bool_decide (metric ∈ unique)
      then (invalid_argument "watch metrics contain invalid or duplicate IDs", supported, unsupported)
      else
      match metric_supported c metric with
      | None => select_metrics c period (metric :: unique) metrics' supported (unsupported ++ [metric])
      | Some d =>
          if period <? to_i64 (md_min_period_ns d)
          then (invalid_argument "watch period is below metric minimum", supported, unsupported)
          else select_metrics c period (metric :: unique) metrics' (supported ++ [metric]) unsupported
      end
  end.

Definition validateRequirement (m : WatchManager) (r : WatchRequirement)
    : Status * list MetricId * list MetricId :=
  let c := wm_catalog_ m in
  match wc_view c with
  | None => (err_status PDCM_STATUS_NOT_INITIALIZED "watch catalog is not active", [], [])
  | Some v =>
      match wc_entity c with
      | Some entity =>
          if wc_topology_unsupported c
          then (err_status PDCM_STATUS_UNSUPPORTED "watch requires exactly one active device", [], [])
          else if negb (wr_catalog_generation r =? cv_generation_ v) || (wr_entity r !=? entity)
          then (err_status PDCM_STATUS_STALE_GENERATION "watch catalog or entity generation is stale", [], [])
          else if is_nil (wr_metrics r) || (max_metrics_per_watch (wm_limits_ m) <? zlen (wr_metrics r))
                  || (wr_period r <=? 0) || (wr_freshness r <? wr_period r)
                  || (wr_retention r <? wr_freshness r)
          then (invalid_argument "watch timing or selection is invalid", [], [])
          else select_metrics c (wr_period r) [] (wr_metrics r) [] []
      | None => (err_status PDCM_STATUS_UNSUPPORTED "watch requires exactly one active device", [], [])
      end
  end.

Definition wr_with_metrics (r : WatchRequirement) (metrics : list MetricId) : WatchRequirement :=
  mkRequirement (wr_catalog_generation r) (wr_entity r) metrics (wr_period r) (wr_freshness r) (wr_retention r)
    (wr_sample_limit r) (wr_priority r) (wr_delivery r) (wr_allow_partial r).

Definition wm_create (m : WatchManager) (owner : WatchOwner) (r : WatchRequirement)
    : WatchCreateResult * WatchManager :=
  let failed status unsupported := (mkWatchCreate status 0 unsupported, m) in
  if (wo_kind owner ==? WOK_Session) && (wo_id owner =? 0)
  then failed (invalid_argument "watch owner or ID is invalid") []
  else if next_watch_id_ m =? u64_max
  then failed (err_status PDCM_STATUS_RESOURCE_EXHAUSTED "watch ID space is exhausted") []
  else
  let '(status, supported, unsupported) := validateRequirement m r in
  if negb (st_ok status) then failed status unsupported
  else if negb (is_nil unsupported) && negb (wr_allow_partial r)
  then failed (err_status PDCM_STATUS_UNSUPPORTED "watch contains unsupported metrics") unsupported
  else if is_nil supported
  then failed (err_status PDCM_STATUS_UNSUPPORTED "watch has no supported metrics") unsupported
  else
  let id := next_watch_id_ m in
  let watch := mkLogical id owner (wr_with_metrics r (std_sort supported)) in
  let '(published, m') := wm_publish m (om_emplace id watch (logical_ m)) in
  if negb (st_ok published) then failed published unsupported
  else
  (mkWatchCreate
     (if is_nil unsupported then st_success
      else err_status PDCM_STATUS_PARTIAL_RESULT "watch omitted unsupported metrics") id unsupported,
   wm_with_next_id m' (id + 1)).

Definition wm_destroy (m : WatchManager) (owner : WatchOwner) (id : WatchId) : Status * WatchManager :=
  match om_find id (logical_ m) with
  | None => (err_status PDCM_STATUS_NOT_FOUND "watch does not exist", m)
  | Some w =>
      if lw_owner w !=? owner
      then (err_status PDCM_STATUS_PERMISSION_DENIED "watch belongs to another owner", m)
      else wm_publish m (om_erase id (logical_ m))
  end.

Definition removeOwner (m : WatchManager) (owner : WatchOwner) : Status * WatchManager :=
  let next := List.filter (fun w => lw_owner w.2 !=? owner) (logical_ m) in
  if zlen next =? zlen (logical_ m)
  then (err_status PDCM_STATUS_NOT_FOUND "watch owner has no requirements", m)
  else wm_publish m next.

(** ** Sample tokens *)

(** The local variables of [recordSamples] during its loop. *)
Record token_state := mkToken {
  tk_logical : list (WatchId * LogicalWatch);
  tk_counts : list (WatchId * Z);
  tk_times : list (WatchId * Z);
  tk_found : bool;
  tk_changed : bool;
  tk_removed : bool }.

(** Ticks of the token at or before the previously recorded one. *)
Definition token_skipped (previous : option Z) (first period : Z) : Z :=
  match previous with
  | Some t => if first <=? t then (t - first) / period + 1 else 0
  | None => 0
  end.

Definition add_samples (current added : Z) : Z :=
  if u64_max - current <? added then u64_max else current + added.

Definition record_one (first period last count : Z) (t : token_state) (id : WatchId) : token_state :=
  match om_find id (tk_logical t) with
  | None => t
  | Some w =>
      let skipped := token_skipped (om_find id (tk_times t)) first period in
      if count <=? skipped
      then mkToken (tk_logical t) (tk_counts t) (tk_times t) true (tk_changed t) (tk_removed t)
      else
      let current := match om_find id (tk_counts t) with Some c => c | None => 0 end in
      let updated := add_samples current (count - skipped) in
      let limit := wr_sample_limit (lw_requirement w) in
      if negb (limit =? 0) && (limit <=? updated)
      then mkToken (om_erase id (tk_logical t)) (om_erase id (tk_counts t)) (om_erase id (tk_times t))
             true true true
      else mkToken (tk_logical t) (om_set id updated (tk_counts t)) (om_set id last (tk_times t))
             true true (tk_removed t)
  end.

Definition recordSamples (m : WatchManager) (ids : list WatchId) (first : MonotonicTime) (period : Nanoseconds)
    (sample_count : Z) : Status * WatchManager :=
  if is_nil ids || (first <? 0) || (period <=? 0) || (sample_count =? 0)
  then (invalid_argument "logical sample token arguments are invalid", m)
  else
  let ids := std_sort ids in
  if has_adjacent_dup ids
  then (invalid_argument "logical sample token contains duplicate watch IDs", m)
  else
  let intervals := sample_count - 1 in
  if i64_max / period <? intervals
  then (invalid_argument "logical sample token time range overflows", m)
  else
  let delta := period * to_i64 intervals in
  if i64_max - delta <? first
  then (invalid_argument "logical sample token time range overflows", m)
  else
  let t := foldl (record_one first period (first + delta) sample_count)
             (mkToken (logical_ m) (sample_counts_ m) (last_sample_times_ m) false false false) ids in
  if negb (tk_found t)
  then (err_status PDCM_STATUS_NOT_FOUND "logical sample token has no active watches", m)
  else if negb (tk_changed t) then (st_success, m)
  else
  let '(status, m') := if tk_removed t then wm_publish m (tk_logical t) else (st_success, m) in
  if negb (st_ok status) then (status, m')
  else (st_success, wm_with_samples m' (tk_counts t) (tk_times t)).

Definition wm_snapshot (m : WatchManager) : WatchSnapshot := wm_snapshot_ m.

(** ** Specification *)

(** The watches that select the metric of an effective key. *)
Definition selects (provider_id : string) (k : EffectiveWatchKey) (w : WatchId * LogicalWatch) : bool :=
  existsb (fun x => metric_key provider_id (wr_entity (lw_requirement w.2)) x ==? k)
    (wr_metrics (lw_requirement w.2)).

(** An effective watch serves a set of logical watches: it samples as often
    and as freshly as the most demanding of them, keeps samples as long as the
    longest, at the highest priority, and never more than one of them asks. *)
Record serves (e : EffectiveWatch) (ws : list (WatchId * LogicalWatch)) : Prop := {
  sv_ids : ew_logical_watches e = ws.*1;
  sv_every : forall w, w ∈ ws ->
    ew_period e <= wr_period (lw_requirement w.2) /\ ew_freshness e <= wr_freshness (lw_requirement w.2) /\
    wr_retention (lw_requirement w.2) <= ew_retention e /\
    priority_value (wr_priority (lw_requirement w.2)) <= priority_value (ew_priority e);
  sv_tight : (exists w, w ∈ ws /\ ew_period e = wr_period (lw_requirement w.2)) /\
    (exists w, w ∈ ws /\ ew_freshness e = wr_freshness (lw_requirement w.2)) /\
    (exists w, w ∈ ws /\ ew_retention e = wr_retention (lw_requirement w.2)) /\
    (exists w, w ∈ ws /\ ew_priority e = wr_priority (lw_requirement w.2)) }.

(** The ticks of a sample token, and those later than a recorded time. *)
Definition ticks (first period count : Z) : list Z := map (fun i => first + i * period) (seqZ 0 count).
Definition fresh_ticks (previous : option Z) (first period count : Z) : Z :=
  zlen (List.filter (fun t => match previous with Some p => p <? t | None => true end) (ticks first period count)).

(** A requirement the active catalog supports. *)
Definition req_ok (c : WatchCatalogState) (r : WatchRequirement) : Prop :=
  (exists v, wc_view c = Some v /\ wr_catalog_generation r = cv_generation_ v) /\
  wc_entity c = Some (wr_entity r) /\
  wr_metrics r <> [] /\ StronglySorted key_lt (wr_metrics r) /\
  0 < wr_period r <= wr_freshness r /\ wr_freshness r <= wr_retention r /\
  Forall (fun x => exists d, metric_supported c x = Some d /\ to_i64 (md_min_period_ns d) <= wr_period r)
    (wr_metrics r).

Definition below_limit (w : LogicalWatch) (count : Z) : Prop :=
  wr_sample_limit (lw_requirement w) = 0 \/ count < wr_sample_limit (lw_requirement w).

(** The samples recorded belong to existing watches that have not reached
    their limit. *)
Record samples_ok (logical : list (WatchId * LogicalWatch)) (counts times : list (WatchId * Z)) : Prop := {
  so_counts : om_wf counts;
  so_times : om_wf times;
  so_count : forall id n, om_find id counts = Some n ->
    0 < n <= u64_max /\ exists w, om_find id logical = Some w /\ below_limit w n;
  so_time : forall id t, om_find id times = Some t -> 0 <= t <= i64_max /\ is_Some (om_find id logical) }.

(** What holds of the manager as long as snapshot versions last. *)
Record watch_live (m : WatchManager) : Prop := {
  wv_requirements : forall id w, om_find id (logical_ m) = Some w -> req_ok (wm_catalog_ m) (lw_requirement w);
  wv_baseline : forall b, heartbeat_baseline_ m = Some b ->
    ewk_kind (ew_key b) = PDK_HeartbeatEvidence /\ ew_priority b = WP_Heartbeat;
  wv_snapshot : wm_snapshot_ m =
    buildSnapshot (wm_catalog_ m) (heartbeat_baseline_ m) (logical_ m) (ws_version (wm_snapshot_ m)) }.

Record watch_wf (m : WatchManager) : Prop := {
  ww_logical : om_wf (logical_ m);
  ww_ids : forall id w, om_find id (logical_ m) = Some w -> lw_id w = id /\ 1 <= id < next_watch_id_ m;
  ww_next : 1 <= next_watch_id_ m <= u64_max;
  ww_samples : samples_ok (logical_ m) (sample_counts_ m) (last_sample_times_ m);
  ww_limits : zlen (logical_ m) <= max_logical_watches (wm_limits_ m) /\
    zlen (ws_effective_watches (wm_snapshot_ m)) <= max_effective_watches (wm_limits_ m);
  ww_version : 0 <= ws_version (wm_snapshot_ m) <= u64_max;
  ww_live : ws_version (wm_snapshot_ m) < u64_max -> watch_live m }.

(** ** Lemmas: the snapshot *)

Definition merge_one (k : EffectiveWatchKey) (w : WatchId * LogicalWatch) (old : option EffectiveWatch)
    : EffectiveWatch :=
  let r := lw_requirement w.2 in
  let merged := match old with Some e => e | None => ew_default end in
  if is_nil (ew_logical_watches merged)
  then mkEffective k (wr_period r) (wr_freshness r) (wr_retention r) (wr_priority r)
         (ew_logical_watches merged ++ [w.1])
  else mkEffective (ew_key merged) (Z.min (ew_period merged) (wr_period r))
         (Z.min (ew_freshness merged) (wr_freshness r)) (Z.max (ew_retention merged) (wr_retention r))
         (prio_max (ew_priority merged) (wr_priority r)) (ew_logical_watches merged ++ [w.1]).

Lemma merge_metric_find p w eff x k :
  om_find k (merge_metric p w eff x) =
  if metric_key p (wr_entity (lw_requirement w.2)) x ==? k then Some (merge_one k w (om_find k eff))
  else om_find k eff.
Proof.
  unfold merge_metric. cbv zeta. case_bool_decide as Hk.
  - subst k. by rewrite om_find_set_eq.
  - by rewrite om_find_set_ne.
Qed.

Lemma merge_watch_find p w eff k :
  NoDup (wr_metrics (lw_requirement w.2)) ->
  om_find k (merge_watch p eff w) =
  if selects p k w then Some (merge_one k w (om_find k eff)) else om_find k eff.
Proof.
  unfold merge_watch, selects. generalize (wr_metrics (lw_requirement w.2)) as xs. intros xs. revert eff.
  induction xs as [|x xs IH]; intros eff Hnd; [done|]. apply NoDup_cons in Hnd as [Hx Hnd].
  cbn [foldl existsb]. rewrite IH by done. rewrite merge_metric_find. case_bool_decide as Hk; [|done].
  cbn [orb]. replace (existsb _ xs) with false; [done|]. symmetry. apply not_true_iff_false.
  intros (y & Hy & Hyk)%existsb_elem. apply bool_decide_eq_true in Hyk. rewrite <- Hk in Hyk.
  injection Hyk as ->. done.
Qed.

Definition merge_from (p : string) (k : EffectiveWatchKey) (old : option EffectiveWatch)
    (ws : list (WatchId * LogicalWatch)) : option EffectiveWatch :=
  foldl (fun acc w => if selects p k w then Some (merge_one k w acc) else acc) old ws.

Lemma merge_all_find p ws eff k :
  Forall (fun w => NoDup (wr_metrics (lw_requirement w.2))) ws ->
  om_find k (foldl (merge_watch p) eff ws) = merge_from p k (om_find k eff) ws.
Proof.
  intros Hws. revert eff. induction Hws as [|w ws Hw Hws IH]; intros eff; [done|].
  cbn. by rewrite IH, merge_watch_find.
Qed.

Lemma merge_all_wf p ws eff : om_wf eff -> om_wf (foldl (merge_watch p) eff ws).
Proof.
  revert eff. induction ws as [|w ws IH]; intros eff Heff; [done|]. apply IH. unfold merge_watch.
  generalize (wr_metrics (lw_requirement w.2)). intros xs. revert eff Heff.
  induction xs as [|x xs IHx]; intros eff Heff; [done|]. cbn. apply IHx. by apply om_wf_set.
Qed.

Lemma prio_max_spec a b :
  priority_value a <= priority_value (prio_max a b) /\ priority_value b <= priority_value (prio_max a b) /\
  (prio_max a b = a \/ prio_max a b = b).
Proof. unfold prio_max. destruct (_ <? _) eqn:E; bprop in E; split_and!; try lia; auto. Qed.

Lemma merge_one_serves k w e ws :
  ws <> [] -> serves e ws -> serves (merge_one k w (Some e)) (ws ++ [w]) /\ ew_key (merge_one k w (Some e)) = ew_key e.
Proof.
  intros Hne [H1 H2 (H3 & H4 & H5 & H6)]. unfold merge_one. cbv zeta.
  assert (is_nil (ew_logical_watches e) = false) as ->.
  { rewrite H1. by destruct ws. }
  destruct (prio_max_spec (ew_priority e) (wr_priority (lw_requirement w.2))) as (P1 & P2 & P3).
  assert (w ∈ ws ++ [w]) as Hw by (apply elem_of_app; right; left).
  assert (forall x, x ∈ ws -> x ∈ ws ++ [w]) as Hl by (intros; apply elem_of_app; by left).
  split; [split; cbn|done].
  - by rewrite H1, fmap_app.
  - intros x [Hx| ->%list_elem_of_singleton]%elem_of_app; [|lia]. specialize (H2 x Hx). lia.
  - split_and!.
    + destruct (Z.min_spec (ew_period e) (wr_period (lw_requirement w.2))) as [[_ ->]|[_ ->]]; naive_solver.
    + destruct (Z.min_spec (ew_freshness e) (wr_freshness (lw_requirement w.2))) as [[_ ->]|[_ ->]]; naive_solver.
    + destruct (Z.max_spec (ew_retention e) (wr_retention (lw_requirement w.2))) as [[_ ->]|[_ ->]]; naive_solver.
    + destruct P3 as [->| ->]; naive_solver.
Qed.

Lemma merge_first_serves k w : serves (merge_one k w None) [w] /\ ew_key (merge_one k w None) = k.
Proof.
  split; [|done]. split; cbn; [done|intros x ->%list_elem_of_singleton; lia|].
  split_and!; exists w; (split; [left|done]).
Qed.

(** The entry of a metric key after merging: nothing if no watch selects it,
    else one that serves exactly the watches that do. *)
Lemma merge_from_serves p k ws :
  let chosen := List.filter (selects p k) ws in
  match merge_from p k None ws with
  | None => chosen = []
  | Some e => chosen <> [] /\ serves e chosen /\ ew_key e = k
  end.
Proof.
  cbv zeta. induction ws as [|w ws IH] using rev_ind; [done|].
  unfold merge_from in *. rewrite foldl_app, List.filter_app. cbn [foldl List.filter].
  destruct (selects p k w); [|by rewrite app_nil_r].
  destruct (foldl _ None ws) as [e|].
  - destruct IH as (Hne & Hs & Hk). destruct (merge_one_serves k w e _ Hne Hs) as [Hs' Hk'].
    split_and!; [|done|congruence]. by intros [_ ?]%app_nil.
  - rewrite IH. cbn [app]. destruct (merge_first_serves k w). split_and!; done.
Qed.

Lemma selects_metric p k w : selects p k w = true -> ewk_kind k = PDK_Metric.
Proof. intros (x & _ & Hx)%existsb_elem. apply bool_decide_eq_true in Hx. by subst k. Qed.

Lemma merge_from_skip p k old ws : ewk_kind k <> PDK_Metric -> merge_from p k old ws = old.
Proof.
  intros Hk. unfold merge_from. revert old. induction ws as [|w ws IH]; intros old; [done|]. cbn.
  destruct (selects p k w) eqn:Es; [|done]. apply selects_metric in Es. done.
Qed.

(** What a published snapshot says about every key. *)
Lemma snapshot_spec c b ws version :
  Forall (fun w => NoDup (wr_metrics (lw_requirement w.2))) ws ->
  (forall x, b = Some x -> ewk_kind (ew_key x) = PDK_HeartbeatEvidence) ->
  let effective := ws_effective_watches (buildSnapshot c b ws version) in
  NoDup (map ew_key effective) /\
  forall e, e ∈ effective <->
    b = Some e \/
    (ewk_kind (ew_key e) = PDK_Metric /\ merge_from (wc_provider_id c) (ew_key e) None ws = Some e).
Proof.
  intros Hws Hb. cbn [buildSnapshot ws_effective_watches].
  set (start := match b with Some x => [(ew_key x, x)] | None => [] end).
  set (eff := foldl (merge_watch (wc_provider_id c)) start ws).
  assert (om_wf eff) as Hwf.
  { apply merge_all_wf. unfold start. destruct b; [|apply om_wf_nil]. repeat constructor. }
  assert (forall k, om_find k eff = merge_from (wc_provider_id c) k (om_find k start) ws) as Hfind
    by (intros k; by apply merge_all_find).
  assert (forall k e, om_find k start = Some e <-> b = Some e /\ k = ew_key e) as Hstart.
  { intros k e. unfold start. destruct b as [x|]; cbn; [|naive_solver].
    destruct (key_eqb k (ew_key x)) eqn:E; [apply key_eqb_true in E; naive_solver|].
    apply key_eqb_false in E. naive_solver. }
  assert (forall k e, om_find k eff = Some e <->
    k = ew_key e /\ (b = Some e \/ (ewk_kind k = PDK_Metric /\ merge_from (wc_provider_id c) k None ws = Some e))) as Hall.
  { intros k e. rewrite Hfind. destruct (decide (ewk_kind k = PDK_Metric)) as [Hk|Hk].
    - assert (om_find k start = None) as ->.
      { destruct (om_find k start) as [x|] eqn:E; [|done]. apply Hstart in E as [E ->]. apply Hb in E. congruence. }
      pose proof (merge_from_serves (wc_provider_id c) k ws) as Hs. cbv zeta in Hs. split.
      + intros He. rewrite He in Hs. destruct Hs as (_ & _ & <-). tauto.
      + intros [-> [He|[_ He]]]; [|done]. apply Hb in He. congruence.
    - rewrite merge_from_skip by done. rewrite Hstart. naive_solver. }
  assert (eff.*1 = map ew_key eff.*2) as Hkeys.
  { rewrite <- list_fmap_compose. apply list_fmap_ext. intros i [k e] Hi. cbn.
    apply list_elem_of_lookup_2, (om_elem_iff k e eff Hwf), Hall in Hi. tauto. }
  split.
  - rewrite <- Hkeys. by apply om_wf_NoDup.
  - intros e. rewrite list_elem_of_fmap. split.
    + intros ([k x] & -> & Hin). apply om_elem_iff, Hall in Hin; [|done]. cbn. destruct Hin as [-> Hin]. tauto.
    + intros He. exists (ew_key e, e). split; [done|]. apply om_elem_iff; [done|]. apply Hall. tauto.
Qed.

(** ** Lemmas: publishing *)

Definition published (m : WatchManager) (next : list (WatchId * LogicalWatch)) : WatchManager :=
  mkWatchManager (wm_limits_ m) (wm_catalog_ m) next
    (buildSnapshot (wm_catalog_ m) (heartbeat_baseline_ m) next (ws_version (wm_snapshot_ m) + 1))
    (List.filter (fun kv => om_mem kv.1 next) (sample_counts_ m))
    (List.filter (fun kv => om_mem kv.1 next) (last_sample_times_ m))
    (heartbeat_baseline_ m) (next_watch_id_ m).

Lemma wm_publish_cases m next :
  (exists st, wm_publish m next = (st, m) /\ st_ok st = false /\
    (st_code st = PDCM_STATUS_RESOURCE_EXHAUSTED \/ ws_version (wm_snapshot_ m) = u64_max)) \/
  (wm_publish m next = (st_success, published m next) /\
   zlen next <= max_logical_watches (wm_limits_ m) /\ ws_version (wm_snapshot_ m) <> u64_max /\
   zlen (ws_effective_watches (wm_snapshot_ (published m next))) <= max_effective_watches (wm_limits_ m)).
Proof.
  unfold wm_publish. cbv zeta. guard as G1; [left; eexists; split_and!; [done|done|by left]|].
  guard as G2; [left; eexists; split_and!; [done|done|right; by bprop in G2]|].
  guard as G3; [left; eexists; split_and!; [done|done|by left]|]. bprop in *. right. done.
Qed.

Lemma samples_ok_filter logical next counts times :
  om_wf logical -> samples_ok logical counts times ->
  (forall id w, om_find id logical = Some w -> is_Some (om_find id next) -> om_find id next = Some w) ->
  samples_ok next (List.filter (fun kv => om_mem kv.1 next) counts) (List.filter (fun kv => om_mem kv.1 next) times).
Proof.
  intros Hl [H1 H2 H3 H4] Hsub. split; try by apply om_wf_filter.
  - intros id n. rewrite om_find_filter by done. destruct (om_find id counts) as [n'|] eqn:E; [|done].
    cbn [fst]. guard as G; [|done]. intros [= ->]. apply has_value_true in G.
    destruct (H3 id n E) as (Hn & w & Hw & Hb). eauto 10.
  - intros id t. rewrite om_find_filter by done. destruct (om_find id times) as [t'|] eqn:E; [|done].
    cbn [fst]. guard as G; [|done]. intros [= ->]. apply has_value_true in G.
    destruct (H4 id t E). eauto.
Qed.

Lemma published_wf m next n :
  watch_wf m -> om_wf next -> next_watch_id_ m <= n <= u64_max ->
  zlen next <= max_logical_watches (wm_limits_ m) -> ws_version (wm_snapshot_ m) <> u64_max ->
  forall c b, let m1 := wm_with_baseline (wm_with_catalog m c) b in
  zlen (ws_effective_watches (wm_snapshot_ (published m1 next))) <= max_effective_watches (wm_limits_ m) ->
  (forall id w, om_find id next = Some w ->
     (om_find id (logical_ m) = Some w \/ id = next_watch_id_ m) /\ lw_id w = id /\ 1 <= id < n /\
     req_ok c (lw_requirement w)) ->
  (forall x, b = Some x -> ewk_kind (ew_key x) = PDK_HeartbeatEvidence /\ ew_priority x = WP_Heartbeat) ->
  watch_wf (wm_with_next_id (published m1 next) n).
Proof.
  intros [W1 W2 W3 W4 W5 W6 W7] Hnext Hn Hlen Hver c b m1 Heff Hw Hb.
  split; cbn [wm_with_next_id published logical_ next_watch_id_ sample_counts_ last_sample_times_ wm_snapshot_
    wm_limits_ m1 wm_with_baseline wm_with_catalog buildSnapshot ws_version]; auto; try lia.
  - intros id w Hid. destruct (Hw id w Hid) as (_ & ? & ? & _). done.
  - apply samples_ok_filter with (logical := logical_ m); auto. intros id w Hid [w' Hw'].
    destruct (Hw id w' Hw') as ([Ho| ->] & _); [congruence|]. apply W2 in Hid. lia.
  - intros _. split; cbn [wm_with_next_id published logical_ wm_catalog_ m1 wm_with_baseline wm_with_catalog
      heartbeat_baseline_ wm_snapshot_]; auto.
    intros id w Hid. by destruct (Hw id w Hid) as (_ & _ & _ & ?).
Qed.

(** ** Lemmas: requirements *)

Definition metric_polled (c : WatchCatalogState) (x : MetricId) : bool := has_value (metric_supported c x).

Definition metric_acceptable (c : WatchCatalogState) (period : Z) (x : MetricId) : Prop :=
  x <> 0 /\ forall d, metric_supported c x = Some d -> to_i64 (md_min_period_ns d) <= period.

Lemma select_metrics_spec c period unique xs sup unsup :
  let '(st, s, u) := select_metrics c period unique xs sup unsup in
  (st_ok st = true <->
     Forall (metric_acceptable c period) xs /\ NoDup xs /\ (forall x, x ∈ xs -> x ∉ unique)) /\
  (st_ok st = true ->
     s = sup ++ List.filter (metric_polled c) xs /\
     u = unsup ++ List.filter (fun x => negb (metric_polled c x)) xs).
Proof.
  revert unique sup unsup. induction xs as [|x xs IH]; intros unique sup unsup; cbn [select_metrics].
  - split; [|by rewrite !app_nil_r]. split; [|done]. intros _. split_and!; [constructor|constructor|set_solver].
  - guard as G1.
    { cbn. split; [|done]. split; [done|]. intros (Ha & Hn & Hd). bprop in G1.
      apply Forall_cons in Ha as [[Hx _] _]. destruct G1 as [G1|G1]; [done|]. exfalso. apply (Hd x); [left|done]. }
    bprop in G1. destruct G1 as [Hx0 Hxu].
    assert (forall u', NoDup (x :: xs) /\ (forall y, y ∈ x :: xs -> y ∉ u') <->
      x ∉ u' /\ NoDup xs /\ forall y, y ∈ xs -> y ∉ x :: u') as Hset.
    { intros u'. rewrite NoDup_cons. set_solver. }
    destruct (metric_supported c x) as [d|] eqn:Ed.
    + guard as G2.
      { cbn. split; [|done]. split; [done|]. intros (Ha & _). bprop in G2.
        apply Forall_cons in Ha as [[_ Hp] _]. specialize (Hp d Ed). lia. }
      bprop in G2. specialize (IH (x :: unique) (sup ++ [x]) unsup).
      destruct (select_metrics _ _ _ _ _ _) as [[st s] u]. destruct IH as [IH1 IH2].
      assert (metric_polled c x = true) as Hpol by (unfold metric_polled; by rewrite Ed).
      cbn [List.filter]. rewrite Hpol. cbn [negb]. split.
      * rewrite IH1, Forall_cons, (Hset unique). unfold metric_acceptable at 2. rewrite Ed. naive_solver.
      * intros Hst. destruct (IH2 Hst) as [-> ->]. by rewrite <- app_assoc.
    + specialize (IH (x :: unique) sup (unsup ++ [x])).
      destruct (select_metrics _ _ _ _ _ _) as [[st s] u]. destruct IH as [IH1 IH2].
      assert (metric_polled c x = false) as Hpol by (unfold metric_polled; by rewrite Ed).
      cbn [List.filter]. rewrite Hpol. cbn [negb]. split.
      * rewrite IH1, Forall_cons, (Hset unique). unfold metric_acceptable at 2. rewrite Ed. naive_solver.
      * intros Hst. destruct (IH2 Hst) as [-> ->]. by rewrite <- app_assoc.
Qed.

(** The requirements the active catalog admits. *)
Definition req_admissible (m : WatchManager) (r : WatchRequirement) : Prop :=
  (exists v, wc_view (wm_catalog_ m) = Some v /\ wr_catalog_generation r = cv_generation_ v) /\
  wc_entity (wm_catalog_ m) = Some (wr_entity r) /\ wc_topology_unsupported (wm_catalog_ m) = false /\
  wr_metrics r <> [] /\ zlen (wr_metrics r) <= max_metrics_per_watch (wm_limits_ m) /\
  0 < wr_period r <= wr_freshness r /\ wr_freshness r <= wr_retention r /\
  Forall (metric_acceptable (wm_catalog_ m) (wr_period r)) (wr_metrics r) /\ NoDup (wr_metrics r).

Lemma validateRequirement_spec m r :
  let '(st, s, u) := validateRequirement m r in
  (st_ok st = true <-> req_admissible m r) /\
  (st_ok st = true ->
     s = List.filter (metric_polled (wm_catalog_ m)) (wr_metrics r) /\
     u = List.filter (fun x => negb (metric_polled (wm_catalog_ m) x)) (wr_metrics r)).
Proof.
  unfold validateRequirement, req_admissible. cbv zeta.
  destruct (wc_view (wm_catalog_ m)) as [v|]; [|cbn; naive_solver].
  destruct (wc_entity (wm_catalog_ m)) as [e|]; [|cbn; naive_solver].
  guard as G1; [cbn; naive_solver|].
  guard as G2.
  { cbn. split; [|done]. split; [done|]. intros ((v' & [= <-] & Hg) & [= He] & _). bprop in G2.
    destruct G2 as [G2|G2]; congruence. }
  bprop in G2. destruct G2 as [G2 G2'].
  guard as G3.
  { cbn. split; [|done]. split; [done|]. intros (_ & _ & _ & Hm & Hl & Hp & Hf & _). bprop in G3.
    destruct G3 as [[[[G3|G3]|G3]|G3]|G3]; [done|lia..]. }
  bprop in G3. destruct G3 as ((((G3 & G4) & G5) & G6) & G7).
  pose proof (select_metrics_spec (wm_catalog_ m) (wr_period r) [] (wr_metrics r) [] []) as Hs.
  destruct (select_metrics _ _ _ _ _ _) as [[st s] u]. destruct Hs as [Hs1 Hs2]. split; [|done]. rewrite Hs1.
  split.
  - intros (Ha & Hn & _). split_and!; eauto; try lia. by subst.
  - intros (_ & _ & _ & _ & _ & _ & _ & Ha & Hn). split_and!; auto. set_solver.
Qed.

(** ** Lemmas: sample tokens *)

Lemma count_from (n : nat) (s : Z) :
  0 <= s -> zlen (List.filter (fun i => s <=? i) (seqZ 0 (Z.of_nat n))) = Z.max 0 (Z.of_nat n - s).
Proof.
  intros Hs. induction n as [|n IH].
  { rewrite seqZ_nil by lia. cbn [List.filter]. rewrite zlen_nil. lia. }
  rewrite Nat2Z.inj_succ, <- Z.add_1_r, seqZ_app by lia. rewrite List.filter_app, zlen_app, IH, Z.add_0_l.
  assert (seqZ (Z.of_nat n) 1 = [Z.of_nat n]) as -> by done. cbn [List.filter].
  destruct (s <=? Z.of_nat n) eqn:E; bprop in E; unfold zlen; cbn [length]; lia.
Qed.

Lemma token_skipped_spec previous first period i :
  0 < period -> 0 <= i ->
  match previous with Some p => p <? first + i * period | None => true end =
  (token_skipped previous first period <=? i).
Proof.
  intros Hp Hi. unfold token_skipped. destruct previous as [t|]; [|symmetry; by apply Z.leb_le].
  destruct (first <=? t) eqn:E; bprop in E.
  - pose proof (Z.div_mod (t - first) period ltac:(lia)) as Hd.
    pose proof (Z.mod_pos_bound (t - first) period Hp) as Hm. set (q := (t - first) / period) in *.
    apply Bool.eq_iff_eq_true. bprop. split; intros Hx; nia.
  - apply Bool.eq_iff_eq_true. bprop. nia.
Qed.

(** What is left of a token after skipping is its fresh ticks. *)
Lemma fresh_ticks_spec previous first period count :
  0 < period -> 0 <= count ->
  fresh_ticks previous first period count = Z.max 0 (count - token_skipped previous first period).
Proof.
  intros Hp Hc. unfold fresh_ticks, ticks.
  assert (0 <= token_skipped previous first period) as Hs.
  { unfold token_skipped. destruct previous as [t|]; [|done]. destruct (first <=? t) eqn:E; [|done]. bprop in E.
    pose proof (Z.div_pos (t - first) period). lia. }
  rewrite <- (Z2Nat.id count) by lia. rewrite <- count_from by done.
  assert (Forall (fun i => 0 <= i) (seqZ 0 (Z.of_nat (Z.to_nat count)))) as Hall.
  { apply Forall_forall. intros i Hi%elem_of_seqZ. lia. }
  induction Hall as [|i l Hi Hl IH]; [done|]. cbn [map List.filter].
  rewrite token_skipped_spec by done. destruct (_ <=? i); [rewrite !zlen_cons; lia|done].
Qed.

(** What a token does to one watch. *)
Inductive sample_result := SR_Unchanged | SR_Retired | SR_Counted (total : Z).

Definition watch_sampled (w : LogicalWatch) (count time : option Z) (first period n : Z) : sample_result :=
  let fresh := fresh_ticks time first period n in
  if fresh =? 0 then SR_Unchanged
  else
  let total := Z.min u64_max (match count with Some c => c | None => 0 end + fresh) in
  let limit := wr_sample_limit (lw_requirement w) in
  if negb (limit =? 0) && (limit <=? total) then SR_Retired else SR_Counted total.

(** Everything the manager knows about one watch. *)
Definition watch_entry (logical : list (WatchId * LogicalWatch)) (counts times : list (WatchId * Z)) (id : WatchId)
    : option LogicalWatch * option Z * option Z :=
  (om_find id logical, om_find id counts, om_find id times).

Definition sampled_entry (e : option LogicalWatch * option Z * option Z) (first period n : Z)
    : option LogicalWatch * option Z * option Z :=
  match e with
  | (None, _, _) => e
  | (Some w, c, t) =>
      match watch_sampled w c t first period n with
      | SR_Unchanged => e
      | SR_Retired => (None, None, None)
      | SR_Counted total => (Some w, Some total, Some (first + period * (n - 1)))
      end
  end.

Definition token_entry (t : token_state) : WatchId -> option LogicalWatch * option Z * option Z :=
  watch_entry (tk_logical t) (tk_counts t) (tk_times t).

Definition sample_active (e : option LogicalWatch * option Z * option Z) : bool := has_value e.1.1.

(** The state during the loop. *)
Record token_ok (m : WatchManager) (t : token_state) : Prop := {
  to_wf : om_wf (tk_logical t);
  to_sub : tk_logical t `sublist_of` logical_ m;
  to_samples : samples_ok (tk_logical t) (tk_counts t) (tk_times t);
  to_same : tk_removed t = false -> tk_logical t = logical_ m }.

Lemma add_samples_spec current added : 0 <= current -> 0 < added ->
  add_samples current added = Z.min u64_max (current + added).
Proof. intros. unfold add_samples. guard as G; bprop in G; lia. Qed.

Lemma record_one_result first period n t id :
  0 < period -> 0 < n ->
  match om_find id (tk_logical t) with
  | None => record_one first period (first + period * (n - 1)) n t id = t
  | Some w =>
      (forall c, om_find id (tk_counts t) = Some c -> 0 <= c) ->
      record_one first period (first + period * (n - 1)) n t id =
      match watch_sampled w (om_find id (tk_counts t)) (om_find id (tk_times t)) first period n with
      | SR_Unchanged => mkToken (tk_logical t) (tk_counts t) (tk_times t) true (tk_changed t) (tk_removed t)
      | SR_Retired =>
          mkToken (om_erase id (tk_logical t)) (om_erase id (tk_counts t)) (om_erase id (tk_times t)) true true true
      | SR_Counted total =>
          mkToken (tk_logical t) (om_set id total (tk_counts t))
            (om_set id (first + period * (n - 1)) (tk_times t)) true true (tk_removed t)
      end
  end.
Proof.
  intros Hp Hn. unfold record_one. destruct (om_find id (tk_logical t)) as [w|]; [|done]. intros Hc.
  unfold watch_sampled. cbv zeta. rewrite fresh_ticks_spec by lia.
  set (sk := token_skipped _ _ _). destruct (n <=? sk) eqn:G; bprop in G.
  - by rewrite Z.max_l, Z.eqb_refl by lia.
  - rewrite Z.max_r by lia. replace (n - sk =? 0) with false by (symmetry; apply Z.eqb_neq; lia).
    rewrite add_samples_spec; [|destruct (om_find id (tk_counts t)); [auto|lia]|lia]. by guard as G2.
Qed.

Lemma samples_ok_erase logical counts times id :
  om_wf logical -> samples_ok logical counts times ->
  samples_ok (om_erase id logical) (om_erase id counts) (om_erase id times).
Proof.
  intros Hl [H1 H2 H3 H4]. split; try by apply om_wf_erase.
  - intros id' n. destruct (decide (id' = id)) as [->|Hne]; [by rewrite om_find_erase_eq|].
    rewrite !om_find_erase_ne by done. auto.
  - intros id' t. destruct (decide (id' = id)) as [->|Hne]; [by rewrite om_find_erase_eq|].
    rewrite !om_find_erase_ne by done. auto.
Qed.

Lemma samples_ok_set logical counts times id w n t :
  samples_ok logical counts times -> om_find id logical = Some w -> 0 < n <= u64_max -> below_limit w n ->
  0 <= t <= i64_max -> samples_ok logical (om_set id n counts) (om_set id t times).
Proof.
  intros [H1 H2 H3 H4] Hw Hn Hb Ht. split; try by apply om_wf_set.
  - intros id' n'. destruct (decide (id' = id)) as [->|Hne].
    + rewrite om_find_set_eq. intros [= <-]. eauto.
    + rewrite om_find_set_ne by done. auto.
  - intros id' t'. destruct (decide (id' = id)) as [->|Hne].
    + rewrite om_find_set_eq. intros [= <-]. eauto.
    + rewrite om_find_set_ne by done. auto.
Qed.

Lemma fresh_ticks_nonneg previous first period n : 0 <= fresh_ticks previous first period n.
Proof. apply zlen_nonneg. Qed.

(** One turn of the loop: the invariant, and the entry of every watch. *)
Lemma record_one_ok m first period n t id :
  0 <= first -> 0 < period -> 0 < n -> first + period * (n - 1) <= i64_max -> token_ok m t ->
  let t' := record_one first period (first + period * (n - 1)) n t id in
  token_ok m t' /\
  token_entry t' id = sampled_entry (token_entry t id) first period n /\
  (forall id', id' <> id -> token_entry t' id' = token_entry t id') /\
  tk_found t' = tk_found t || sample_active (token_entry t id) /\
  (tk_changed t' = false -> tk_changed t = false /\ forall id', token_entry t' id' = token_entry t id').
Proof.
  intros Hf Hp Hn Hlast [T1 T2 T3 T4] t'. pose proof (record_one_result first period n t id Hp Hn) as Hr.
  change (token_entry t id) with (om_find id (tk_logical t), om_find id (tk_counts t), om_find id (tk_times t)).
  unfold sampled_entry, sample_active. fold t' in Hr.
  destruct (om_find id (tk_logical t)) as [w|] eqn:Ew; cbn [fst has_value].
  2:{ rewrite Hr, orb_false_r. split_and!; auto; [by split|]. unfold token_entry, watch_entry. by rewrite Ew. }
  rewrite Hr by (intros c Hc; apply (so_count _ _ _ T3) in Hc; lia). rewrite orb_true_r. clear Hr.
  destruct (watch_sampled _ _ _ _ _ _) as [| |total] eqn:Es; unfold token_entry, watch_entry;
    cbn [tk_logical tk_counts tk_times tk_found tk_changed].
  - split_and!; auto; [|by rewrite Ew]. by split.
  - pose proof (so_counts _ _ _ T3) as Oc. pose proof (so_times _ _ _ T3) as Ot. split_and!; auto; try done.
    + split; cbn [tk_logical tk_counts tk_times tk_removed].
      * by apply om_wf_erase.
      * etrans; [apply filter_sublist|done].
      * by apply samples_ok_erase.
      * done.
    + by rewrite !om_find_erase_eq.
    + intros id' Hne. by rewrite !om_find_erase_ne.
  - split_and!; auto; try done.
    + split; auto. apply samples_ok_set with (w := w); auto; [| |nia].
      * unfold watch_sampled in Es. cbv zeta in Es. guard Es as G1; [done|]. guard Es as G2; [done|].
        injection Es as <-. bprop in G1. pose proof (fresh_ticks_nonneg (om_find id (tk_times t)) first period n).
        destruct (om_find id (tk_counts t)) as [c|] eqn:Ec; [apply (so_count _ _ _ T3) in Ec|]; unfold u64_max in *; lia.
      * unfold watch_sampled in Es. cbv zeta in Es. guard Es as G1; [done|]. guard Es as G2; [done|].
        injection Es as <-. unfold below_limit. bprop in G2. lia.
    + by rewrite Ew, !om_find_set_eq.
    + intros id' Hne. by rewrite !om_find_set_ne.
Qed.

Lemma record_all_ok m first period n ids t :
  0 <= first -> 0 < period -> 0 < n -> first + period * (n - 1) <= i64_max -> NoDup ids -> token_ok m t ->
  let t' := foldl (record_one first period (first + period * (n - 1)) n) t ids in
  token_ok m t' /\
  (forall id, token_entry t' id =
     if bool_decide (id ∈ ids) then sampled_entry (token_entry t id) first period n else token_entry t id) /\
  tk_found t' = tk_found t || existsb (fun id => sample_active (token_entry t id)) ids /\
  (tk_changed t' = false -> tk_changed t = false /\ forall id, token_entry t' id = token_entry t id).
Proof.
  intros Hf Hp Hn Hlast Hnd. revert t. induction Hnd as [|i ids Hi Hnd IH]; intros t Ht t'.
  { split_and!; auto. cbn. by rewrite orb_false_r. }
  destruct (record_one_ok m first period n t i Hf Hp Hn Hlast Ht) as (O1 & O2 & O3 & O4 & O5).
  destruct (IH _ O1) as (R1 & R2 & R3 & R4). unfold t'. cbn [foldl]. split_and!; auto.
  - intros id. rewrite R2. destruct (decide (id = i)) as [->|Hne].
    + rewrite (bool_decide_eq_false_2 (i ∈ ids)) by done. rewrite bool_decide_eq_true_2 by left. done.
    + rewrite O3 by done. rewrite (bool_decide_ext (id ∈ ids) (id ∈ i :: ids)) by set_solver. done.
  - rewrite R3, O4. cbn [existsb]. rewrite orb_assoc. f_equal.
    assert (forall x, x ∈ ids -> x <> i) as Hne by (intros x Hx ->; done).
    apply Bool.eq_iff_eq_true. rewrite !existsb_elem.
    split; intros (x & Hx & Ha); exists x; (split; [done|]); [rewrite <- (O3 x) by auto|rewrite (O3 x) by auto]; done.
  - intros Hch. destruct (R4 Hch) as [Hch' Hsame]. destruct (O5 Hch') as [? Hsame']. split; [done|].
    intros id. by rewrite Hsame, Hsame'.
Qed.

(** ** Lemmas: the operations preserve the invariant *)

Lemma wm_eta m : wm_with_baseline (wm_with_catalog m (wm_catalog_ m)) (heartbeat_baseline_ m) = m.
Proof. by destruct m. Qed.
Lemma wm_next_id_eta m : wm_with_next_id m (next_watch_id_ m) = m.
Proof. by destruct m. Qed.

Lemma sublist_find (k l : list (WatchId * LogicalWatch)) id w :
  om_wf l -> k `sublist_of` l -> om_find id k = Some w -> om_find id l = Some w.
Proof. intros Hl Hs Hw%om_find_elem. apply om_elem_find; [done|]. by eapply sublist_elem. Qed.

Lemma sublist_om_wf (k l : list (WatchId * LogicalWatch)) : om_wf l -> k `sublist_of` l -> om_wf k.
Proof.
  intros Hl Hs. unfold om_wf in *. eapply sublist_sorted; [|exact Hl].
  clear Hl. induction Hs; cbn; [apply sublist_nil|by apply sublist_skip|by apply sublist_cons].
Qed.

Lemma live_metrics_NoDup m : om_wf (logical_ m) -> watch_live m ->
  Forall (fun w => NoDup (wr_metrics (lw_requirement w.2))) (logical_ m).
Proof.
  intros Hl [Hr _ _]. apply Forall_forall. intros [id w] Hw. apply om_elem_find in Hw; [|done].
  apply Hr in Hw as (_ & _ & _ & Hs & _). by apply sorted_lt_NoDup.
Qed.

(** Fewer logical watches never need more effective ones. *)
Lemma effective_sublist c b b' ws ws' v v' :
  Forall (fun w => NoDup (wr_metrics (lw_requirement w.2))) ws ->
  (forall x, b = Some x -> ewk_kind (ew_key x) = PDK_HeartbeatEvidence) ->
  (forall x, b' = Some x -> b = Some x) -> ws' `sublist_of` ws ->
  zlen (ws_effective_watches (buildSnapshot c b' ws' v')) <= zlen (ws_effective_watches (buildSnapshot c b ws v)).
Proof.
  intros Hws Hb Hb' Hs.
  assert (Forall (fun w => NoDup (wr_metrics (lw_requirement w.2))) ws') as Hws'.
  { rewrite Forall_forall in Hws |- *. intros w Hw. apply Hws. by eapply sublist_elem. }
  destruct (snapshot_spec c b ws v Hws Hb) as [_ H1].
  destruct (snapshot_spec c b' ws' v' Hws') as [Hnd H2]; [by auto|].
  unfold zlen. rewrite <- (length_map ew_key (ws_effective_watches (buildSnapshot c b' ws' v'))),
    <- (length_map ew_key (ws_effective_watches (buildSnapshot c b ws v))).
  apply inj_le, submseteq_length, NoDup_submseteq; [done|].
  intros k (e & -> & He)%list_elem_of_fmap. apply H2 in He as [He|[Hk He]].
  - apply list_elem_of_fmap. exists e. split; [done|]. apply H1. auto.
  - pose proof (merge_from_serves (wc_provider_id c) (ew_key e) ws') as Hs'. cbv zeta in Hs'. rewrite He in Hs'.
    destruct Hs' as (Hne & _). pose proof (merge_from_serves (wc_provider_id c) (ew_key e) ws) as Ho.
    cbv zeta in Ho. destruct (merge_from _ _ None ws) as [e'|] eqn:Ee.
    + destruct Ho as (_ & _ & Hke). apply list_elem_of_fmap. exists e'. split; [done|].
      apply H1. right. rewrite Hke. done.
    + exfalso. destruct (List.filter _ ws') as [|w l] eqn:Ef; [done|].
      assert (w ∈ List.filter (selects (wc_provider_id c) (ew_key e)) ws') as Hw by (rewrite Ef; left).
      apply elem_of_filterb in Hw as [Hw1 Hw2].
      assert (w ∈ List.filter (selects (wc_provider_id c) (ew_key e)) ws) as Hw3
        by (apply elem_of_filterb; split; [by eapply sublist_elem|done]).
      rewrite Ho in Hw3. by apply elem_of_nil in Hw3.
Qed.

(** Publishing fewer watches cannot fail while versions last. *)
Lemma publish_sublist_ok m b next :
  watch_wf m -> ws_version (wm_snapshot_ m) < u64_max -> next `sublist_of` logical_ m ->
  (forall x, b = Some x -> heartbeat_baseline_ m = Some x) ->
  let m1 := wm_with_baseline m b in
  wm_publish m1 next = (st_success, published m1 next) /\ watch_wf (published m1 next).
Proof.
  intros Hwf Hver Hs Hb m1. pose proof (ww_live m Hwf Hver) as Hlive.
  assert (zlen (ws_effective_watches (wm_snapshot_ (published m1 next))) <= max_effective_watches (wm_limits_ m)) as Heff.
  { etrans; [|apply (ww_limits m Hwf)]. rewrite (wv_snapshot m Hlive). apply effective_sublist; auto.
    - by apply live_metrics_NoDup; [apply Hwf|].
    - intros x Hx. by apply (wv_baseline m Hlive) in Hx as [? _]. }
  assert (zlen next <= max_logical_watches (wm_limits_ m)) as Hlen.
  { etrans; [by apply zlen_sublist|apply (ww_limits m Hwf)]. }
  split.
  - destruct (wm_publish_cases m1 next) as [(st & Hp & Hst & Hbad)|(Hp & _)]; [|done]. exfalso.
    unfold wm_publish in Hp. cbv zeta in Hp. fold (published m1 next) in Hp.
    guard Hp as G1; [bprop in G1; cbn in G1; lia|]. guard Hp as G2; [bprop in G2; cbn in G2; lia|].
    guard Hp as G3; [bprop in G3; cbn in G3, Heff; lia|]. by injection Hp as <-.
  - rewrite <- (wm_next_id_eta (published m1 next)).
    assert (m1 = wm_with_baseline (wm_with_catalog m (wm_catalog_ m)) b) as Hm1 by by destruct m.
    rewrite Hm1 in Heff |- *. apply (published_wf m); auto; try lia.
    + eapply sublist_om_wf; [apply Hwf|done].
    + pose proof (ww_next m Hwf). cbn. lia.
    + intros id w Hw. apply sublist_find with (l := logical_ m) in Hw; [|apply Hwf|done].
      destruct (ww_ids m Hwf id w Hw). split_and!; auto; try lia; [cbn; lia|]. by apply (wv_requirements m Hlive id).
    + intros x Hx. apply (wv_baseline m Hlive). auto.
Qed.

(** The operations, as one step function. *)
Inductive watch_op :=
  | WActivate (v : option CatalogView) (t : TargetCatalog)
  | WCreate (owner : WatchOwner) (r : WatchRequirement)
  | WSetBaseline (period retention : Z)
  | WClearBaseline
  | WDestroy (owner : WatchOwner) (id : WatchId)
  | WRemoveOwner (owner : WatchOwner)
  | WRecord (ids : list WatchId) (first period count : Z).

(** [sample_count] is unsigned. *)
Definition watch_op_ok (op : watch_op) : Prop :=
  match op with WRecord _ _ _ count => 0 <= count | _ => True end.

Definition watch_step (m : WatchManager) (op : watch_op) : WatchManager :=
  match op with
  | WActivate v t => snd (wm_activateCatalog m v t)
  | WCreate owner r => snd (wm_create m owner r)
  | WSetBaseline period retention => snd (setFirmwareHeartbeatBaseline m period retention)
  | WClearBaseline => snd (clearFirmwareHeartbeatBaseline m)
  | WDestroy owner id => snd (wm_destroy m owner id)
  | WRemoveOwner owner => snd (removeOwner m owner)
  | WRecord ids first period count => snd (recordSamples m ids first period count)
  end.

Lemma wm_construct_wf l m : 0 <= max_logical_watches l -> 0 <= max_effective_watches l ->
  wm_construct l = inr m -> watch_wf m.
Proof.
  intros H1 H2. unfold wm_construct. guard as G; [done|]. intros [= <-].
  split; cbn; try done; try (unfold u64_max; lia).
  - apply om_wf_nil.
  - split; done || apply om_wf_nil.
Qed.

Lemma watch_wf_overflow m c b : watch_wf m -> ws_version (wm_snapshot_ m) = u64_max ->
  watch_wf (wm_with_baseline (wm_with_catalog m c) b).
Proof.
  intros [W1 W2 W3 W4 W5 W6 W7] Hv. split; cbn [wm_with_baseline wm_with_catalog logical_ next_watch_id_
    sample_counts_ last_sample_times_ wm_snapshot_ wm_limits_]; auto. intros Hlt. lia.
Qed.

(** A newer catalog retires every watch. *)
Lemma activate_retains_none m next v :
  watch_wf m -> ws_version (wm_snapshot_ m) < u64_max ->
  (forall old, wc_view (wm_catalog_ m) = Some old -> cv_generation_ old < cv_generation_ v) ->
  List.filter (watch_current next (cv_generation_ v)) (logical_ m) = [].
Proof.
  intros Hwf Hver Hnew. apply filter_false_nil. intros [id w] Hw. apply om_elem_find in Hw; [|apply Hwf].
  apply (wv_requirements m (ww_live m Hwf Hver)) in Hw as ((old & Hv & Hg) & _). apply Hnew in Hv.
  unfold watch_current. destruct (wc_entity next); [|done]. apply andb_false_iff. left. apply Z.eqb_neq.
  cbn [snd]. lia.
Qed.

Lemma activate_publish m v t :
  watch_wf m -> (forall old, wc_view (wm_catalog_ m) = Some old -> cv_generation_ old < cv_generation_ v) ->
  let m1 := wm_with_catalog m (next_watch_catalog v t) in
  let next := List.filter (watch_current (next_watch_catalog v t) (cv_generation_ v)) (logical_ m) in
  watch_wf (snd (wm_publish m1 next)) /\
  (ws_version (wm_snapshot_ m) < u64_max -> wm_publish m1 next = (st_success, published m1 [])).
Proof.
  intros Hwf Hnew m1 next.
  assert (m1 = wm_with_baseline m1 None) as Hm1 by by destruct m.
  destruct (Z.lt_ge_cases (ws_version (wm_snapshot_ m)) u64_max) as [Hlt|Hge].
  - assert (next = []) as -> by by apply activate_retains_none.
    pose proof (ww_limits m Hwf) as [L1 L2].
    assert (wm_publish m1 [] = (st_success, published m1 [])) as Hp.
    { unfold wm_publish. cbv zeta. fold (published m1 []). cbn [m1 wm_with_catalog wm_limits_ wm_snapshot_].
      pose proof (zlen_nonneg (logical_ m)). pose proof (zlen_nonneg (ws_effective_watches (wm_snapshot_ m))).
      guard as G1; [bprop in G1; rewrite zlen_nil in G1; lia|]. guard as G2; [bprop in G2; lia|].
      guard as G3; [bprop in G3; cbn in G3; unfold zlen in G3; cbn in G3; lia|]. done. }
    rewrite Hp. split; [|done]. cbn [snd]. rewrite <- (wm_next_id_eta (published m1 [])), Hm1.
    pose proof (ww_next m Hwf). apply (published_wf m); auto; try done; try (cbn; lia); try lia.
    + apply om_wf_nil.
    + rewrite zlen_nil. pose proof (zlen_nonneg (logical_ m)). lia.
    + cbn. unfold zlen. cbn. pose proof (zlen_nonneg (ws_effective_watches (wm_snapshot_ m))). lia.
  - split; [|lia]. pose proof (ww_version m Hwf).
    destruct (wm_publish_cases m1 next) as [(st & -> & _)|(_ & _ & Hv & _)].
    + cbn [snd]. rewrite Hm1. apply watch_wf_overflow; [done|lia].
    + exfalso. apply Hv. cbn. lia.
Qed.

Lemma activate_step m v t : watch_wf m -> watch_wf (snd (wm_activateCatalog m v t)).
Proof.
  intros Hwf. unfold wm_activateCatalog. destruct v as [v|]; [|done].
  guard as G1; [done|]. cbv zeta. guard as G2; [done|].
  destruct (wc_view (wm_catalog_ m)) as [old|] eqn:Ev.
  - guard as G3; [done|]. guard as G4; [done|]. bprop in *. apply activate_publish; [done|].
    intros o Ho. rewrite Ev in Ho. injection Ho as <-. lia.
  - apply activate_publish; [done|]. congruence.
Qed.

Lemma setBaseline_step m p r : watch_wf m -> watch_wf (snd (setFirmwareHeartbeatBaseline m p r)).
Proof.
  intros Hwf. unfold setFirmwareHeartbeatBaseline. cbv zeta.
  destruct (wc_view _); [|done]. destruct (wc_entity _) as [e|]; [|done].
  destruct (wc_heartbeat _) as [h|]; [|done]. destruct (hce_provider_data_id h) as [d|]; [|done].
  guard as G1; [done|]. guard as G2; [done|]. set (b := mkEffective _ _ _ _ _ _).
  destruct (wm_publish_cases (wm_with_baseline m (Some b)) (logical_ m)) as [(st & -> & -> & _)|(-> & H1 & H2 & H3)].
  - cbn [snd]. by replace (wm_with_baseline _ _) with m by by destruct m.
  - cbn [snd st_ok]. change (st_ok st_success) with true. cbn match.
    rewrite <- (wm_next_id_eta (published _ _)).
    assert (wm_with_baseline m (Some b) = wm_with_baseline (wm_with_catalog m (wm_catalog_ m)) (Some b)) as Hm1
      by by destruct m.
    rewrite Hm1 in H3 |- *. pose proof (ww_next m Hwf). pose proof (ww_version m Hwf).
    assert (watch_live m) as Hlive by (apply (ww_live m Hwf); cbn in H2; lia).
    apply (published_wf m); auto; try (cbn; lia).
    + apply Hwf.
    + intros id w Hw. destruct (ww_ids m Hwf id w Hw). split_and!; auto; try lia; [cbn; lia|].
      by apply (wv_requirements m Hlive id).
    + intros x [= <-]. done.
Qed.

(** Publishing fewer watches, whether or not versions last. *)
Lemma publish_fewer m next :
  watch_wf m -> next `sublist_of` logical_ m ->
  (wm_publish m next = (st_success, published m next) /\ watch_wf (published m next)) \/
  (exists st, wm_publish m next = (st, m) /\ st_ok st = false /\ ws_version (wm_snapshot_ m) = u64_max).
Proof.
  intros Hwf Hs. destruct (Z.lt_ge_cases (ws_version (wm_snapshot_ m)) u64_max) as [Hlt|Hge].
  - left. destruct (publish_sublist_ok m (heartbeat_baseline_ m) next Hwf Hlt Hs) as [Hp Hw]; [done|].
    by replace (wm_with_baseline m (heartbeat_baseline_ m)) with m in Hp, Hw by by destruct m.
  - right. pose proof (ww_version m Hwf).
    destruct (wm_publish_cases m next) as [(st & -> & ? & _)|(_ & _ & ? & _)]; [|lia].
    exists st. split_and!; [done|done|lia].
Qed.

Lemma publish_fewer_step m next : watch_wf m -> next `sublist_of` logical_ m -> watch_wf (snd (wm_publish m next)).
Proof.
  intros Hwf Hs. destruct (publish_fewer m next Hwf Hs) as [[-> Hw]|(st & -> & _)]; [exact Hw|exact Hwf].
Qed.

Lemma clearBaseline_step m : watch_wf m -> watch_wf (snd (clearFirmwareHeartbeatBaseline m)).
Proof.
  intros Hwf. unfold clearFirmwareHeartbeatBaseline. guard as G; [done|].
  destruct (wm_publish_cases (wm_with_baseline m None) (logical_ m)) as [(st & -> & -> & _)|(Hp & _ & Hv & _)].
  - cbn [snd]. by replace (wm_with_baseline _ _) with m by by destruct m.
  - rewrite Hp. change (st_ok st_success) with true. cbn [snd]. cbn in Hv. pose proof (ww_version m Hwf).
    destruct (publish_sublist_ok m None (logical_ m) Hwf) as [_ Hw]; [lia|done|done|exact Hw].
Qed.

Lemma create_req_ok m r :
  req_admissible m r -> List.filter (metric_polled (wm_catalog_ m)) (wr_metrics r) <> [] ->
  req_ok (wm_catalog_ m)
    (wr_with_metrics r (std_sort (List.filter (metric_polled (wm_catalog_ m)) (wr_metrics r)))).
Proof.
  intros (Hv & He & _ & _ & _ & Hp & Hf & Ha & Hn) Hne. set (xs := List.filter _ _) in *.
  assert (xs `sublist_of` wr_metrics r) as Hsub by apply filter_sublist.
  split_and!; cbn [wr_with_metrics wr_catalog_generation wr_entity wr_metrics wr_period wr_freshness wr_retention];
    auto; try lia.
  - rewrite <- length_zero_iff_nil, std_sort_length, length_zero_iff_nil. done.
  - apply sorted_le_NoDup; [apply std_sort_sorted|]. rewrite std_sort_perm. by eapply sublist_NoDup.
  - apply Forall_forall. intros x Hx. apply (std_sort_elem x xs) in Hx. apply elem_of_filterb in Hx as [Hx Hpol].
    rewrite Forall_forall in Ha. destruct (Ha x Hx) as [_ Hmin]. unfold metric_polled in Hpol.
    destruct (metric_supported _ x) as [d|]; [|done]. eauto.
Qed.

(** Every way [create] can end. *)
Lemma wm_create_cases m owner r :
  let c := wm_catalog_ m in
  let supported := List.filter (metric_polled c) (wr_metrics r) in
  let unsupported := List.filter (fun x => negb (metric_polled c x)) (wr_metrics r) in
  let id := next_watch_id_ m in
  let watch := mkLogical id owner (wr_with_metrics r (std_sort supported)) in
  let next := om_emplace id watch (logical_ m) in
  (snd (wm_create m owner r) = m /\ st_ok (wcr_status (fst (wm_create m owner r))) = false /\
   wcr_watch_id (fst (wm_create m owner r)) = 0) \/
  (~ (wo_kind owner = WOK_Session /\ wo_id owner = 0) /\ id <> u64_max /\ req_admissible m r /\
   supported <> [] /\ (unsupported = [] \/ wr_allow_partial r = true) /\
   wm_publish m next = (st_success, published m next) /\
   wm_create m owner r =
     (mkWatchCreate (if is_nil unsupported then st_success
                     else err_status PDCM_STATUS_PARTIAL_RESULT "watch omitted unsupported metrics") id unsupported,
      wm_with_next_id (published m next) (id + 1))).
Proof.
  cbv zeta. unfold wm_create. cbv zeta. guard as G1; [by left|]. guard as G2; [by left|].
  pose proof (validateRequirement_spec m r) as Hv.
  destruct (validateRequirement m r) as [[st s] u]. destruct Hv as [Hv1 Hv2].
  destruct (st_ok st) eqn:Est; cbn [negb].
  2:{ left. by cbn. }
  destruct (Hv2 eq_refl) as [-> ->]. guard as G3; [by left|]. guard as G4; [by left|].
  set (next := om_emplace _ _ _). destruct (wm_publish_cases m next) as [(st' & -> & Hst & _)|(Hp & _)].
  - left. rewrite Hst. by cbn.
  - right. rewrite Hp. change (st_ok st_success) with true. cbn [negb]. bprop in *.
    split_and!; auto.
    + intros [H1 H2]. destruct G1; congruence.
    + by apply Hv1.
Qed.

Lemma create_step m owner r : watch_wf m -> watch_wf (snd (wm_create m owner r)).
Proof.
  intros Hwf. destruct (wm_create_cases m owner r) as [(-> & _)|(_ & Hid & Hadm & Hne & _ & Hp & ->)]; [done|].
  cbn [snd]. set (id := next_watch_id_ m) in *. set (w := mkLogical _ _ _) in *. set (next := om_emplace _ _ _) in *.
  destruct (wm_publish_cases m next) as [(st & Hp' & Hst & _)|(_ & H1 & H2 & H3)].
  { rewrite Hp in Hp'. by injection Hp' as <-. }
  pose proof (ww_next m Hwf). pose proof (ww_version m Hwf). rewrite <- (wm_eta m) in H3 |- *.
  assert (watch_live m) as Hlive by (apply (ww_live m Hwf); lia).
  apply (published_wf m); auto; try (unfold id; cbn; lia).
  - apply om_wf_emplace, Hwf.
  - intros i x Hx. assert (om_find i (logical_ m) = Some x \/ (i = id /\ x = w)) as [Ho|[-> ->]].
    { unfold next, om_emplace in Hx. destruct (om_find id (logical_ m)) eqn:E; [by left|].
      destruct (decide (i = id)) as [->|Hi]; [|by rewrite om_find_set_ne in Hx; auto].
      rewrite om_find_set_eq in Hx. right. naive_solver. }
    + destruct (ww_ids m Hwf i x Ho). split_and!; auto; try (unfold id; lia).
      by apply (wv_requirements m Hlive i).
    + split_and!; auto; try (unfold id; lia). by apply create_req_ok.
  - apply Hlive.
Qed.

(** Every way [recordSamples] can end when its arguments are valid. *)
Definition token_valid (ids : list WatchId) (first period n : Z) : Prop :=
  ids <> [] /\ NoDup ids /\ 0 <= first /\ 0 < period /\ 0 < n /\ first + period * (n - 1) <= i64_max.

Lemma recordSamples_cases m ids first period n :
  0 <= n ->
  let t := foldl (record_one first period (first + period * (n - 1)) n)
             (mkToken (logical_ m) (sample_counts_ m) (last_sample_times_ m) false false false) (std_sort ids) in
  (recordSamples m ids first period n = (fst (recordSamples m ids first period n), m) /\
   st_ok (fst (recordSamples m ids first period n)) = false /\ ~ token_valid ids first period n) \/
  (token_valid ids first period n /\
   recordSamples m ids first period n =
     if negb (tk_found t)
     then (err_status PDCM_STATUS_NOT_FOUND "logical sample token has no active watches", m)
     else if negb (tk_changed t) then (st_success, m)
     else
     let '(status, m') := if tk_removed t then wm_publish m (tk_logical t) else (st_success, m) in
     if negb (st_ok status) then (status, m')
     else (st_success, wm_with_samples m' (tk_counts t) (tk_times t))).
Proof.
  intros Hn t. unfold recordSamples, token_valid. cbv zeta. guard as G1.
  { left. split_and!; auto. bprop in G1. intros (? & _ & ?). naive_solver lia. }
  bprop in G1. destruct G1 as (((G1 & G2) & G3) & G4). guard as G5.
  { left. split_and!; auto. intros (_ & Hnd & _). apply std_sort_dup in Hnd. congruence. }
  apply std_sort_dup in G5. guard as G6.
  { left. split_and!; auto. bprop in G6. intros (_ & _ & ? & ? & ? & Hx).
    assert (n - 1 <= i64_max / period); [|lia]. apply Z.div_le_lower_bound; lia. }
  bprop in G6. assert (0 <= period * (n - 1) <= i64_max) as Hd.
  { pose proof (Z.mul_div_le i64_max period ltac:(lia)). nia. }
  assert (to_i64 (n - 1) = n - 1) as ->.
  { unfold to_i64. rewrite wrap64_small by (unfold i64_max, u64_max in *; nia). guard as G; bprop in G; [done|]. nia. }
  guard as G7; [left; split_and!; auto; bprop in G7; intros; lia|]. bprop in G7.
  right. split_and!; auto; lia.
Qed.

Definition token_start (m : WatchManager) : token_state :=
  mkToken (logical_ m) (sample_counts_ m) (last_sample_times_ m) false false false.

Lemma token_start_ok m : watch_wf m -> token_ok m (token_start m).
Proof. intros Hwf. split; cbn; auto; apply Hwf. Qed.

Lemma with_samples_wf m counts times :
  watch_wf m -> samples_ok (logical_ m) counts times -> watch_wf (wm_with_samples m counts times).
Proof.
  intros [W1 W2 W3 W4 W5 W6 W7] Hs. split; cbn [wm_with_samples logical_ next_watch_id_ sample_counts_
    last_sample_times_ wm_snapshot_ wm_limits_]; auto.
  intros Hlt. destruct (W7 Hlt) as [V1 V2 V3]. by split.
Qed.

Lemma record_step m ids first period n : 0 <= n -> watch_wf m -> watch_wf (snd (recordSamples m ids first period n)).
Proof.
  intros Hn Hwf. destruct (recordSamples_cases m ids first period n Hn) as [(-> & _)|((_ & Hnd & V1 & V2 & V3 & V4) & ->)];
    [done|].
  set (t := foldl _ _ _).
  destruct (record_all_ok m first period n (std_sort ids) (token_start m) V1 V2 V3 V4) as ([T1 T2 T3 T4] & _);
    [by rewrite std_sort_perm|by apply token_start_ok|]. fold t in T1, T2, T3, T4.
  do 2 (guard as G; [done|]; clear G). destruct (tk_removed t) eqn:Hrm.
  - destruct (publish_fewer m (tk_logical t) Hwf T2) as [[-> Hw]|(st & -> & -> & _)]; [|done].
    change (st_ok st_success) with true. cbn [negb snd]. by apply with_samples_wf.
  - cbn. rewrite T4 in T3 by done. by apply with_samples_wf.
Qed.

Lemma watch_step_wf m op : watch_op_ok op -> watch_wf m -> watch_wf (watch_step m op).
Proof.
  intros Hok Hwf. destruct op; cbn [watch_step].
  - by apply activate_step.
  - by apply create_step.
  - by apply setBaseline_step.
  - by apply clearBaseline_step.
  - unfold wm_destroy. destruct (om_find id (logical_ m)); [|done]. guard as G; [done|].
    apply publish_fewer_step; [done|]. apply filter_sublist.
  - unfold removeOwner. cbv zeta. guard as G; [done|]. apply publish_fewer_step; [done|]. apply filter_sublist.
  - by apply record_step.
Qed.

Lemma watch_run_wf m ops : Forall watch_op_ok ops -> watch_wf m -> watch_wf (foldl watch_step m ops).
Proof.
  intros Hops. revert m. induction Hops as [|op ops Hop Hops IH]; intros m Hwf; [done|].
  cbn. by apply IH, watch_step_wf.
Qed.

(** ** Theorems *)

(** C36: merging is exact.  After any sequence of operations on a new manager
    (as long as snapshot versions last), the published snapshot lists the
    logical watches and, with pairwise different keys, exactly one effective
    watch per selected metric plus the heartbeat baseline; an effective watch
    takes the smallest period and freshness, the longest retention and the
    highest priority of the watches that select it, and names them all. *)
Theorem watch_effective_exact limits m0 ops :
  0 <= max_logical_watches limits -> 0 <= max_effective_watches limits -> wm_construct limits = inr m0 ->
  Forall watch_op_ok ops ->
  let m := foldl watch_step m0 ops in
  let s := wm_snapshot m in
  ws_version s < u64_max ->
  ws_logical_watches s = (logical_ m).*2 /\ NoDup (map ew_key (ws_effective_watches s)) /\
  (forall b, heartbeat_baseline_ m = Some b -> b ∈ ws_effective_watches s) /\
  (forall e, e ∈ ws_effective_watches s -> heartbeat_baseline_ m = Some e \/
     serves e (List.filter (selects (wc_provider_id (wm_catalog_ m)) (ew_key e)) (logical_ m))) /\
  (forall id w x, om_find id (logical_ m) = Some w -> x ∈ wr_metrics (lw_requirement w) ->
     exists e, e ∈ ws_effective_watches s /\ id ∈ ew_logical_watches e /\
       ew_key e = metric_key (wc_provider_id (wm_catalog_ m)) (wr_entity (lw_requirement w)) x).
Proof.
  intros H1 H2 Hc Hops m s Hver. assert (watch_wf m) as Hwf by (by eapply watch_run_wf, wm_construct_wf).
  pose proof (ww_live m Hwf Hver) as Hlive. set (p := wc_provider_id (wm_catalog_ m)).
  destruct (snapshot_spec (wm_catalog_ m) (heartbeat_baseline_ m) (logical_ m) (ws_version s)) as [Hnd Hspec].
  { apply live_metrics_NoDup; [apply Hwf|done]. }
  { intros x Hx. by apply (wv_baseline m Hlive) in Hx as [? _]. }
  unfold s, wm_snapshot in *. rewrite <- (wv_snapshot m Hlive) in Hnd, Hspec. split_and!; auto.
  - by rewrite (wv_snapshot m Hlive).
  - intros b Hb. apply Hspec. by left.
  - intros e He. apply Hspec in He as [He|[Hk He]]; [by left|right].
    pose proof (merge_from_serves p (ew_key e) (logical_ m)) as Hs. cbv zeta in Hs. fold p in He.
    rewrite He in Hs. tauto.
  - intros id w x Hw Hx. set (k := metric_key _ _ x).
    assert ((id, w) ∈ List.filter (selects p k) (logical_ m)) as Hin.
    { apply elem_of_filterb. split; [by apply om_find_elem|]. apply existsb_elem. exists x. split; [done|].
      by apply bool_decide_eq_true. }
    pose proof (merge_from_serves p k (logical_ m)) as Hs. cbv zeta in Hs.
    destruct (merge_from p k None (logical_ m)) as [e|] eqn:Ee.
    + destruct Hs as (_ & Hs & Hk). exists e. split_and!; auto.
      * apply Hspec. right. rewrite Hk. done.
      * rewrite (sv_ids _ _ Hs). apply list_elem_of_fmap. by exists (id, w).
    + rewrite Hs in Hin. by apply elem_of_nil in Hin.
Qed.

(** The manager stays within its limits.  After any sequence of
    operations, watch identifiers are unique and issued, the logical and
    effective counts respect their limits, recorded samples belong to existing
    watches below their sample limit, and every watch fits the active catalog. *)
Theorem watch_manager_invariant limits m0 ops :
  0 <= max_logical_watches limits -> 0 <= max_effective_watches limits -> wm_construct limits = inr m0 ->
  Forall watch_op_ok ops ->
  let m := foldl watch_step m0 ops in
  NoDup (logical_ m).*1 /\
  (forall id w, om_find id (logical_ m) = Some w -> lw_id w = id /\ 1 <= id < next_watch_id_ m) /\
  zlen (logical_ m) <= max_logical_watches (wm_limits_ m) /\
  zlen (ws_effective_watches (wm_snapshot m)) <= max_effective_watches (wm_limits_ m) /\
  (forall id n, om_find id (sample_counts_ m) = Some n ->
     exists w, om_find id (logical_ m) = Some w /\ below_limit w n) /\
  (ws_version (wm_snapshot m) < u64_max -> forall id w, om_find id (logical_ m) = Some w ->
     req_ok (wm_catalog_ m) (lw_requirement w)).
Proof.
  intros H1 H2 Hc Hops m. assert (watch_wf m) as [W1 W2 W3 W4 [W5 W5'] W6 W7] by (by eapply watch_run_wf, wm_construct_wf).
  split_and!; auto.
  - by apply om_wf_NoDup.
  - intros id n Hn. by apply (so_count _ _ _ W4) in Hn as [_ ?].
  - intros Hv. apply W7, Hv.
Qed.

(** sample tokens count every tick once.  On a valid token that names an
    active watch [recordSamples] succeeds, and each named watch counts exactly
    the ticks of the token that are later than its last recorded one; a watch
    that reaches its sample limit is removed, and no other watch changes. *)
Theorem record_samples_exact m ids first period n :
  watch_wf m -> ws_version (wm_snapshot_ m) < u64_max -> token_valid ids first period n ->
  (exists id, id ∈ ids /\ is_Some (om_find id (logical_ m))) ->
  let '(st, m') := recordSamples m ids first period n in
  st = st_success /\ watch_wf m' /\
  forall id,
    watch_entry (logical_ m') (sample_counts_ m') (last_sample_times_ m') id =
    let e := watch_entry (logical_ m) (sample_counts_ m) (last_sample_times_ m) id in
    if bool_decide (id ∈ ids) then sampled_entry e first period n else e.
Proof.
  intros Hwf Hver Hv (i & Hi & Hact). pose proof Hv as (_ & Hnd & V1 & V2 & V3 & V4).
  pose proof (record_step m ids first period n ltac:(lia) Hwf) as Hwf'.
  destruct (recordSamples_cases m ids first period n) as [(_ & _ & Hbad)|[_ Hr]]; [lia|done|]. rewrite Hr in *. clear Hr.
  destruct (record_all_ok m first period n (std_sort ids) (token_start m) V1 V2 V3 V4) as ([T1 T2 T3 T4] & R2 & R3 & R4);
    [by rewrite std_sort_perm|by apply token_start_ok|].
  change (mkToken (logical_ m) (sample_counts_ m) (last_sample_times_ m) false false false) with (token_start m) in *.
  set (t := foldl _ _ _) in *.
  assert (tk_found t = true) as Hf.
  { rewrite R3. apply existsb_elem. exists i. split; [by apply std_sort_elem|]. by apply has_value_true. }
  assert (forall id, token_entry t id = let e := token_entry (token_start m) id in
    if bool_decide (id ∈ ids) then sampled_entry e first period n else e) as Hent.
  { intros id. rewrite R2. rewrite (bool_decide_ext (id ∈ std_sort ids) (id ∈ ids)); [done|]. apply std_sort_elem. }
  rewrite Hf in *. cbn [negb] in *. destruct (tk_changed t) eqn:Hch; cbn [negb] in *.
  - destruct (tk_removed t) eqn:Hrm.
    + destruct (publish_fewer m (tk_logical t) Hwf T2) as [[Hp Hw]|(st & _ & _ & Hbad)]; [|lia].
      rewrite Hp in *. change (st_ok st_success) with true in *. cbn [negb snd] in *. split_and!; auto.
    + change (st_ok st_success) with true in *. cbn [negb snd] in *. split_and!; auto.
      intros id. cbn [wm_with_samples logical_ sample_counts_ last_sample_times_].
      etrans; [|apply Hent]. unfold token_entry. by rewrite (T4 eq_refl).
  - destruct (R4 eq_refl) as [_ Hsame]. split_and!; auto. intros id. rewrite <- Hent. by rewrite Hsame.
Qed.

(** [create] accepts exactly the admissible requirements of a real owner.
    It never publishes a metric that is not polled and supported, never goes
    below a metric's minimum period (as a signed 64-bit value), reports the
    metrics it left out, and refuses without any change. *)
Theorem watch_create_exact m owner r :
  watch_wf m ->
  let '(result, m') := wm_create m owner r in
  let c := wm_catalog_ m in
  let id := next_watch_id_ m in
  (wcr_watch_id result = 0 -> m' = m /\ st_ok (wcr_status result) = false) /\
  (wcr_watch_id result <> 0 ->
     wcr_watch_id result = id /\ req_admissible m r /\
     wcr_unsupported_metrics result = List.filter (fun x => negb (metric_polled c x)) (wr_metrics r) /\
     (wcr_unsupported_metrics result = [] \/ wr_allow_partial r = true) /\
     exists w, om_find id (logical_ m') = Some w /\ lw_owner w = owner /\ req_ok c (lw_requirement w) /\
       (forall x, x ∈ wr_metrics (lw_requirement w) <-> x ∈ wr_metrics r /\ metric_polled c x = true) /\
       forall id', id' <> id -> om_find id' (logical_ m') = om_find id' (logical_ m)).
Proof.
  intros Hwf. destruct (wm_create_cases m owner r) as [(H1 & H2 & H3)|(Ho & Hid & Hadm & Hne & Hpart & Hp & Hc)].
  - destruct (wm_create m owner r) as [result m']. cbn in *. split; [done|]. by rewrite H3.
  - rewrite Hc. cbn [wcr_watch_id wcr_status wcr_unsupported_metrics]. pose proof (ww_next m Hwf).
    split; [lia|]. intros _. split_and!; auto.
    assert (om_find (next_watch_id_ m) (logical_ m) = None) as Hfresh.
    { destruct (om_find _ _) as [w|] eqn:E; [|done]. apply (ww_ids m Hwf) in E. lia. }
    cbn [wm_with_next_id published logical_]. unfold om_emplace. rewrite Hfresh. eexists. rewrite om_find_set_eq.
    split_and!; [done|done|by apply create_req_ok| |].
    + intros x. cbn [lw_requirement wr_with_metrics wr_metrics]. rewrite std_sort_elem. apply elem_of_filterb.
    + intros id' Hi. by rewrite om_find_set_ne.
Qed.

(** Ownership.  [destroy] and [removeOwner] by one owner never touch the
    watches of another, and while snapshot versions last an owner can always
    release what it holds. *)
Theorem watch_owner_isolation m owner id :
  watch_wf m ->
  (forall id' w, om_find id' (logical_ m) = Some w -> lw_owner w <> owner ->
     om_find id' (logical_ (snd (wm_destroy m owner id))) = Some w /\
     om_find id' (logical_ (snd (removeOwner m owner))) = Some w) /\
  (ws_version (wm_snapshot_ m) < u64_max ->
     (forall w, om_find id (logical_ m) = Some w -> lw_owner w = owner ->
        fst (wm_destroy m owner id) = st_success /\ om_find id (logical_ (snd (wm_destroy m owner id))) = None) /\
     ((exists id' w, om_find id' (logical_ m) = Some w /\ lw_owner w = owner) ->
        fst (removeOwner m owner) = st_success /\
        forall id' w, om_find id' (logical_ (snd (removeOwner m owner))) = Some w -> lw_owner w <> owner)).
Proof.
  intros Hwf. pose proof (ww_logical m Hwf) as Hl.
  pose proof (publish_fewer m (om_erase id (logical_ m)) Hwf (filter_sublist _ _)) as Hd.
  pose proof (publish_fewer m (List.filter (fun w => lw_owner w.2 !=? owner) (logical_ m)) Hwf (filter_sublist _ _)) as Hr.
  set (kept := List.filter _ _) in Hr. split; [|intros Hver; split].
  - intros id' w Hw Hne. split.
    + unfold wm_destroy. destruct (om_find id (logical_ m)) as [x|] eqn:Ex; [|done]. guard as G; [done|]. bprop in G.
      destruct Hd as [[-> _]|(st & -> & _)]; [|done]. cbn. rewrite om_find_erase_ne; [done..|]. intros ->. congruence.
    + unfold removeOwner. cbv zeta. fold kept. guard as G; [done|]. destruct Hr as [[-> _]|(st & -> & _)]; [|done].
      cbn [snd published logical_]. unfold kept. rewrite om_find_filter by done. rewrite Hw. cbn [snd].
      by rewrite bool_decide_eq_false_2.
  - intros w Hw Ho. unfold wm_destroy. rewrite Hw, bool_decide_eq_true_2 by done. cbn [negb].
    destruct Hd as [[-> _]|(st & _ & _ & ?)]; [|lia]. split; [done|]. cbn. by apply om_find_erase_eq.
  - intros (i & w & Hw & Ho). unfold removeOwner. cbv zeta. fold kept.
    assert (zlen kept <> zlen (logical_ m)) as Hne.
    { apply Z.lt_neq. apply (zlen_filter_lt _ _ (i, w)); [by apply om_find_elem|]. by rewrite bool_decide_eq_true_2. }
    apply Z.eqb_neq in Hne. rewrite Hne. destruct Hr as [[-> _]|(st & _ & _ & ?)]; [|lia]. split; [done|].
    intros id' x Hx. cbn [snd published logical_] in Hx. apply om_find_elem, elem_of_filterb in Hx as [_ Hx].
    by bprop in Hx.
Qed.

(** A new catalog generation retires every watch and the baseline.
    [activateCatalog] refuses an older generation, ignores the current one,
    and publishes an empty snapshot for a newer one. *)
Theorem watch_activation m v t :
  watch_wf m -> ws_version (wm_snapshot_ m) < u64_max -> cv_generation_ v <> 0 -> st_ok (tc_validate t) = true ->
  let current := match wc_view (wm_catalog_ m) with Some old => cv_generation_ old | None => 0 end in
  0 <= current -> 0 <= cv_generation_ v ->
  let '(st, m') := wm_activateCatalog m (Some v) t in
  if cv_generation_ v <? current then m' = m /\ st_code st = PDCM_STATUS_STALE_GENERATION
  else if (cv_generation_ v =? current) then m' = m /\ st = st_success
  else st = st_success /\ logical_ m' = [] /\ heartbeat_baseline_ m' = None /\
       wm_catalog_ m' = next_watch_catalog v t /\
       wm_snapshot m' = mkWatchSnapshot (ws_version (wm_snapshot m) + 1) (cv_generation_ v) [] [].
Proof.
  intros Hwf Hver Hgen Ht current Hc Hv. unfold wm_activateCatalog.
  apply Z.eqb_neq in Hgen as Hg. rewrite Hg. cbv zeta. rewrite Ht. cbn [negb].
  assert (wc_view (next_watch_catalog v t) = Some v) as Hview.
  { unfold next_watch_catalog. destruct (cv_entities_ v) as [|e [|]]; [done| |done]. destruct (cv_topology_unsupported_ v); [done|].
    by destruct (match cv_capabilities v (ent_ref e) with (_, _) => _ end) as [sup hb]. }
  pose proof (activate_publish m v t Hwf) as Hact. unfold current in *. clear current.
  destruct (wc_view (wm_catalog_ m)) as [old|].
  - guard as G1; [done|]. guard as G2; [done|]. bprop in *. destruct Hact as [_ Hp].
    { intros o [= <-]. lia. }
    rewrite Hp by done. split_and!; auto.
    unfold wm_snapshot, published, buildSnapshot. cbn [wm_snapshot_ wm_catalog_ heartbeat_baseline_ wm_with_catalog].
    by rewrite Hview.
  - guard as G1; [bprop in G1; lia|]. destruct Hact as [_ Hp]; [done|]. rewrite Hp by done.
    rewrite Hg. split_and!; auto.
    unfold wm_snapshot, published, buildSnapshot. cbn [wm_snapshot_ wm_catalog_ heartbeat_baseline_ wm_with_catalog].
    by rewrite Hview.
Qed.

(** ** Examples: one device with one polled metric *)

Definition sample_watch_view : CatalogView :=
  mkCatalogView 1 1 false (cv_entities_ sample_view)
    [mkCapabilitySet sample_entity 1 [mkCapabilityItem CAP_Metric 7 true CR_Supported 1 1]].
Definition sample_owner : WatchOwner := mkOwner WOK_Session 3.
Definition sample_requirement (period limit : Z) : WatchRequirement :=
  mkRequirement 1 sample_entity [7] period (2 * period) (3 * period) limit WP_Normal WDM_CacheOnly false.
Definition sample_watch_empty : WatchManager :=
  mkWatchManager watch_limits_default watch_catalog_default [] (mkWatchSnapshot 0 0 [] []) [] [] None 1.
Definition sample_watch_ops : list watch_op :=
  [WActivate (Some sample_watch_view) sample_target; WCreate sample_owner (sample_requirement 2000000000 0);
   WCreate (mkOwner WOK_Session 4) (sample_requirement 1000000000 5); WRecord [1; 2] 10 1000 2].
Definition sample_watches : WatchManager := foldl watch_step sample_watch_empty sample_watch_ops.

Lemma sample_watch_ops_ok : Forall watch_op_ok sample_watch_ops.
Proof. repeat constructor. done. Qed.

Lemma sample_watches_wf : watch_wf sample_watches.
Proof.
  apply watch_run_wf; [apply sample_watch_ops_ok|].
  apply wm_construct_wf with (l := watch_limits_default); [done|done|reflexivity].
Qed.

Example sample_watches_state :
  (logical_ sample_watches).*1 = [1; 2] /\ sample_counts_ sample_watches = [(1, 2); (2, 2)] /\
  map ew_period (ws_effective_watches (wm_snapshot sample_watches)) = [1000000000].
Proof. vm_compute. done. Qed.

Lemma watch_effective_exact_witness :
  exists e, e ∈ ws_effective_watches (wm_snapshot sample_watches) /\ 2 ∈ ew_logical_watches e /\
    ew_key e = metric_key "prov-1" sample_entity 7.
Proof.
  destruct (watch_effective_exact watch_limits_default sample_watch_empty sample_watch_ops)
    as (_ & _ & _ & _ & H); [done|done|reflexivity|apply sample_watch_ops_ok|vm_compute; reflexivity|].
  destruct (H 2 (mkLogical 2 (mkOwner WOK_Session 4) (sample_requirement 1000000000 5)) 7) as (e & He);
    [vm_compute; reflexivity|left|]. exists e. exact He.
Defined.

Lemma watch_manager_invariant_witness :
  NoDup (logical_ sample_watches).*1 /\ zlen (logical_ sample_watches) <= 4096.
Proof.
  destruct (watch_manager_invariant watch_limits_default sample_watch_empty sample_watch_ops)
    as (H1 & _ & H2 & _); [done|done|reflexivity|apply sample_watch_ops_ok|]. split; [exact H1|exact H2].
Defined.

(** Watch 2 has recorded ticks 10 and 1010; of the ticks 1010, 2010, 3010 and
    4010 three are new, which reaches its limit of five samples. *)
Lemma record_samples_exact_witness :
  let '(st, m') := recordSamples sample_watches [2] 1010 1000 4 in
  st = st_success /\ watch_entry (logical_ m') (sample_counts_ m') (last_sample_times_ m') 2 = (None, None, None).
Proof.
  pose proof (record_samples_exact sample_watches [2] 1010 1000 4 sample_watches_wf) as H.
  destruct (recordSamples sample_watches [2] 1010 1000 4) as [st m'].
  destruct H as (H1 & _ & H2).
  - vm_compute. reflexivity.
  - unfold token_valid. split_and!; [done|apply NoDup_singleton|lia|lia|lia|vm_compute; discriminate].
  - exists 2. split; [left|]. vm_compute. eauto.
  - split; [exact H1|]. etrans; [apply H2|]. vm_compute. reflexivity.
Defined.

Lemma watch_create_exact_witness :
  let '(result, m') := wm_create sample_watches sample_owner (sample_requirement 50 0) in
  wcr_watch_id result = 0 /\ m' = sample_watches.
Proof.
  pose proof (watch_create_exact sample_watches sample_owner (sample_requirement 50 0) sample_watches_wf) as H.
  assert (wcr_watch_id (fst (wm_create sample_watches sample_owner (sample_requirement 50 0))) = 0) as Hz
    by (vm_compute; reflexivity).
  destruct (wm_create sample_watches sample_owner (sample_requirement 50 0)) as [result m'].
  cbn [fst] in Hz. split; [exact Hz|]. apply H, Hz.
Defined.

Lemma watch_owner_isolation_witness :
  fst (wm_destroy sample_watches sample_owner 1) = st_success /\
  is_Some (om_find 2 (logical_ (snd (removeOwner sample_watches sample_owner)))).
Proof.
  destruct (watch_owner_isolation sample_watches sample_owner 1 sample_watches_wf) as [H1 H2]. split.
  - destruct H2 as [H2 _]; [vm_compute; reflexivity|].
    eapply H2; [vm_compute; reflexivity|reflexivity].
  - eexists. eapply H1; [vm_compute; reflexivity|discriminate].
Defined.

Lemma watch_activation_witness :
  let '(st, m') := wm_activateCatalog sample_watches (Some (mkCatalogView 2 0 false [] [])) sample_target in
  st = st_success /\ logical_ m' = [].
Proof.
  pose proof (watch_activation sample_watches (mkCatalogView 2 0 false [] []) sample_target sample_watches_wf) as H.
  cbv zeta in H.
  assert (match wc_view (wm_catalog_ sample_watches) with Some old => cv_generation_ old | None => 0 end = 1) as E
    by (vm_compute; reflexivity).
  rewrite E in H. destruct (wm_activateCatalog _ _ _) as [st m'].
  assert (st_ok (tc_validate sample_target) = true) as Ht by (vm_compute; reflexivity).
  assert (ws_version (wm_snapshot_ sample_watches) < u64_max) as Hv by (vm_compute; reflexivity).
  specialize (H Hv ltac:(discriminate) Ht ltac:(discriminate) ltac:(discriminate)).
  destruct H as (H1 & H2 & _). split; [exact H1|exact H2].
Defined.

(** A metric whose minimum period does not fit in a signed 64-bit integer:
    the cast makes the minimum negative, and a watch with a period of one
    nanosecond is accepted. *)
Definition huge_period_target : TargetCatalog :=
  mkTargetCatalog 1 TK_Emu MCS_Ready
    [mkMetricDescriptor 7 "temperature" MVK_Uint64 "celsius" MT_Gauge EK_Device MCM_Poll
       9223372036854775808 9223372036854775808 9223372036854775808 false true RL_Conditional 1 true []]
    (tc_health (tc_blocked TK_Emu)).

Theorem watch_min_period_bypassed :
  st_ok (tc_validate huge_period_target) = true /\
  let m := snd (wm_activateCatalog sample_watch_empty (Some sample_watch_view) huge_period_target) in
  let '(result, _) := wm_create m sample_owner (sample_requirement 1 0) in
  wcr_status result = st_success /\ wcr_watch_id result = 1.
Proof. vm_compute. done. Qed.
