(* ===== verification/Query.v ===== *)
(** Queries (src/product/src/data/query_engine.hpp and .cpp): request
    validation, the freshness decision, the at-least-epoch wait, and the
    bounded, deterministic result.

    [execute] runs while other threads commit data and time passes.  What it
    sees of them is an environment [env]: the clock and the data manager at
    each of its interactions, in order.  Interaction 0 is where the first
    [waitForEpoch] returns, 1 the first read, 2 the freshness test, 3 the read
    after a fresh read, and 4 + 2i and 5 + 2i are the epoch sampled and the
    wait returned by turn i of the final loop.  The fresh-read coordinator is
    an interface ([FreshReadCoordinator]) and a parameter of [execute]. *)
From S2P Require Import Prelude Containers Common Provider Catalog EventStore DataStore.
Local Open Scope string_scope.
Local Open Scope list_scope.
Open Scope Z_scope.
Open Scope pdcm_scope.

(** ** Data *)

Inductive ReadPolicy := RP_CacheOnly | RP_CacheOrFresh | RP_FreshRequired.
#[export] Instance ReadPolicy_eq_dec : EqDecision ReadPolicy.
Proof. solve_decision. Defined.

Inductive QueryConsistency := QC_BestEffort | QC_AtLeastEpoch | QC_SameBatch.
#[export] Instance QueryConsistency_eq_dec : EqDecision QueryConsistency.
Proof. solve_decision. Defined.

Record QueryLimits := mkQueryLimits { ql_max_items : Z; ql_max_result_bytes : Z }.
Definition query_limits_default : QueryLimits := mkQueryLimits 4096 (4 * 1024 * 1024).

Definition ql_validate (l : QueryLimits) : Status :=
  if (ql_max_items l =? 0) || (ql_max_result_bytes l =? 0)
  then invalid_argument "query engine limits must be non-zero"
  else st_success.

Record QueryRequest := mkQueryRequest {
  qr_selection : list DataKey;
  qr_max_age_ns : Z;
  qr_read_policy : ReadPolicy;
  qr_consistency : QueryConsistency;
  qr_allow_stale : bool;
  qr_catalog_generation : Z;
  qr_required_epoch : Z;
  qr_max_result_items : Z;
  qr_max_result_bytes : Z;
  qr_deadline : MonotonicTime }.

Record QueryResult := mkQueryResult {
  qres_status : Status;
  qres_catalog_generation : Z;
  qres_observed_commit_epoch : Z;
  qres_required_items : Z;
  qres_required_bytes : Z;
  qres_truncated : bool;
  qres_items : list Observation }.
Definition failed_query (st : Status) : QueryResult := mkQueryResult st 0 0 0 0 false [].

(** [FreshReadCoordinator::freshRead]: keys, catalog generation, deadline. *)
Notation FreshRead := (list DataKey -> Z -> MonotonicTime -> Status) (only parsing).

Record Moment := mkMoment { mo_now : MonotonicTime; mo_data : DataManager }.

(** [waitForEpoch]: [m] is the manager when the wait returns.  The wait
    returns early only when the epoch has been reached. *)
Definition waitForEpoch (m : DataManager) (epoch : Z) : Status :=
  if epoch =? 0 then invalid_argument "wait epoch must be non-zero"
  else if epoch <=? dm_commit_epoch_ m then st_success
  else err_status PDCM_STATUS_TIMEOUT "data epoch wait expired".

Definition isReadableStatus (s : Status) : bool := st_ok s || (st_code s ==? PDCM_STATUS_PARTIAL_RESULT).
Definition allItemsAtEpoch (items : list Observation) (epoch : Z) : bool :=
  forallb (fun o => epoch <=? obs_commit_epoch o) items.

Section Query.
Context `{Layout}.
Variable limits : QueryLimits.
(** Whether the engine was given a clock. *)
Variable has_clock : bool.

(** [validate]; the two enumerations have no other values here. *)
Definition query_validate (r : QueryRequest) : Status :=
  let limits_status := ql_validate limits in
  if negb (st_ok limits_status) then limits_status
  else if negb has_clock || is_nil (qr_selection r) || (ql_max_items limits <? zlen (qr_selection r))
          || (qr_max_result_items r =? 0) || (ql_max_items limits <? qr_max_result_items r)
          || (qr_max_result_bytes r =? 0) || (ql_max_result_bytes limits <? qr_max_result_bytes r)
  then invalid_argument "query request or engine dependencies are invalid"
  else if has_adjacent_dup (std_sort (qr_selection r))
  then invalid_argument "query selection contains duplicates"
  else if (qr_consistency r ==? QC_AtLeastEpoch) && (qr_required_epoch r =? 0)
  then invalid_argument "at-least-epoch query requires an epoch"
  else if (qr_consistency r !=? QC_AtLeastEpoch) && negb (qr_required_epoch r =? 0)
  then invalid_argument "required epoch is only valid for at-least-epoch queries"
  else st_success.

(** The age beyond which a cached item is too old; 0 is no bound. *)
Definition effective_age (r : QueryRequest) (d : MetricDescriptor) : Z :=
  if negb (qr_max_age_ns r =? 0) && ((md_freshness_ns d =? 0) || (qr_max_age_ns r <? md_freshness_ns d))
  then qr_max_age_ns r
  else md_freshness_ns d.

(** One turn of the loop of [keysNeedingFreshRead]. *)
Definition needs_fresh (m : DataManager) (r : QueryRequest) (now : Z) (item : Observation) : bool :=
  if obs_status item ==? OS_Unsupported then false
  else if qr_read_policy r ==? RP_FreshRequired then true
  else if obs_status item !=? OS_Valid then true
  else
  match metricDescriptor m (obs_metric item) with
  | None => false
  | Some d =>
      let age := effective_age r d in
      if age =? 0 then false
      else (now <? obs_observed_monotonic_time_ns item)
           || (age <? now - obs_observed_monotonic_time_ns item)
  end.

Definition keysNeedingFreshRead (m : DataManager) (r : QueryRequest) (items : list Observation) (now : Z)
    : list DataKey :=
  if qr_read_policy r ==? RP_CacheOnly then []
  else map key_of (List.filter (needs_fresh m r now) items).

Definition itemBytes (o : Observation) : Z :=
  sizeof_Observation + str_size (src_provider (obs_source o)) + str_size (src_native_source (obs_source o))
  + str_size (st_message (em_status (obs_error o))) + str_size (dm_processor_id (obs_derivation o))
  + zlen (dm_input_sequences (obs_derivation o)) * 8
  + match obs_latest_failure o with
    | Some f => sizeof_ErrorMetadata + str_size (st_message (em_status f))
    | None => 0
    end
  + match obs_value o with Some v => valueBytes v | None => 0 end.

(** Total size of the items, and whether it overflowed [std::size_t] (the
    total is then the one reached before). *)
Fixpoint required_bytes (total : Z) (items : list Observation) : Z * bool :=
  match items with
  | [] => (total, false)
  | o :: items' =>
      if size_sub u64_max (itemBytes o) <? total then (total, true)
      else required_bytes (total + itemBytes o) items'
  end.

(** The items that fit, and whether some did not. *)
Fixpoint take_items (r : QueryRequest) (count returned : Z) (items : list Observation)
    : list Observation * bool :=
  match items with
  | [] => ([], false)
  | o :: items' =>
      if (count =? qr_max_result_items r) || (size_sub (qr_max_result_bytes r) returned <? itemBytes o)
      then ([], true)
      else let '(os, truncated) := take_items r (count + 1) (returned + itemBytes o) items' in
           (o :: os, truncated)
  end.

Definition finalize (r : QueryRequest) (s : DataReadResult) (fresh_status : Status) : QueryResult :=
  let result status bytes truncated items :=
    mkQueryResult status (drr_catalog_generation s) (drr_observed_commit_epoch s) (zlen (drr_items s)) bytes
      truncated items in
  if negb (isReadableStatus (drr_status s)) then result (drr_status s) 0 false []
  else if (qr_consistency r ==? QC_SameBatch)
          && match drr_items s with
             | [] => false
             | o :: _ => negb (forallb (fun x => obs_commit_epoch x =? obs_commit_epoch o) (drr_items s))
             end
  then result (err_status PDCM_STATUS_UNAVAILABLE "query items do not share one commit epoch") 0 false []
  else
  let '(bytes, overflow) := required_bytes 0 (drr_items s) in
  if overflow then result (err_status PDCM_STATUS_RESOURCE_EXHAUSTED "query size overflow") bytes false []
  else
  let '(items, truncated) := take_items r 0 0 (drr_items s) in
  let truncated := truncated || negb (zlen items =? zlen (drr_items s)) in
  result
    (if truncated
     then err_status PDCM_STATUS_BUFFER_TOO_SMALL "query result was deterministically truncated"
     else if negb (st_ok fresh_status) && (st_code fresh_status !=? PDCM_STATUS_PARTIAL_RESULT)
     then fresh_status
     else drr_status s)
    bytes truncated items.

Definition read_at (r : QueryRequest) (t : Moment) : DataReadResult :=
  readLatest (mo_data t) (qr_selection r) (qr_allow_stale r) (mo_now t) (qr_catalog_generation r).

Definition snapshot_failed (s : DataReadResult) (status : Status) : DataReadResult :=
  mkDataRead status (drr_catalog_generation s) (drr_observed_commit_epoch s) [].

(** The loop of an at-least-epoch query; turn [turn] samples the epoch at
    [env (4 + 2 * turn)] and its wait returns at [env (5 + 2 * turn)].  [None]:
    still waiting after [fuel] turns. *)
Fixpoint epoch_loop (fuel turn : nat) (env : nat -> Moment) (r : QueryRequest) (s : DataReadResult)
    : option DataReadResult :=
  if allItemsAtEpoch (drr_items s) (qr_required_epoch r) then Some s
  else
  match fuel with
  | O => None
  | S fuel' =>
      let next_epoch := wrap64 (commitEpoch (mo_data (env (4 + 2 * turn)%nat)) + 1) in
      let returned := env (5 + 2 * turn)%nat in
      let wait_status := waitForEpoch (mo_data returned) next_epoch in
      if negb (st_ok wait_status) then Some (snapshot_failed s wait_status)
      else
      let s' := read_at r returned in
      if negb (isReadableStatus (drr_status s')) then Some s'
      else epoch_loop fuel' (S turn) env r s'
  end.

(** The fresh-read stage: the status to report and the snapshot to use. *)
Definition fresh_stage (env : nat -> Moment) (fresh : option FreshRead) (r : QueryRequest) (s : DataReadResult)
    : Status * DataReadResult :=
  let keys := keysNeedingFreshRead (mo_data (env 2%nat)) r (drr_items s) (mo_now (env 1%nat)) in
  if is_nil keys then (st_success, s)
  else
  (match fresh with
   | None => err_status PDCM_STATUS_UNAVAILABLE "fresh read coordinator unavailable"
   | Some freshRead =>
       if qr_deadline r <=? mo_now (env 2%nat)
       then err_status PDCM_STATUS_TIMEOUT "fresh read deadline expired"
       else freshRead keys (drr_catalog_generation s) (qr_deadline r)
   end,
   read_at r (env 3%nat)).

Definition execute (fuel : nat) (env : nat -> Moment) (fresh : option FreshRead) (r : QueryRequest)
    : option QueryResult :=
  let request_status := query_validate r in
  if negb (st_ok request_status) then Some (failed_query request_status)
  else
  let at_least := qr_consistency r ==? QC_AtLeastEpoch in
  let wait_status := waitForEpoch (mo_data (env 0%nat)) (qr_required_epoch r) in
  if at_least && negb (st_ok wait_status) then Some (failed_query wait_status)
  else
  let s := read_at r (env 1%nat) in
  if negb (isReadableStatus (drr_status s)) then Some (finalize r s st_success)
  else
  let '(fresh_status, s) := fresh_stage env fresh r s in
  if at_least && isReadableStatus (drr_status s)
  then match epoch_loop fuel 0 env r s with
       | Some s' => Some (finalize r s' fresh_status)
       | None => None
       end
  else Some (finalize r s fresh_status).

(** ** Lemmas *)

Lemma itemBytes_pos o : 0 < itemBytes o.
Proof.
  pose proof layout_pos as Hl. rewrite !Forall_cons in Hl.
  unfold itemBytes, str_size. pose proof (zlen_nonneg (dm_input_sequences (obs_derivation o))).
  destruct (obs_latest_failure o) as [f|], (obs_value o) as [[]|]; unfold valueBytes, str_size; lia.
Qed.

Definition within (r : QueryRequest) (items : list Observation) : Prop :=
  zlen items <= qr_max_result_items r /\ sum_by itemBytes items <= qr_max_result_bytes r.

(** [take_items] returns the longest prefix within the limits. *)
Lemma take_items_spec r count returned items :
  0 <= returned <= qr_max_result_bytes r -> 0 <= count <= qr_max_result_items r -> qr_max_result_bytes r <= u64_max ->
  let '(os, truncated) := take_items r count returned items in
  exists rest, items = os ++ rest /\ (truncated = false <-> rest = []) /\
    count + zlen os <= qr_max_result_items r /\ returned + sum_by itemBytes os <= qr_max_result_bytes r /\
    forall o rest', rest = o :: rest' ->
      qr_max_result_items r < count + zlen (os ++ [o]) \/ qr_max_result_bytes r < returned + sum_by itemBytes (os ++ [o]).
Proof.
  revert count returned. induction items as [|o items IH]; intros count returned Hr Hc Hmax; cbn [take_items].
  - exists []. rewrite zlen_nil. split_and!; auto; try done; cbn; lia.
  - pose proof (itemBytes_pos o) as Hpos. guard as G.
    + exists (o :: items). rewrite zlen_nil. split_and!; auto; try done; try (cbn; lia).
      intros o' rest' [= <- <-]. bprop in G. rewrite size_sub_small in G by lia. cbn [app].
      rewrite zlen_cons, zlen_nil, sum_by_cons. cbn [sum_by foldr]. destruct G as [G|G]; [left; lia|right].
      change (sum_by itemBytes []) with 0. lia.
    + bprop in G. rewrite size_sub_small in G by lia. destruct G as [G1 G2].
      specialize (IH (count + 1) (returned + itemBytes o) ltac:(lia) ltac:(lia) Hmax).
      destruct (take_items r (count + 1) (returned + itemBytes o) items) as [os tr].
      destruct IH as (rest & -> & H1 & H2 & H3 & H4). exists rest. rewrite sum_by_cons, zlen_cons.
      split_and!; auto; try lia. intros o' rest' Hr'. specialize (H4 o' rest' Hr').
      cbn [app]. rewrite zlen_cons, sum_by_cons. lia.
Qed.

(** A validated request. *)
Lemma query_validate_ok r : st_ok (query_validate r) = true ->
  NoDup (qr_selection r) /\ qr_selection r <> [] /\ qr_max_result_items r <> 0 /\ qr_max_result_bytes r <> 0 /\
  qr_max_result_items r <= ql_max_items limits /\ qr_max_result_bytes r <= ql_max_result_bytes limits /\
  (qr_consistency r = QC_AtLeastEpoch <-> qr_required_epoch r <> 0).
Proof.
  unfold query_validate. cbv zeta. destruct (st_ok (ql_validate limits)) eqn:El; cbn [negb]; [|congruence].
  guard as G1; [done|]. guard as G2; [done|]. guard as G3; [done|]. guard as G4; [done|]. intros _.
  apply std_sort_dup in G2. bprop in *. destruct G1 as ((((((_ & ?) & ?) & ?) & ?) & ?) & ?). split_and!; auto.
  destruct (decide (qr_consistency r = QC_AtLeastEpoch)); naive_solver.
Qed.

Lemma waitForEpoch_unreadable m e :
  st_ok (waitForEpoch m e) = false -> isReadableStatus (waitForEpoch m e) = false.
Proof. unfold waitForEpoch. guard as G1; [done|]. by guard as G2. Qed.

(** What the at-least-epoch loop returns. *)
Lemma epoch_loop_spec fuel turn env r s s' :
  isReadableStatus (drr_status s) = true -> (exists t, s = read_at r (env t)) ->
  epoch_loop fuel turn env r s = Some s' ->
  isReadableStatus (drr_status s') = true ->
  (exists t, s' = read_at r (env t)) /\ allItemsAtEpoch (drr_items s') (qr_required_epoch r) = true.
Proof.
  revert turn s. induction fuel as [|fuel IH]; intros turn s Hs Ht; cbn [epoch_loop].
  - destruct (allItemsAtEpoch (drr_items s) _) eqn:Ea; [intros [= <-]; done|done].
  - destruct (allItemsAtEpoch (drr_items s) _) eqn:Ea; [intros [= <-]; done|]. cbv zeta. guard as G1.
    + apply negb_true_iff, waitForEpoch_unreadable in G1. intros Hs'%(inj Some). subst s'. cbn [snapshot_failed drr_status]. intros. congruence.
    + guard as G2; [intros Hs'%(inj Some); subst s'; bprop in G2; congruence|]. bprop in G2. apply IH; [done|by eexists].
Qed.

(** The loop ends at the first wait that times out, if not before. *)
Lemma epoch_loop_total fuel turn env r s i :
  (i < fuel)%nat ->
  commitEpoch (mo_data (env (5 + 2 * (turn + i))%nat)) <= commitEpoch (mo_data (env (4 + 2 * (turn + i))%nat)) < u64_max ->
  0 <= commitEpoch (mo_data (env (4 + 2 * (turn + i))%nat)) ->
  is_Some (epoch_loop fuel turn env r s).
Proof.
  revert turn s i. induction fuel as [|fuel IH]; intros turn s i Hi Hlate Hpos; [lia|]. cbn [epoch_loop].
  guard as G0; [by eexists|]. cbv zeta. guard as G1; [by eexists|]. guard as G2; [by eexists|].
  destruct i as [|i].
  - exfalso. rewrite Nat.add_0_r in *. unfold waitForEpoch in G1. rewrite wrap64_small in G1 by lia.
    unfold commitEpoch in *. guard G1 as G3; [done|]. guard G1 as G4; [bprop in G4; lia|done].
  - apply (IH (S turn) _ i); [lia| |]; replace (S turn + i)%nat with (turn + S i)%nat by lia; done.
Qed.

Lemma isReadableStatus_code st : isReadableStatus st = accepted_code (st_code st).
Proof. done. Qed.

(** The part of a snapshot a result carries: a longest prefix of its items. *)
Record carries (r : QueryRequest) (s : DataReadResult) (result : QueryResult) : Prop := {
  ca_within : within r (qres_items result);
  ca_prefix : exists rest, drr_items s = qres_items result ++ rest /\
    (qres_truncated result = false <-> rest = []) /\
    forall o rest', rest = o :: rest' -> ~ within r (qres_items result ++ [o]);
  ca_status : isReadableStatus (qres_status result) = true ->
    qres_truncated result = false /\ qres_status result = drr_status s;
  ca_epochs : qr_consistency r = QC_SameBatch ->
    forall a b, a ∈ drr_items s -> b ∈ drr_items s -> obs_commit_epoch a = obs_commit_epoch b }.

Lemma finalize_spec r s fs :
  0 <= qr_max_result_items r -> 0 <= qr_max_result_bytes r <= u64_max ->
  let result := finalize r s fs in
  (qres_items result = [] /\ isReadableStatus (qres_status result) = false) \/
  (isReadableStatus (drr_status s) = true /\ carries r s result).
Proof.
  intros Hi Hb. unfold finalize. cbv zeta. destruct (isReadableStatus (drr_status s)) eqn:Hs; cbn [negb]; [|by left].
  guard as G1; [by left|]. destruct (required_bytes 0 (drr_items s)) as [bytes overflow].
  destruct overflow; [by left|].
  pose proof (take_items_spec r 0 0 (drr_items s) ltac:(lia) ltac:(lia) ltac:(lia)) as Ht.
  destruct (take_items r 0 0 (drr_items s)) as [items truncated].
  destruct Ht as (rest & Hrest & Htr & H1 & H2 & H3). right. split; [done|].
  assert (truncated || negb (zlen items =? zlen (drr_items s)) = truncated) as ->.
  { destruct truncated; [done|]. rewrite Hrest, (proj1 Htr eq_refl), app_nil_r, Z.eqb_refl. done. }
  split; cbn [qres_items qres_truncated qres_status].
  - split; [|lia]. unfold zlen in *. lia.
  - exists rest. split_and!; auto. intros o rest' Hr [W1 W2]. destruct (H3 o rest' Hr); lia.
  - destruct truncated; [done|]. guard as G2; [|done]. intros Hread. exfalso. apply andb_true_iff in G2 as [G2 G3].
    unfold isReadableStatus in Hread. bprop in *. destruct Hread; congruence.
  - intros Hsame. rewrite Hsame in G1. rewrite bool_decide_eq_true_2 in G1 by done. cbn [andb] in G1.
    destruct (drr_items s) as [|o os]; [intros a b Ha; by apply elem_of_nil in Ha|].
    apply negb_false_iff in G1. rewrite forallb_elem in G1. intros a b Ha Hb'.
    apply G1 in Ha. apply G1 in Hb'. bprop in *. congruence.
Qed.

Lemma fresh_stage_snapshot env fresh r s :
  (exists t, s = read_at r (env t)) -> exists t, snd (fresh_stage env fresh r s) = read_at r (env t).
Proof. intros Hs. unfold fresh_stage. cbv zeta. guard as G; [done|]. by eexists. Qed.

Lemma execute_cases fuel env fresh r result :
  0 <= qr_max_result_items r -> 0 <= qr_max_result_bytes r <= u64_max ->
  execute fuel env fresh r = Some result ->
  (qres_items result = [] /\ isReadableStatus (qres_status result) = false) \/
  exists t, let s := read_at r (env t) in
    isReadableStatus (drr_status s) = true /\ carries r s result /\
    (qr_consistency r = QC_AtLeastEpoch -> allItemsAtEpoch (drr_items s) (qr_required_epoch r) = true).
Proof.
  intros Hi Hb. unfold execute. cbv zeta.
  destruct (st_ok (query_validate r)) eqn:Ev; cbn [negb].
  2:{ intros [= <-]. left. split; [done|]. unfold query_validate, ql_validate in *. cbv zeta in *. repeat (case_match; try done). }
  guard as G1.
  { intros Hr%(inj Some). subst result. left. split; [done|]. apply andb_true_iff in G1 as [_ G1].
    by apply waitForEpoch_unreadable, negb_true_iff. }
  destruct (isReadableStatus (drr_status (read_at r (env 1%nat)))) eqn:Hread; cbn [negb].
  2:{ intros Hr%(inj Some). subst result. destruct (finalize_spec r (read_at r (env 1%nat)) st_success Hi Hb) as [?|[? _]];
      [by left|congruence]. }
  pose proof (fresh_stage_snapshot env fresh r (read_at r (env 1%nat)) ltac:(by eexists)) as [t Ht].
  destruct (fresh_stage env fresh r (read_at r (env 1%nat))) as [fs s]. cbn [snd] in Ht. subst s.
  guard as G2.
  - apply andb_true_iff in G2 as [_ G2]. destruct (epoch_loop _ _ _ _ _) as [s'|] eqn:El; [|done].
    intros Hr%(inj Some). subst result. destruct (finalize_spec r s' fs Hi Hb) as [?|[Hs' Hc]]; [by left|right].
    apply epoch_loop_spec in El as [(t' & ->) Hall]; [|done|by eexists|done]. by exists t'.
  - intros Hr%(inj Some). subst result. destruct (finalize_spec r (read_at r (env t)) fs Hi Hb) as [?|[Hs' Hc]];
      [by left|right]. exists t. split_and!; auto. intros Hq. rewrite Hs', andb_true_r in G2. bprop in G2. done.
Qed.

(** ** Theorems *)

(** C35: what a query returns.  Whatever other threads commit meanwhile, a
    result with items is taken from one state of the data manager: it answers
    that state's selection in key order, up to the longest prefix within the
    item and byte limits of the request; success or a partial result means
    nothing was cut; all items reach the required epoch of an at-least-epoch
    query, and share one commit epoch in a same-batch query. *)
Theorem query_result_sound fuel env fresh r result :
  0 <= qr_max_result_items r -> 0 <= qr_max_result_bytes r <= u64_max ->
  (forall t, data_wf (mo_data (env t))) -> Forall (fun k => dk_metric k <> 0) (qr_selection r) ->
  execute fuel env fresh r = Some result ->
  (qres_items result = [] /\ isReadableStatus (qres_status result) = false) \/
  exists t, let s := read_at r (env t) in
    query_answer (qr_selection r) (qr_allow_stale r) s /\
    zlen (qres_items result) <= qr_max_result_items r /\
    sum_by itemBytes (qres_items result) <= qr_max_result_bytes r /\
    (exists rest, drr_items s = qres_items result ++ rest /\ (qres_truncated result = false <-> rest = []) /\
       forall o rest', rest = o :: rest' -> ~ within r (qres_items result ++ [o])) /\
    (isReadableStatus (qres_status result) = true ->
       qres_truncated result = false /\ qres_status result = drr_status s) /\
    (qr_consistency r = QC_AtLeastEpoch ->
       Forall (fun o => qr_required_epoch r <= obs_commit_epoch o) (qres_items result)) /\
    (qr_consistency r = QC_SameBatch -> forall a b, a ∈ qres_items result -> b ∈ qres_items result ->
       obs_commit_epoch a = obs_commit_epoch b).
Proof.
  intros Hi Hb Hwf Hkeys He. destruct (execute_cases fuel env fresh r result Hi Hb He)
    as [?|(t & Hread & [[C1 C1'] (rest & Hrest & C2) C3 C4] & Hepoch)]; [by left|right]. exists t. cbv zeta.
  assert (forall x, x ∈ qres_items result -> x ∈ drr_items (read_at r (env t))) as Hsub.
  { intros x Hx. rewrite Hrest. apply elem_of_app. by left. }
  split_and!; eauto.
  - apply readLatest_ok; auto.
  - intros Hq. apply Hepoch in Hq. unfold allItemsAtEpoch in Hq. rewrite forallb_elem in Hq.
    apply Forall_forall. intros x Hx. by apply Z.leb_le, Hq, Hsub.
Qed.

(** a query returns.  Without an epoch requirement it always does; with
    one it returns at the latest when a wait reaches the deadline, that is,
    when it comes back with no newer epoch. *)
Theorem query_returns fuel env fresh r :
  qr_consistency r <> QC_AtLeastEpoch \/
  (exists i, (i < fuel)%nat /\
     0 <= commitEpoch (mo_data (env (4 + 2 * i)%nat)) < u64_max /\
     commitEpoch (mo_data (env (5 + 2 * i)%nat)) <= commitEpoch (mo_data (env (4 + 2 * i)%nat))) ->
  is_Some (execute fuel env fresh r).
Proof.
  intros Hcase. unfold execute. cbv zeta. guard as G1; [by eexists|]. guard as G2; [by eexists|].
  guard as G3; [by eexists|]. destruct (fresh_stage _ _ _ _) as [fs s]. guard as G4; [|by eexists].
  apply andb_true_iff in G4 as [G4 _]. apply bool_decide_eq_true in G4.
  destruct Hcase as [Hne|(i & Hi & Hlate & Hle)]; [done|].
  destruct (epoch_loop_total fuel 0 env r s i Hi) as [s' ->]; [cbn [Nat.add] in *; lia|cbn [Nat.add] in *; lia|by eexists].
Qed.

(** Cached answers are fresh.  When a query that may read fresh data asks
    for no fresh read, every item is unsupported, has no descriptor any more,
    or is a valid sample no older than the metric's freshness and the
    request's maximum age. *)
Theorem query_cached_is_fresh m r items now :
  qr_read_policy r <> RP_CacheOnly ->
  keysNeedingFreshRead m r items now = [] ->
  forall o, o ∈ items -> obs_status o <> OS_Unsupported ->
  qr_read_policy r = RP_CacheOrFresh /\ obs_status o = OS_Valid /\
  forall d, metricDescriptor m (obs_metric o) = Some d -> 0 < md_freshness_ns d ->
    0 <= now - obs_observed_monotonic_time_ns o <= md_freshness_ns d /\
    (qr_max_age_ns r <> 0 -> now - obs_observed_monotonic_time_ns o <= qr_max_age_ns r).
Proof.
  intros Hpol Hkeys o Ho Hsup. unfold keysNeedingFreshRead in Hkeys.
  rewrite bool_decide_eq_false_2 in Hkeys by done.
  assert (needs_fresh m r now o = false) as Hn.
  { apply not_true_iff_false. intros Hn. assert (o ∈ List.filter (needs_fresh m r now) items) as Hin
      by by apply elem_of_filterb. apply map_eq_nil in Hkeys. rewrite Hkeys in Hin. by apply elem_of_nil in Hin. }
  unfold needs_fresh in Hn. rewrite bool_decide_eq_false_2 in Hn by done. guard Hn as G1; [done|]. guard Hn as G2; [done|].
  bprop in G1. bprop in G2. split_and!; auto; [by destruct (qr_read_policy r)|].
  intros d Hd Hf. rewrite Hd in Hn. cbv zeta in Hn. unfold effective_age in Hn.
  destruct (qr_max_age_ns r =? 0) eqn:E0; cbn [negb andb] in Hn.
  - guard Hn as G3; [bprop in G3; lia|]. bprop in *. lia.
  - destruct ((md_freshness_ns d =? 0) || (qr_max_age_ns r <? md_freshness_ns d)) eqn:G4;
      guard Hn as G3; bprop in *; lia.
Qed.

End Query.

(** ** Examples *)

Definition sample_data : DataManager := snd (@dm_commit sample_layout sample_manager [sample_observation 5 40]).
Definition sample_env : nat -> Moment := fun _ => mkMoment 100 sample_data.
Definition sample_query : QueryRequest :=
  mkQueryRequest [mkKey sample_entity 9; mkKey sample_entity 7] 0 RP_CacheOrFresh QC_AtLeastEpoch false 1 1 1 4096 1000.

Lemma sample_data_wf : @data_wf sample_layout sample_data.
Proof. apply (@dm_commit_wf sample_layout). apply sample_manager_wf. Qed.

Lemma query_result_sound_witness :
  exists result,
    @execute sample_layout query_limits_default true 0 sample_env None sample_query = Some result /\
    map obs_metric (qres_items result) = [7] /\ qres_truncated result = true /\
    Forall (fun o => 1 <= obs_commit_epoch o) (qres_items result).
Proof.
  eexists. split; [vm_compute; reflexivity|]. split; [reflexivity|]. split; [reflexivity|].
  edestruct (@query_result_sound sample_layout query_limits_default true 0 sample_env None sample_query)
    as [[Hn _]|(t & _ & _ & _ & _ & _ & Hep & _)];
    [vm_compute; discriminate|split; vm_compute; discriminate|intros; apply sample_data_wf
    |repeat constructor; discriminate|vm_compute; reflexivity|discriminate Hn|].
  apply Hep. reflexivity.
Defined.

Lemma query_returns_witness :
  is_Some (@execute sample_layout query_limits_default true 1 sample_env None
             (mkQueryRequest [mkKey sample_entity 7] 0 RP_CacheOnly QC_AtLeastEpoch false 1 9 1 4096 1000)).
Proof.
  apply (@query_returns sample_layout). right. exists 0%nat. split; [lia|]. vm_compute.
  split; [split; [discriminate|reflexivity]|discriminate].
Defined.

Lemma query_cached_is_fresh_witness :
  obs_status (sample_observation 5 40) = OS_Valid /\
  100 - obs_observed_monotonic_time_ns (sample_observation 5 40) <= 300.
Proof.
  destruct (query_cached_is_fresh sample_data sample_query [sample_observation 5 40] 100) with (o := sample_observation 5 40)
    as (_ & H1 & H2); [discriminate|vm_compute; reflexivity|left|discriminate|].
  split; [exact H1|]. apply (H2 sample_metric); [vm_compute; reflexivity|reflexivity].
Defined.
