(* ===== verification/ProcessorGraph.v ===== *)
(** The processor graph (src/product/src/metrics/processor.hpp and .cpp,
    [ProcessorGraph]): validation of the registered processors against the
    catalog, the dependency edges between them, and the layered topological
    order in which they run.

    A [MetricProcessor] is an interface in the sources; here it is a record of
    its operations.  The order is Kahn's algorithm: a loop over the set of
    ready processors, modelled with fuel (one turn per processor is enough, and
    the theorems are about that fuel). *)
From S2P Require Import Prelude Containers Common Provider Catalog EventStore DataStore.
Local Open Scope string_scope.
Local Open Scope list_scope.
Open Scope Z_scope.
Open Scope pdcm_scope.

(** ** Data *)

Record ProcessorMetric := mkProcessorMetric { pm_metric : MetricId; pm_semantic_version : Z }.
#[export] Instance ProcessorMetric_eq_dec : EqDecision ProcessorMetric.
Proof. solve_decision. Defined.

Record ProcessorContext := mkProcessorContext {
  pctx_entity : EntityRef;
  pctx_catalog_generation : Z;
  pctx_evaluated_monotonic_time_ns : Z;
  pctx_derivation_depth : Z }.

Record ProcessorEvaluation := mkEvaluation { pev_status : Status; pev_outputs : list Observation }.

(** The virtual operations of a processor. *)
Record MetricProcessor := mkProcessor {
  mp_id : string;
  mp_version : Z;
  mp_inputs : list ProcessorMetric;
  mp_outputs : list ProcessorMetric;
  mp_evaluate : ProcessorContext -> list Observation -> ProcessorEvaluation }.

Record ProcessorGraphNode := mkNode { pgn_processor : MetricProcessor; pgn_depth : Z }.
Record ProcessorGraphSnapshot := mkGraphSnapshot { pgs_catalog_generation : Z; pgs_nodes : list ProcessorGraphNode }.
Definition graph_snapshot_default : ProcessorGraphSnapshot := mkGraphSnapshot 0 [].

(** ** Validation of the processors *)

Definition descriptors_of (c : TargetCatalog) : list (Z * MetricDescriptor) :=
  foldl (fun ds d => om_emplace (md_id d) d ds) [] (tc_metrics c).

Fixpoint check_inputs (ds : list (Z * MetricDescriptor)) (seen : list Z) (inputs : list ProcessorMetric) : option Status :=
  match inputs with
  | [] => None
  | i :: inputs' =>
      let bad := Some (err_status PDCM_STATUS_UNSUPPORTED
                         "processor input descriptor or semantic version is missing") in
      if (pm_metric i =? 0) || (pm_semantic_version i =? 0) || bool_decide (pm_metric i ∈ seen) then bad
      else
      match om_find (pm_metric i) ds with
      | None => bad
      | Some d => if negb (md_semantic_version d =? pm_semantic_version i) then bad
                  else check_inputs ds (pm_metric i :: seen) inputs'
      end
  end.

(** The loop over the outputs of processor [index]; it also fills
    [producers]. *)
Fixpoint check_outputs (ds : list (Z * MetricDescriptor)) (index : nat) (inputs : list ProcessorMetric)
    (seen : list Z) (producers : list (Z * nat)) (outputs : list ProcessorMetric) : Status + list (Z * nat) :=
  match outputs with
  | [] => inr producers
  | o :: outputs' =>
      let bad := inl (err_status PDCM_STATUS_UNSUPPORTED "processor output descriptor is missing or not derived") in
      if (pm_metric o =? 0) || (pm_semantic_version o =? 0) || bool_decide (pm_metric o ∈ seen) then bad
      else
      match om_find (pm_metric o) ds with
      | None => bad
      | Some d =>
          if (md_collection_mode d !=? MCM_Derived) || negb (md_semantic_version d =? pm_semantic_version o) then bad
          else if om_mem (pm_metric o) producers
          then inl (invalid_argument "derived metric has multiple authoritative processors")
          else if std_sort (md_dependencies d) !=? std_sort (map pm_metric inputs)
          then inl (err_status PDCM_STATUS_UNSUPPORTED "derived descriptor dependencies do not match processor")
          else check_outputs ds index inputs (pm_metric o :: seen) (om_set (pm_metric o) index producers) outputs'
      end
  end.

(** The first loop of [rebuild], from processor [index] on; a null pointer is
    [None]. *)
Fixpoint check_processors (ds : list (Z * MetricDescriptor)) (index : nat) (ids : list string)
    (producers : list (Z * nat)) (ps : list (option MetricProcessor)) : Status + (list (Z * nat) * list MetricProcessor) :=
  match ps with
  | [] => inr (producers, [])
  | None :: _ => inl (invalid_argument "processor identity is invalid or duplicated")
  | Some p :: ps' =>
      if str_empty (mp_id p) || (mp_version p =? 0) || bool_decide (mp_id p ∈ ids)
      then inl (invalid_argument "processor identity is invalid or duplicated")
      else if is_nil (mp_inputs p) || is_nil (mp_outputs p)
      then inl (invalid_argument "processor inputs and outputs must be non-empty")
      else
      match check_inputs ds [] (mp_inputs p) with
      | Some st => inl st
      | None =>
          match check_outputs ds index (mp_inputs p) [] producers (mp_outputs p) with
          | inl st => inl st
          | inr producers' =>
              match check_processors ds (S index) (mp_id p :: ids) producers' ps' with
              | inl st => inl st
              | inr (producers'', qs) => inr (producers'', p :: qs)
              end
          end
      end
  end.

Definition unproduced (producers : list (Z * nat)) (d : MetricDescriptor) : bool :=
  (md_collection_mode d ==? MCM_Derived) && negb (om_mem (md_id d) producers).

(** ** Edges *)

(** One input of [consumer]: [edges], [indegree] and the set of predecessors
    found so far. *)
Definition link_input (producers : list (Z * nat)) (consumer : nat)
    (s : list (list nat) * list nat * list nat) (input : ProcessorMetric) : list (list nat) * list nat * list nat :=
  let '(edges, indegree, predecessors) := s in
  match om_find (pm_metric input) producers with
  | Some p =>
      if bool_decide (p ∈ predecessors) then s
      else (alter (fun l => l ++ [consumer]) p edges, alter S consumer indegree, p :: predecessors)
  | None => s
  end.

Definition link_consumer (producers : list (Z * nat)) (s : list (list nat) * list nat)
    (ci : nat * list ProcessorMetric) : list (list nat) * list nat :=
  fst (foldl (link_input producers ci.1) (s.1, s.2, []) ci.2).

Definition build_edges (producers : list (Z * nat)) (inputs : list (list ProcessorMetric)) : list (list nat) * list nat :=
  let n := length inputs in
  foldl (link_consumer producers) (replicate n [], replicate n 0%nat) (zip (seq 0 n) inputs).

(** ** The order *)

Lemma nat_of_Z_inj (a b : nat) : Z.of_nat a = Z.of_nat b -> a = b.
Proof. lia. Qed.
#[export] Instance nat_ordered : Ordered nat := ordered_by Z.of_nat nat_of_Z_inj.

(** [ready]: a set of pairs ordered by identifier and index. *)
Notation ReadySet := (list ((string * nat) * unit)) (only parsing).

Definition ready_add (ids : list string) (ready : ReadySet) (index : nat) : ReadySet :=
  om_set (default "" (ids !! index), index) tt ready.

(** Releasing the consumers of [index]; the state is [depth], [indegree] and
    [ready]. *)
Definition release_one (ids : list string) (d : nat) (s : list nat * list nat * ReadySet) (consumer : nat)
    : list nat * list nat * ReadySet :=
  let '(depth, indegree, ready) := s in
  let depth := alter (fun x => Nat.max x (d + 1)) consumer depth in
  let indegree := alter Nat.pred consumer indegree in
  (depth, indegree,
   if bool_decide (indegree !! consumer = Some 0%nat) then ready_add ids ready consumer else ready).

Record order_state := mkOrder {
  os_depth : list nat;
  os_indegree : list nat;
  os_ready : ReadySet;
  os_nodes : list (nat * nat) }.

(** The [while] loop; a node is an index with its depth.  [inl true]: the
    depth limit; [inl false]: out of fuel. *)
Fixpoint order_loop (fuel : nat) (ids : list string) (edges : list (list nat)) (s : order_state)
    : bool + list (nat * nat) :=
  match os_ready s with
  | [] => inr (os_nodes s)
  | ((_, index), _) :: ready =>
      match fuel with
      | O => inl false
      | S fuel' =>
          let d := default 0%nat (os_depth s !! index) in
          if (4 <? d)%nat then inl true
          else
          let '(depth, indegree, ready) :=
            foldl (release_one ids d) (os_depth s, os_indegree s, ready) (default [] (edges !! index)) in
          order_loop fuel' ids edges (mkOrder depth indegree ready (os_nodes s ++ [(index, d)]))
      end
  end.

Definition initial_ready (ids : list string) (indegree : list nat) : ReadySet :=
  foldl (fun ready index => if bool_decide (indegree !! index = Some 0%nat) then ready_add ids ready index else ready)
    [] (seq 0 (length indegree)).

Definition order_nodes (ids : list string) (edges : list (list nat)) (indegree : list nat) : bool + list (nat * nat) :=
  let n := length indegree in
  order_loop n ids edges (mkOrder (replicate n 1%nat) indegree (initial_ready ids indegree) []).

(** ** [rebuild] *)

(** The published nodes, from the ordered indices. *)
Definition node_of (ps : list MetricProcessor) (nd : nat * nat) : option ProcessorGraphNode :=
  match ps !! nd.1 with Some p => Some (mkNode p (Z.of_nat nd.2)) | None => None end.

Definition rebuild (current : ProcessorGraphSnapshot) (c : TargetCatalog) (generation : Z)
    (processors : list (option MetricProcessor)) : Status * ProcessorGraphSnapshot :=
  if negb (st_ok (tc_validate c)) || (generation =? 0)
  then (invalid_argument "processor graph catalog is invalid", current)
  else
  match check_processors (descriptors_of c) 0 [] [] processors with
  | inl st => (st, current)
  | inr (producers, ps) =>
      if existsb (unproduced producers) (tc_metrics c)
      then (err_status PDCM_STATUS_UNSUPPORTED "derived metric has no authoritative processor", current)
      else
      let '(edges, indegree) := build_edges producers (map mp_inputs ps) in
      match order_nodes (map mp_id ps) edges indegree with
      | inl _ => (err_status PDCM_STATUS_UNSUPPORTED "processor derivation depth exceeds four", current)
      | inr nodes =>
          if negb (length nodes =? length ps)%nat
          then (err_status PDCM_STATUS_UNSUPPORTED "processor dependency graph contains a cycle", current)
          else if generation <? pgs_catalog_generation current
          then (err_status PDCM_STATUS_STALE_GENERATION "processor graph generation moved backward", current)
          else
          (st_success,
           mkGraphSnapshot generation
             (omap (node_of ps) nodes))
      end
  end.

(** ** The edges, declaratively *)

(** Distinct producers of a list of inputs. *)
Definition preds_of (producers : list (Z * nat)) (inputs : list ProcessorMetric) : list nat :=
  foldl (fun ps i => match om_find (pm_metric i) producers with
                     | Some p => if bool_decide (p ∈ ps) then ps else p :: ps
                     | None => ps
                     end) [] inputs.

Lemma link_input_spec producers c inputs edges indegree acc :
  (forall m p, om_find m producers = Some p -> is_Some (edges !! p)) -> NoDup acc ->
  exists fresh, foldl (link_input producers c) (edges, indegree, acc) inputs =
      (imap (fun p l => if bool_decide (p ∈ fresh) then l ++ [c] else l) edges,
       alter (fun x => (length fresh + x)%nat) c indegree, fresh ++ acc) /\
    fresh ++ acc = foldl (fun ps i => match om_find (pm_metric i) producers with
                     | Some p => if bool_decide (p ∈ ps) then ps else p :: ps
                     | None => ps
                     end) acc inputs /\ NoDup (fresh ++ acc).
Proof.
  revert edges indegree acc. induction inputs as [|i inputs IH]; intros edges indegree acc Hp Hnd; cbn [foldl].
  - exists []. split_and!; [|done|done]. f_equal. f_equal.
    + apply list_eq. intros p. rewrite list_lookup_imap. by destruct (edges !! p).
    + apply list_eq. intros x. destruct (decide (x = c)) as [->|Hx];
        [rewrite list_lookup_alter_eq; by destruct (indegree !! c)|by rewrite list_lookup_alter_ne].
  - unfold link_input at 2. destruct (om_find (pm_metric i) producers) as [p|] eqn:Ei; [|by apply IH].
    case_bool_decide as Hin; [by apply IH|].
    edestruct (IH (alter (fun l => l ++ [c]) p edges) (alter S c indegree) (p :: acc)) as (fresh & Hf & Hacc & Hnd').
    { intros m q Hm. specialize (Hp m q Hm). destruct (decide (q = p)) as [->|Hq].
      - rewrite list_lookup_alter_eq. destruct Hp as [l ->]. by eexists.
      - by rewrite list_lookup_alter_ne. }
    { by constructor. }
    exists (fresh ++ [p]). rewrite <- app_assoc. cbn [app]. split_and!; [|done|done]. rewrite Hf.
    apply NoDup_app in Hnd' as (_ & Hd & _). f_equal. f_equal.
    + apply list_eq. intros q. rewrite !list_lookup_imap. destruct (decide (q = p)) as [->|Hq].
      * rewrite list_lookup_alter_eq. rewrite (bool_decide_eq_false_2 (p ∈ fresh)).
        2:{ intros Hp'. apply Hd in Hp'. apply Hp'. left. }
        rewrite (bool_decide_eq_true_2 (p ∈ fresh ++ [p])) by (apply elem_of_app; right; left).
        by destruct (edges !! p).
      * rewrite list_lookup_alter_ne by done. rewrite (bool_decide_ext (q ∈ fresh) (q ∈ fresh ++ [p])); [done|].
        rewrite elem_of_app, list_elem_of_singleton. naive_solver.
    + apply list_eq. intros x. rewrite length_app. cbn [length]. destruct (decide (x = c)) as [->|Hx].
      * rewrite !list_lookup_alter_eq. destruct (indegree !! c); [|done]. cbn. f_equal. lia.
      * by rewrite !list_lookup_alter_ne.
Qed.

(** A dependency graph on [n] processors given by the predecessors of each. *)
Record graph_ok (n : nat) (P : nat -> list nat) (edges : list (list nat)) (indegree : list nat) : Prop := {
  go_sizes : length edges = n /\ length indegree = n;
  go_preds : forall c, (c < n)%nat -> NoDup (P c) /\ Forall (fun p => (p < n)%nat) (P c);
  go_edges : forall p l, edges !! p = Some l -> NoDup l /\ forall c, c ∈ l <-> (c < n)%nat /\ p ∈ P c;
  go_indegree : forall c, (c < n)%nat -> indegree !! c = Some (length (P c)) }.

Lemma replicate_seq {A} (x : A) n k : replicate n x = map (fun _ => x) (seq k n).
Proof. revert k. induction n as [|n IH]; intros k; [done|]. cbn. by rewrite (IH (S k)). Qed.

Lemma preds_of_ok producers inputs n :
  (forall m p, om_find m producers = Some p -> (p < n)%nat) ->
  NoDup (preds_of producers inputs) /\ Forall (fun p => (p < n)%nat) (preds_of producers inputs).
Proof.
  intros Hp. unfold preds_of. generalize (@NoDup_nil_2 nat), (Forall_nil_2 (fun p => (p < n)%nat)).
  generalize (@nil nat) as acc. induction inputs as [|i xs IH]; intros acc Ha Hb; [done|]. cbn.
  destruct (om_find (pm_metric i) producers) as [p|] eqn:E; [|by apply IH]. case_bool_decide; [by apply IH|].
  apply Hp in E. apply IH; by constructor.
Qed.

Lemma preds_of_elem producers inputs p :
  p ∈ preds_of producers inputs <-> exists i, i ∈ inputs /\ om_find (pm_metric i) producers = Some p.
Proof.
  unfold preds_of. assert (forall acc, p ∈ foldl (fun ps i => match om_find (pm_metric i) producers with
      | Some p => if bool_decide (p ∈ ps) then ps else p :: ps | None => ps end) acc inputs <->
      p ∈ acc \/ exists i, i ∈ inputs /\ om_find (pm_metric i) producers = Some p) as Hgen.
  { induction inputs as [|i xs IH]; intros acc; cbn; [set_solver|]. rewrite IH.
    setoid_rewrite elem_of_cons. destruct (om_find (pm_metric i) producers) as [q|] eqn:E; [|naive_solver].
    case_bool_decide; [|setoid_rewrite elem_of_cons]; naive_solver. }
  rewrite Hgen. set_solver.
Qed.

(** The edge lists after the consumers below [k]. *)
Lemma build_edges_prefix producers inputs k :
  let n := length inputs in
  let P c := preds_of producers (default [] (inputs !! c)) in
  (forall m p, om_find m producers = Some p -> (p < n)%nat) -> (k <= n)%nat ->
  foldl (link_consumer producers) (replicate n [], replicate n 0%nat) (zip (seq 0 k) (take k inputs)) =
  (map (fun p => List.filter (fun c => bool_decide (p ∈ P c)) (seq 0 k)) (seq 0 n),
   map (fun c => if (c <? k)%nat then length (P c) else 0%nat) (seq 0 n)).
Proof.
  intros n P Hp. induction k as [|k IH]; intros Hk.
  { cbn. by rewrite (replicate_seq [] n 0), (replicate_seq 0%nat n 0). }
  assert (k < n)%nat as Hkn by lia. destruct (lookup_lt_is_Some_2 inputs k Hkn) as [ic Hic].
  rewrite (take_S_r _ _ ic Hic), seq_S. cbn [Nat.add].
  rewrite zip_with_app by (rewrite length_seq, length_take; lia). rewrite foldl_app, (IH ltac:(lia)).
  cbn [zip_with foldl]. unfold link_consumer. cbn [fst snd].
  destruct (link_input_spec producers k ic (map (fun p => List.filter (fun c => bool_decide (p ∈ P c)) (seq 0 k)) (seq 0 n))
    (map (fun c => if (c <? k)%nat then length (P c) else 0%nat) (seq 0 n)) []) as (fresh & -> & Hfr & Hnd).
  { intros m p Hm. apply Hp in Hm. apply lookup_lt_is_Some. rewrite length_map, length_seq. done. }
  { constructor. }
  rewrite app_nil_r in Hfr, Hnd. assert (fresh = P k) as ->.
  { unfold P, preds_of. rewrite Hic. exact Hfr. }
  cbn [fst]. f_equal; apply list_eq; intros i.
  - rewrite list_lookup_imap, !list_lookup_fmap. destruct (seq 0 n !! i) as [j|] eqn:Ej; [|done].
    apply lookup_seq in Ej as [-> _]. cbn. rewrite List.filter_app. cbn [List.filter].
    f_equal. case_bool_decide; [done|by rewrite app_nil_r].
  - destruct (decide (i = k)) as [->|Hi].
    + rewrite list_lookup_alter_eq, !list_lookup_fmap, lookup_seq_lt by lia. cbn [fmap option_fmap option_map Nat.add].
      rewrite Nat.ltb_irrefl, (proj2 (Nat.ltb_lt k (S k))) by lia. f_equal. lia.
    + rewrite list_lookup_alter_ne, !list_lookup_fmap by done. destruct (seq 0 n !! i) as [j|] eqn:Ej; [|done].
      apply lookup_seq in Ej as [-> _]. cbn [fmap option_fmap option_map Nat.add]. f_equal.
      destruct (Nat.ltb_spec i k), (Nat.ltb_spec i (S k)); done || lia.
Qed.

Lemma build_edges_ok producers inputs :
  (forall m p, om_find m producers = Some p -> (p < length inputs)%nat) ->
  let '(edges, indegree) := build_edges producers inputs in
  graph_ok (length inputs) (fun c => preds_of producers (default [] (inputs !! c))) edges indegree.
Proof.
  intros Hp. unfold build_edges.
  pose proof (build_edges_prefix producers inputs (length inputs) Hp ltac:(lia)) as Hloop.
  rewrite take_ge in Hloop by lia. cbv zeta in Hloop |- *. rewrite Hloop. set (n := length inputs). split.
  - by rewrite !length_map, !length_seq.
  - intros c _. by apply preds_of_ok.
  - intros p l Hl. rewrite list_lookup_fmap in Hl. destruct (seq 0 n !! p) as [j|] eqn:Ej; [|done].
    apply lookup_seq in Ej as [-> Hpn]. cbn in Hl. injection Hl as <-. split.
    + eapply sublist_NoDup; [apply NoDup_seq|apply filter_sublist].
    + intros c. rewrite elem_of_filterb, elem_of_seq, bool_decide_eq_true. naive_solver lia.
  - intros c Hc. rewrite list_lookup_fmap, lookup_seq_lt by done. cbn [fmap option_fmap option_map Nat.add].
    by rewrite (proj2 (Nat.ltb_lt c n)).
Qed.

(** ** The order, declaratively *)

(** A layering: every processor is above its predecessors. *)
Definition layering (n : nat) (P : nat -> list nat) (rank : nat -> nat) : Prop :=
  forall c, (c < n)%nat -> (1 <= rank c)%nat /\ forall p, p ∈ P c -> (rank p < rank c)%nat.

Definition ready_key (ids : list string) (c : nat) : string * nat := (default "" (ids !! c), c).

Section Order.
Context (n : nat) (P : nat -> list nat) (ids : list string) (edges : list (list nat)) (indegree0 : list nat).
Context (Hgraph : graph_ok n P edges indegree0).

(** Predecessors of [c] that have not been placed yet. *)
Definition waiting (placed : list nat) (c : nat) : list nat := List.filter (fun p => bool_decide (p ∉ placed)) (P c).

(** A depth above one is one more than that of some placed predecessor. *)
Definition depth_reached (nodes : list (nat * nat)) (c d : nat) : Prop :=
  d = 1%nat \/ exists p dp, (p, dp) ∈ nodes /\ p ∈ P c /\ d = S dp.

(** The loop invariant; [nodes] are the processors placed so far. *)
Record order_ok (s : order_state) : Prop := {
  oo_sizes : length (os_depth s) = n /\ length (os_indegree s) = n;
  oo_nodes : NoDup (os_nodes s).*1 /\ Forall (fun nd => (nd.1 < n)%nat /\ (1 <= nd.2 <= 4)%nat) (os_nodes s);
  oo_indegree : forall c, (c < n)%nat -> os_indegree s !! c = Some (length (waiting (os_nodes s).*1 c));
  oo_ready : om_wf (os_ready s) /\ (forall k, k ∈ (os_ready s).*1 -> k = ready_key ids k.2) /\
    forall c, ready_key ids c ∈ (os_ready s).*1 <->
      (c < n)%nat /\ c ∉ (os_nodes s).*1 /\ waiting (os_nodes s).*1 c = [];
  oo_depth : forall c d, os_depth s !! c = Some d -> (1 <= d)%nat /\
    (forall p dp, (p, dp) ∈ os_nodes s -> p ∈ P c -> (dp < d)%nat) /\
    (forall rank, layering n P rank -> (d <= rank c)%nat);
  oo_order : forall before c d after, os_nodes s = before ++ (c, d) :: after ->
    forall p, p ∈ P c -> exists dp, (p, dp) ∈ before /\ (dp < d)%nat;
  oo_reached : forall c d, os_depth s !! c = Some d -> depth_reached (os_nodes s) c d;
  oo_exact : forall before c d after, os_nodes s = before ++ (c, d) :: after -> depth_reached before c d }.

Lemma waiting_nil placed c : waiting placed c = [] <-> forall p, p ∈ P c -> p ∈ placed.
Proof.
  unfold waiting. split.
  - intros Hw p Hp. destruct (decide (p ∈ placed)) as [|Hn]; [done|]. exfalso.
    assert (p ∈ List.filter (fun p => bool_decide (p ∉ placed)) (P c)) as Hin
      by (apply elem_of_filterb; split; [done|by apply bool_decide_eq_true]).
    rewrite Hw in Hin. by apply elem_of_nil in Hin.
  - intros Hall. apply filter_false_nil. intros p Hp. apply bool_decide_eq_false. auto.
Qed.

(** Placing one more processor removes it from the waiting lists. *)
Lemma waiting_snoc placed i c :
  (c < n)%nat -> i ∉ placed ->
  length (waiting placed c) =
  (if bool_decide (i ∈ P c) then S (length (waiting (placed ++ [i]) c)) else length (waiting (placed ++ [i]) c)).
Proof.
  intros Hc Hi. destruct (go_preds _ _ _ _ Hgraph c Hc) as [Hnd _]. unfold waiting.
  induction (P c) as [|p ps IH]; [rewrite bool_decide_eq_false_2 by apply not_elem_of_nil; done|].
  apply NoDup_cons in Hnd as [Hp Hnd]. specialize (IH Hnd).
  cbn [List.filter]. destruct (decide (p = i)) as [->|Hne].
  - rewrite (bool_decide_eq_true_2 (i ∉ placed)) by done.
    rewrite (bool_decide_eq_false_2 (i ∉ placed ++ [i])) by (rewrite elem_of_app, list_elem_of_singleton; tauto).
    rewrite (bool_decide_eq_false_2 (i ∈ ps)) in IH by done. rewrite bool_decide_eq_true_2 by left.
    cbn [length]. by rewrite IH.
  - rewrite (bool_decide_ext (i ∈ p :: ps) (i ∈ ps)) by (rewrite elem_of_cons; naive_solver).
    rewrite (bool_decide_ext (p ∉ placed ++ [i]) (p ∉ placed)) by (rewrite elem_of_app, list_elem_of_singleton; naive_solver).
    repeat case_bool_decide; cbn [length]; lia.
Qed.

Lemma ready_add_keys ready c k : k ∈ (ready_add ids ready c).*1 <-> k = ready_key ids c \/ k ∈ ready.*1.
Proof. unfold ready_add. apply om_set_keys. Qed.

(** Releasing a list of consumers. *)
Lemma release_spec d cs depth indegree ready :
  NoDup cs -> Forall (fun c => is_Some (indegree !! c)) cs -> om_wf ready ->
  let '(depth', indegree', ready') := foldl (release_one ids d) (depth, indegree, ready) cs in
  length depth' = length depth /\ length indegree' = length indegree /\
  (forall c, depth' !! c = if bool_decide (c ∈ cs) then (fun x => Nat.max x (d + 1)) <$> depth !! c else depth !! c) /\
  (forall c, indegree' !! c = if bool_decide (c ∈ cs) then Nat.pred <$> indegree !! c else indegree !! c) /\
  om_wf ready' /\
  (forall k, k ∈ ready'.*1 <-> k ∈ ready.*1 \/
     exists c, c ∈ cs /\ k = ready_key ids c /\ Nat.pred <$> indegree !! c = Some 0%nat).
Proof.
  intros Hnd. revert depth indegree ready. induction Hnd as [|x cs Hx Hnd IH]; intros depth indegree ready Hsome Hwf.
  { cbn. split_and!; auto. set_solver. }
  cbn [foldl]. apply Forall_cons in Hsome as [_ Hsome]. set (s := release_one ids d (depth, indegree, ready) x).
  assert (s = (alter (fun x => Nat.max x (d + 1)) x depth, alter Nat.pred x indegree,
    if bool_decide (Nat.pred <$> indegree !! x = Some 0%nat) then ready_add ids ready x else ready)) as ->.
  { unfold s, release_one. by rewrite list_lookup_alter_eq. }
  set (ready1 := if bool_decide _ then _ else _).
  specialize (IH (alter (fun x => Nat.max x (d + 1)) x depth) (alter Nat.pred x indegree) ready1).
  destruct (foldl _ _ _) as [[depth' indegree'] ready']. destruct IH as (I1 & I2 & I3 & I4 & I5 & I6).
  { eapply Forall_impl; [exact Hsome|]. intros c Hc. cbn in Hc. destruct (decide (c = x)) as [->|Hne];
      [rewrite list_lookup_alter_eq; destruct Hc as [? ->]; by eexists|by rewrite list_lookup_alter_ne]. }
  { unfold ready1. case_bool_decide; [by apply om_wf_set|done]. }
  rewrite length_alter in I1, I2. split_and!; auto.
  - intros c. rewrite I3. destruct (decide (c = x)) as [->|Hne].
    + rewrite bool_decide_eq_false_2, (bool_decide_eq_true_2 (x ∈ x :: cs)), list_lookup_alter_eq; [done|left|done].
    + rewrite list_lookup_alter_ne by done. by rewrite (bool_decide_ext (c ∈ x :: cs) (c ∈ cs)) by set_solver.
  - intros c. rewrite I4. destruct (decide (c = x)) as [->|Hne].
    + rewrite bool_decide_eq_false_2, (bool_decide_eq_true_2 (x ∈ x :: cs)), list_lookup_alter_eq; [done|left|done].
    + rewrite list_lookup_alter_ne by done. by rewrite (bool_decide_ext (c ∈ x :: cs) (c ∈ cs)) by set_solver.
  - intros k. rewrite I6. unfold ready1.
    assert ((exists c, c ∈ cs /\ k = ready_key ids c /\ Nat.pred <$> alter Nat.pred x indegree !! c = Some 0%nat) <->
      exists c, c ∈ cs /\ k = ready_key ids c /\ Nat.pred <$> indegree !! c = Some 0%nat) as ->.
    { split; intros (c & Hc & Hk & Hp); exists c; (split; [done|split; [done|]]);
        rewrite list_lookup_alter_ne in * by (intros ->; done); done. }
    setoid_rewrite elem_of_cons. case_bool_decide as Hz; [rewrite ready_add_keys|]; naive_solver.
Qed.

(** What the next processor taken from [ready] is. *)
Lemma next_ready s id i u ready :
  order_ok s -> os_ready s = ((id, i), u) :: ready ->
  (i < n)%nat /\ i ∉ (os_nodes s).*1 /\ waiting (os_nodes s).*1 i = [] /\ om_wf ready /\
  (forall k, k ∈ ready.*1 <-> k ∈ (os_ready s).*1 /\ k <> ready_key ids i) /\
  (exists d, os_depth s !! i = Some d) /\ exists l, edges !! i = Some l.
Proof.
  intros [[Z1 Z2] _ _ (R1 & R2 & R3) _ _ _ _] Hr.
  assert ((id, i) = ready_key ids i) as Hk by (apply (R2 (id, i)); rewrite Hr; left).
  assert (ready_key ids i ∈ (os_ready s).*1) as Hin by (rewrite Hr, <- Hk; left).
  apply R3 in Hin as (H1 & H2 & H3). pose proof (om_wf_NoDup _ R1) as Hnd. rewrite Hr in R1, Hnd |- *.
  apply NoDup_cons in Hnd as [Hnew _]. cbn [fst] in Hnew. rewrite Hk in Hnew.
  unfold om_wf in R1. apply StronglySorted_inv in R1 as [R1 _]. split_and!; auto.
  - intros k. cbn [fmap list_fmap fst]. rewrite Hk, elem_of_cons. split; [|naive_solver].
    intros Hkin. split; [by right|]. by intros ->.
  - apply lookup_lt_is_Some. lia.
  - apply lookup_lt_is_Some. by rewrite (proj1 (go_sizes _ _ _ _ Hgraph)).
Qed.

Lemma placed_preds s c p : order_ok s -> c ∈ (os_nodes s).*1 -> p ∈ P c -> p ∈ (os_nodes s).*1.
Proof.
  intros Hs ((c' & d) & -> & Hin)%list_elem_of_fmap Hp. apply list_elem_of_split in Hin as (l1 & l2 & Heq).
  destruct (oo_order s Hs l1 c' d l2 Heq p Hp) as (dp & Hdp & _). rewrite Heq. apply list_elem_of_fmap.
  exists (p, dp). split; [done|]. apply elem_of_app. by left.
Qed.

Section step.
Context (s : order_state) (i d : nat) (l : list nat) (depth indegree : list nat) (ready ready0 : ReadySet).
Context (Hs : order_ok s) (Hi : (i < n)%nat) (Hnew : i ∉ (os_nodes s).*1).
Context (Hwait : waiting (os_nodes s).*1 i = []) (Hd : os_depth s !! i = Some d) (Hd4 : (d <= 4)%nat).
Context (Hl : edges !! i = Some l).
Context (Hready0 : forall k, k ∈ ready0.*1 <-> k ∈ (os_ready s).*1 /\ k <> ready_key ids i).
Context (Hdepth : forall c, depth !! c = if bool_decide (c ∈ l) then (fun x => Nat.max x (d + 1)) <$> os_depth s !! c
                                        else os_depth s !! c).
Context (Hindegree : forall c, indegree !! c = if bool_decide (c ∈ l) then Nat.pred <$> os_indegree s !! c
                                              else os_indegree s !! c).
Context (Hready : forall k, k ∈ ready.*1 <-> k ∈ ready0.*1 \/
  exists c, c ∈ l /\ k = ready_key ids c /\ Nat.pred <$> os_indegree s !! c = Some 0%nat).

Let placed := (os_nodes s).*1.

Lemma step_edge c : c ∈ l <-> (c < n)%nat /\ i ∈ P c.
Proof. apply (go_edges _ _ _ _ Hgraph i l Hl). Qed.

Lemma step_indegree c : (c < n)%nat -> indegree !! c = Some (length (waiting (placed ++ [i]) c)).
Proof.
  intros Hc. rewrite Hindegree, (oo_indegree s Hs c Hc). fold placed. rewrite (waiting_snoc placed i c Hc Hnew).
  rewrite (bool_decide_ext (c ∈ l) (i ∈ P c)) by (rewrite step_edge; tauto). by case_bool_decide.
Qed.

Lemma waiting_mono c : waiting placed c = [] -> waiting (placed ++ [i]) c = [].
Proof. rewrite !waiting_nil. intros Hw p Hp. apply elem_of_app. left. auto. Qed.

Lemma step_ready c :
  ready_key ids c ∈ ready.*1 <-> (c < n)%nat /\ c ∉ placed ++ [i] /\ waiting (placed ++ [i]) c = [].
Proof.
  destruct (oo_ready s Hs) as (_ & _ & R3). rewrite Hready, Hready0, R3, elem_of_app, list_elem_of_singleton.
  fold placed in R3 |- *. split.
  - intros [[(H1 & H2 & H3) Hne]|(c' & Hc' & Hk & Hz)].
    + split_and!; [done| |by apply waiting_mono]. intros [?| ->]; done.
    + injection Hk as _ <-. apply step_edge in Hc' as [Hcn Hic]. rewrite (oo_indegree s Hs c Hcn) in Hz. fold placed in Hz.
      rewrite (waiting_snoc placed i c Hcn Hnew), bool_decide_eq_true_2 in Hz by done. cbn in Hz. injection Hz as Hz.
      split_and!; [done| |by destruct (waiting _ c)]. intros [Hpl| ->].
      * apply Hnew. by eapply placed_preds.
      * apply Hnew. by apply (proj1 (waiting_nil placed i) Hwait).
  - intros (H1 & H2 & H3). destruct (decide (i ∈ P c)) as [Hic|Hic].
    + right. exists c. split_and!; [by apply step_edge|done|]. rewrite (oo_indegree s Hs c H1). fold placed.
      rewrite (waiting_snoc placed i c H1 Hnew), bool_decide_eq_true_2, H3 by done. done.
    + left. split; [|intros Hk; injection Hk as _ ->; tauto]. split_and!; [done|tauto|].
      pose proof (waiting_snoc placed i c H1 Hnew) as Hw. rewrite bool_decide_eq_false_2, H3 in Hw by done.
      by destruct (waiting placed c).
Qed.

Lemma step_depth c dc : depth !! c = Some dc -> (1 <= dc)%nat /\
  (forall p dp, (p, dp) ∈ os_nodes s ++ [(i, d)] -> p ∈ P c -> (dp < dc)%nat) /\
  (forall rank, layering n P rank -> (dc <= rank c)%nat).
Proof.
  rewrite Hdepth. intros Hc. destruct (oo_sizes s Hs) as [Z1 _]. case_bool_decide as Hcl.
  - destruct (os_depth s !! c) as [x|] eqn:Ex; [|done]. cbn in Hc. injection Hc as <-.
    destruct (oo_depth s Hs c x Ex) as (D1 & D2 & D3). apply step_edge in Hcl as [Hcn Hic]. split_and!; [lia| |].
    + intros p dp Hin Hp. apply elem_of_app in Hin as [Hin|Hin]; [specialize (D2 p dp Hin Hp); lia|].
      apply list_elem_of_singleton in Hin. injection Hin as -> ->. lia.
    + intros rank Hrank. specialize (D3 rank Hrank). destruct (oo_depth s Hs i d Hd) as (_ & _ & D4).
      specialize (D4 rank Hrank). destruct (Hrank c Hcn) as [_ Hlt]. specialize (Hlt i Hic). lia.
  - destruct (oo_depth s Hs c dc Hc) as (D1 & D2 & D3). split_and!; auto.
    intros p dp Hin Hp. apply elem_of_app in Hin as [Hin|Hin]; [eauto|].
    apply list_elem_of_singleton in Hin. injection Hin as -> ->. exfalso. apply Hcl. apply step_edge.
    split; [|done]. apply lookup_lt_Some in Hc. lia.
Qed.

Lemma step_order before c dc after : os_nodes s ++ [(i, d)] = before ++ (c, dc) :: after ->
  forall p, p ∈ P c -> exists dp, (p, dp) ∈ before /\ (dp < dc)%nat.
Proof.
  intros Heq p Hp. destruct after as [|x after _] using rev_ind.
  - apply app_inj_tail in Heq as [<- Heq]. injection Heq as <- <-.
    apply (proj1 (waiting_nil placed i) Hwait) in Hp as Hpl. apply list_elem_of_fmap in Hpl as ([p' dp] & -> & Hin).
    exists dp. split; [done|]. destruct (oo_depth s Hs i d Hd) as (_ & D2 & _). eapply D2; [exact Hin|exact Hp].
  - rewrite app_comm_cons, app_assoc in Heq. apply app_inj_tail in Heq as [Heq _]. by eapply (oo_order s Hs).
Qed.

Lemma step_reached c dc : depth !! c = Some dc -> depth_reached (os_nodes s ++ [(i, d)]) c dc.
Proof.
  rewrite Hdepth. intros Hc.
  assert (forall x, depth_reached (os_nodes s) c x -> depth_reached (os_nodes s ++ [(i, d)]) c x) as Hmono.
  { intros x [->|(p & dp & Hin & Hp & ->)]; [by left|right]. exists p, dp. split_and!; [|done|done].
    apply elem_of_app. by left. }
  case_bool_decide as Hcl; [|by apply Hmono, (oo_reached s Hs)].
  destruct (os_depth s !! c) as [x|] eqn:Ex; [|done]. cbn in Hc. injection Hc as <-. apply step_edge in Hcl as [_ Hic].
  destruct (Nat.max_spec x (d + 1)) as [[_ ->]|[_ ->]]; [|by apply Hmono, (oo_reached s Hs)].
  right. exists i, d. split_and!; [|done|lia]. apply elem_of_app. right. left.
Qed.

Lemma step_exact before c dc after : os_nodes s ++ [(i, d)] = before ++ (c, dc) :: after -> depth_reached before c dc.
Proof.
  intros Heq. destruct after as [|x after _] using rev_ind.
  - apply app_inj_tail in Heq as [<- Heq]. injection Heq as <- <-. by apply (oo_reached s Hs).
  - rewrite app_comm_cons, app_assoc in Heq. apply app_inj_tail in Heq as [Heq _]. by eapply (oo_exact s Hs).
Qed.
End step.

Lemma order_step s id i u ready d :
  order_ok s -> os_ready s = ((id, i), u) :: ready -> os_depth s !! i = Some d -> (d <= 4)%nat ->
  let '(depth', indegree', ready') :=
    foldl (release_one ids d) (os_depth s, os_indegree s, ready) (default [] (edges !! i)) in
  order_ok (mkOrder depth' indegree' ready' (os_nodes s ++ [(i, d)])).
Proof.
  intros Hs Hr Hd Hd4. destruct (next_ready s id i u ready Hs Hr) as (Hi & Hnew & Hwait & Hwf & Hr0 & _ & l & Hl).
  rewrite Hl. cbn [default]. destruct (go_edges _ _ _ _ Hgraph i l Hl) as [Hnd Hedge].
  destruct (oo_sizes s Hs) as [Z1 Z2].
  pose proof (release_spec d l (os_depth s) (os_indegree s) ready Hnd) as Hrel.
  destruct (foldl _ _ l) as [[depth' indegree'] ready'].
  destruct Hrel as (S1 & S2 & S3 & S4 & S5 & S6); [|done|].
  { apply Forall_forall. intros c Hc. apply Hedge in Hc as [Hc _]. apply lookup_lt_is_Some. lia. }
  destruct (oo_depth s Hs i d Hd) as (D1 & _).
  split; cbn [os_depth os_indegree os_nodes os_ready]; rewrite ?fmap_app; cbn [fmap list_fmap fst].
  - lia.
  - destruct (oo_nodes s Hs) as [N1 N2]. split.
    + apply NoDup_app. split_and!; [done| |apply NoDup_singleton]. intros x Hx ->%list_elem_of_singleton. done.
    + apply Forall_app. split; [done|]. constructor; [cbn; lia|constructor].
  - intros c Hc. by eapply (step_indegree s i l).
  - split_and!; [done| |].
    + intros k Hk. apply S6 in Hk as [Hk|(c & _ & -> & _)]; [|done]. apply Hr0 in Hk as [Hk _].
      by apply (proj1 (proj2 (oo_ready s Hs))).
    + intros c. by eapply (step_ready s i l).
  - intros c dc Hc. by eapply (step_depth s i d l).
  - intros before c dc after Heq. by eapply (step_order s i d).
  - intros c dc Hc. by eapply (step_reached s i d l).
  - intros before c dc after Heq. by eapply (step_exact s i d).
Qed.

(** The loop: it never runs out of fuel; it stops early only when no layering
    of at most four levels exists, and otherwise ends with nothing ready. *)
Lemma order_loop_spec fuel s :
  order_ok s -> (n <= fuel + length (os_nodes s))%nat ->
  match order_loop fuel ids edges s with
  | inl early => early = true /\ forall rank, layering n P rank -> exists c, (c < n)%nat /\ (4 < rank c)%nat
  | inr nodes => exists s', order_ok s' /\ os_ready s' = [] /\ os_nodes s' = nodes
  end.
Proof.
  revert s. induction fuel as [|fuel IH]; intros s Hs Hfuel; cbn [order_loop].
  - destruct (os_ready s) as [|[[id i] u] ready] eqn:Er; [by exists s|].
    destruct (next_ready s id i u ready Hs Er) as (Hi & Hnew & _). exfalso.
    destruct (oo_nodes s Hs) as [N1 N2].
    assert (length (i :: (os_nodes s).*1) <= length (seq 0 n))%nat as Hlen.
    { apply submseteq_length, NoDup_submseteq; [by constructor|]. intros x Hx. apply elem_of_seq.
      apply elem_of_cons in Hx as [->|Hx]; [lia|]. apply list_elem_of_fmap in Hx as (y & -> & Hy).
      rewrite Forall_forall in N2. apply N2 in Hy. lia. }
    cbn [length] in Hlen. rewrite length_fmap, length_seq in Hlen. cbn [Nat.add] in Hfuel. lia.
  - destruct (os_ready s) as [|[[id i] u] ready] eqn:Er; [by exists s|].
    destruct (next_ready s id i u ready Hs Er) as (Hi & _ & _ & _ & _ & (d & Hd) & _). rewrite Hd. cbn [default].
    change (Datatypes.id d) with d. destruct (4 <? d)%nat eqn:E4.
    + apply Nat.ltb_lt in E4. split; [done|]. intros rank Hrank. exists i. split; [done|].
      destruct (oo_depth s Hs i d Hd) as (_ & _ & D3). specialize (D3 rank Hrank). lia.
    + apply Nat.ltb_ge in E4. pose proof (order_step s id i u ready d Hs Er Hd E4) as Hstep.
      destruct (foldl _ _ _) as [[depth' indegree'] ready']. apply IH; [done|].
      cbn [os_nodes]. rewrite length_app. cbn [length]. lia.
Qed.

(** With nothing ready, either every processor was placed or no layering
    exists. *)
Lemma order_complete s :
  order_ok s -> os_ready s = [] -> length (os_nodes s) = n \/ forall rank, ~ layering n P rank.
Proof.
  intros Hs Hr. destruct (oo_nodes s Hs) as [N1 N2]. destruct (oo_ready s Hs) as (_ & _ & R3). rewrite Hr in R3.
  destruct (decide (Forall (fun c => c ∈ (os_nodes s).*1) (seq 0 n))) as [Hall|Hnot].
  - left. assert (length (os_nodes s).*1 = length (seq 0 n)) as Hlen.
    { apply Permutation_length, NoDup_Permutation; [done|apply NoDup_seq|]. intros x. split.
      - intros (y & -> & Hy)%list_elem_of_fmap. rewrite Forall_forall in N2. apply N2 in Hy. apply elem_of_seq. lia.
      - intros Hx. rewrite Forall_forall in Hall. auto. }
    by rewrite length_fmap, length_seq in Hlen.
  - right. intros rank Hrank.
    assert (forall k c, (rank c <= k)%nat -> (c < n)%nat -> c ∈ (os_nodes s).*1) as Hplaced.
    { induction k as [|k IH]; intros c Hk Hc; [destruct (Hrank c Hc); lia|].
      destruct (decide (c ∈ (os_nodes s).*1)) as [|Hn]; [done|]. exfalso.
      assert (waiting (os_nodes s).*1 c = []) as Hw.
      { apply waiting_nil. intros p Hp. destruct (Hrank c Hc) as [_ Hlt]. specialize (Hlt p Hp).
        destruct (go_preds _ _ _ _ Hgraph c Hc) as [_ Hb]. rewrite Forall_forall in Hb. apply IH; [lia|auto]. }
      assert (ready_key ids c ∈ (@nil ((string * nat) * unit)).*1) as Hin by (by apply R3).
      by apply elem_of_nil in Hin. }
    apply Hnot, Forall_forall. intros c Hc%elem_of_seq. apply (Hplaced (rank c)); lia.
Qed.

Lemma initial_ready_spec (indegree : list nat) k :
  let ready := foldl (fun r index => if bool_decide (indegree !! index = Some 0%nat) then ready_add ids r index else r)
                 [] (seq 0 k) in
  om_wf ready /\ forall key, key ∈ ready.*1 <->
    exists c, (c < k)%nat /\ indegree !! c = Some 0%nat /\ key = ready_key ids c.
Proof.
  induction k as [|k IH]; cbv zeta in *.
  - split; [apply om_wf_nil|]. intros key. split; [intros H; by apply elem_of_nil in H|]. intros (c & ? & _). lia.
  - rewrite seq_S, foldl_app. destruct IH as [IH1 IH2]. cbn [foldl Nat.add]. case_bool_decide as Hz; split.
    + by apply om_wf_set.
    + intros key. rewrite ready_add_keys, IH2. split.
      * intros [->|(c & ? & ? & ->)]; [exists k|exists c]; split_and!; done || lia.
      * intros (c & Hc & H0 & ->). destruct (decide (c = k)) as [->|]; [by left|right]. exists c. split_and!; done || lia.
    + done.
    + intros key. rewrite IH2. split; intros (c & Hc & H0 & ->); exists c; split_and!; try done; [lia|].
      destruct (decide (c = k)) as [->|]; [done|lia].
Qed.

Lemma order_start_ok :
  order_ok (mkOrder (replicate n 1%nat) indegree0 (initial_ready ids indegree0) []).
Proof.
  destruct (go_sizes _ _ _ _ Hgraph) as [Z1 Z2]. unfold initial_ready. rewrite Z2.
  destruct (initial_ready_spec indegree0 n) as [R1 R2].
  assert (forall c, waiting [] c = P c) as Hw.
  { intros c. unfold waiting. apply filter_true_id. intros x _. apply bool_decide_eq_true, not_elem_of_nil. }
  split; cbn [os_depth os_indegree os_nodes os_ready fmap list_fmap].
  - by rewrite length_replicate.
  - split; constructor.
  - intros c Hc. rewrite Hw. by apply Hgraph.
  - split_and!; [done| |].
    + intros k (c & _ & _ & ->)%R2. done.
    + intros c. rewrite R2, Hw. split.
      * intros (c' & Hc & H0 & Hk). injection Hk as _ <-. rewrite (go_indegree _ _ _ _ Hgraph c Hc) in H0.
        split_and!; [done|apply not_elem_of_nil|]. injection H0 as H0. by destruct (P c).
      * intros (Hc & _ & HP). exists c. rewrite (go_indegree _ _ _ _ Hgraph c Hc), HP. done.
  - intros c d Hd. apply lookup_replicate in Hd as [-> Hc]. split_and!; [done|by intros ?? ?%elem_of_nil|].
    intros rank Hrank. by destruct (Hrank c Hc).
  - intros before c d after Heq. by destruct before.
  - intros c d Hd. apply lookup_replicate in Hd as [-> Hc]. by left.
  - intros before c d after Heq. by destruct before.
Qed.

(** The order exists exactly when there is a layering of at most four levels;
    it then is a topological order with such a layering as its depths. *)
Lemma order_nodes_spec :
  match order_nodes ids edges indegree0 with
  | inl early => forall rank, layering n P rank -> exists c, (c < n)%nat /\ (4 < rank c)%nat
  | inr nodes =>
      if (length nodes =? n)%nat
      then nodes.*1 ≡ₚ seq 0 n /\ Forall (fun nd => (1 <= nd.2 <= 4)%nat) nodes /\
           forall before c d after, nodes = before ++ (c, d) :: after ->
             depth_reached before c d /\ forall p, p ∈ P c -> exists dp, (p, dp) ∈ before /\ (dp < d)%nat
      else forall rank, ~ layering n P rank
  end.
Proof.
  unfold order_nodes. destruct (go_sizes _ _ _ _ Hgraph) as [_ Z2]. rewrite Z2.
  pose proof (order_loop_spec n _ order_start_ok ltac:(cbn; lia)) as Hl.
  destruct (order_loop _ _ _ _) as [early|nodes]; [tauto|]. destruct Hl as (s' & Hs & Hr & <-).
  destruct (oo_nodes s' Hs) as [N1 N2]. destruct (length (os_nodes s') =? n)%nat eqn:El.
  - apply Nat.eqb_eq in El. split_and!.
    + apply submseteq_length_Permutation; [|by rewrite length_fmap, length_seq, El].
      apply NoDup_submseteq; [done|]. intros x (y & -> & Hy)%list_elem_of_fmap. rewrite Forall_forall in N2.
      apply N2 in Hy. apply elem_of_seq. lia.
    + eapply Forall_impl; [exact N2|]. cbn. tauto.
    + intros before c d after Heq. split; [by eapply (oo_exact s' Hs)|by eapply (oo_order s' Hs)].
  - apply Nat.eqb_neq in El. by destruct (order_complete s' Hs Hr).
Qed.
End Order.

(** ** What validation accepts *)

Definition input_ok (ds : list (Z * MetricDescriptor)) (i : ProcessorMetric) : Prop :=
  pm_metric i <> 0 /\ pm_semantic_version i <> 0 /\
  exists d, om_find (pm_metric i) ds = Some d /\ md_semantic_version d = pm_semantic_version i.

Definition output_ok (ds : list (Z * MetricDescriptor)) (inputs : list ProcessorMetric) (o : ProcessorMetric) : Prop :=
  pm_metric o <> 0 /\ pm_semantic_version o <> 0 /\
  exists d, om_find (pm_metric o) ds = Some d /\ md_collection_mode d = MCM_Derived /\
    md_semantic_version d = pm_semantic_version o /\ md_dependencies d ≡ₚ map pm_metric inputs.

Definition processor_ok (ds : list (Z * MetricDescriptor)) (p : MetricProcessor) : Prop :=
  (mp_id p <> "" /\ mp_version p <> 0 /\ mp_inputs p <> [] /\ mp_outputs p <> []) /\
  NoDup (map pm_metric (mp_inputs p)) /\ Forall (input_ok ds) (mp_inputs p) /\
  Forall (output_ok ds (mp_inputs p)) (mp_outputs p).

(** Every metric the processors produce, in order. *)
Definition produced (ps : list MetricProcessor) : list Z := concat (map (fun p => map pm_metric (mp_outputs p)) ps).

Lemma Forall_fresh_cons {A B} (f : A -> B) (x : B) (seen : list B) (l : list A) :
  Forall (fun y => f y ∉ x :: seen) l <-> x ∉ map f l /\ Forall (fun y => f y ∉ seen) l.
Proof.
  rewrite !Forall_forall. setoid_rewrite elem_of_cons. split.
  - intros Hall. split; [|naive_solver]. intros (y & Hy & Hin)%list_elem_of_fmap. apply (Hall y Hin). by left.
  - intros [Hn Hall] y Hy [Heq|Hin]; [|by apply (Hall y Hy)]. apply Hn, list_elem_of_fmap. by exists y.
Qed.

Lemma check_inputs_iff ds seen inputs :
  check_inputs ds seen inputs = None <->
  NoDup (map pm_metric inputs) /\ Forall (fun i => pm_metric i ∉ seen) inputs /\ Forall (input_ok ds) inputs.
Proof.
  revert seen. induction inputs as [|i inputs IH]; intros seen; cbn [check_inputs map].
  { split; [intros _; split_and!; constructor|done]. }
  rewrite NoDup_cons, !Forall_cons. cbv zeta. guard as G1; bprop in G1.
  { split; [done|]. intros (_ & [Hs _] & [(? & ? & _) _]). naive_solver. }
  unfold input_ok at 1. destruct (om_find (pm_metric i) ds) as [d|] eqn:Ed; [|naive_solver].
  guard as G2; bprop in G2; [naive_solver|]. rewrite IH, Forall_fresh_cons. naive_solver.
Qed.

Definition is_inr {A B} (s : A + B) : bool := match s with inl _ => false | inr _ => true end.

Lemma check_outputs_iff ds index inputs seen producers outputs :
  is_inr (check_outputs ds index inputs seen producers outputs) = true <->
  NoDup (map pm_metric outputs) /\ Forall (fun o => pm_metric o ∉ seen /\ om_find (pm_metric o) producers = None) outputs /\
  Forall (output_ok ds inputs) outputs.
Proof.
  revert seen producers. induction outputs as [|o outputs IH]; intros seen producers; cbn [check_outputs map].
  { split; [intros _; split_and!; constructor|done]. }
  rewrite NoDup_cons, !Forall_cons. cbv zeta. guard as G1; bprop in G1.
  { split; [done|]. intros (_ & [Hs _] & [(? & ? & _) _]). naive_solver. }
  unfold output_ok at 1. destruct (om_find (pm_metric o) ds) as [d|] eqn:Ed; [|naive_solver].
  guard as G2; bprop in G2; [naive_solver|]. guard as G3.
  { unfold om_mem in G3. split; [done|]. intros (_ & [[_ Hn] _] & _). by rewrite Hn in G3. }
  unfold om_mem in G3. apply has_value_false in G3.
  guard as G4; bprop in G4; rewrite std_sort_eq_iff in G4; [naive_solver|]. rewrite IH. clear IH.
  assert (Forall (fun j => pm_metric j ∉ pm_metric o :: seen /\
      om_find (pm_metric j) (om_set (pm_metric o) index producers) = None) outputs <->
    pm_metric o ∉ map pm_metric outputs /\
    Forall (fun j => pm_metric j ∉ seen /\ om_find (pm_metric j) producers = None) outputs) as ->.
  { rewrite !Forall_forall. setoid_rewrite elem_of_cons. split.
    - intros Hall. split; [|intros x Hx; destruct (Hall x Hx) as [H1 H2]; split; [naive_solver|]].
      + intros (x & Hx & Hin)%list_elem_of_fmap. destruct (Hall x Hin) as [Hn _]. apply Hn. by left.
      + rewrite om_find_set_ne in H2; [done|naive_solver].
    - intros [Hn Hall] x Hx. destruct (Hall x Hx) as [H1 H2].
      assert (pm_metric o <> pm_metric x) as Hne by (intros Heq; apply Hn, list_elem_of_fmap; by exists x).
      rewrite om_find_set_ne by done. naive_solver. }
  naive_solver.
Qed.

(** ** The producers found by validation *)

Lemma check_outputs_spec ds index inputs seen producers outputs producers' :
  check_outputs ds index inputs seen producers outputs = inr producers' ->
  forall m k, om_find m producers' = Some k <->
    om_find m producers = Some k \/ (k = index /\ m ∈ map pm_metric outputs).
Proof.
  revert seen producers. induction outputs as [|o outputs IH]; intros seen producers Hc m k; cbn [check_outputs] in Hc.
  - injection Hc as <-. cbn. set_solver.
  - guard Hc as G1; [done|]. destruct (om_find (pm_metric o) ds) as [d|]; [|done]. guard Hc as G2; [done|].
    guard Hc as G3; [done|]. guard Hc as G4; [done|]. unfold om_mem in G3. apply has_value_false in G3.
    rewrite (IH _ _ Hc). cbn [map]. rewrite elem_of_cons. destruct (decide (m = pm_metric o)) as [->|Hne].
    + rewrite om_find_set_eq, G3. naive_solver.
    + rewrite om_find_set_ne by done. naive_solver.
Qed.

Lemma check_processors_spec ds index ids producers processors producers' ps :
  check_processors ds index ids producers processors = inr (producers', ps) ->
  processors = map Some ps /\
  forall m k, om_find m producers' = Some k <->
    om_find m producers = Some k \/
    exists j p, ps !! j = Some p /\ k = (index + j)%nat /\ m ∈ map pm_metric (mp_outputs p).
Proof.
  revert index ids producers ps. induction processors as [|[p|] processors IH]; intros index ids producers ps Hc;
    cbn [check_processors] in Hc; [| |done].
  - injection Hc as <- <-. split; [done|]. intros m k. split; [by left|]. intros [?|(j & p & ? & _)]; done.
  - guard Hc as G1; [done|]. guard Hc as G2; [done|]. destruct (check_inputs _ _ _); [done|].
    destruct (check_outputs _ _ _ _ _ _) as [|producers1] eqn:Eo; [done|].
    destruct (check_processors _ _ _ _ _) as [|[producers2 qs]] eqn:Ep; [done|]. injection Hc as <- <-.
    destruct (IH _ _ _ _ Ep) as [-> Hspec]. split; [done|]. intros m k.
    rewrite Hspec, (check_outputs_spec _ _ _ _ _ _ _ Eo). split.
    + intros [[H|[-> H]]|(j & q & Hj & -> & H)]; [by left|right; exists 0%nat, p|right; exists (S j), q];
        split_and!; done || lia.
    + intros [H|(j & q & Hj & -> & H)]; [by left; left|]. destruct j as [|j].
      * left. right. injection Hj as ->. split; [lia|done].
      * right. exists j, q. split_and!; [done|lia|done].
Qed.

Lemma produced_cons p ps : produced (p :: ps) = map pm_metric (mp_outputs p) ++ produced ps.
Proof. done. Qed.

(** The producers table remembers what the earlier processors produce. *)
Lemma produced_step (index : nat) p ps (producers producers1 : list (Z * nat)) :
  NoDup (map pm_metric (mp_outputs p)) ->
  Forall (fun m => om_find m producers = None) (map pm_metric (mp_outputs p)) ->
  (forall m k, om_find m producers1 = Some k <->
     om_find m producers = Some k \/ (k = index /\ m ∈ map pm_metric (mp_outputs p))) ->
  (NoDup (produced ps) /\ Forall (fun m => om_find m producers1 = None) (produced ps)) <->
  NoDup (produced (p :: ps)) /\ Forall (fun m => om_find m producers = None) (produced (p :: ps)).
Proof.
  intros Hnd Hnew Hspec. rewrite produced_cons, NoDup_app, Forall_app.
  assert (forall m, om_find m producers1 = None <-> om_find m producers = None /\ m ∉ map pm_metric (mp_outputs p)) as Hn.
  { intros m. rewrite !eq_None_not_Some. unfold is_Some. setoid_rewrite Hspec. naive_solver. }
  rewrite !Forall_forall. setoid_rewrite Hn. rewrite Forall_forall in Hnew. naive_solver.
Qed.

(** The first loop accepts exactly the processors with distinct identities that
    are fit one by one and never produce a metric twice. *)
Lemma check_processors_iff ds index ids producers processors :
  is_inr (check_processors ds index ids producers processors) = true <->
  exists ps, processors = map Some ps /\ NoDup (map mp_id ps) /\ Forall (fun p => mp_id p ∉ ids) ps /\
    Forall (processor_ok ds) ps /\ NoDup (produced ps) /\ Forall (fun m => om_find m producers = None) (produced ps).
Proof.
  revert index ids producers. induction processors as [|[p|] processors IH]; intros index ids producers; cbn [check_processors].
  - split; [intros _; exists []; split_and!; done || constructor|done].
  - assert (forall (R : list MetricProcessor -> Prop), (exists ps, Some p :: processors = map Some ps /\ R ps) <->
      exists ps, processors = map Some ps /\ R (p :: ps)) as ->.
    { intros R. split; [intros ([|q ps] & [= <- ->] & HR); by exists ps|intros (ps & -> & HR); by exists (p :: ps)]. }
    setoid_rewrite NoDup_cons. setoid_rewrite Forall_cons. unfold processor_ok at 1.
    guard as G1; bprop in G1; [naive_solver|]. guard as G2; bprop in G2; [naive_solver|].
    pose proof (check_inputs_iff ds [] (mp_inputs p)) as Hi.
    destruct (check_inputs ds [] (mp_inputs p)); [split; [done|]|].
    { intros (ps & -> & _ & _ & [(_ & Hnd & Hin & _) _] & _). exfalso.
      assert (Some s = None); [|done]. apply Hi. split_and!; [done| |done].
      apply Forall_true. intros x. apply not_elem_of_nil. }
    destruct (proj1 Hi eq_refl) as (Hi1 & _ & Hi2). clear Hi.
    pose proof (check_outputs_iff ds index (mp_inputs p) [] producers (mp_outputs p)) as Ho.
    pose proof (check_outputs_spec ds index (mp_inputs p) [] producers (mp_outputs p)) as Hspec.
    destruct (check_outputs _ _ _ _ _ _) as [st|producers1]; [split; [done|]|].
    { intros (ps & -> & _ & _ & [(_ & _ & _ & Hout) _] & Hnd & Hnew). apply Ho.
      rewrite produced_cons in Hnd, Hnew. apply NoDup_app in Hnd as [Hnd _].
      apply Forall_app in Hnew as [Hnew _]. split_and!; [done| |done]. rewrite Forall_fmap in Hnew.
      eapply Forall_impl; [exact Hnew|]. intros o Hn. split; [apply not_elem_of_nil|exact Hn]. }
    specialize (Hspec producers1 eq_refl). destruct (proj1 Ho eq_refl) as (Ho1 & Ho2 & Ho3). clear Ho.
    assert (Forall (fun m => om_find m producers = None) (map pm_metric (mp_outputs p))) as Ho2'.
    { apply Forall_fmap. eapply Forall_impl; [exact Ho2|]. cbn. tauto. }
    specialize (IH (S index) (mp_id p :: ids) producers1).
    assert (is_inr (match check_processors ds (S index) (mp_id p :: ids) producers1 processors with
      | inl st => inl st | inr (producers'', qs) => inr (producers'', p :: qs) end) =
      is_inr (check_processors ds (S index) (mp_id p :: ids) producers1 processors)) as ->
      by (by destruct (check_processors _ _ _ _ _) as [|[]]).
    rewrite IH. clear IH. setoid_rewrite Forall_fresh_cons.
    setoid_rewrite (produced_step index p _ producers producers1 Ho1 Ho2' Hspec). naive_solver.
  - split; [done|]. intros ([|] & ? & _); done.
Qed.

(** One processor consumes an output of another. *)
Definition feeds (a b : MetricProcessor) : Prop :=
  exists m, m ∈ map pm_metric (mp_outputs a) /\ m ∈ map pm_metric (mp_inputs b).

Lemma preds_feeds producers (ps : list MetricProcessor) (i j : nat) a b :
  (forall m k, om_find m producers = Some k <->
     exists j p, ps !! j = Some p /\ k = j /\ m ∈ map pm_metric (mp_outputs p)) ->
  ps !! i = Some a -> ps !! j = Some b ->
  i ∈ preds_of producers (mp_inputs b) <-> feeds a b.
Proof.
  intros Hprod Ha Hb. rewrite preds_of_elem. unfold feeds. split.
  - intros (x & Hx & Hf). apply Hprod in Hf as (k & p & Hp & <- & Hm). assert (p = a) as -> by congruence.
    exists (pm_metric x). split; [done|]. apply list_elem_of_fmap. by exists x.
  - intros (m & Hm & (x & -> & Hx)%list_elem_of_fmap). exists x. split; [done|]. apply Hprod. by exists i, a.
Qed.

Lemma omap_lookup_seq {A} (l : list A) : omap (fun i => l !! i) (seq 0 (length l)) = l.
Proof.
  induction l as [|x l IH] using rev_ind; [done|]. rewrite length_app. cbn [length].
  rewrite Nat.add_1_r, seq_S, omap_app. f_equal.
  - rewrite <- IH at 2. apply list_omap_ext, Forall_Forall2_diag, Forall_forall. intros i Hi%elem_of_seq.
    apply lookup_app_l. lia.
  - cbn. rewrite lookup_app_r by lia. by rewrite Nat.sub_diag.
Qed.

Lemma nodes_published ps nodes :
  Forall (fun nd => (nd.1 < length ps)%nat) nodes ->
  Forall2 (fun nd x => ps !! nd.1 = Some (pgn_processor x) /\ pgn_depth x = Z.of_nat nd.2) nodes (omap (node_of ps) nodes) /\
  map pgn_processor (omap (node_of ps) nodes) = omap (fun i => ps !! i) nodes.*1.
Proof.
  induction 1 as [|[i d] nodes Hi Hall [IH1 IH2]]; [split; [constructor|done]|]. cbn [fst] in Hi.
  destruct (lookup_lt_is_Some_2 ps i Hi) as [p Hp].
  assert (node_of ps (i, d) = Some (mkNode p (Z.of_nat d))) as Hn by (unfold node_of; cbn [fst snd]; by rewrite Hp).
  cbn [omap list_omap fmap list_fmap fst map]. rewrite Hn, Hp. split; [by constructor|]. cbn [map]. f_equal. exact IH2.
Qed.

(** A layering of processors in at most four levels. *)
Definition derivation_levels (ps : list MetricProcessor) (rank : nat -> nat) : Prop :=
  forall j b, ps !! j = Some b -> (1 <= rank j <= 4)%nat /\
    forall i a, ps !! i = Some a -> feeds a b -> (rank i < rank j)%nat.

(** The two descriptions of the dependencies agree. *)
Lemma levels_layering producers ps :
  (forall m k, om_find m producers = Some k <->
     exists j p, ps !! j = Some p /\ k = j /\ m ∈ map pm_metric (mp_outputs p)) ->
  let P c := preds_of producers (default [] (map mp_inputs ps !! c)) in
  forall rank, derivation_levels ps rank <->
    layering (length ps) P rank /\ forall c, (c < length ps)%nat -> (rank c <= 4)%nat.
Proof.
  intros Hprod P rank.
  assert (forall c b, ps !! c = Some b -> P c = preds_of producers (mp_inputs b)) as HP.
  { intros c b Hb. unfold P. by rewrite list_lookup_fmap, Hb. }
  split.
  - intros Hlev. split.
    + intros c Hc. destruct (lookup_lt_is_Some_2 ps c Hc) as [b Hb]. destruct (Hlev c b Hb) as [H1 H2].
      split; [lia|]. intros p Hp. rewrite (HP c b Hb) in Hp. apply preds_of_elem in Hp as Hp'.
      destruct Hp' as (x & _ & Hx). apply Hprod in Hx as (j & a & Ha & <- & _).
      apply (H2 p a Ha). by apply (preds_feeds producers ps p c a b).
    + intros c Hc. destruct (lookup_lt_is_Some_2 ps c Hc) as [b Hb]. destruct (Hlev c b Hb). lia.
  - intros [Hlay Hmax] j b Hb. pose proof (lookup_lt_Some _ _ _ Hb) as Hj. destruct (Hlay j Hj) as [H1 H2].
    split; [split; [done|auto]|]. intros i a Ha Hf. apply H2. rewrite (HP j b Hb).
    by apply (preds_feeds producers ps i j a b).
Qed.

(** The depths of a complete order are a layering. *)
Lemma graph_ranked (ps : list MetricProcessor) (nodes : list (nat * nat)) (P : nat -> list nat) :
  nodes.*1 ≡ₚ seq 0 (length ps) -> Forall (fun nd => (1 <= nd.2 <= 4)%nat) nodes ->
  (forall before c d after, nodes = before ++ (c, d) :: after ->
     depth_reached P before c d /\ forall p, p ∈ P c -> exists dp, (p, dp) ∈ before /\ (dp < d)%nat) ->
  (forall rank, derivation_levels ps rank <->
     layering (length ps) P rank /\ forall c, (c < length ps)%nat -> (rank c <= 4)%nat) ->
  exists rank, derivation_levels ps rank.
Proof.
  intros Hperm Hdep Hbefore Hlev.
  set (rank c := match find_if (fun nd => bool_decide (nd.1 = c)) nodes with Some nd => nd.2 | None => 0%nat end).
  assert (NoDup nodes.*1) as Hnd by (rewrite Hperm; apply NoDup_seq).
  assert (forall c d, (c, d) ∈ nodes -> rank c = d) as Hrank.
  { intros c d Hin. unfold rank. destruct (find_if _ nodes) as [[c' d']|] eqn:E.
    - apply find_if_Some in E as [Hin' Hc]. apply bool_decide_eq_true in Hc. cbn in Hc. subst c'. cbn.
      apply list_elem_of_lookup in Hin as [i Hi]. apply list_elem_of_lookup in Hin' as [j Hj].
      assert (i = j) as ->; [|congruence]. eapply (NoDup_lookup _ _ _ c Hnd); by rewrite list_lookup_fmap, ?Hi, ?Hj.
    - apply find_if_None in E. rewrite Forall_forall in E. apply E in Hin. by apply bool_decide_eq_false in Hin. }
  assert (forall c, (c < length ps)%nat -> (c, rank c) ∈ nodes) as Hall.
  { intros c Hc. assert (c ∈ nodes.*1) as Hin by (rewrite Hperm; apply elem_of_seq; lia).
    apply list_elem_of_fmap in Hin as ([c' d] & -> & Hin). cbn. by rewrite (Hrank _ _ Hin). }
  rewrite Forall_forall in Hdep. exists rank. apply Hlev. split.
  - intros c Hc. specialize (Hall c Hc). destruct (Hdep _ Hall) as [H1 _]. split; [done|].
    intros p Hp. apply list_elem_of_split in Hall as (l1 & l2 & Heq).
    destruct (proj2 (Hbefore l1 c (rank c) l2 Heq) p Hp) as (dp & Hin & Hlt). rewrite (Hrank p dp); [done|].
    rewrite Heq. apply elem_of_app. by left.
  - intros c Hc. by destruct (Hdep _ (Hall c Hc)).
Qed.

(** The published nodes: every processor, after its producers, one level above
    the deepest of them. *)
Lemma published_order producers ps nodes :
  (forall m k, om_find m producers = Some k <->
     exists j p, ps !! j = Some p /\ k = j /\ m ∈ map pm_metric (mp_outputs p)) ->
  let P c := preds_of producers (default [] (map mp_inputs ps !! c)) in
  nodes.*1 ≡ₚ seq 0 (length ps) -> Forall (fun nd => (1 <= nd.2 <= 4)%nat) nodes ->
  (forall before c d after, nodes = before ++ (c, d) :: after ->
     depth_reached P before c d /\ forall p, p ∈ P c -> exists dp, (p, dp) ∈ before /\ (dp < d)%nat) ->
  map pgn_processor (omap (node_of ps) nodes) ≡ₚ ps /\
  Forall (fun nd => 1 <= pgn_depth nd <= 4) (omap (node_of ps) nodes) /\
  forall before nd after, omap (node_of ps) nodes = before ++ nd :: after ->
    (forall x, x ∈ omap (node_of ps) nodes -> feeds (pgn_processor x) (pgn_processor nd) ->
       x ∈ before /\ pgn_depth x < pgn_depth nd) /\
    (pgn_depth nd = 1 \/ exists x, x ∈ before /\ feeds (pgn_processor x) (pgn_processor nd) /\
       pgn_depth nd = pgn_depth x + 1).
Proof.
  intros Hprod P Hperm Hdep Hbefore. destruct (nodes_published ps nodes) as [Hpub Hproc].
  { apply Forall_forall. intros nd Hnd. assert (nd.1 ∈ nodes.*1) as Hin by (apply list_elem_of_fmap; by exists nd).
    rewrite Hperm in Hin. apply elem_of_seq in Hin. lia. }
  split_and!.
  - rewrite Hproc, Hperm. by rewrite omap_lookup_seq.
  - clear - Hpub Hdep. induction Hpub as [|nd x nodes N [_ Hx] _ IH]; [constructor|].
    apply Forall_cons in Hdep as [Hd Hdep]. constructor; [lia|auto].
  - assert (NoDup nodes.*1) as Hnd by (rewrite Hperm; apply NoDup_seq). clear Hproc Hperm Hdep.
    intros before nd after Heq. rewrite Heq in Hpub |- *. clear Heq.
    apply Forall2_app_inv_r in Hpub as (b' & rest & Hb & Hrest & ->).
    apply Forall2_cons_inv_r in Hrest as ([i d] & a' & [Hi Hd] & Ha & ->). cbn [fst snd] in *.
    destruct (Hbefore b' i d a' eq_refl) as [Hreach Hpred]. clear Hbefore.
    assert (forall k a, ps !! k = Some a -> k ∈ P i <-> feeds a (pgn_processor nd)) as HP.
    { intros k a Hk. unfold P. rewrite list_lookup_fmap, Hi. by apply (preds_feeds producers ps k i a). }
    assert (forall k dk, (k, dk) ∈ b' -> exists x, x ∈ before /\ ps !! k = Some (pgn_processor x) /\ pgn_depth x = Z.of_nat dk)
      as Hnode.
    { intros k dk [q Hq]%list_elem_of_lookup. destruct (Forall2_lookup_l _ _ _ _ _ Hb Hq) as (x & Hx & Hx1 & Hx2).
      exists x. split_and!; [by eapply list_elem_of_lookup_2|done|done]. }
    split.
    + intros x Hx Hf.
      assert (Forall2 (fun nd x => ps !! nd.1 = Some (pgn_processor x) /\ pgn_depth x = Z.of_nat nd.2)
        (b' ++ (i, d) :: a') (before ++ nd :: after)) as Hall by (apply Forall2_app; [done|by constructor]).
      apply list_elem_of_lookup in Hx as [q Hq]. destruct (Forall2_lookup_r _ _ _ _ _ Hall Hq) as ([k dk] & Hk & Hx1 & Hx2).
      cbn [fst snd] in *. destruct (Hpred k) as (dp & Hin & Hlt); [by apply (HP k (pgn_processor x))|].
      apply list_elem_of_lookup in Hin as [q' Hq']. pose proof (lookup_lt_Some _ _ _ Hq') as Hlen.
      assert (q = q') as ->.
      { eapply (NoDup_lookup _ _ _ k Hnd); rewrite list_lookup_fmap; [by rewrite Hk|].
        by rewrite lookup_app_l, Hq'. }
      rewrite lookup_app_l in Hk by done. rewrite lookup_app_l in Hq by (by rewrite <- (Forall2_length _ _ _ Hb)).
      split; [by eapply list_elem_of_lookup_2|]. assert (dk = dp) as -> by congruence. lia.
    + destruct Hreach as [->|(k & dk & Hin & Hp & ->)]; [left; lia|right].
      destruct (Hnode k dk Hin) as (x & Hx & Hk & Hdx). exists x. split_and!; [done|by apply (HP k)|lia].
Qed.

(** ** Well-formed graphs *)

(** What a set of processors must be for a catalog, in terms of the catalog
    alone: distinct identities; inputs and outputs that the catalog describes in
    that version; outputs derived from exactly the inputs of the processor;
    every derived metric produced, and by one processor only. *)
Record graph_wf (c : TargetCatalog) (ps : list MetricProcessor) : Prop := {
  gw_identity : NoDup (map mp_id ps) /\
    Forall (fun p => mp_id p <> "" /\ mp_version p <> 0 /\ mp_inputs p <> [] /\ mp_outputs p <> []) ps;
  gw_inputs : Forall (fun p => NoDup (map pm_metric (mp_inputs p)) /\
    Forall (fun i => pm_metric i <> 0 /\ pm_semantic_version i <> 0 /\
      exists d, d ∈ tc_metrics c /\ md_id d = pm_metric i /\ md_semantic_version d = pm_semantic_version i)
      (mp_inputs p)) ps;
  gw_outputs : Forall (fun p => Forall (fun o => pm_metric o <> 0 /\ pm_semantic_version o <> 0 /\
      exists d, d ∈ tc_metrics c /\ md_id d = pm_metric o /\ md_collection_mode d = MCM_Derived /\
        md_semantic_version d = pm_semantic_version o /\ md_dependencies d ≡ₚ map pm_metric (mp_inputs p))
      (mp_outputs p)) ps;
  gw_single : NoDup (produced ps);
  gw_complete : forall d, d ∈ tc_metrics c -> md_collection_mode d = MCM_Derived -> md_id d ∈ produced ps }.

Lemma descriptors_of_spec c id d : st_ok (tc_validate c) = true ->
  om_find id (descriptors_of c) = Some d <-> d ∈ tc_metrics c /\ md_id d = id.
Proof.
  intros (_ & _ & _ & _ & Hnd & _)%tc_validate_exact. unfold descriptors_of.
  rewrite om_find_emplace_all; [|done|done]. naive_solver.
Qed.

Lemma produced_elem ps m : m ∈ produced ps <-> exists j p, ps !! j = Some p /\ m ∈ map pm_metric (mp_outputs p).
Proof.
  unfold produced. rewrite list_elem_of_In, in_concat. setoid_rewrite <- list_elem_of_In. split.
  - intros (l & (p & -> & [j Hj]%list_elem_of_lookup)%list_elem_of_fmap & Hm). by exists j, p.
  - intros (j & p & Hj & Hm). exists (map pm_metric (mp_outputs p)). split; [|done]. apply list_elem_of_fmap. exists p.
    split; [done|]. by eapply list_elem_of_lookup_2.
Qed.

Lemma processors_ok_iff c ps : st_ok (tc_validate c) = true ->
  Forall (processor_ok (descriptors_of c)) ps <->
  Forall (fun p => mp_id p <> "" /\ mp_version p <> 0 /\ mp_inputs p <> [] /\ mp_outputs p <> []) ps /\
  Forall (fun p => NoDup (map pm_metric (mp_inputs p)) /\
    Forall (fun i => pm_metric i <> 0 /\ pm_semantic_version i <> 0 /\
      exists d, d ∈ tc_metrics c /\ md_id d = pm_metric i /\ md_semantic_version d = pm_semantic_version i)
      (mp_inputs p)) ps /\
  Forall (fun p => Forall (fun o => pm_metric o <> 0 /\ pm_semantic_version o <> 0 /\
      exists d, d ∈ tc_metrics c /\ md_id d = pm_metric o /\ md_collection_mode d = MCM_Derived /\
        md_semantic_version d = pm_semantic_version o /\ md_dependencies d ≡ₚ map pm_metric (mp_inputs p))
      (mp_outputs p)) ps.
Proof.
  intros Hv. rewrite <- !Forall_and. apply Forall_proper; [|done]. intros p. unfold processor_ok.
  assert (forall i, input_ok (descriptors_of c) i <-> pm_metric i <> 0 /\ pm_semantic_version i <> 0 /\
    exists d, d ∈ tc_metrics c /\ md_id d = pm_metric i /\ md_semantic_version d = pm_semantic_version i) as Hi.
  { intros i. unfold input_ok. setoid_rewrite (descriptors_of_spec c _ _ Hv). naive_solver. }
  assert (forall o, output_ok (descriptors_of c) (mp_inputs p) o <-> pm_metric o <> 0 /\ pm_semantic_version o <> 0 /\
    exists d, d ∈ tc_metrics c /\ md_id d = pm_metric o /\ md_collection_mode d = MCM_Derived /\
      md_semantic_version d = pm_semantic_version o /\ md_dependencies d ≡ₚ map pm_metric (mp_inputs p)) as Ho.
  { intros o. unfold output_ok. setoid_rewrite (descriptors_of_spec c _ _ Hv). naive_solver. }
  rewrite !Forall_forall. setoid_rewrite Hi. setoid_rewrite Ho. tauto.
Qed.

Lemma check_outputs_error ds index inputs seen producers outputs st :
  check_outputs ds index inputs seen producers outputs = inl st -> st_ok st = false.
Proof.
  revert seen producers. induction outputs as [|o outputs IH]; intros seen producers; cbn [check_outputs]; [done|].
  guard as G1; [by intros [= <-]|]. destruct (om_find _ _); [|by intros [= <-]].
  repeat (guard as G; [by intros [= <-]|]; clear G). apply IH.
Qed.

Lemma check_inputs_error ds seen inputs st : check_inputs ds seen inputs = Some st -> st_ok st = false.
Proof.
  revert seen. induction inputs as [|i inputs IH]; intros seen; cbn [check_inputs]; [done|].
  guard as G1; [by intros [= <-]|]. destruct (om_find _ _); [|by intros [= <-]].
  guard as G; [by intros [= <-]|]. apply IH.
Qed.

Lemma check_processors_error ds index ids producers processors :
  match check_processors ds index ids producers processors with inl st => st_ok st = false | inr _ => True end.
Proof.
  revert index ids producers. induction processors as [|[p|] processors IH]; intros index ids producers; cbn [check_processors]; try done.
  guard as G1; [done|]. guard as G2; [done|]. destruct (check_inputs _ _ _) eqn:Ei; [by eapply check_inputs_error|].
  destruct (check_outputs _ _ _ _ _ _) eqn:Eo; [by eapply check_outputs_error|].
  specialize (IH (S index) (mp_id p :: ids) l). by destruct (check_processors _ _ _ _ _) as [|[]].
Qed.

(** The validation of [rebuild] accepts exactly the well-formed graphs; the
    table it fills then maps every produced metric to its producer. *)
Lemma validation_exact c processors : st_ok (tc_validate c) = true ->
  match check_processors (descriptors_of c) 0 [] [] processors with
  | inl st => st_ok st = false /\ forall ps, processors = map Some ps -> ~ graph_wf c ps
  | inr (producers, ps) => processors = map Some ps /\
      (existsb (unproduced producers) (tc_metrics c) = false <-> graph_wf c ps) /\
      forall m k, om_find m producers = Some k <->
        exists j p, ps !! j = Some p /\ k = j /\ m ∈ map pm_metric (mp_outputs p)
  end.
Proof.
  intros Hv. pose proof (check_processors_iff (descriptors_of c) 0 [] [] processors) as Hiff.
  pose proof (check_processors_error (descriptors_of c) 0 [] [] processors) as Herr.
  pose proof (check_processors_spec (descriptors_of c) 0 [] [] processors) as Hspec.
  destruct (check_processors _ _ _ _ _) as [st|[producers ps]].
  - split; [done|]. intros ps -> Hwf. assert (is_inr (@inl Status (list (Z * nat) * list MetricProcessor) st) = true); [|done].
    apply Hiff. exists ps. destruct Hwf as [[W1 W2] W3 W4 W5 _]. split_and!; [done|done|..]; [|by apply processors_ok_iff|done|].
    + apply Forall_true. intros q. apply not_elem_of_nil.
    + by apply Forall_true.
  - destruct (Hspec producers ps eq_refl) as [-> Hprod]. clear Hspec Herr.
    assert (forall m k, om_find m producers = Some k <->
      exists j p, ps !! j = Some p /\ k = j /\ m ∈ map pm_metric (mp_outputs p)) as Hprod'.
    { intros m k. rewrite Hprod. cbn. naive_solver. }
    split_and!; [done| |done]. destruct (proj1 Hiff eq_refl) as (ps' & Heq & W1 & _ & W2 & W3 & _).
    apply (inj (map Some)) in Heq as <-. apply (processors_ok_iff c ps Hv) in W2 as (W4 & W5 & W6).
    assert (existsb (unproduced producers) (tc_metrics c) = false <->
      forall d, d ∈ tc_metrics c -> md_collection_mode d = MCM_Derived -> md_id d ∈ produced ps) as ->;
      [|split; [done|by intros []]].
    rewrite existsb_none. apply forall_proper. intros d.
    assert (unproduced producers d = false <-> (md_collection_mode d = MCM_Derived -> md_id d ∈ produced ps)) as ->; [|done].
    unfold unproduced, om_mem. rewrite produced_elem. destruct (om_find (md_id d) producers) as [k|] eqn:Ek; cbn; bprop.
    + apply Hprod' in Ek. naive_solver.
    + rewrite eq_None_not_Some in Ek. unfold is_Some in Ek. setoid_rewrite Hprod' in Ek. naive_solver.
Qed.

(** The order that [rebuild] computes, in terms of the processors. *)
Lemma ordered_levels producers ps :
  (forall m k, om_find m producers = Some k <->
     exists j p, ps !! j = Some p /\ k = j /\ m ∈ map pm_metric (mp_outputs p)) ->
  let '(edges, indegree) := build_edges producers (map mp_inputs ps) in
  match order_nodes (map mp_id ps) edges indegree with
  | inl _ => ~ exists rank, derivation_levels ps rank
  | inr nodes =>
      if (length nodes =? length ps)%nat
      then (exists rank, derivation_levels ps rank) /\
        map pgn_processor (omap (node_of ps) nodes) ≡ₚ ps /\
        Forall (fun nd => 1 <= pgn_depth nd <= 4) (omap (node_of ps) nodes) /\
        forall before nd after, omap (node_of ps) nodes = before ++ nd :: after ->
          (forall x, x ∈ omap (node_of ps) nodes -> feeds (pgn_processor x) (pgn_processor nd) ->
             x ∈ before /\ pgn_depth x < pgn_depth nd) /\
          (pgn_depth nd = 1 \/ exists x, x ∈ before /\ feeds (pgn_processor x) (pgn_processor nd) /\
             pgn_depth nd = pgn_depth x + 1)
      else ~ exists rank, derivation_levels ps rank
  end.
Proof.
  intros Hprod. pose proof (levels_layering producers ps Hprod) as Hlev. cbv zeta in Hlev.
  pose proof (build_edges_ok producers (map mp_inputs ps)) as Hg. rewrite length_map in Hg.
  destruct (build_edges producers (map mp_inputs ps)) as [edges indegree].
  specialize (Hg ltac:(intros m k (j & p & Hp & -> & _)%Hprod; by eapply lookup_lt_Some)).
  pose proof (order_nodes_spec _ _ (map mp_id ps) _ _ Hg) as Hord.
  destruct (order_nodes _ _ _) as [early|nodes].
  { intros (rank & [Hlay Hmax]%Hlev). destruct (Hord rank Hlay) as (x & Hx & H4). specialize (Hmax x Hx). lia. }
  destruct (length nodes =? length ps)%nat; [|intros (rank & [Hlay _]%Hlev); by apply Hord in Hlay].
  destruct Hord as (Hperm & Hdep & Hbefore).
  split; [apply (graph_ranked ps nodes _ Hperm Hdep Hbefore Hlev)|].
  by apply (published_order producers ps nodes Hprod).
Qed.

(** ** Theorem *)

(** C37: for every catalog, generation and list of processors, [rebuild]
    succeeds if and only if the catalog is valid, the generation is neither
    zero nor older than the current one, no pointer is null, the processors
    are well formed for the catalog ([graph_wf]) and can be ranked from 1 to 4
    with every producer below its consumers.  A failed rebuild keeps the
    current snapshot.  A successful one publishes all the processors, each
    after its producers, at the depth one if nothing feeds it and otherwise
    one more than the deepest of its producers. *)
Theorem processor_graph_exact current c generation processors :
  let '(st, snapshot) := rebuild current c generation processors in
  (st_ok st = true <->
     st_ok (tc_validate c) = true /\ generation <> 0 /\ pgs_catalog_generation current <= generation /\
     exists ps, processors = map Some ps /\ graph_wf c ps /\ exists rank, derivation_levels ps rank) /\
  (st_ok st = false -> snapshot = current) /\
  (st_ok st = true -> pgs_catalog_generation snapshot = generation /\
     map (fun nd => Some (pgn_processor nd)) (pgs_nodes snapshot) ≡ₚ processors /\
     Forall (fun nd => 1 <= pgn_depth nd <= 4) (pgs_nodes snapshot) /\
     forall before nd after, pgs_nodes snapshot = before ++ nd :: after ->
       (forall x, x ∈ pgs_nodes snapshot -> feeds (pgn_processor x) (pgn_processor nd) ->
          x ∈ before /\ pgn_depth x < pgn_depth nd) /\
       (pgn_depth nd = 1 \/ exists x, x ∈ before /\ feeds (pgn_processor x) (pgn_processor nd) /\
          pgn_depth nd = pgn_depth x + 1)).
Proof.
  unfold rebuild. destruct (st_ok (tc_validate c)) eqn:Hv; cbn [negb orb]; [|by split_and!; [naive_solver| |]].
  destruct (Z.eqb_spec generation 0) as [->|Hgen]; [by split_and!; [naive_solver| |]|]. pose proof (validation_exact c processors Hv) as Hval.
  destruct (check_processors _ _ _ _ _) as [st|[producers ps]].
  { destruct Hval as [Hst Hno]. split_and!; [|done|congruence]. split; [congruence|].
    intros (_ & _ & _ & ps & Hps & Hwf & _). by apply Hno in Hwf. }
  destruct Hval as (-> & Hwf & Hprod).
  assert (forall qs, map Some ps = map Some qs -> qs = ps) as Hinj by (intros qs Hqs; by apply (inj (map Some)) in Hqs).
  destruct (existsb _ _) eqn:Eu.
  { split_and!; [|done|done]. split; [done|]. intros (_ & _ & _ & qs & ->%Hinj & Hq & _). by apply Hwf in Hq. }
  pose proof (proj1 Hwf eq_refl) as Hg. clear Hwf Eu.
  pose proof (ordered_levels producers ps Hprod) as Hord.
  destruct (build_edges producers (map mp_inputs ps)) as [edges indegree].
  destruct (order_nodes _ _ _) as [early|nodes].
  { split_and!; [|done|done]. split; [done|]. intros (_ & _ & _ & qs & ->%Hinj & _ & Hr). by apply Hord in Hr. }
  destruct (length nodes =? length ps)%nat; cbn [negb].
  2:{ split_and!; [|done|done]. split; [done|]. intros (_ & _ & _ & qs & ->%Hinj & _ & Hr). by apply Hord in Hr. }
  guard as Gc; bprop in Gc.
  { split_and!; [|done|done]. split; [done|]. intros (_ & _ & Hc & _). lia. }
  destruct Hord as (Hrank & Hperm & Hdep & Hnodes). change (st_ok st_success) with true.
  split_and!; [|done|].
  - split; [intros _|done]. split_and!; [done|done|lia|]. exists ps. split_and!; done.
  - intros _. cbn [pgs_catalog_generation pgs_nodes]. split_and!; [done| |done|done].
    apply (Permutation_map Some) in Hperm. by rewrite map_map in Hperm.
Qed.

(** ** Example: a rate derived from a delta derived from a raw counter,
    registered in the wrong order *)

Definition derived_metric (id : Z) (name : string) (mode : MetricCollectionMode) (deps : list Z) : MetricDescriptor :=
  mkMetricDescriptor id name MVK_Uint64 "count" MT_Gauge EK_Device mode 100 100 300 false true RL_Conditional 1 true deps.
Definition sample_derived_target : TargetCatalog :=
  mkTargetCatalog 1 TK_Emu MCS_Ready
    [derived_metric 1 "raw" MCM_Poll []; derived_metric 2 "delta" MCM_Derived [1]; derived_metric 3 "rate" MCM_Derived [2]]
    (tc_health (tc_blocked TK_Emu)).
Definition sample_processor (id : string) (input output : Z) : MetricProcessor :=
  mkProcessor id 1 [mkProcessorMetric input 1] [mkProcessorMetric output 1] (fun _ _ => mkEvaluation st_success []).
Definition sample_processors : list MetricProcessor := [sample_processor "a" 2 3; sample_processor "b" 1 2].

Lemma processor_graph_exact_witness :
  let '(st, snapshot) := rebuild graph_snapshot_default sample_derived_target 1 (map Some sample_processors) in
  map pgn_depth (pgs_nodes snapshot) = [1; 2] /\ graph_wf sample_derived_target sample_processors /\
  map (fun nd => Some (pgn_processor nd)) (pgs_nodes snapshot) ≡ₚ map Some sample_processors.
Proof.
  pose proof (processor_graph_exact graph_snapshot_default sample_derived_target 1 (map Some sample_processors)) as H.
  assert (st_ok (fst (rebuild graph_snapshot_default sample_derived_target 1 (map Some sample_processors))) = true) as Hst
    by (vm_compute; reflexivity).
  assert (map pgn_depth (pgs_nodes (snd (rebuild graph_snapshot_default sample_derived_target 1 (map Some sample_processors))))
    = [1; 2]) as Hd by (vm_compute; reflexivity).
  destruct (rebuild _ _ _ _) as [st snapshot]. cbn [fst snd] in Hst, Hd. destruct H as (H1 & _ & H2).
  split; [exact Hd|]. split; [|apply H2, Hst]. apply H1 in Hst as (_ & _ & _ & ps & Hps & Hwf & _).
  apply (inj (map Some)) in Hps as <-. exact Hwf.
Defined.

(** Two processors that feed each other are refused. *)
Example processor_cycle_refused :
  let t := mkTargetCatalog 1 TK_Emu MCS_Ready
             [derived_metric 2 "delta" MCM_Derived [3]; derived_metric 3 "rate" MCM_Derived [2]]
             (tc_health (tc_blocked TK_Emu)) in
  rebuild graph_snapshot_default t 1 [Some (sample_processor "a" 2 3); Some (sample_processor "b" 3 2)] =
  (err_status PDCM_STATUS_UNSUPPORTED "processor dependency graph contains a cycle", graph_snapshot_default).
Proof. vm_compute. reflexivity. Qed.
