(* ===== verification/Executor.v ===== *)
(** The processor executor (src/product/src/metrics/processor.hpp and .cpp,
    [ProcessorExecutor]): a bounded, deduplicating queue of evaluation tasks
    whose results are checked against the processor's contract and committed.

    [runNext] pops a task, evaluates it without the queue's mutex, and then
    remembers its key; it is split at those points ([run_begin], [run_task],
    [remember]), so that calls of [schedule] can fall in between.  It reads the
    catalog generation twice and then commits, while other threads may activate
    a catalog: [run_task] takes the two generations it reads ([g1], [g2]) and
    the data manager at the commit as arguments.

    [ProcessorContract] is the interface between the executor and a processor:
    what [evaluate] owes on a task that [schedule] admits. *)
From stdpp Require Import pretty.
From S2P Require Import Prelude Containers Common Provider Catalog EventStore DataStore ProcessorGraph.
Local Open Scope string_scope.
Local Open Scope list_scope.
Open Scope Z_scope.
Open Scope pdcm_scope.

(** ** Data *)

Record ProcessorExecutorLimits := mkExecutorLimits {
  max_queued_tasks : Z; max_queue_bytes : Z; max_recent_keys : Z }.
Definition executor_limits_default : ProcessorExecutorLimits := mkExecutorLimits 256 (4 * 1024 * 1024) 4096.

Definition pel_validate (l : ProcessorExecutorLimits) : Status :=
  if (max_queued_tasks l =? 0) || (max_queue_bytes l =? 0) || (max_recent_keys l =? 0)
  then invalid_argument "processor executor limits must be non-zero"
  else st_success.

Record Task := mkTask {
  task_processor : MetricProcessor;
  task_context : ProcessorContext;
  task_snapshot : list Observation;
  task_dedup_key : string;
  task_bytes : Z }.

Record ProcessorExecutor := mkExecutor {
  pex_limits_ : ProcessorExecutorLimits;
  pex_queue_ : list Task;
  pex_queued_bytes_ : Z;
  pex_queued_keys_ : list (string * unit);
  pex_recent_order_ : list string;
  pex_recent_keys_ : list (string * unit) }.

(** The constructor throws on invalid limits. *)
Definition pex_construct (limits : ProcessorExecutorLimits) : string + ProcessorExecutor :=
  let status := pel_validate limits in
  if negb (st_ok status) then inl (st_message status)
  else inr (mkExecutor limits [] 0 [] [] []).

Record ProcessorScheduleResult := mkScheduleResult { psr_status : Status; psr_scheduled : bool }.
Record ProcessorRunResult := mkRunResult {
  prr_status : Status; prr_ran : bool; prr_discarded : bool; prr_commit : option DataCommitResult }.

Definition readableProcessorStatus (s : Status) : bool :=
  st_ok s || (st_code s ==? PDCM_STATUS_PARTIAL_RESULT).

(** ** Keys *)

(** [dedupKey]: the decimal fields separated by colons. *)
Definition dedupKey (p : MetricProcessor) (c : ProcessorContext) (items : list Observation) : string :=
  let inputs := std_sort (map (fun o => (obs_metric o, obs_commit_epoch o)) items) in
  foldl (fun key input => key +:+ ":" +:+ pretty input.1 +:+ "@" +:+ pretty input.2)
    (mp_id p +:+ ":" +:+ pretty (entity_kind_value (er_kind (pctx_entity c))) +:+ ":"
     +:+ pretty (er_id (pctx_entity c)) +:+ ":" +:+ pretty (er_generation (pctx_entity c)) +:+ ":"
     +:+ pretty (pctx_catalog_generation c)) inputs.

(** [remember]: the recent keys in order of arrival, oldest dropped first. *)
Fixpoint forget_oldest (limit : Z) (order : list string) (keys : list (string * unit))
    : list string * list (string * unit) :=
  match order with
  | [] => ([], keys)
  | k :: order' => if limit <? zlen order then forget_oldest limit order' (om_erase k keys) else (order, keys)
  end.

Definition remember (e : ProcessorExecutor) (key : string) : ProcessorExecutor :=
  if om_mem key (pex_recent_keys_ e) then e
  else
  let '(order, keys) := forget_oldest (max_recent_keys (pex_limits_ e)) (pex_recent_order_ e ++ [key])
                          (om_set key tt (pex_recent_keys_ e)) in
  mkExecutor (pex_limits_ e) (pex_queue_ e) (pex_queued_bytes_ e) (pex_queued_keys_ e) order keys.

(** ** Scheduling *)

Definition context_bad (c : ProcessorContext) : bool :=
  (er_kind (pctx_entity c) !=? EK_Device) || (er_generation (pctx_entity c) =? 0)
  || (pctx_catalog_generation c =? 0) || (pctx_evaluated_monotonic_time_ns c <? 0)
  || (pctx_derivation_depth c =? 0) || (4 <? pctx_derivation_depth c).

Definition input_bad (c : ProcessorContext) (o : Observation) : bool :=
  (obs_entity o !=? pctx_entity c) || negb (obs_catalog_generation o =? pctx_catalog_generation c)
  || (obs_commit_epoch o =? 0) || negb (st_ok (validateObservation o)).

Section Executor.
Context `{Layout}.

Definition processorObservationBytes (o : Observation) : Z :=
  sizeof_Observation + str_size (src_provider (obs_source o)) + str_size (src_native_source (obs_source o))
  + str_size (st_message (em_status (obs_error o))) + str_size (dm_processor_id (obs_derivation o))
  + zlen (dm_input_sequences (obs_derivation o)) * 8
  + match obs_value o with Some v => valueBytes v | None => 0 end.

(** [taskBytes] saturates. *)
Fixpoint add_item_bytes (bytes : Z) (items : list Observation) : Z :=
  match items with
  | [] => bytes
  | o :: items' =>
      if size_sub u64_max (processorObservationBytes o) <? bytes then u64_max
      else add_item_bytes (bytes + processorObservationBytes o) items'
  end.
Definition taskBytes (p : MetricProcessor) (items : list Observation) : Z :=
  add_item_bytes (sizeof_Task + str_size (mp_id p)) items.

Definition schedule (e : ProcessorExecutor) (processor : option MetricProcessor) (c : ProcessorContext)
    (items : list Observation) : ProcessorScheduleResult * ProcessorExecutor :=
  let answer status := (mkScheduleResult status false, e) in
  match processor with
  | None => answer (invalid_argument "processor task is malformed")
  | Some p =>
      if str_empty (mp_id p) || (mp_version p =? 0) || context_bad c || is_nil items
      then answer (invalid_argument "processor task is malformed")
      else if existsb (input_bad c) items
      then answer (err_status PDCM_STATUS_STALE_GENERATION "processor input snapshot is inconsistent")
      else
      let bytes := taskBytes p items in
      if max_queue_bytes (pex_limits_ e) <? bytes
      then answer (err_status PDCM_STATUS_RESOURCE_EXHAUSTED "processor task exceeds queue byte limit")
      else
      let key := dedupKey p c items in
      if om_mem key (pex_queued_keys_ e) || om_mem key (pex_recent_keys_ e) then answer st_success
      else if (max_queued_tasks (pex_limits_ e) <=? zlen (pex_queue_ e))
              || (size_sub (max_queue_bytes (pex_limits_ e)) (pex_queued_bytes_ e) <? bytes)
      then answer (err_status PDCM_STATUS_RESOURCE_EXHAUSTED "processor queue limit exceeded")
      else
      (mkScheduleResult st_success true,
       mkExecutor (pex_limits_ e) (pex_queue_ e ++ [mkTask p c items key bytes]) (pex_queued_bytes_ e + bytes)
         (om_set key tt (pex_queued_keys_ e)) (pex_recent_order_ e) (pex_recent_keys_ e))
  end.

(** ** Running *)

(** The checks of one output; [seen] are the metrics of the previous ones. *)
Definition output_bad (p : MetricProcessor) (c : ProcessorContext) (expected : list (Z * Z)) (seen : list Z)
    (o : Observation) : bool :=
  match om_find (obs_metric o) expected with
  | None => true
  | Some version =>
      bool_decide (obs_metric o ∈ seen) || (obs_entity o !=? pctx_entity c)
      || negb (obs_catalog_generation o =? pctx_catalog_generation c) || negb (obs_commit_epoch o =? 0)
      || negb (obs_metric_semantic_version o =? version)
      || (dm_processor_id (obs_derivation o) !=? mp_id p)
      || negb (dm_processor_version (obs_derivation o) =? mp_version p)
      || negb (dm_depth (obs_derivation o) =? pctx_derivation_depth c)
      || negb (st_ok (validateObservation o))
  end.

Fixpoint outputs_bad (p : MetricProcessor) (c : ProcessorContext) (expected : list (Z * Z)) (seen : list Z)
    (outputs : list Observation) : bool :=
  match outputs with
  | [] => false
  | o :: outputs' =>
      output_bad p c expected seen o || outputs_bad p c expected (obs_metric o :: seen) outputs'
  end.

Definition expected_versions (p : MetricProcessor) : list (Z * Z) :=
  foldl (fun m o => om_emplace (pm_metric o) (pm_semantic_version o) m) [] (mp_outputs p).

Definition run_begin (e : ProcessorExecutor) : option (Task * ProcessorExecutor) :=
  match pex_queue_ e with
  | [] => None
  | task :: queue =>
      Some (task, mkExecutor (pex_limits_ e) queue (pex_queued_bytes_ e - task_bytes task)
                    (om_erase (task_dedup_key task) (pex_queued_keys_ e)) (pex_recent_order_ e) (pex_recent_keys_ e))
  end.

Definition run_task (task : Task) (g1 g2 : Z) (dm : DataManager) : ProcessorRunResult * DataManager :=
  let c := task_context task in
  let p := task_processor task in
  let failed status discarded := (mkRunResult status true discarded None, dm) in
  if negb (g1 =? pctx_catalog_generation c)
  then failed (err_status PDCM_STATUS_STALE_GENERATION "processor task catalog is stale") true
  else
  let evaluation := mp_evaluate p c (task_snapshot task) in
  if negb (readableProcessorStatus (pev_status evaluation)) then failed (pev_status evaluation) false
  else if negb (zlen (pev_outputs evaluation) =? zlen (mp_outputs p))
  then failed (err_status PDCM_STATUS_INTERNAL "processor output count violates contract") false
  else if outputs_bad p c (expected_versions p) [] (pev_outputs evaluation)
  then failed (err_status PDCM_STATUS_INTERNAL "processor output violates contract") false
  else if negb (g2 =? pctx_catalog_generation c)
  then failed (err_status PDCM_STATUS_STALE_GENERATION "processor output catalog became stale") true
  else
  let '(commit, dm') := dm_commit dm (pev_outputs evaluation) in
  (mkRunResult (dcr_status commit) true false (Some commit), dm').

(** [runNext] without a concurrent [schedule]. *)
Definition runNext (e : ProcessorExecutor) (g1 g2 : Z) (dm : DataManager)
    : ProcessorRunResult * ProcessorExecutor * DataManager :=
  match run_begin e with
  | None => (mkRunResult st_success false false None, e, dm)
  | Some (task, e1) =>
      let '(result, dm') := run_task task g1 g2 dm in
      (result, remember e1 (task_dedup_key task), dm')
  end.

Definition queuedTasks (e : ProcessorExecutor) : Z := zlen (pex_queue_ e).
Definition queuedBytes (e : ProcessorExecutor) : Z := pex_queued_bytes_ e.

(** ** The contract of a processor *)

(** A task the executor admits for [p]. *)
Definition task_admitted (c : ProcessorContext) (items : list Observation) : Prop :=
  context_bad c = false /\ items <> [] /\ Forall (fun o => input_bad c o = false) items.

(** The outputs a processor owes: one per declared output, each a valid
    uncommitted observation of the task's entity and generation, with the
    processor's provenance. *)
Definition output_conforms (p : MetricProcessor) (c : ProcessorContext) (m : ProcessorMetric) (o : Observation) : Prop :=
  obs_metric o = pm_metric m /\ obs_metric_semantic_version o = pm_semantic_version m /\
  obs_entity o = pctx_entity c /\ obs_catalog_generation o = pctx_catalog_generation c /\ obs_commit_epoch o = 0 /\
  dm_processor_id (obs_derivation o) = mp_id p /\ dm_processor_version (obs_derivation o) = mp_version p /\
  dm_depth (obs_derivation o) = pctx_derivation_depth c /\ st_ok (validateObservation o) = true.

Class ProcessorContract (p : MetricProcessor) : Prop := {
  contract_outputs : NoDup (map pm_metric (mp_outputs p));
  contract_evaluate : forall c items, task_admitted c items ->
    readableProcessorStatus (pev_status (mp_evaluate p c items)) = true /\
    Forall2 (output_conforms p c) (mp_outputs p) (pev_outputs (mp_evaluate p c items)) }.

(** ** Invariant *)

Record executor_wf (e : ProcessorExecutor) : Prop := {
  ew_limits : 0 <= max_queued_tasks (pex_limits_ e) /\ 0 <= max_queue_bytes (pex_limits_ e) <= u64_max /\
    1 <= max_recent_keys (pex_limits_ e);
  ew_queue : zlen (pex_queue_ e) <= max_queued_tasks (pex_limits_ e);
  ew_bytes : pex_queued_bytes_ e = sum_by task_bytes (pex_queue_ e) /\
    pex_queued_bytes_ e <= max_queue_bytes (pex_limits_ e);
  ew_tasks : Forall (fun t => 0 <= task_bytes t /\ task_admitted (task_context t) (task_snapshot t) /\
    task_dedup_key t = dedupKey (task_processor t) (task_context t) (task_snapshot t)) (pex_queue_ e);
  ew_keys : om_wf (pex_queued_keys_ e) /\ NoDup (map task_dedup_key (pex_queue_ e)) /\
    (forall k, om_mem k (pex_queued_keys_ e) = true <-> k ∈ map task_dedup_key (pex_queue_ e));
  ew_recent : om_wf (pex_recent_keys_ e) /\ NoDup (pex_recent_order_ e) /\
    zlen (pex_recent_order_ e) <= max_recent_keys (pex_limits_ e) /\
    (forall k, om_mem k (pex_recent_keys_ e) = true <-> k ∈ pex_recent_order_ e) }.

(** ** Interleavings of [schedule] and [runNext] *)

Inductive exec_op :=
  | XSchedule (p : option MetricProcessor) (c : ProcessorContext) (items : list Observation)
  | XBegin
  | XEnd.

(** [run_mutex_] admits one run at a time. *)
Definition exec_step (s : ProcessorExecutor * option Task) (op : exec_op) : ProcessorExecutor * option Task :=
  match op, s with
  | XSchedule p c items, (e, running) => (snd (schedule e p c items), running)
  | XBegin, (e, None) => match run_begin e with Some (task, e1) => (e1, Some task) | None => s end
  | XEnd, (e, Some task) => (remember e (task_dedup_key task), None)
  | _, _ => s
  end.

(** ** Lemmas *)

Lemma forget_oldest_spec limit order keys :
  1 <= limit -> om_wf keys -> NoDup order -> (forall k, om_mem k keys = true <-> k ∈ order) ->
  let '(order', keys') := forget_oldest limit order keys in
  om_wf keys' /\ NoDup order' /\ zlen order' <= limit /\ (forall k, om_mem k keys' = true <-> k ∈ order') /\
  (order' = [] -> order = []) /\ exists dropped, order = dropped ++ order'.
Proof.
  intros Hl. revert keys. induction order as [|x order IH]; intros keys Hwf Hnd Hk; cbn [forget_oldest].
  - split_and!; auto; [rewrite zlen_nil; lia|]. by exists [].
  - guard as G; bprop in G.
    + assert (order <> []) as Hne by (intros ->; rewrite zlen_cons, zlen_nil in G; lia).
      apply NoDup_cons in Hnd as [Hx Hnd]. specialize (IH (om_erase x keys) (om_wf_erase x keys Hwf) Hnd).
      destruct (forget_oldest limit order (om_erase x keys)) as [order' keys'].
      destruct IH as (I1 & I2 & I3 & I4 & I5 & dropped & Heq).
      { intros k. rewrite om_mem_erase, Hk, elem_of_cons by done. split; [naive_solver|]. intros Hin. split; [|by right].
        intros ->. done. }
      split_and!; auto; [naive_solver|]. exists (x :: dropped). by rewrite Heq.
    + split_and!; auto. by exists [].
Qed.

Lemma remember_wf e key : executor_wf e -> executor_wf (remember e key) /\ key ∈ pex_recent_order_ (remember e key).
Proof.
  intros [L1 Q1 B1 T1 K1 (R1 & R2 & R3 & R4)]. unfold remember. destruct (om_mem key (pex_recent_keys_ e)) eqn:Em.
  { split; [by split|]. by apply R4. }
  assert (key ∉ pex_recent_order_ e) as Hnew by (rewrite <- R4; by rewrite Em).
  pose proof (forget_oldest_spec (max_recent_keys (pex_limits_ e)) (pex_recent_order_ e ++ [key])
    (om_set key tt (pex_recent_keys_ e)) ltac:(lia)) as Hf.
  destruct (forget_oldest _ _ _) as [order keys]. destruct Hf as (F1 & F2 & F3 & F4 & F5 & dropped & Heq).
  { by apply om_wf_set. }
  { apply NoDup_app. split_and!; [done| |apply NoDup_singleton]. intros x Hx ->%list_elem_of_singleton. done. }
  { intros k. rewrite om_mem_set, R4, elem_of_app, list_elem_of_singleton. tauto. }
  split; [by split|]. cbn [pex_recent_order_].
  destruct order as [|x order _] using rev_ind.
  - specialize (F5 eq_refl). by destruct (pex_recent_order_ e).
  - rewrite app_assoc in Heq. apply app_inj_tail in Heq as [_ <-]. apply elem_of_app. right. left.
Qed.

Lemma processorObservationBytes_nonneg o : 0 <= processorObservationBytes o.
Proof.
  assert (0 < sizeof_Observation) by (pose proof layout_pos as L; rewrite Forall_forall in L; apply L; set_solver).
  unfold processorObservationBytes. pose proof (zlen_nonneg (dm_input_sequences (obs_derivation o))).
  destruct (obs_value o) as [[]|]; unfold valueBytes, str_size; lia.
Qed.

Lemma add_item_bytes_nonneg items bytes : 0 <= bytes -> 0 <= add_item_bytes bytes items.
Proof.
  revert bytes. induction items as [|o items IH]; intros bytes Hb; cbn [add_item_bytes]; [done|].
  guard as E; [unfold u64_max; lia|]. apply IH. pose proof (processorObservationBytes_nonneg o). lia.
Qed.

Lemma taskBytes_nonneg p items : 0 <= taskBytes p items.
Proof.
  assert (0 < sizeof_Task) by (pose proof layout_pos as L; rewrite Forall_forall in L; apply L; set_solver).
  apply add_item_bytes_nonneg. unfold str_size. lia.
Qed.

(** What a refused and an admitted [schedule] do. *)
Lemma schedule_cases e op c items :
  (psr_scheduled (fst (schedule e op c items)) = false /\ snd (schedule e op c items) = e) \/
  exists p, let key := dedupKey p c items in let bytes := taskBytes p items in
    op = Some p /\ task_admitted c items /\ om_mem key (pex_queued_keys_ e) = false /\
    om_mem key (pex_recent_keys_ e) = false /\ zlen (pex_queue_ e) < max_queued_tasks (pex_limits_ e) /\
    bytes <= size_sub (max_queue_bytes (pex_limits_ e)) (pex_queued_bytes_ e) /\
    schedule e op c items =
      (mkScheduleResult st_success true,
       mkExecutor (pex_limits_ e) (pex_queue_ e ++ [mkTask p c items key bytes]) (pex_queued_bytes_ e + bytes)
         (om_set key tt (pex_queued_keys_ e)) (pex_recent_order_ e) (pex_recent_keys_ e)).
Proof.
  destruct op as [p|]; [|by left]. unfold schedule.
  guard as G1; [by left|]. guard as G2; [by left|]. cbv zeta. guard as G3; [by left|]. guard as G4; [by left|].
  guard as G5; [by left|]. right. exists p. bprop in G1. bprop in G3. bprop in G4. bprop in G5.
  split_and!; try done; try naive_solver.
  split_and!; [naive_solver|naive_solver|]. apply Forall_forall. intros o Ho. apply not_true_iff_false. intros Hb.
  enough (existsb (input_bad c) items = true) by congruence. apply existsb_exists. exists o.
  by rewrite <- list_elem_of_In.
Qed.

Lemma schedule_wf e op c items : executor_wf e -> executor_wf (snd (schedule e op c items)).
Proof.
  intros Hwf. destruct (schedule_cases e op c items) as [[_ ->]|(p & _ & Ha & K1 & K2 & Hq & Hb & ->)]; [done|].
  destruct Hwf as [L1 Q1 B1 T1 (W1 & W2 & W3) R1]. cbn [snd].
  assert (0 <= pex_queued_bytes_ e).
  { destruct B1 as [-> _]. clear - T1. induction T1 as [|t q (? & _) _ IH]; rewrite ?sum_by_cons; [done|lia]. }
  rewrite size_sub_small in Hb by lia. pose proof (taskBytes_nonneg p items).
  split; cbn [pex_limits_ pex_queue_ pex_queued_bytes_ pex_queued_keys_ pex_recent_order_ pex_recent_keys_]; auto.
  - rewrite zlen_app, zlen_cons, zlen_nil. lia.
  - rewrite sum_by_app. destruct B1 as [<- B2]. unfold sum_by at 1. cbn [foldr task_bytes]. lia.
  - apply Forall_app. split; [done|]. by apply Forall_singleton.
  - rewrite map_app. cbn [map task_dedup_key]. split_and!; [by apply om_wf_set| |].
    + apply NoDup_app. split_and!; [done| |apply NoDup_singleton]. intros k Hk ->%list_elem_of_singleton.
      apply W3 in Hk. congruence.
    + intros k. rewrite om_mem_set, W3, elem_of_app, list_elem_of_singleton. tauto.
Qed.

Lemma run_begin_wf e task e1 : executor_wf e -> run_begin e = Some (task, e1) ->
  executor_wf e1 /\ task_admitted (task_context task) (task_snapshot task).
Proof.
  intros [L1 Q1 B1 T1 (W1 & W2 & W3) R1]. unfold run_begin. destruct (pex_queue_ e) as [|t queue] eqn:Eq; [done|].
  intros [= -> <-]. apply Forall_cons in T1 as [(Tb & Ta & _) T1]. split; [|done].
  rewrite zlen_cons in Q1. cbn [sum_by foldr] in B1. cbn [map] in W2, W3. apply NoDup_cons in W2 as [W2 W4].
  split; cbn [pex_limits_ pex_queue_ pex_queued_bytes_ pex_queued_keys_ pex_recent_order_ pex_recent_keys_]; auto.
  - lia.
  - unfold sum_by. lia.
  - split_and!; [by apply om_wf_erase|done|]. intros k. rewrite om_mem_erase, W3, elem_of_cons by done.
    split; [naive_solver|]. intros Hk. split; [|by right]. by intros ->.
Qed.

Lemma exec_step_wf s op : executor_wf (fst s) -> executor_wf (fst (exec_step s op)).
Proof.
  destruct s as [e running]. intros Hwf. destruct op as [p c items| |]; cbn [exec_step fst].
  - by apply schedule_wf.
  - destruct running; [done|]. destruct (run_begin e) as [[task e1]|] eqn:E; [|done].
    by destruct (run_begin_wf e task e1 Hwf E).
  - destruct running; [|done]. by apply remember_wf.
Qed.

Lemma remember_limits e key : pex_limits_ (remember e key) = pex_limits_ e.
Proof. unfold remember. guard as E; [done|]. by destruct (forget_oldest _ _ _). Qed.

Lemma exec_step_limits s op : pex_limits_ (fst (exec_step s op)) = pex_limits_ (fst s).
Proof.
  destruct s as [e running], op as [p c items| |]; cbn [exec_step fst].
  - destruct (schedule_cases e p c items) as [[_ ->]|(p' & _ & _ & _ & _ & _ & _ & ->)]; done.
  - destruct running; [done|]. unfold run_begin. by destruct (pex_queue_ e).
  - destruct running; [|done]. apply remember_limits.
Qed.

Lemma exec_steps_wf ops s : executor_wf (fst s) ->
  executor_wf (fst (foldl exec_step s ops)) /\ pex_limits_ (fst (foldl exec_step s ops)) = pex_limits_ (fst s).
Proof.
  revert s. induction ops as [|op ops IH]; intros s Hwf; cbn [foldl]; [done|].
  destruct (IH (exec_step s op) (exec_step_wf s op Hwf)) as [I1 I2]. split; [done|]. by rewrite I2, exec_step_limits.
Qed.

Lemma pex_construct_wf limits e :
  0 <= max_queued_tasks limits -> 0 <= max_queue_bytes limits <= u64_max -> 0 <= max_recent_keys limits ->
  pex_construct limits = inr e -> executor_wf e /\ pex_limits_ e = limits.
Proof.
  intros H1 H2 H3. unfold pex_construct, pel_validate.
  destruct ((max_queued_tasks limits =? 0) || _ || _) eqn:G; [done|]. intros [= <-]. bprop in G. split; [|done].
  split; cbn [pex_limits_ pex_queue_ pex_queued_bytes_ pex_queued_keys_ pex_recent_order_ pex_recent_keys_];
    split_and?; auto using om_wf_nil, NoDup_nil_2; try (rewrite zlen_nil); try lia; try done.
  all: intros k; split; [done|inversion 1].
Qed.

(** The checks of [runNext] on the outputs. *)
Lemma expected_versions_spec p m v : om_find m (expected_versions p) = Some v ->
  exists d, d ∈ mp_outputs p /\ pm_metric d = m /\ pm_semantic_version d = v.
Proof.
  unfold expected_versions.
  assert (forall outs (acc : list (Z * Z)),
    om_find m (foldl (fun m0 o => om_emplace (pm_metric o) (pm_semantic_version o) m0) acc outs) = Some v ->
    om_find m acc = Some v \/ exists d, d ∈ outs /\ pm_metric d = m /\ pm_semantic_version d = v) as Hgen.
  { induction outs as [|d outs IH]; intros acc; cbn [foldl]; [by left|]. intros [Hf|(d' & Hd & ?)]%IH.
    - unfold om_emplace in Hf. guard Hf as E; [by left|].
      destruct (decide (pm_metric d = m)) as [<-|Hne].
      + rewrite om_find_set_eq in Hf. injection Hf as <-. right. exists d. split_and!; [left|done..].
      + rewrite om_find_set_ne in Hf by done. by left.
    - right. exists d'. split; [by right|done]. }
  intros Hf. by destruct (Hgen _ _ Hf).
Qed.

Lemma expected_versions_complete p d : NoDup (map pm_metric (mp_outputs p)) -> d ∈ mp_outputs p ->
  om_find (pm_metric d) (expected_versions p) = Some (pm_semantic_version d).
Proof.
  unfold expected_versions.
  assert (forall outs (acc : list (Z * Z)), NoDup (map pm_metric outs) ->
    (forall x, x ∈ outs -> om_find (pm_metric x) acc = None) ->
    (forall k w, om_find k acc = Some w ->
       om_find k (foldl (fun m0 o => om_emplace (pm_metric o) (pm_semantic_version o) m0) acc outs) = Some w) /\
    (d ∈ outs -> om_find (pm_metric d)
       (foldl (fun m0 o => om_emplace (pm_metric o) (pm_semantic_version o) m0) acc outs) = Some (pm_semantic_version d)))
    as Hgen.
  { induction outs as [|x outs IH]; intros acc Hnd Hn; cbn [foldl]; [split; [done|inversion 1]|].
    cbn [map] in Hnd. apply NoDup_cons in Hnd as [Hx Hnd].
    pose proof (Hn x ltac:(left)) as Hnx.
    assert (om_emplace (pm_metric x) (pm_semantic_version x) acc = om_set (pm_metric x) (pm_semantic_version x) acc) as Hem
      by (unfold om_emplace, om_mem; by rewrite Hnx).
    rewrite Hem. destruct (IH (om_set (pm_metric x) (pm_semantic_version x) acc) Hnd) as [I1 I2].
    { intros y Hy. rewrite om_find_set_ne; [apply Hn; by right|]. intros Heq. apply Hx. rewrite Heq.
      by apply list_elem_of_fmap_2. }
    split.
    - intros k w Hk. apply I1. rewrite om_find_set_ne; [done|]. intros <-. congruence.
    - intros [->|Hd]%elem_of_cons; [|by apply I2]. apply I1. apply om_find_set_eq. }
  intros Hnd Hd. by apply Hgen.
Qed.

Lemma output_bad_false p c seen o : output_bad p c (expected_versions p) seen o = false ->
  obs_metric o ∉ seen /\ exists m, m ∈ mp_outputs p /\ output_conforms p c m o.
Proof.
  unfold output_bad. destruct (om_find _ _) as [v|] eqn:Ef; [|done]. intros Hb. bprop in Hb.
  destruct (expected_versions_spec _ _ _ Ef) as (d & Hd & Hm & Hv). split; [tauto|]. exists d. split; [done|].
  unfold output_conforms. rewrite Hm, Hv. unfold st_ok. bprop. tauto.
Qed.

Lemma outputs_bad_false p c outputs seen : outputs_bad p c (expected_versions p) seen outputs = false ->
  NoDup (map obs_metric outputs) /\ (forall o, o ∈ outputs -> obs_metric o ∉ seen) /\
  Forall (fun o => exists m, m ∈ mp_outputs p /\ output_conforms p c m o) outputs.
Proof.
  revert seen. induction outputs as [|o outputs IH]; intros seen; cbn [outputs_bad map].
  { intros _. split_and!; [constructor|inversion 1|constructor]. }
  intros [Hb (I1 & I2 & I3)%IH]%orb_false_iff. apply output_bad_false in Hb as [B1 B2]. split_and!.
  - constructor; [|done]. intros (o' & Heq & Ho')%list_elem_of_fmap. apply (I2 o' Ho'). rewrite <- Heq. left.
  - intros o' [->|Ho']%elem_of_cons; [done|]. intros Hs. apply (I2 o' Ho'). by right.
  - by constructor.
Qed.

(** An output that conforms passes the checks. *)
Lemma outputs_bad_conforms p c ms outputs seen :
  NoDup (map pm_metric (mp_outputs p)) -> NoDup (map pm_metric ms) -> (forall m, m ∈ ms -> m ∈ mp_outputs p) ->
  (forall m, m ∈ ms -> pm_metric m ∉ seen) -> Forall2 (output_conforms p c) ms outputs ->
  outputs_bad p c (expected_versions p) seen outputs = false.
Proof.
  intros Hnd Hms Hin Hseen Hf. revert seen Hms Hin Hseen.
  induction Hf as [|m o ms outputs Hc _ IH]; intros seen Hms Hin Hseen; cbn [outputs_bad]; [done|].
  cbn [map] in Hms. apply NoDup_cons in Hms as [Hm Hms]. destruct Hc as (C1 & C2 & C3 & C4 & C5 & C6 & C7 & C8 & C9).
  apply orb_false_iff. split.
  - unfold output_bad. rewrite C1, expected_versions_complete by (try done; apply Hin; left).
    rewrite C9. bprop. split_and!; try done. apply Hseen. left.
  - apply IH; [done| |].
    + intros m' Hm'. apply Hin. by right.
    + intros m' Hm'. rewrite C1, elem_of_cons. intros [Heq|Hs].
      * apply Hm. rewrite <- Heq. by apply list_elem_of_fmap_2.
      * by apply (Hseen m'); [right|].
Qed.

(** ** Theorems *)

(** However [schedule] and [runNext] interleave, the queue stays within
    its task and byte limits, its byte counter is the sum of its tasks', no two
    queued tasks have the same key, every queued task has a consistent input
    snapshot, at most [max_recent_keys] keys are remembered, and a task whose
    key is queued or remembered is not queued again. *)
Theorem executor_bounded limits e0 ops :
  0 <= max_queued_tasks limits -> 0 <= max_queue_bytes limits <= u64_max -> 0 <= max_recent_keys limits ->
  pex_construct limits = inr e0 ->
  let e := fst (foldl exec_step (e0, None) ops) in
  queuedTasks e <= max_queued_tasks limits /\
  queuedBytes e = sum_by task_bytes (pex_queue_ e) /\ queuedBytes e <= max_queue_bytes limits /\
  NoDup (map task_dedup_key (pex_queue_ e)) /\
  Forall (fun t => task_admitted (task_context t) (task_snapshot t)) (pex_queue_ e) /\
  zlen (pex_recent_order_ e) <= max_recent_keys limits /\
  (forall p c items, dedupKey p c items ∈ map task_dedup_key (pex_queue_ e) ++ pex_recent_order_ e ->
     psr_scheduled (fst (schedule e (Some p) c items)) = false /\ snd (schedule e (Some p) c items) = e).
Proof.
  intros H1 H2 H3 Hc. destruct (pex_construct_wf limits e0 H1 H2 H3 Hc) as [Hwf Hl].
  destruct (exec_steps_wf ops (e0, None) Hwf) as [Hwf' Hl']. cbn [fst] in Hl'. rewrite Hl in Hl'. cbv zeta.
  destruct Hwf' as [_ Q [B1 B2] T (_ & K2 & K3) (_ & _ & R3 & R4)].
  set (e := fst (foldl exec_step (e0, None) ops)) in *. rewrite Hl' in *. split_and!; try done.
  - eapply Forall_impl; [exact T|]. by intros t (_ & ? & _).
  - intros p c items Hk. destruct (schedule_cases e (Some p) c items) as [?|(p' & [= <-] & _ & M1 & M2 & _)]; [done|].
    exfalso. apply elem_of_app in Hk as [Hk|Hk]; [apply K3 in Hk|apply R4 in Hk]; congruence.
Qed.

(** Running a task leaves the data manager alone unless both generation
    checks pass and the outputs are exactly the declared metrics, each a valid
    uncommitted observation of the task's entity, generation and depth with the
    processor's provenance; then it is the commit of those outputs.  A
    processor that keeps its contract is never refused while the catalog
    generation stands. *)
Theorem executor_run_exact task g1 g2 dm :
  let c := task_context task in
  let p := task_processor task in
  let outputs := pev_outputs (mp_evaluate p c (task_snapshot task)) in
  let r := fst (run_task task g1 g2 dm) in
  match prr_commit r with
  | Some commit =>
      g1 = pctx_catalog_generation c /\ g2 = pctx_catalog_generation c /\ prr_status r = dcr_status commit /\
      map obs_metric outputs ≡ₚ map pm_metric (mp_outputs p) /\
      Forall (fun o => exists m, m ∈ mp_outputs p /\ output_conforms p c m o) outputs /\
      (commit, snd (run_task task g1 g2 dm)) = dm_commit dm outputs
  | None => snd (run_task task g1 g2 dm) = dm /\ st_ok (prr_status r) = false
  end /\
  (ProcessorContract p -> task_admitted c (task_snapshot task) ->
   g1 = pctx_catalog_generation c -> g2 = pctx_catalog_generation c ->
   run_task task g1 g2 dm = (mkRunResult (dcr_status (fst (dm_commit dm outputs))) true false
                               (Some (fst (dm_commit dm outputs))), snd (dm_commit dm outputs))).
Proof.
  cbv zeta. split.
  - unfold run_task. guard as G1; [done|]. cbv zeta. guard as G2.
    { cbn [fst snd prr_commit prr_status]. split; [done|]. bprop in G2. unfold readableProcessorStatus in G2.
      by apply orb_false_iff in G2 as [? _]. }
    guard as G3; [done|]. guard as G4; [done|]. guard as G5; [done|].
    destruct (dm_commit dm _) as [commit dm'] eqn:Ec. cbn [fst snd prr_commit prr_status].
    bprop in G1. bprop in G3. bprop in G5. apply outputs_bad_false in G4 as (O1 & _ & O3).
    split_and!; try done. apply submseteq_length_Permutation.
    + apply NoDup_submseteq; [done|]. intros m (o & -> & Ho)%list_elem_of_fmap.
      rewrite Forall_forall in O3. destruct (O3 o Ho) as (d & Hd & -> & _). by apply list_elem_of_fmap_2.
    + unfold zlen in G3. rewrite !length_map. lia.
  - intros [Hnd He] Ha -> ->. destruct (He _ _ Ha) as [E1 E2]. unfold run_task. rewrite Z.eqb_refl. cbv zeta. cbn [negb].
    rewrite E1. cbn [negb]. unfold zlen. rewrite <- (Forall2_length _ _ _ E2), Z.eqb_refl. cbn [negb].
    rewrite (outputs_bad_conforms _ _ (mp_outputs (task_processor task))) by (try done; intros m _; inversion 1).
    by destruct (dm_commit dm _).
Qed.
End Executor.

(** ** Witnesses *)

Definition passthrough_processor : MetricProcessor :=
  mkProcessor "p" 1 [mkProcessorMetric 7 1] [mkProcessorMetric 9 1] (fun _ _ => mkEvaluation st_success []).
Definition sample_context : ProcessorContext := mkProcessorContext sample_entity 1 100 1.
Definition sample_input : Observation := obs_with_epoch (sample_observation 10 5) 3.
Definition sample_executor : ProcessorExecutor := mkExecutor executor_limits_default [] 0 [] [] [].
Definition sample_ops : list exec_op :=
  [XSchedule (Some passthrough_processor) sample_context [sample_input];
   XSchedule (Some passthrough_processor) sample_context [sample_input]; XBegin; XEnd].

Lemma executor_bounded_witness :
  let e := fst (foldl (@exec_step sample_layout) (sample_executor, None) sample_ops) in
  queuedTasks (fst (foldl (@exec_step sample_layout) (sample_executor, None) (take 2 sample_ops))) = 1 /\
  queuedTasks e = 0 /\ queuedTasks e <= 256 /\
  psr_scheduled (fst (@schedule sample_layout e (Some passthrough_processor) sample_context [sample_input])) = false.
Proof.
  cbv zeta. split; [by vm_compute|]. split; [by vm_compute|].
  destruct (@executor_bounded sample_layout executor_limits_default sample_executor sample_ops)
    as (Hq & _ & _ & _ & _ & _ & Hd); [by vm_compute|by vm_compute|by vm_compute|by vm_compute|].
  split; [exact Hq|]. apply Hd. apply elem_of_app. right. vm_compute. left.
Defined.
