(* ===== verification/Counter.v ===== *)
(** The counter processor (src/product/src/metrics/counter_processor.hpp and
    .cpp, [CounterDeltaRateProcessor]): the difference of two samples of a
    monotone counter, and its rate per second.

    The processor discharges the executor's interface [ProcessorContract]: on
    every admitted task it delivers conforming outputs, whatever the samples
    hold. *)
From S2P Require Import Prelude Containers Common Provider Catalog EventStore DataStore ProcessorGraph Executor.
From Stdlib Require Import SpecFloat.
Local Open Scope string_scope.
Local Open Scope list_scope.
Open Scope Z_scope.
Open Scope pdcm_scope.

(** ** Configuration *)

Record CounterWrapRule := mkWrapRule { cwr_modulus : Z; cwr_minimum_previous : Z; cwr_maximum_current : Z }.

Definition cwr_validate (w : CounterWrapRule) : Status :=
  if (cwr_modulus w <? 2) || (cwr_modulus w <=? cwr_minimum_previous w)
     || (cwr_modulus w <=? cwr_maximum_current w) || (cwr_minimum_previous w <=? cwr_maximum_current w)
  then invalid_argument "counter wrap rule is invalid"
  else st_success.

Record CounterProcessorConfig := mkCounterConfig {
  cpc_processor_id : string;
  cpc_processor_version : Z;
  cpc_input : ProcessorMetric;
  cpc_delta_output : ProcessorMetric;
  cpc_rate_output : option ProcessorMetric;
  cpc_minimum_interval_ns : Z;
  cpc_maximum_gap_ns : Z;
  cpc_wrap : option CounterWrapRule }.

Definition cpc_validate (cfg : CounterProcessorConfig) : Status :=
  let input := cpc_input cfg in
  let delta := cpc_delta_output cfg in
  if str_empty (cpc_processor_id cfg) || (cpc_processor_version cfg =? 0) || (pm_metric input =? 0)
     || (pm_semantic_version input =? 0) || (pm_metric delta =? 0) || (pm_semantic_version delta =? 0)
     || (pm_metric input =? pm_metric delta) || (cpc_minimum_interval_ns cfg <=? 0)
     || (cpc_maximum_gap_ns cfg <? cpc_minimum_interval_ns cfg)
  then invalid_argument "counter processor configuration is invalid"
  else if match cpc_rate_output cfg with
          | Some rate => (pm_metric rate =? 0) || (pm_semantic_version rate =? 0)
                         || (pm_metric rate =? pm_metric input) || (pm_metric rate =? pm_metric delta)
          | None => false
          end
  then invalid_argument "counter rate output is invalid"
  else match cpc_wrap cfg with Some wrap => cwr_validate wrap | None => st_success end.

Definition counter_outputs (cfg : CounterProcessorConfig) : list ProcessorMetric :=
  cpc_delta_output cfg :: match cpc_rate_output cfg with Some rate => [rate] | None => [] end.

(** ** Evaluation *)

(** The outputs when no delta can be computed; [newest] may be null. *)
Definition unavailable (cfg : CounterProcessorConfig) (c : ProcessorContext) (newest : option Observation)
    (reason : string) : ProcessorEvaluation :=
  mkEvaluation (mkStatus PDCM_STATUS_PARTIAL_RESULT "counter output is not available")
    (map (fun output =>
       mkObservation (pctx_entity c) (pm_metric output) None OS_NotAvailable
         (match newest with None => pctx_evaluated_monotonic_time_ns c
                       | Some n => obs_scheduled_monotonic_time_ns n end)
         None (pctx_evaluated_monotonic_time_ns c) (pm_semantic_version output)
         (match newest with None => 0 | Some n => obs_observed_wall_time_ns n end)
         (pctx_catalog_generation c) 0
         (match newest with None => 0 | Some n => obs_counter_epoch n end)
         (mkSource "pdcm-processor" (cpc_processor_id cfg)) None None
         (mkError (mkStatus PDCM_STATUS_UNAVAILABLE reason) 0 false)
         (mkDerivation (cpc_processor_id cfg)
            [match newest with None => 1 | Some n => obs_commit_epoch n end]
            (cpc_processor_version cfg) (pctx_derivation_depth c)))
       (counter_outputs cfg)).

(** [outputBase], with the value and status its callers assign. *)
Definition outputBase (cfg : CounterProcessorConfig) (c : ProcessorContext) (oldest newest : Observation)
    (output : ProcessorMetric) (value : option MetricValue) (status : ObservationStatus) : Observation :=
  mkObservation (pctx_entity c) (pm_metric output) value status
    (obs_scheduled_monotonic_time_ns newest) (obs_source_sample_time_ns newest)
    (pctx_evaluated_monotonic_time_ns c) (pm_semantic_version output) (obs_observed_wall_time_ns newest)
    (pctx_catalog_generation c) 0 (obs_counter_epoch newest)
    (mkSource "pdcm-processor" (cpc_processor_id cfg)) None None em_default
    (mkDerivation (cpc_processor_id cfg) [obs_commit_epoch oldest; obs_commit_epoch newest]
       (cpc_processor_version cfg) (pctx_derivation_depth c)).

(** The order of the samples: time, then commit epoch. *)
Definition sample_before (a b : Observation) : bool :=
  (obs_observed_monotonic_time_ns a <? obs_observed_monotonic_time_ns b)
  || (obs_observed_monotonic_time_ns a =? obs_observed_monotonic_time_ns b)
     && (obs_commit_epoch a <? obs_commit_epoch b).

Definition uint64_of (o : Observation) : option Z :=
  match obs_value o with Some (MV_Uint64 v) => Some v | _ => None end.

Definition sample_bad (cfg : CounterProcessorConfig) (c : ProcessorContext) (o : Observation) : bool :=
  (obs_entity o !=? pctx_entity c) || negb (obs_catalog_generation o =? pctx_catalog_generation c)
  || negb (obs_metric o =? pm_metric (cpc_input cfg))
  || negb (obs_metric_semantic_version o =? pm_semantic_version (cpc_input cfg))
  || (obs_status o !=? OS_Valid) || negb (has_value (uint64_of o)).

(** The delta of two counter values; [None] is a detected reset. *)
Definition counter_delta (wrap : option CounterWrapRule) (old_value new_value : Z) : option Z :=
  if old_value <=? new_value then Some (wrap64 (new_value - old_value))
  else
  match wrap with
  | Some w =>
      if (cwr_minimum_previous w <=? old_value) && (old_value <? cwr_modulus w)
         && (new_value <=? cwr_maximum_current w)
      then Some (wrap64 (wrap64 (cwr_modulus w - old_value) + new_value))
      else None
  | None => None
  end.

(** [static_cast<double>] of an integer, and the rate in IEEE double
    arithmetic. *)
Definition to_double (z : Z) : spec_float := binary_normalize 53 1024 z 0 false.
Definition rate_value (delta interval : Z) : spec_float :=
  SFdiv 53 1024 (SFmul 53 1024 (to_double delta) (to_double 1000000000)) (to_double interval).

Definition counter_result (cfg : CounterProcessorConfig) (c : ProcessorContext) (oldest newest : Observation)
    (delta interval : Z) : ProcessorEvaluation :=
  mkEvaluation st_success
    (outputBase cfg c oldest newest (cpc_delta_output cfg) (Some (MV_Uint64 delta)) OS_Valid
     :: match cpc_rate_output cfg with
        | Some rate =>
            [outputBase cfg c oldest newest rate (Some (MV_Double (rate_value delta interval))) OS_Valid]
        | None => []
        end).

Definition evaluate_pair (cfg : CounterProcessorConfig) (c : ProcessorContext) (oldest newest : Observation)
    : ProcessorEvaluation :=
  let t_old := obs_observed_monotonic_time_ns oldest in
  let t_new := obs_observed_monotonic_time_ns newest in
  if sample_bad cfg c oldest || sample_bad cfg c newest
  then unavailable cfg c (Some newest) "counter samples are invalid or changed generation"
  else if negb (obs_counter_epoch oldest =? obs_counter_epoch newest)
  then unavailable cfg c (Some newest) "counter epoch changed"
  else if (t_new <=? t_old) || (pctx_evaluated_monotonic_time_ns c <? t_new)
  then unavailable cfg c (Some newest) "counter sample time is invalid"
  else
  let interval := t_new - t_old in
  if interval <? cpc_minimum_interval_ns cfg
  then unavailable cfg c (Some newest) "counter interval is too small"
  else if cpc_maximum_gap_ns cfg <? interval
  then unavailable cfg c (Some newest) "counter gap is too large"
  else
  match uint64_of oldest, uint64_of newest with
  | Some old_value, Some new_value =>
      match counter_delta (cpc_wrap cfg) old_value new_value with
      | Some delta => counter_result cfg c oldest newest delta interval
      | None => unavailable cfg c (Some newest) "counter reset was detected"
      end
  | _, _ => unavailable cfg c (Some newest) "counter samples are invalid or changed generation"
  end.

(** [evaluate].  Sorting two samples is one comparison. *)
Definition counter_evaluate (cfg : CounterProcessorConfig) (c : ProcessorContext) (items : list Observation)
    : ProcessorEvaluation :=
  if context_bad c then unavailable cfg c (last items) "insufficient samples"
  else
  match items with
  | [a; b] => if sample_before b a then evaluate_pair cfg c b a else evaluate_pair cfg c a b
  | _ => unavailable cfg c (last items) "insufficient samples"
  end.

(** The processor object. *)
Definition counter_processor (cfg : CounterProcessorConfig) : MetricProcessor :=
  mkProcessor (cpc_processor_id cfg) (cpc_processor_version cfg) [cpc_input cfg] (counter_outputs cfg)
    (counter_evaluate cfg).

(** The constructor throws on an invalid configuration. *)
Definition counter_construct (cfg : CounterProcessorConfig) : string + MetricProcessor :=
  let status := cpc_validate cfg in
  if negb (st_ok status) then inl (st_message status) else inr (counter_processor cfg).

(** ** Lemmas *)

(** What a valid configuration gives. *)
Record counter_config_ok (cfg : CounterProcessorConfig) : Prop := {
  cco_id : cpc_processor_id cfg <> "" /\ cpc_processor_version cfg <> 0;
  cco_outputs : Forall (fun m => pm_metric m <> 0 /\ pm_semantic_version m <> 0) (counter_outputs cfg);
  cco_distinct : NoDup (map pm_metric (counter_outputs cfg));
  cco_interval : 0 < cpc_minimum_interval_ns cfg <= cpc_maximum_gap_ns cfg;
  cco_wrap : forall w, cpc_wrap cfg = Some w ->
    cwr_maximum_current w < cwr_minimum_previous w < cwr_modulus w }.

Lemma cpc_validate_ok cfg : st_ok (cpc_validate cfg) = true -> counter_config_ok cfg.
Proof.
  unfold cpc_validate. guard as G1; [done|]. guard as G2; [done|]. bprop in G1. intros G3.
  destruct G1 as ((((((((? & ?) & ?) & ?) & ?) & ?) & ?) & ?) & ?). unfold counter_outputs.
  split; unfold counter_outputs; [done| | |lia|].
  - constructor; [done|]. destruct (cpc_rate_output cfg) as [r|]; [|constructor]. bprop in G2.
    apply Forall_singleton. naive_solver.
  - destruct (cpc_rate_output cfg) as [r|]; cbn [map]; [|apply NoDup_singleton]. bprop in G2.
    apply NoDup_cons. split; [|apply NoDup_singleton]. rewrite list_elem_of_singleton. naive_solver.
  - intros w Hw. rewrite Hw in G3. unfold cwr_validate in G3. guard G3 as G4; [done|]. bprop in G4. lia.
Qed.

(** The provenance and identity an output of the processor carries. *)
Lemma output_valid cfg c m value status t_s t_src wall cepoch err seqs :
  counter_config_ok cfg -> context_bad c = false -> m ∈ counter_outputs cfg -> seqs <> [] -> 0 <= t_s ->
  opt_negative t_src = false ->
  let o := mkObservation (pctx_entity c) (pm_metric m) value status t_s t_src (pctx_evaluated_monotonic_time_ns c)
    (pm_semantic_version m) wall (pctx_catalog_generation c) 0 cepoch
    (mkSource "pdcm-processor" (cpc_processor_id cfg)) None None err
    (mkDerivation (cpc_processor_id cfg) seqs (cpc_processor_version cfg) (pctx_derivation_depth c)) in
  StatusOk o -> output_conforms (counter_processor cfg) c m o.
Proof.
  intros [[I1 I2] O _ _ _] Hc Hm Hs Ht Hsrc o Hok. unfold context_bad in Hc. bprop in Hc. bprop in Hsrc.
  rewrite Forall_forall in O. destruct (O m Hm) as [M1 M2].
  destruct Hc as (((((C1 & C2) & C3) & C4) & C5) & C6).
  split_and!; try done. apply validateObservation_ok. split; try done. cbn. by rewrite C1.
Qed.

Lemma unavailable_conforms cfg c newest reason :
  counter_config_ok cfg -> context_bad c = false ->
  (forall n, newest = Some n -> ObservationOk n) ->
  Forall2 (output_conforms (counter_processor cfg) c) (counter_outputs cfg)
    (pev_outputs (unavailable cfg c newest reason)).
Proof.
  intros Hcfg Hc Hn. cbn [unavailable pev_outputs].
  assert (0 <= pctx_evaluated_monotonic_time_ns c) as Ht by (unfold context_bad in Hc; bprop in Hc; tauto).
  apply Forall2_fmap_r, Forall_Forall2_diag, Forall_forall. intros m Hm.
  apply output_valid; try done.
  destruct newest as [n|]; [|done]. apply (oo_scheduled n). by apply Hn.
Qed.

Lemma counter_result_conforms cfg c oldest newest delta interval :
  counter_config_ok cfg -> context_bad c = false -> ObservationOk newest ->
  Forall2 (output_conforms (counter_processor cfg) c) (counter_outputs cfg)
    (pev_outputs (counter_result cfg c oldest newest delta interval)).
Proof.
  intros Hcfg Hc Hn.
  assert (forall m value, m ∈ counter_outputs cfg ->
    output_conforms (counter_processor cfg) c m (outputBase cfg c oldest newest m (Some value) OS_Valid)) as Hbase.
  { intros m value Hm. apply output_valid; try done; [apply (oo_scheduled newest Hn)|].
    bprop. apply (oo_sample newest Hn). }
  cbn [counter_result pev_outputs]. constructor; [apply Hbase; left|].
  unfold counter_outputs in Hbase |- *. destruct (cpc_rate_output cfg) as [r|]; [|constructor].
  constructor; [|constructor]. apply Hbase. right. left.
Qed.

(** Every evaluation is a computed result or an unavailable one. *)
Lemma evaluate_pair_cases cfg c oldest newest :
  (exists reason, evaluate_pair cfg c oldest newest = unavailable cfg c (Some newest) reason) \/
  exists old new delta, let interval := obs_observed_monotonic_time_ns newest - obs_observed_monotonic_time_ns oldest in
    sample_bad cfg c oldest = false /\ sample_bad cfg c newest = false /\
    obs_counter_epoch oldest = obs_counter_epoch newest /\
    obs_observed_monotonic_time_ns newest <= pctx_evaluated_monotonic_time_ns c /\
    0 < interval /\ cpc_minimum_interval_ns cfg <= interval <= cpc_maximum_gap_ns cfg /\
    uint64_of oldest = Some old /\ uint64_of newest = Some new /\ counter_delta (cpc_wrap cfg) old new = Some delta /\
    evaluate_pair cfg c oldest newest = counter_result cfg c oldest newest delta interval.
Proof.
  unfold evaluate_pair. guard as G1; [by left; eexists|]. guard as G2; [by left; eexists|].
  guard as G3; [by left; eexists|]. cbv zeta. guard as G4; [by left; eexists|]. guard as G5; [by left; eexists|].
  destruct (uint64_of oldest) as [old|] eqn:Eo; [|by left; eexists].
  destruct (uint64_of newest) as [new|] eqn:En; [|by left; eexists].
  destruct (counter_delta _ old new) as [delta|] eqn:Ed; [|by left; eexists].
  right. exists old, new, delta. apply orb_false_iff in G1 as [S1 S2]. bprop in G2. bprop in G3. bprop in G4. bprop in G5.
  split_and!; try done; lia.
Qed.

Lemma counter_evaluate_cases cfg c items : context_bad c = false ->
  (exists reason, counter_evaluate cfg c items = unavailable cfg c (last items) reason) \/
  exists oldest newest, items ≡ₚ [oldest; newest] /\ sample_before newest oldest = false /\
    counter_evaluate cfg c items = evaluate_pair cfg c oldest newest.
Proof.
  intros Hc. unfold counter_evaluate. rewrite Hc. destruct items as [|a [|b [|]]]; try (by left; eexists).
  right. guard as G; [exists b, a|exists a, b]; split_and!; try done; [apply Permutation_swap|].
  unfold sample_before in *. bprop in G. bprop. naive_solver lia.
Qed.

#[export] Instance counter_contract cfg (Hvalid : st_ok (cpc_validate cfg) = true) :
  ProcessorContract (counter_processor cfg).
Proof.
  apply cpc_validate_ok in Hvalid. split; [apply (cco_distinct cfg Hvalid)|].
  intros c items (Hc & Hne & Hin). cbn [counter_processor mp_evaluate mp_outputs].
  assert (forall o, o ∈ items -> ObservationOk o) as Hok.
  { intros o Ho. rewrite Forall_forall in Hin. specialize (Hin o Ho). unfold input_bad in Hin.
    rewrite !orb_false_iff, !negb_false_iff in Hin. apply validateObservation_ok. tauto. }
  destruct (counter_evaluate_cases cfg c items Hc) as [[reason ->]|(oldest & newest & Hp & _ & ->)].
  - split; [done|]. apply unavailable_conforms; try done. intros n Hn. apply Hok. by apply last_Some_elem_of.
  - assert (ObservationOk newest) by (apply Hok; rewrite Hp; right; left).
    destruct (evaluate_pair_cases cfg c oldest newest) as [[reason ->]|(old & new & d & _ & _ & _ & _ & _ & _ & _ & _ & _ & ->)].
    + split; [done|]. apply unavailable_conforms; try done. by intros n [= <-].
    + split; [done|]. by apply counter_result_conforms.
Qed.

(** The delta is the distance the counter has moved, modulo the wrap rule. *)
Lemma counter_delta_spec wrap old new delta :
  (forall w, wrap = Some w -> cwr_maximum_current w < cwr_minimum_previous w < cwr_modulus w /\ cwr_modulus w <= u64_max) ->
  0 <= old <= u64_max -> 0 <= new <= u64_max -> counter_delta wrap old new = Some delta ->
  (old <= new /\ delta = new - old) \/
  exists w, wrap = Some w /\ cwr_minimum_previous w <= old < cwr_modulus w /\ new <= cwr_maximum_current w /\
    new < old /\ 0 < delta < cwr_modulus w /\ (old + delta) mod cwr_modulus w = new.
Proof.
  intros Hw Ho Hn. unfold counter_delta, wrap64. unfold u64_max in *. guard as G; bprop in G.
  - intros [= <-]. left. rewrite Z.mod_small by lia. lia.
  - destruct wrap as [w|]; [|done]. destruct (Hw w eq_refl) as [W1 W2]. guard as G2; [|done]. bprop in G2.
    rewrite (Z.mod_small (cwr_modulus w - old)), Z.mod_small by lia. intros [= <-]. right. exists w.
    split_and!; try done; try lia.
    replace (old + (cwr_modulus w - old + new)) with (new + 1 * cwr_modulus w) by lia.
    rewrite Z_mod_plus_full. apply Z.mod_small. lia.
Qed.

(** A delta is given exactly when the counter did not go down, or went down
    across the wrap window. *)
Lemma counter_delta_defined wrap old new :
  is_Some (counter_delta wrap old new) <->
  old <= new \/ exists w, wrap = Some w /\ cwr_minimum_previous w <= old < cwr_modulus w /\ new <= cwr_maximum_current w.
Proof.
  unfold counter_delta. guard as G; bprop in G; [split; [by left|by eexists]|].
  destruct wrap as [w|]; [|split; [by intros []|naive_solver lia]].
  guard as G2; bprop in G2; (split; [|try by eexists]).
  - intros _. right. exists w. split_and!; try done; lia.
  - by intros [].
  - intros [?|(? & [= <-] & ?)]; lia.
Qed.

(** The values of a sample are those of its type. *)
Definition sample_in_range (o : Observation) : Prop :=
  forall v, uint64_of o = Some v -> 0 <= v <= u64_max.

Lemma unavailable_empty cfg c newest reason :
  Forall (fun o => obs_status o = OS_NotAvailable /\ obs_value o = None) (pev_outputs (unavailable cfg c newest reason)).
Proof. cbn [unavailable pev_outputs]. apply Forall_fmap, Forall_true. done. Qed.

Lemma counter_result_values cfg c oldest newest delta interval :
  map obs_value (pev_outputs (counter_result cfg c oldest newest delta interval)) =
    Some (MV_Uint64 delta) ::
    (if cpc_rate_output cfg then [Some (MV_Double (rate_value delta interval))] else []).
Proof. cbn [counter_result pev_outputs map outputBase obs_value]. f_equal. by destruct (cpc_rate_output cfg). Qed.

(** The test on one sample, for a sample of an admitted task. *)
Lemma sample_bad_iff cfg c o : input_bad c o = false ->
  sample_bad cfg c o = false <->
  obs_metric o = pm_metric (cpc_input cfg) /\ obs_status o = OS_Valid /\
  obs_metric_semantic_version o = pm_semantic_version (cpc_input cfg) /\ is_Some (uint64_of o).
Proof. unfold input_bad, sample_bad. bprop. tauto. Qed.

(** Two usable samples in either order. *)
Lemma counter_evaluate_pair cfg c items oldest newest :
  context_bad c = false -> items ≡ₚ [oldest; newest] ->
  obs_observed_monotonic_time_ns oldest < obs_observed_monotonic_time_ns newest ->
  counter_evaluate cfg c items = evaluate_pair cfg c oldest newest.
Proof.
  intros Hc Hp Ht. symmetry in Hp. unfold counter_evaluate. rewrite Hc.
  assert (sample_before oldest newest = true /\ sample_before newest oldest = false) as [B1 B2]
    by (unfold sample_before; bprop; lia).
  apply Permutation_length_2_inv in Hp as [-> | ->]; [by rewrite B2|by rewrite B1].
Qed.

(** ** Theorems *)

(** Two samples that the processor may compare: of the input metric, valid, of
    one counter epoch, the interval within the configured bounds and the newer
    one not after the evaluation. *)
Definition usable_samples (cfg : CounterProcessorConfig) (c : ProcessorContext) (items : list Observation)
    (oldest newest : Observation) (old new : Z) : Prop :=
  items ≡ₚ [oldest; newest] /\ uint64_of oldest = Some old /\ uint64_of newest = Some new /\
  Forall (fun o => obs_metric o = pm_metric (cpc_input cfg) /\ obs_status o = OS_Valid /\
    obs_metric_semantic_version o = pm_semantic_version (cpc_input cfg)) items /\
  obs_counter_epoch oldest = obs_counter_epoch newest /\
  cpc_minimum_interval_ns cfg <= obs_observed_monotonic_time_ns newest - obs_observed_monotonic_time_ns oldest
    <= cpc_maximum_gap_ns cfg /\
  obs_observed_monotonic_time_ns newest <= pctx_evaluated_monotonic_time_ns c.

(** Usable samples are decided by their values alone. *)
Lemma usable_evaluate cfg c items oldest newest old new :
  counter_config_ok cfg -> task_admitted c items -> usable_samples cfg c items oldest newest old new ->
  st_ok (pev_status (counter_evaluate cfg c items)) = true <-> is_Some (counter_delta (cpc_wrap cfg) old new).
Proof.
  intros Hv (Hc & Hne & Hin) (Hp & Ho & Hn & Hs & He & Hi & Ht).
  destruct (cco_interval cfg Hv). rewrite (counter_evaluate_pair cfg c items oldest newest) by (done || lia).
  rewrite Hp, !Forall_cons in Hin, Hs. destruct Hin as (I1 & I2 & _), Hs as (S1 & S2 & _).
  unfold evaluate_pair. rewrite (proj2 (sample_bad_iff cfg c _ I1)), (proj2 (sample_bad_iff cfg c _ I2)) by naive_solver.
  rewrite He, Z.eqb_refl. cbn [orb negb].
  repeat (guard as G; bprop in G; [lia|]; clear G). rewrite Ho, Hn.
  destruct (counter_delta (cpc_wrap cfg) old new) as [d|]; cbn; [|split; [done|by intros []]].
  split; [by eexists|done].
Qed.


(** ** Witnesses *)

(** A 32-bit counter sampled each second, with a rate. *)
Definition sample_counter : CounterProcessorConfig :=
  mkCounterConfig "counter" 1 (mkProcessorMetric 7 1) (mkProcessorMetric 8 1) (Some (mkProcessorMetric 9 1))
    1000 5000000000 (Some (mkWrapRule 4294967296 4000000000 1000000)).
Definition sample_at (time value epoch : Z) : Observation := obs_with_epoch (sample_observation time value) epoch.
Definition counter_context : ProcessorContext := mkProcessorContext sample_entity 1 2000000000 1.


(** The counter processor in the executor. *)
Lemma executor_run_exact_witness :
  let task := mkTask (counter_processor sample_counter) counter_context
                [sample_at 100 5 1; sample_at 1000000100 12 2] "key" 0 in
  let outputs := pev_outputs (mp_evaluate (task_processor task) (task_context task) (task_snapshot task)) in
  map obs_value outputs = [Some (MV_Uint64 7); Some (MV_Double (rate_value 7 1000000000))] /\
  fst (@run_task sample_layout task 1 1 sample_manager) =
    mkRunResult (dcr_status (fst (@dm_commit sample_layout sample_manager outputs))) true false
      (Some (fst (@dm_commit sample_layout sample_manager outputs))).
Proof.
  cbv zeta. split; [by vm_compute|].
  rewrite (proj2 (@executor_run_exact sample_layout (mkTask (counter_processor sample_counter) counter_context
    [sample_at 100 5 1; sample_at 1000000100 12 2] "key" 0) 1 1 sample_manager)); [done| |..].
  - by apply counter_contract.
  - split_and!; [by vm_compute|done|repeat (apply Forall_cons; split; [by vm_compute|]); constructor].
  - done.
  - done.
Defined.
