(* ===== verification/Metrics.v ===== *)
(** The metrics manager (src/product/src/metrics/metrics_manager.hpp and .cpp):
    health of the device from its firmware heartbeat.  It evaluates committed
    evidence, notices provider failures and expired evidence, commits the
    health results to the data manager, and answers health queries.

    An operation that reads the data manager and then commits to it does so in
    two steps, between which other threads may change it: it takes the data
    manager at the read ([dm]) and at the commit ([dm']).  The clock is the
    argument [now]. *)
From S2P Require Import Prelude Containers Common Provider Catalog EventStore DataStore HealthStore ProcessorGraph.
Local Open Scope string_scope.
Local Open Scope list_scope.
Open Scope Z_scope.
Open Scope pdcm_scope.

(** ** Data *)

Record HealthRequest := mkHealthRequest {
  hq_entity : EntityRef; hq_subsystem_id : Z; hq_catalog_generation : Z; hq_max_age_ns : Z }.

Record HealthQueryResult := mkHealthQuery {
  hqr_status : Status; hqr_item : option HealthResult; hqr_aggregate : option HealthResult }.

Record Runtime := mkRuntime {
  rt_catalog_generation : Z;
  rt_entity : option EntityRef;
  rt_heartbeat : HealthCatalogEntry;
  rt_heartbeat_supported : bool }.
Definition runtime_default : Runtime := mkRuntime 0 None hce_default false.

Record MetricsManager := mkMetrics {
  mm_runtime_ : Runtime;
  mm_processors_ : list (option MetricProcessor);
  mm_processor_graph_ : ProcessorGraphSnapshot }.

Definition mm_construct (processors : list (option MetricProcessor)) : MetricsManager :=
  mkMetrics runtime_default processors graph_snapshot_default.

(** ** Evaluation *)

Definition evidenceReference (e : FirmwareHeartbeatEvidence) : EvidenceRef :=
  mkEvidenceRef (fhe_evidence_id e) (fhe_sequence_or_token e) (fhe_source_sample_time_ns e)
    (fhe_observed_monotonic_time_ns e) (fhe_source e).

Definition effectiveFreshness (catalog_freshness requested_max_age : Z) : Z :=
  if requested_max_age =? 0 then catalog_freshness else Z.min catalog_freshness requested_max_age.

(** The last branches of [evaluate]: the code and limitation of evidence that
    determines nothing. *)
Definition failure_code (rt : Runtime) (e : FirmwareHeartbeatEvidence) : StableHealthCode * HealthLimitation :=
  if fhe_status e ==? OS_Unsupported
  then (HC_HeartbeatUnsupported, mkLimitation HL_NativeMappingPending (hce_limitation (rt_heartbeat rt)))
  else if fhe_status e ==? OS_NotAvailable
  then (HC_HeartbeatMissing, mkLimitation HL_EvidenceMissing "firmware heartbeat evidence is unavailable")
  else if st_code (em_status (fhe_error e)) ==? PDCM_STATUS_TIMEOUT
  then (HC_HeartbeatTimeout, mkLimitation HL_ReadFailure "firmware heartbeat read timed out")
  else if st_code (em_status (fhe_error e)) ==? PDCM_STATUS_UNAVAILABLE
  then (HC_ProviderUnavailable, mkLimitation HL_ProviderUnavailable "provider is unavailable")
  else (HC_HeartbeatReadError, mkLimitation HL_ReadFailure "firmware heartbeat read failed").

Definition evaluate (rt : Runtime) (e : FirmwareHeartbeatEvidence) (now freshness : Z) : HealthResult :=
  let age := now - fhe_observed_monotonic_time_ns e in
  let result state item_status limitations code :=
    mkHealthResult (fhe_entity e) kFirmwareHeartbeatHealthId state item_status (rt_catalog_generation rt) now age
      [evidenceReference e] limitations code in
  let indeterminate :=
    let '(code, limitation) := failure_code rt e in result HS_Unknown (fhe_status e) [limitation] code in
  if (fhe_status e ==? OS_Valid) && (freshness <? wrap64 age)
  then result HS_Unknown OS_Stale
         [mkLimitation HL_EvidenceStale "firmware heartbeat evidence exceeded freshness"] HC_HeartbeatStale
  else if fhe_status e ==? OS_Valid
  then match fhe_native_class e with
       | HN_Normal => result HS_Healthy OS_Valid [] HC_HeartbeatOk
       | HN_Warning => result HS_Warning OS_Valid [] HC_HeartbeatWarning
       | HN_Fault => result HS_Error OS_Valid [] HC_HeartbeatFault
       | HN_UnknownNative => indeterminate
       end
  else indeterminate.

(** [unknown], for the entity of the runtime. *)
Definition unknown (rt : Runtime) (entity : EntityRef) (code : StableHealthCode) (item_status : ObservationStatus)
    (now : Z) (limitation : HealthLimitation) : HealthResult :=
  mkHealthResult entity kFirmwareHeartbeatHealthId HS_Unknown item_status (rt_catalog_generation rt) now 0 []
    [limitation] code.

Definition health_not_active : Status := err_status PDCM_STATUS_NOT_INITIALIZED "metrics health catalog is not active".

(** The active entity of the runtime. *)
Definition active_entity (rt : Runtime) : option EntityRef :=
  if rt_catalog_generation rt =? 0 then None else rt_entity rt.

Section Metrics.
Context `{Layout}.

(** ** Catalog activation *)

Definition health_capability (set : CapabilitySet) : bool :=
  match find_if (fun item => (cap_kind item ==? CAP_Health) && (cap_id item =? kFirmwareHeartbeatHealthId))
          (cs_items set) with
  | Some item => cap_supported item
  | None => false
  end.

(** The runtime of a view with at most one device; an error status when the
    device's capabilities cannot be read. *)
Definition next_runtime (v : CatalogView) (heartbeat : HealthCatalogEntry) : Status + Runtime :=
  match cv_entities_ v with
  | [] => inr (mkRuntime (cv_generation_ v) None heartbeat false)
  | record :: _ =>
      let '(status, set) := cv_capabilities v (ent_ref record) in
      if negb (st_ok status) then inl status
      else
      match set with
      | None => inl status
      | Some set => inr (mkRuntime (cv_generation_ v) (Some (ent_ref record)) heartbeat (health_capability set))
      end
  end.

Definition initial_health (rt : Runtime) (entity : EntityRef) (now : Z) : HealthResult :=
  if rt_heartbeat_supported rt
  then unknown rt entity HC_HeartbeatMissing OS_NotAvailable now
         (mkLimitation HL_EvidenceMissing "firmware heartbeat has not been sampled")
  else unknown rt entity HC_HeartbeatUnsupported OS_Unsupported now
         (mkLimitation HL_NativeMappingPending (hce_limitation (rt_heartbeat rt))).

Definition mm_activateCatalog (mm : MetricsManager) (catalog : option CatalogView) (t : TargetCatalog) (now : Z)
    (dm dm' : DataManager) : Status * MetricsManager * DataManager :=
  let bad := (invalid_argument "metrics catalog is not active in DataManager", mm, dm') in
  match catalog with
  | None => bad
  | Some v =>
      if (cv_generation_ v =? 0) || negb (cst_generation (dm_catalog_ dm) =? cv_generation_ v) then bad
      else
      let target_status := tc_validate t in
      if negb (st_ok target_status) then (target_status, mm, dm')
      else
      let '(graph_status, graph) := rebuild (mm_processor_graph_ mm) t (cv_generation_ v) (mm_processors_ mm) in
      let mm1 rt := mkMetrics rt (mm_processors_ mm) graph in
      let failed status := (status, mm1 (mm_runtime_ mm), dm') in
      if negb (st_ok graph_status) then failed graph_status
      else
      (* health.front(): validate admits exactly one health entry *)
      let heartbeat := default hce_default (head (tc_health t)) in
      if cv_topology_unsupported_ v
      then (err_status PDCM_STATUS_UNSUPPORTED "metrics health rejects multi-device P0",
            mm1 (mkRuntime (cv_generation_ v) None heartbeat false), dm')
      else if 1 <? zlen (cv_entities_ v)
      then failed (err_status PDCM_STATUS_UNSUPPORTED "metrics health accepts at most one device")
      else
      match next_runtime v heartbeat with
      | inl status => failed status
      | inr next =>
          if rt_catalog_generation next <? rt_catalog_generation (mm_runtime_ mm)
          then failed (err_status PDCM_STATUS_STALE_GENERATION "metrics catalog generation moved backward")
          else
          match rt_entity next with
          | None => (st_success, mm1 next, dm')
          | Some entity =>
              let '(r, dm2) := commitHealth dm' (initial_health next entity now) in
              (hcr_status r, mm1 next, dm2)
          end
      end
  end.

(** ** Events *)

Definition onHeartbeatEvidenceCommitted (mm : MetricsManager) (id now : Z) (dm dm' : DataManager)
    : Status * DataManager :=
  let rt := mm_runtime_ mm in
  match active_entity rt with
  | None => (health_not_active, dm')
  | Some entity =>
      match heartbeatEvidence dm id with
      | (status, Some e) =>
          if negb (st_ok status) then (status, dm')
          else if negb (fhe_catalog_generation e =? rt_catalog_generation rt) || (fhe_entity e !=? entity)
          then (err_status PDCM_STATUS_STALE_GENERATION "heartbeat evidence does not match metrics catalog", dm')
          else if now <? fhe_observed_monotonic_time_ns e
          then (invalid_argument "heartbeat evaluation time moved backward", dm')
          else
          let '(r, dm2) := commitHealth dm' (evaluate rt e now (hce_freshness_ns (rt_heartbeat rt))) in
          (hcr_status r, dm2)
      | (status, None) => (status, dm')
      end
  end.

(** The result of [onProviderStateChanged], with the latest evidence when it
    is not in the future. *)
Definition provider_failure (rt : Runtime) (entity : EntityRef) (now : Z) (dm : DataManager) : HealthResult :=
  let r := unknown rt entity HC_ProviderUnavailable OS_Error now
             (mkLimitation HL_ProviderUnavailable "provider is unavailable") in
  match latestHeartbeatEvidence dm entity (rt_catalog_generation rt) with
  | (status, Some e) =>
      if st_ok status && (fhe_observed_monotonic_time_ns e <=? now)
      then mkHealthResult (hr_entity r) (hr_subsystem_id r) (hr_state r) (hr_item_status r) (hr_catalog_generation r)
             (hr_evaluated_monotonic_time_ns r) (now - fhe_observed_monotonic_time_ns e)
             (hr_evidence r ++ [evidenceReference e]) (hr_limitations r) (hr_code r)
      else r
  | (_, None) => r
  end.

Definition onProviderStateChanged (mm : MetricsManager) (state : ProviderState) (now : Z) (dm dm' : DataManager)
    : Status * DataManager :=
  if state ==? PS_Ready then (st_success, dm')
  else
  match active_entity (mm_runtime_ mm) with
  | None => (health_not_active, dm')
  | Some entity =>
      let '(r, dm2) := commitHealth dm' (provider_failure (mm_runtime_ mm) entity now dm) in
      (hcr_status r, dm2)
  end.

Definition runFreshnessOnce (mm : MetricsManager) (now : Z) (dm dm' : DataManager) : Status * DataManager :=
  let rt := mm_runtime_ mm in
  match active_entity rt with
  | None => (health_not_active, dm')
  | Some entity =>
      if now <? 0 then (invalid_argument "freshness evaluation time is invalid", dm')
      else
      match readHealth dm entity (rt_catalog_generation rt) with
      | (status, Some current) =>
          if negb (st_ok status) then (status, dm')
          else if negb (isDeterminateHealth (hr_state current)) then (st_success, dm')
          else
          match latestHeartbeatEvidence dm entity (rt_catalog_generation rt) with
          | (status, Some e) =>
              if negb (st_ok status) then (status, dm')
              else if now <? fhe_observed_monotonic_time_ns e
              then (invalid_argument "freshness evaluation time moved backward", dm')
              else if wrap64 (now - fhe_observed_monotonic_time_ns e) <=? hce_freshness_ns (rt_heartbeat rt)
              then (st_success, dm')
              else
              let '(r, dm2) := commitHealth dm' (evaluate rt e now (hce_freshness_ns (rt_heartbeat rt))) in
              (hcr_status r, dm2)
          | (status, None) => (status, dm')
          end
      | (status, None) => (status, dm')
      end
  end.

(** ** Queries *)

Definition heartbeatAt (rt : Runtime) (entity : EntityRef) (now freshness : Z) (dm : DataManager) : HealthResult :=
  if negb (rt_heartbeat_supported rt)
  then unknown rt entity HC_HeartbeatUnsupported OS_Unsupported now
         (mkLimitation HL_NativeMappingPending (hce_limitation (rt_heartbeat rt)))
  else
  let missing := unknown rt entity HC_HeartbeatMissing OS_NotAvailable now
                   (mkLimitation HL_EvidenceMissing "firmware heartbeat has not been sampled") in
  match latestHeartbeatEvidence dm entity (rt_catalog_generation rt) with
  | (status, Some e) =>
      if negb (st_ok status) then missing
      else if now <? fhe_observed_monotonic_time_ns e
      then unknown rt entity HC_HeartbeatReadError OS_Error now
             (mkLimitation HL_ReadFailure "health query time moved backward")
      else evaluate rt e now freshness
  | (_, None) => missing
  end.

Definition hr_with_subsystem (r : HealthResult) (id : Z) : HealthResult :=
  mkHealthResult (hr_entity r) id (hr_state r) (hr_item_status r) (hr_catalog_generation r)
    (hr_evaluated_monotonic_time_ns r) (hr_evidence_age_ns r) (hr_evidence r) (hr_limitations r) (hr_code r).

Definition queryHealth (mm : MetricsManager) (request : HealthRequest) (now : Z) (dm : DataManager)
    : HealthQueryResult :=
  let rt := mm_runtime_ mm in
  let failed status := mkHealthQuery status None None in
  match active_entity rt with
  | None => failed health_not_active
  | Some entity =>
      if negb (hq_catalog_generation request =? 0)
         && negb (hq_catalog_generation request =? rt_catalog_generation rt)
      then failed (err_status PDCM_STATUS_STALE_GENERATION "health request catalog is stale")
      else if (er_kind (hq_entity request) !=? er_kind entity) || negb (er_id (hq_entity request) =? er_id entity)
      then failed (err_status PDCM_STATUS_NOT_FOUND "health request entity is not present")
      else if hq_entity request !=? entity
      then failed (err_status PDCM_STATUS_STALE_GENERATION "health request entity is stale")
      else if now <? 0 then failed (invalid_argument "health query time is invalid")
      else
      let freshness := effectiveFreshness (hce_freshness_ns (rt_heartbeat rt)) (hq_max_age_ns request) in
      let aggregate := heartbeatAt rt entity now freshness dm in
      let item :=
        if hq_subsystem_id request =? kFirmwareHeartbeatHealthId then aggregate
        else hr_with_subsystem
               (unknown rt entity HC_HeartbeatUnsupported OS_Unsupported now
                  (mkLimitation HL_CatalogGap "health subsystem is not supported in P0"))
               (hq_subsystem_id request) in
      mkHealthQuery
        (if (hq_subsystem_id request =? kFirmwareHeartbeatHealthId) && isDeterminateHealth (hr_state item)
         then st_success
         else err_status PDCM_STATUS_PARTIAL_RESULT "health query contains an unknown item")
        (Some item) (Some aggregate)
  end.

(** ** Lemmas *)

Record evidence_facts (e : FirmwareHeartbeatEvidence) : Prop := {
  ef_entity : er_kind (fhe_entity e) = EK_Device /\ er_generation (fhe_entity e) <> 0;
  ef_time : 0 <= fhe_observed_monotonic_time_ns e;
  ef_sample : opt_negative (fhe_source_sample_time_ns e) = false;
  ef_source : str_empty (src_provider (fhe_source e)) = false;
  ef_status : fhe_status e <> OS_Stale;
  ef_class : fhe_status e = OS_Valid -> fhe_native_class e <> HN_UnknownNative }.

Lemma evidence_valid_facts e : st_ok (validateFirmwareHeartbeatEvidence e) = true -> evidence_facts e.
Proof.
  unfold validateFirmwareHeartbeatEvidence. guard as G1; [done|]. guard as G2; [done|].
  rewrite !orb_false_iff in G1. destruct G1 as ((((((A1 & A2) & A3) & A4) & A5) & A6) & A7).
  bprop in A1. bprop in A2. bprop in A5. bprop in G2. intros Hs. split; auto.
  intros Hv. rewrite Hv, bool_decide_true in Hs by done. guard Hs as G3; [done|]. bprop in G3. tauto.
Qed.

(** Evidence that a query of the data manager returns. *)
Lemma stored_evidence_facts dm e : health_wf dm -> e ∈ heartbeat_evidence_ dm ->
  evidence_facts e /\ evidence_ok dm e.
Proof.
  intros Hwf He. pose proof (hw_evidence dm Hwf) as Hall. rewrite Forall_forall in Hall.
  destruct (Hall e He) as [E1 E2 E3 E4]. split; [by apply evidence_valid_facts|by split].
Qed.

Lemma latestHeartbeatEvidence_some dm entity g status e :
  latestHeartbeatEvidence dm entity g = (status, Some e) -> status = st_success /\ e ∈ heartbeat_evidence_ dm.
Proof.
  unfold latestHeartbeatEvidence. guard as G1; [done|]. guard as G2; [done|].
  destruct (current_entity _ _ _ _); [done|]. destruct (om_find _ _) as [id|]; [|done].
  destruct (find_evidence _ id) as [e'|] eqn:Ef; [|done]. intros [= <- <-]. split; [done|].
  by apply find_if_Some in Ef as [? _].
Qed.

Lemma latest_evidence_none dm entity g status :
  latestHeartbeatEvidence dm entity g = (status, None) -> st_ok status = false.
Proof.
  unfold latestHeartbeatEvidence, current_entity. guard as G1; [by intros [= <-]|]. guard as G2; [by intros [= <-]|].
  destruct (find_if _ _) as [c|]; [|by intros [= <-]]. guard as G3; [by intros [= <-]|].
  destruct (om_find _ _) as [id|]; [|by intros [= <-]]. by destruct (find_evidence _ id); intros [= <-].
Qed.

Lemma latest_evidence_entity dm entity g status e : health_wf dm ->
  latestHeartbeatEvidence dm entity g = (status, Some e) -> fhe_entity e = entity.
Proof.
  intros Hwf. unfold latestHeartbeatEvidence. guard as G1; [done|]. guard as G2; [done|].
  destruct (current_entity _ _ _ _); [done|]. destruct (om_find _ _) as [id|] eqn:El; [|done].
  destruct (find_evidence _ id) as [e'|] eqn:Ef; [|done]. intros [= _ <-]. apply find_if_Some in Ef as [He Hid].
  destruct (hw_latest dm Hwf entity id El) as [_ Hl]. apply Hl; [done|]. by apply Z.eqb_eq.
Qed.

Lemma heartbeatEvidence_some dm id status e :
  heartbeatEvidence dm id = (status, Some e) -> status = st_success /\ e ∈ heartbeat_evidence_ dm.
Proof.
  unfold heartbeatEvidence. guard as G1; [done|]. guard as G2; [done|].
  destruct (find_evidence _ id) as [e'|] eqn:Ef; [|done]. intros [= <- <-]. split; [done|].
  by apply find_if_Some in Ef as [? _].
Qed.

(** The state that valid, fresh evidence determines. *)
Definition determined_state (c : HeartbeatNativeClass) : HealthState :=
  match c with
  | HN_Normal => HS_Healthy | HN_Warning => HS_Warning | HN_Fault => HS_Error | HN_UnknownNative => HS_Unknown
  end.

Lemma evaluate_fields rt e now freshness :
  let r := evaluate rt e now freshness in
  hr_entity r = fhe_entity e /\ hr_subsystem_id r = kFirmwareHeartbeatHealthId /\
  hr_catalog_generation r = rt_catalog_generation rt /\ hr_evaluated_monotonic_time_ns r = now /\
  hr_evidence_age_ns r = now - fhe_observed_monotonic_time_ns e /\ hr_evidence r = [evidenceReference e].
Proof.
  cbv zeta. unfold evaluate. destruct (failure_code rt e) as [code lim].
  guard as G1; [done|]. guard as G2; [|done]. by destruct (fhe_native_class e).
Qed.

Lemma evaluate_state rt e now freshness :
  evidence_facts e -> fhe_observed_monotonic_time_ns e <= now <= i64_max ->
  let fresh := fhe_status e = OS_Valid /\ now - fhe_observed_monotonic_time_ns e <= freshness in
  let r := evaluate rt e now freshness in
  (fresh -> hr_state r = determined_state (fhe_native_class e) /\ isDeterminateHealth (hr_state r) = true) /\
  (~ fresh -> hr_state r = HS_Unknown).
Proof.
  intros [_ Ht _ _ _ Hc] Hn. cbv zeta. unfold evaluate, wrap64. unfold i64_max in Hn.
  rewrite (Z.mod_small (now - _)) by lia. destruct (failure_code rt e) as [code lim]. guard as G1; bprop in G1.
  { split; [intros [_ ?]; lia|done]. }
  guard as G2; bprop in G2; [|split; [intros [? _]; congruence|done]].
  specialize (Hc G2). split; [|intros Hf; exfalso; apply Hf; split; [done|]; destruct G1; [done|lia]].
  intros _. by destruct (fhe_native_class e).
Qed.

Lemma evaluate_code rt e now freshness :
  evidence_facts e -> hce_limitation (rt_heartbeat rt) <> "" ->
  let r := evaluate rt e now freshness in
  existsb (fun l => str_empty (lim_detail l)) (hr_limitations r) = false /\
  codeMatchesState (hr_state r) (hr_code r) = true /\
  (if isDeterminateHealth (hr_state r) then hr_item_status r = OS_Valid else hr_item_status r <> OS_Valid).
Proof.
  intros [_ _ _ _ Hs Hc] Hl. cbv zeta. unfold evaluate.
  assert (exists code lim, failure_code rt e = (code, lim) /\ lim_detail lim <> "" /\
    codeMatchesState HS_Unknown code = true) as (code & lim & -> & L1 & L2).
  { unfold failure_code. do 4 (guard as G; [do 2 eexists; split_and!; [reflexivity|done..]|]; clear G).
    do 2 eexists. split_and!; [reflexivity|done..]. }
  assert (existsb (fun l => str_empty (lim_detail l)) [lim] = false) as L3.
  { cbn [existsb]. bprop. done. }
  guard as G1; [done|]. guard as G2; bprop in G2; [|by split_and!].
  specialize (Hc G2). by destruct (fhe_native_class e).
Qed.

(** A result of the evaluation of stored evidence passes every check of
    [commitHealth] but its limits. *)
Lemma evaluate_valid rt e now freshness dm :
  health_wf dm -> e ∈ heartbeat_evidence_ dm -> rt_catalog_generation rt = cst_generation (dm_catalog_ dm) ->
  rt_catalog_generation rt <> 0 -> hce_limitation (rt_heartbeat rt) <> "" ->
  fhe_observed_monotonic_time_ns e <= now ->
  let r := evaluate rt e now freshness in
  st_ok (validateHealthResult r) = true /\ check_references (heartbeat_evidence_ dm) r [] (hr_evidence r) = None.
Proof.
  intros Hwf He Hg Hg0 Hl Hn. destruct (stored_evidence_facts dm e Hwf He) as [Hf [[I1 I2] _ I3 I4]].
  destruct (evaluate_code rt e now freshness Hf Hl) as (C1 & C2 & C3).
  destruct (evaluate_fields rt e now freshness) as (F1 & F2 & F3 & F4 & F5 & F6). destruct Hf as [[E1 E1'] E2 E3 E4 _ _].
  cbv zeta. set (r := evaluate rt e now freshness) in *. split.
  - unfold validateHealthResult. rewrite F1, F2, F3, F4, F5, F6, C1, C2, E1.
    rewrite (proj2 (Z.eqb_neq _ _)), (proj2 (Z.eqb_neq _ _)), (proj2 (Z.ltb_ge _ _)), (proj2 (Z.ltb_ge _ _)) by lia.
    assert (forallb evidenceRefValid [evidenceReference e] = true) as ->.
    { cbn [forallb evidenceRefValid evidenceReference evr_evidence_id evr_observed_monotonic_time_ns
           evr_source_sample_time_ns evr_source]. unfold evidenceRefValid. cbn. rewrite E3, E4.
      rewrite bool_decide_false, (proj2 (Z.leb_le _ _)) by lia. done. }
    rewrite !bool_decide_true by done. cbn [orb negb is_nil].
    destruct (isDeterminateHealth (hr_state r)); [by rewrite C3|]. by rewrite bool_decide_false.
  - rewrite F6. cbn [check_references]. rewrite bool_decide_false by (by inversion 1).
    assert (is_Some (find_if (reference_matches r (evidenceReference e)) (heartbeat_evidence_ dm))) as [x ->]; [|done].
    apply not_eq_None_Some. intros Hnone. apply find_if_None in Hnone. rewrite Forall_forall in Hnone. specialize (Hnone e He).
    unfold reference_matches in Hnone. rewrite F1, F3, I3, Hg, !bool_decide_true, !Z.eqb_refl in Hnone by done. done.
Qed.

Lemma commitHealth_refusal dm r :
  st_ok (validateHealthResult r) = true -> check_references (heartbeat_evidence_ dm) r [] (hr_evidence r) = None ->
  hr_catalog_generation r = cst_generation (dm_catalog_ dm) -> cst_generation (dm_catalog_ dm) <> 0 ->
  hr_entity r ∈ cst_entities (dm_catalog_ dm) -> is_Some (cst_heartbeat (dm_catalog_ dm)) ->
  let status := hcr_status (fst (commitHealth dm r)) in
  st_ok status = false -> st_code status = PDCM_STATUS_RESOURCE_EXHAUSTED \/ st_code status = PDCM_STATUS_INTERNAL.
Proof.
  intros Hv Hr Hg Hg0 He [h Hh]. cbv zeta. unfold commitHealth. cbv zeta. rewrite Hv. cbn [negb].
  guard as G1; [by left|]. rewrite (proj2 (Z.eqb_neq _ 0)) by done. rewrite Hg, Z.eqb_refl.
  assert (existsb (fun x => x ==? hr_entity r) (cst_entities (dm_catalog_ dm)) = true) as ->.
  { apply existsb_elem. exists (hr_entity r). split; [done|]. by bprop. }
  rewrite Hh, Hr. cbn [orb negb has_value]. guard as G2; [by left|]. guard as G3; [by left|].
  guard as G4; [by right|]. done.
Qed.

Lemma find_logical (es : list EntityRef) e : logical_unique es -> e ∈ es ->
  find_if (fun c => sameLogicalEntity c e) es = Some e.
Proof.
  intros Hu He. destruct (find_if _ es) as [c|] eqn:Ef.
  - apply find_if_Some in Ef as [Hc Hs]. f_equal. by apply Hu.
  - apply find_if_None in Ef. rewrite Forall_forall in Ef. specialize (Ef e He). unfold sameLogicalEntity in Ef.
    rewrite bool_decide_true, Z.eqb_refl in Ef by done. done.
Qed.

(** A successful health commit is what a query then returns. *)
Lemma commitHealth_read dm r : cst_generation (dm_catalog_ dm) <> 0 -> logical_unique (cst_entities (dm_catalog_ dm)) ->
  st_ok (hcr_status (fst (commitHealth dm r))) = true ->
  readHealth (snd (commitHealth dm r)) (hr_entity r) (hr_catalog_generation r) = (st_success, Some r).
Proof.
  intros Hg0 Hu Hok. destruct (commitHealth_cases dm r) as [[_ ?]|(ps & pc & ch & _ & Hg & He & _ & _ & _ & _ & _ & ->)];
    [congruence|]. unfold readHealth, generation_mismatch, current_entity.
  cbn [snd dm_catalog_ health_]. rewrite (proj2 (Z.eqb_neq _ 0)) by done.
  rewrite Hg, Z.eqb_refl, andb_false_r, find_logical by done.
  by rewrite bool_decide_true, om_find_set_eq by done.
Qed.

(** What [heartbeatAt] answers. *)
Lemma heartbeatAt_truthful rt entity now freshness dm :
  health_wf dm -> 0 <= now <= i64_max ->
  let r := heartbeatAt rt entity now freshness dm in
  if isDeterminateHealth (hr_state r)
  then rt_heartbeat_supported rt = true /\ exists e,
    latestHeartbeatEvidence dm entity (rt_catalog_generation rt) = (st_success, Some e) /\
    fhe_status e = OS_Valid /\ 0 <= now - fhe_observed_monotonic_time_ns e <= freshness /\
    hr_state r = determined_state (fhe_native_class e) /\ hr_evidence r = [evidenceReference e]
  else hr_state r = HS_Unknown /\ forall e,
    latestHeartbeatEvidence dm entity (rt_catalog_generation rt) = (st_success, Some e) ->
    rt_heartbeat_supported rt = true -> fhe_status e = OS_Valid ->
    now < fhe_observed_monotonic_time_ns e \/ freshness < now - fhe_observed_monotonic_time_ns e.
Proof.
  intros Hwf Hn. cbv zeta. unfold heartbeatAt.
  assert (forall en c i l, isDeterminateHealth (hr_state (unknown rt en c i now l)) = false) as Hu by done.
  destruct (rt_heartbeat_supported rt) eqn:G1; cbn [negb]; [|by rewrite Hu].
  destruct (latestHeartbeatEvidence dm entity (rt_catalog_generation rt)) as [st [e|]] eqn:El;
    [|rewrite Hu; split; [done|]; intros e [= ]].
  destruct (latestHeartbeatEvidence_some _ _ _ _ _ El) as [-> He]. cbn [st_ok negb].
  change (negb (st_ok st_success)) with false. cbv iota. destruct (now <? _) eqn:G2; bprop in G2.
  { rewrite Hu. split; [done|]. intros e' [= <-] _ _. by left. }
  destruct (stored_evidence_facts dm e Hwf He) as [Hf _].
  destruct (evaluate_state rt e now freshness Hf ltac:(lia)) as [S1 S2].
  destruct (decide (fhe_status e = OS_Valid /\ now - fhe_observed_monotonic_time_ns e <= freshness)) as [Hd|Hd].
  - destruct (S1 Hd) as [S3 S4]. rewrite S4. split; [done|]. exists e.
    destruct (evaluate_fields rt e now freshness) as (_ & _ & _ & _ & _ & F6). split_and!; try done; try lia; tauto.
  - rewrite (S2 Hd). change (isDeterminateHealth HS_Unknown) with false. split; [done|]. intros e' [= <-] _ Hv. right. apply Znot_ge_lt. intros ?. apply Hd. split; [done|lia].
Qed.

(** An active runtime comes from a validated catalog. *)
Definition runtime_ok (rt : Runtime) : Prop :=
  rt_catalog_generation rt <> 0 -> hce_limitation (rt_heartbeat rt) <> "".

Lemma mm_activateCatalog_ok mm v t now dm dm' :
  runtime_ok (mm_runtime_ mm) -> runtime_ok (mm_runtime_ (mm_activateCatalog mm v t now dm dm').1.2).
Proof.
  intros Hok. unfold mm_activateCatalog. destruct v as [v|]; [|done]. guard as G1; [done|]. cbv zeta.
  guard as G2; [done|]. destruct (rebuild _ _ _ _) as [gs graph].
  guard as G3; [done|].
  assert (hce_limitation (default hce_default (head (tc_health t))) <> "") as Hl.
  { apply negb_false_iff in G2. unfold tc_validate in G2. guard G2 as A1; [done|]. guard G2 as A2; [done|].
    cbv zeta in G2. guard G2 as A3; [by rewrite G2 in A3|]. destruct (tc_health t) as [|h [|]]; try done.
    guard G2 as A4; [done|]. unfold health_rejected in A4. bprop in A4. cbn. tauto. }
  guard as G4; [by intros _|]. guard as G5; [done|]. unfold next_runtime.
  destruct (cv_entities_ v) as [|record rs].
  - guard as G6; [done|]. by intros _.
  - destruct (cv_capabilities _ _) as [st set]. destruct (negb (st_ok st)); [done|]. destruct set as [set|]; [|done].
    guard as G6; [done|]. cbn [rt_entity]. destruct (commitHealth _ _) as [r dm2]. by intros _.
Qed.

Lemma active_entity_some rt entity : active_entity rt = Some entity ->
  rt_catalog_generation rt <> 0 /\ rt_entity rt = Some entity.
Proof. unfold active_entity. guard as G; [done|]. bprop in G. done. Qed.

(** ** Theorems *)

(** C31: Health queries are truthful.  An answered query reports Healthy,
    Warning or Error only when the heartbeat is supported and the latest
    stored evidence of the device is a valid reading of the corresponding
    class that is not older than the catalog's freshness and the requested
    maximum age, and then cites that evidence; anything else is Unknown.
    Conversely, as long as the stored health of the device is determinate, that
    is, no failure has been recorded since, such evidence does give the state of
    its class.  The query's status is success exactly when a determinate state
    of the heartbeat subsystem is reported. *)
Theorem health_query_truthful mm request now dm :
  health_wf dm -> now <= i64_max ->
  let rt := mm_runtime_ mm in
  let q := queryHealth mm request now dm in
  let fresh e :=
    latestHeartbeatEvidence dm (hq_entity request) (rt_catalog_generation rt) = (st_success, Some e) /\
    rt_heartbeat_supported rt = true /\ fhe_status e = OS_Valid /\
    0 <= now - fhe_observed_monotonic_time_ns e <= hce_freshness_ns (rt_heartbeat rt) /\
    (hq_max_age_ns request <> 0 -> now - fhe_observed_monotonic_time_ns e <= hq_max_age_ns request) in
  match hqr_aggregate q with
  | None => hqr_item q = None /\ st_ok (hqr_status q) = false
  | Some r =>
      (if isDeterminateHealth (hr_state r)
       then exists e, fresh e /\ hr_state r = determined_state (fhe_native_class e) /\ hr_evidence r = [evidenceReference e]
       else hr_state r = HS_Unknown) /\
      (forall e stored, fresh e ->
         readHealth dm (hq_entity request) (rt_catalog_generation rt) = (st_success, Some stored) ->
         isDeterminateHealth (hr_state stored) = true -> hr_state r = determined_state (fhe_native_class e)) /\
      (st_ok (hqr_status q) = true <->
       hq_subsystem_id request = kFirmwareHeartbeatHealthId /\ isDeterminateHealth (hr_state r) = true) /\
      (hq_subsystem_id request = kFirmwareHeartbeatHealthId -> hqr_item q = Some r)
  end.
Proof.
  intros Hwf Hn. cbv zeta. unfold queryHealth. destruct (active_entity (mm_runtime_ mm)) as [entity|]; [|done].
  guard as G1; [done|]. guard as G2; [done|]. guard as G3; [done|]. guard as G4; [done|]. bprop in G3. bprop in G4.
  rewrite G3. cbn [hqr_aggregate hqr_item hqr_status]. set (rt := mm_runtime_ mm) in *.
  set (fr := effectiveFreshness _ _). pose proof (heartbeatAt_truthful rt entity now fr dm Hwf ltac:(lia)) as Ht.
  cbv zeta in Ht. set (r := heartbeatAt rt entity now fr dm) in *.
  assert (forall a, a <= fr <-> a <= hce_freshness_ns (rt_heartbeat rt) /\ (hq_max_age_ns request <> 0 -> a <= hq_max_age_ns request))
    as Hfr by (intros a; unfold fr, effectiveFreshness; guard as G; bprop in G; lia).
  split_and!.
  - destruct (isDeterminateHealth (hr_state r)); [|by destruct Ht]. destruct Ht as (T1 & e & T2 & T3 & T4 & T5 & T6). exists e.
    pose proof (Hfr (now - fhe_observed_monotonic_time_ns e)). split_and!; try done; try lia; tauto.
  - intros e stored (E1 & E2 & E3 & E4 & E5) _ _. pose proof (Hfr (now - fhe_observed_monotonic_time_ns e)).
    destruct (isDeterminateHealth (hr_state r)).
    + destruct Ht as (_ & e' & T2 & _ & _ & T5 & _). rewrite E1 in T2. by injection T2 as <-.
    + destruct Ht as [_ Ht]. destruct (Ht e E1 E2 E3); lia.
  - destruct (hq_subsystem_id request =? _) eqn:Gk; bprop in Gk; cbn [andb]; [|split; [done|tauto]].
    destruct (isDeterminateHealth (hr_state r)); [tauto|]. split; [done|]. by intros [_ ?].
  - intros ->. by rewrite Z.eqb_refl.
Qed.

(** Committed evidence becomes the device's health.  When the metrics
    manager is told of stored evidence of its device that is not in the future,
    the result it derives passes every check of the data manager: either the
    call succeeds and the data manager then serves exactly that result, or a
    limit or counter is exhausted and nothing changes.  Valid evidence within
    the catalog's freshness gives the state of its class, anything else is
    Unknown. *)
Theorem evidence_becomes_health mm id now dm entity e :
  let rt := mm_runtime_ mm in
  let r := evaluate rt e now (hce_freshness_ns (rt_heartbeat rt)) in
  let result := onHeartbeatEvidenceCommitted mm id now dm dm in
  health_wf dm -> logical_unique (cst_entities (dm_catalog_ dm)) -> is_Some (cst_heartbeat (dm_catalog_ dm)) ->
  runtime_ok rt -> active_entity rt = Some entity -> heartbeatEvidence dm id = (st_success, Some e) ->
  fhe_catalog_generation e = rt_catalog_generation rt -> fhe_entity e = entity ->
  fhe_observed_monotonic_time_ns e <= now <= i64_max ->
  (if st_ok (fst result)
   then readHealth (snd result) entity (rt_catalog_generation rt) = (st_success, Some r)
   else snd result = dm /\
        (st_code (fst result) = PDCM_STATUS_RESOURCE_EXHAUSTED \/ st_code (fst result) = PDCM_STATUS_INTERNAL)) /\
  hr_state r = (if bool_decide (fhe_status e = OS_Valid)
                   && (now - fhe_observed_monotonic_time_ns e <=? hce_freshness_ns (rt_heartbeat rt))
                then determined_state (fhe_native_class e) else HS_Unknown).
Proof.
  cbv zeta. intros Hwf Hu Hh Hrt Ha Hid Hg He Hn. set (rt := mm_runtime_ mm) in *.
  destruct (active_entity_some _ _ Ha) as [Hg0 _]. destruct (heartbeatEvidence_some _ _ _ _ Hid) as [_ Hin].
  destruct (stored_evidence_facts dm e Hwf Hin) as [Hf [_ _ I3 I4]]. rewrite Hg in I3.
  destruct (evaluate_fields rt e now (hce_freshness_ns (rt_heartbeat rt))) as (F1 & _ & F3 & _).
  destruct (evaluate_valid rt e now (hce_freshness_ns (rt_heartbeat rt)) dm) as [V1 V2]; auto; [lia|].
  split.
  - unfold onHeartbeatEvidenceCommitted. fold rt. rewrite Ha, Hid. change (negb (st_ok st_success)) with false. cbv iota.
    rewrite Hg, He, Z.eqb_refl, bool_decide_true, (proj2 (Z.ltb_ge _ _)) by (done || lia). cbn [negb orb].
    set (r := evaluate _ _ _ _) in *.
    pose proof (commitHealth_read dm r ltac:(congruence) Hu) as Hr.
    pose proof (commitHealth_refusal dm r V1 V2 ltac:(congruence) ltac:(congruence) ltac:(congruence) Hh) as Hno.
    destruct (commitHealth_cases dm r) as [[Hs _]|(? & ? & ? & _ & _ & _ & _ & _ & _ & _ & _ & Hs)].
    + destruct (commitHealth dm r) as [c dm2]. cbn [fst snd] in *. subst dm2. destruct (st_ok (hcr_status c)); [|auto].
      rewrite <- F3, <- He, <- F1. auto.
    + rewrite Hs in Hr |- *. cbn [fst snd hcr_status] in Hr |- *. rewrite <- F3, <- He, <- F1. by apply Hr.
  - destruct (evaluate_state rt e now (hce_freshness_ns (rt_heartbeat rt)) Hf ltac:(lia)) as [S1 S2].
    guard as G; bprop in G; [by apply S1|apply S2]. intros [? ?]. destruct G; [done|lia].
Qed.

(** Determinate health expires.  After a successful freshness check at
    [now], a stored Healthy, Warning or Error of the device rests on latest
    evidence that is not older than the catalog's freshness. *)
Theorem freshness_expires mm now dm entity r :
  let rt := mm_runtime_ mm in
  let result := runFreshnessOnce mm now dm dm in
  health_wf dm -> logical_unique (cst_entities (dm_catalog_ dm)) -> now <= i64_max ->
  active_entity rt = Some entity -> st_ok (fst result) = true ->
  readHealth (snd result) entity (rt_catalog_generation rt) = (st_success, Some r) ->
  isDeterminateHealth (hr_state r) = true ->
  snd result = dm /\ exists e,
    latestHeartbeatEvidence dm entity (rt_catalog_generation rt) = (st_success, Some e) /\
    0 <= now - fhe_observed_monotonic_time_ns e <= hce_freshness_ns (rt_heartbeat rt).
Proof.
  cbv zeta. intros Hwf Hu Hn Ha. unfold runFreshnessOnce. rewrite Ha. set (rt := mm_runtime_ mm) in *.
  destruct (active_entity_some _ _ Ha) as [Hg0 _]. destruct (now <? 0) eqn:Gn; [done|]. bprop in Gn.
  destruct (readHealth dm entity (rt_catalog_generation rt)) as [st [cur|]] eqn:Er; cycle 1.
  { cbn [fst snd]. rewrite Er. congruence. }
  guard as G1; [by apply negb_true_iff in G1; cbn [fst]; rewrite G1|].
  guard as G2. { cbn [fst snd]. rewrite Er. intros _ [= _ ->] Hd. by rewrite Hd in G2. }
  destruct (latestHeartbeatEvidence dm entity (rt_catalog_generation rt)) as [st2 [e|]] eqn:El; cycle 1.
  { cbn [fst snd]. by rewrite (latest_evidence_none _ _ _ _ El). }
  destruct (latestHeartbeatEvidence_some _ _ _ _ _ El) as [-> Hin]. change (negb (st_ok st_success)) with false. cbv iota.
  destruct (stored_evidence_facts dm e Hwf Hin) as [Hf [_ _ I3 I4]]. pose proof (ef_time e Hf) as Ht.
  pose proof (latest_evidence_entity _ _ _ _ _ Hwf El) as Hent.
  destruct (now <? fhe_observed_monotonic_time_ns e) eqn:G3; [done|]. bprop in G3.
  assert (wrap64 (now - fhe_observed_monotonic_time_ns e) = now - fhe_observed_monotonic_time_ns e) as ->
    by (unfold wrap64, i64_max in *; apply Z.mod_small; lia).
  guard as G4; bprop in G4. { intros _ _ _. split; [done|]. exists e. split; [done|lia]. }
  destruct (evaluate_state rt e now (hce_freshness_ns (rt_heartbeat rt)) Hf ltac:(lia)) as [_ S2].
  destruct (evaluate_fields rt e now (hce_freshness_ns (rt_heartbeat rt))) as (F1 & _ & F3 & _).
  set (r' := evaluate _ _ _ _) in *. assert (hr_state r' = HS_Unknown) as Hunk by (apply S2; lia).
  destruct (commitHealth dm r') as [c dm2] eqn:Ec. cbn [fst snd]. intros Hok Hr Hd.
  pose proof (commitHealth_read dm r') as Hread. rewrite Ec in Hread. cbn [fst snd] in Hread.
  assert (cst_generation (dm_catalog_ dm) <> 0) as Hc0
    by (intros E0; unfold latestHeartbeatEvidence in El; by rewrite E0 in El).
  rewrite F1, Hent, F3, Hr in Hread. injection (Hread Hc0 Hu Hok) as ->. by rewrite Hunk in Hd.
Qed.
End Metrics.

(** ** Witnesses *)

(** The device of the health store's example, with a normal heartbeat at 10. *)
Definition sample_metrics : MetricsManager :=
  mkMetrics (mkRuntime 1 (Some sample_entity) (default hce_default (head (tc_health sample_hb_target))) true) []
    graph_snapshot_default.
Definition sample_request : HealthRequest := mkHealthRequest sample_entity 1 1 0.

Definition sample_health_stored : DataManager := foldl (@data_step sample_layout) sample_empty sample_data_ops.

Lemma sample_health_stored_wf : @health_wf sample_layout sample_health_stored.
Proof.
  apply (@data_run_wf sample_layout). split.
  - apply (@dm_construct_wf sample_layout data_limits_default); [apply sample_limits_wf|reflexivity].
  - apply (@dm_construct_health sample_layout data_limits_default); [apply sample_limits_wf|reflexivity].
Qed.

Lemma health_query_truthful_witness :
  let q := queryHealth sample_metrics sample_request 20 sample_health_stored in
  exists r, hqr_aggregate q = Some r /\ hr_state r = HS_Healthy /\ st_ok (hqr_status q) = true.
Proof.
  cbv zeta. pose proof (health_query_truthful sample_metrics sample_request 20 sample_health_stored
    sample_health_stored_wf ltac:(by vm_compute)) as Ht. cbv zeta in Ht.
  destruct (hqr_aggregate (queryHealth sample_metrics sample_request 20 sample_health_stored)) as [r|] eqn:Eq;
    [|by vm_compute in Eq].
  destruct Ht as (_ & H2 & H3 & _). exists r. split; [done|].
  assert (hr_state r = HS_Healthy) as Hs.
  { apply (H2 (fhe_with_id (sample_evidence 10 5) 1) sample_health); [|vm_compute; reflexivity|reflexivity].
    split_and!; [vm_compute; reflexivity|reflexivity|reflexivity|cbn; lia..]. }
  split; [exact Hs|]. apply H3. split; [reflexivity|]. rewrite Hs. reflexivity.
Defined.

(** The query looks at the evidence only: after the provider has become
    unavailable the stored health is Unknown, and a query still reports the
    state of the last fresh evidence. *)
Example provider_failure_not_queried :
  let '(st, dm) := @onProviderStateChanged sample_layout sample_metrics PS_Unavailable 20 sample_health_stored
                     sample_health_stored in
  st_ok st = true /\
  option_map hr_state (snd (readHealth dm sample_entity 1)) = Some HS_Unknown /\
  option_map hr_state (hqr_aggregate (queryHealth sample_metrics sample_request 21 dm)) = Some HS_Healthy.
Proof. vm_compute. done. Qed.

Lemma evidence_becomes_health_witness :
  let result := @onHeartbeatEvidenceCommitted sample_layout sample_metrics 1 20 sample_health_data sample_health_data in
  readHealth (snd result) sample_entity 1 =
    (st_success, Some (evaluate (mm_runtime_ sample_metrics) (fhe_with_id (sample_evidence 10 5) 1) 20 5000000000)).
Proof.
  cbv zeta.
  pose proof (@evidence_becomes_health sample_layout sample_metrics 1 20 sample_health_data sample_entity
    (fhe_with_id (sample_evidence 10 5) 1) (proj2 sample_health_data_wf)) as Ht.
  rewrite sample_entities in Ht.
  assert (st_ok (fst (@onHeartbeatEvidenceCommitted sample_layout sample_metrics 1 20 sample_health_data
    sample_health_data)) = true) as Hok by (vm_compute; reflexivity).
  rewrite Hok in Ht. refine (proj1 (Ht _ _ _ _ _ _ _ _)).
  - by intros a b ->%list_elem_of_singleton ->%list_elem_of_singleton.
  - vm_compute. by eexists.
  - intros _. done.
  - reflexivity.
  - vm_compute. reflexivity.
  - reflexivity.
  - reflexivity.
  - cbn. unfold i64_max. lia.
Defined.

(** At 6000000000 the evidence has expired; the example's stored health then
    becomes Unknown. *)
Lemma freshness_expires_witness :
  let dm := foldl (@data_step sample_layout) sample_empty sample_data_ops in
  let result := @runFreshnessOnce sample_layout sample_metrics 3000000000 dm dm in
  isDeterminateHealth (hr_state sample_health) = true /\
  readHealth (snd (@runFreshnessOnce sample_layout sample_metrics 6000000000 dm dm)) sample_entity 1 =
    (st_success, Some (evaluate (mm_runtime_ sample_metrics) (fhe_with_id (sample_evidence 10 5) 1)
       6000000000 5000000000)) /\
  snd result = dm.
Proof.
  cbv zeta. split; [done|]. split; [vm_compute; reflexivity|].
  apply (@freshness_expires sample_layout sample_metrics 3000000000
    (foldl (@data_step sample_layout) sample_empty sample_data_ops) sample_entity sample_health).
  - apply (@data_run_wf sample_layout). split.
    + apply (@dm_construct_wf sample_layout data_limits_default); [apply sample_limits_wf|reflexivity].
    + apply (@dm_construct_health sample_layout data_limits_default); [apply sample_limits_wf|reflexivity].
  - assert (cst_entities (dm_catalog_ (foldl (@data_step sample_layout) sample_empty sample_data_ops)) = [sample_entity])
      as -> by (vm_compute; reflexivity).
    by intros a b ->%list_elem_of_singleton ->%list_elem_of_singleton.
  - unfold i64_max. lia.
  - reflexivity.
  - vm_compute. reflexivity.
  - vm_compute. reflexivity.
  - reflexivity.
Defined.
