(* ===== verification/Plan.v ===== *)
(** Collection plans (src/product/src/collection/collection_coordinator.hpp and
    .cpp, [applyWatchSnapshot]): the effective watches of a snapshot are grouped
    by provider, period, kind and isolation class, and every group is cut into
    jobs of at most [max_batch_items] items. *)
From S2P Require Import Prelude Containers Common Provider Catalog EventStore DataStore HealthStore Watch.
Local Open Scope string_scope.
Local Open Scope list_scope.
Open Scope Z_scope.
Open Scope pdcm_scope.

(** ** Data *)

Record CollectionLimits := mkCollectionLimits {
  max_plan_jobs : Z;
  max_batch_items : Z;
  max_result_items : Z;
  max_result_bytes : Z;
  max_provider_queue : Z;
  max_provider_in_flight : Z;
  max_fresh_waiters : Z;
  scheduler_max_sleep : Nanoseconds }.
Definition collection_limits_default : CollectionLimits :=
  mkCollectionLimits 4096 64 4096 (1024 * 1024) 256 1 1024 100000000.

Definition cl_validate (l : CollectionLimits) : Status :=
  if (max_plan_jobs l =? 0) || (max_batch_items l =? 0) || (max_result_items l =? 0) || (max_result_bytes l =? 0)
     || (max_result_items l <? max_batch_items l) || (max_provider_queue l =? 0)
     || negb (max_provider_in_flight l =? 1) || (max_fresh_waiters l =? 0) || (scheduler_max_sleep l <=? 0)
  then invalid_argument "collection limits must be positive and consistent"
  else st_success.

Record CollectionPlanItem := mkPlanItem {
  cpi_key : EffectiveWatchKey;
  cpi_period : Nanoseconds;
  cpi_freshness : Nanoseconds;
  cpi_priority : WatchPriority;
  cpi_logical_watches : list WatchId }.

Record CollectionJob := mkJob {
  cj_id : Z;
  cj_provider_id : string;
  cj_kind : ProviderDataKind;
  cj_isolation_class : Z;
  cj_period : Nanoseconds;
  cj_priority : WatchPriority;
  cj_items : list CollectionPlanItem }.

Record CollectionPlan := mkPlan {
  cp_version : Z;
  cp_watch_snapshot_version : Z;
  cp_catalog_generation : Z;
  cp_created_at : MonotonicTime;
  cp_jobs : list CollectionJob }.
Definition plan_default : CollectionPlan := mkPlan 0 0 0 0 [].

Record GroupKey := mkGroupKey {
  gk_provider_id : string; gk_period : Nanoseconds; gk_kind : ProviderDataKind; gk_isolation_class : Z }.
#[export] Instance GroupKey_eq_dec : EqDecision GroupKey.
Proof. solve_decision. Defined.
Definition group_tuple (g : GroupKey) : string * Z * Z * Z :=
  (gk_provider_id g, gk_period g, data_kind_value (gk_kind g), gk_isolation_class g).
Lemma group_tuple_inj a b : group_tuple a = group_tuple b -> a = b.
Proof. destruct a as [p t k i], b as [p' t' k' i']. intros [= -> -> Hk ->]. f_equal. by destruct k, k'. Qed.
#[export] Instance GroupKey_ordered : Ordered GroupKey := ordered_by group_tuple group_tuple_inj.

(** ** Grouping *)

(** Whether the data catalog knows what the watch reads. *)
Definition known_data (m : DataManager) (key : EffectiveWatchKey) : bool :=
  match ewk_kind key with
  | PDK_Metric => has_value (metricDescriptor m (ewk_data_id key))
  | PDK_HeartbeatEvidence =>
      match heartbeatCatalog m with
      | Some (descriptor, supported) =>
          supported && match hce_provider_data_id descriptor with
                       | Some id => id =? ewk_data_id key
                       | None => false
                       end
      | None => false
      end
  end.

Definition watch_bad (m : DataManager) (seen : list EffectiveWatchKey) (w : EffectiveWatch) : bool :=
  str_empty (ewk_provider_id (ew_key w)) || (ewk_data_id (ew_key w) =? 0) || (ew_period w <=? 0)
  || (ew_freshness w <? ew_period w) || bool_decide (ew_key w ∈ seen) || negb (known_data m (ew_key w)).

Definition group_of (w : EffectiveWatch) : GroupKey :=
  mkGroupKey (ewk_provider_id (ew_key w)) (ew_period w) (ewk_kind (ew_key w)) (ewk_isolation_class (ew_key w)).
Definition item_of (w : EffectiveWatch) : CollectionPlanItem :=
  mkPlanItem (ew_key w) (ew_period w) (ew_freshness w) (ew_priority w) (ew_logical_watches w).

(** The loop over the effective watches. *)
Fixpoint group_watches (m : DataManager) (seen : list EffectiveWatchKey)
    (groups : list (GroupKey * list CollectionPlanItem)) (ws : list EffectiveWatch)
    : option (list (GroupKey * list CollectionPlanItem)) :=
  match ws with
  | [] => Some groups
  | w :: ws' =>
      if watch_bad m seen w then None
      else group_watches m (ew_key w :: seen)
             (om_set (group_of w) (default [] (om_find (group_of w) groups) ++ [item_of w]) groups) ws'
  end.

(** ** Jobs *)

(** [std::sort] by key. *)
Fixpoint insert_item (i : CollectionPlanItem) (l : list CollectionPlanItem) : list CollectionPlanItem :=
  match l with
  | [] => [i]
  | j :: l' => if key_ltb (cpi_key j) (cpi_key i) then j :: insert_item i l' else i :: l
  end.
Definition sort_items (l : list CollectionPlanItem) : list CollectionPlanItem := foldr insert_item [] l.

(** The batches of a group: [fuel] is the number of items, one batch takes at
    least one. *)
Fixpoint batches (fuel : nat) (n : nat) (items : list CollectionPlanItem) : list (list CollectionPlanItem) :=
  match fuel with
  | O => []
  | S fuel' => match items with [] => [] | _ => take n items :: batches fuel' n (drop n items) end
  end.

Definition group_batches (n : nat) (g : GroupKey * list CollectionPlanItem) : list (GroupKey * list CollectionPlanItem) :=
  map (fun b => (g.1, b)) (batches (length g.2) n (sort_items g.2)).

Definition prio_of (items : list CollectionPlanItem) : WatchPriority :=
  foldl (fun p i => prio_max p (cpi_priority i)) WP_Low items.

Definition job_of (id : Z) (g : GroupKey * list CollectionPlanItem) : CollectionJob :=
  mkJob id (gk_provider_id g.1) (gk_kind g.1) (gk_isolation_class g.1) (gk_period g.1) (prio_of g.2) g.2.

(** The loop over the batches; [None] when the job limit is exceeded. *)
Fixpoint make_jobs (limit : Z) (jobs : list CollectionJob) (next_job_id : Z)
    (bs : list (GroupKey * list CollectionPlanItem)) : option (list CollectionJob) :=
  match bs with
  | [] => Some jobs
  | b :: bs' =>
      if (zlen jobs =? limit) || (next_job_id =? u64_max) then None
      else make_jobs limit (jobs ++ [job_of next_job_id b]) (next_job_id + 1) bs'
  end.

(** The part of [applyWatchSnapshot] before the plan is published; [current]
    is the version of the published plan. *)
Definition compilePlan (limits : CollectionLimits) (m : DataManager) (watches : option WatchSnapshot) (now current : Z)
    : Status + CollectionPlan :=
  let stale := inl (err_status PDCM_STATUS_STALE_GENERATION "watch snapshot does not match the active data catalog") in
  match watches with
  | None => stale
  | Some ws =>
      if (ws_catalog_generation ws =? 0) || negb (ws_catalog_generation ws =? cst_generation (dm_catalog_ m))
      then stale
      else
      match group_watches m [] [] (ws_effective_watches ws) with
      | None => inl (invalid_argument "effective watch cannot be compiled")
      | Some groups =>
          match make_jobs (max_plan_jobs limits) [] 1
                  (concat (map (group_batches (Z.to_nat (max_batch_items limits))) groups)) with
          | None => inl (err_status PDCM_STATUS_RESOURCE_EXHAUSTED "collection plan job limit exceeded")
          | Some jobs =>
              if current =? u64_max
              then inl (err_status PDCM_STATUS_INTERNAL "collection plan version overflow")
              else inr (mkPlan (current + 1) (ws_version ws) (ws_catalog_generation ws) now jobs)
          end
      end
  end.

(** ** Lemmas on the grouping *)

(** Pushing an item into the group of a key. *)
Lemma om_push {K A} `{Ordered K} (k : K) (x : A) (m : list (K * list A)) : om_wf m ->
  concat (om_set k (default [] (om_find k m) ++ [x]) m).*2 ≡ₚ x :: concat m.*2.
Proof.
  induction m as [|[k' v'] m IH]; intros Hwf; [done|]. cbn [om_set om_find].
  unfold om_wf in Hwf. cbn [fmap list_fmap fst] in Hwf. apply StronglySorted_inv in Hwf as [Hwf Hall].
  unfold key_eqb. destruct (key_ltb k k') eqn:E1; cbn [negb andb].
  - assert (om_find k m = None) as ->; [|done]. apply om_find_None. intros Hin. rewrite Forall_forall in Hall.
    pose proof (key_lt_trans _ _ _ E1 (Hall _ Hin)) as Hk. by apply key_lt_irrefl in Hk.
  - destruct (key_ltb k' k) eqn:E2; cbn [negb fmap list_fmap snd concat default].
    + rewrite IH by done. apply Permutation_sym, Permutation_middle.
    + cbn. rewrite <- app_assoc. cbn. apply Permutation_sym, Permutation_middle.
Qed.

(** What every group holds. *)
Definition groups_ok (groups : list (GroupKey * list CollectionPlanItem)) : Prop :=
  forall g its i, (g, its) ∈ groups -> i ∈ its ->
  g = mkGroupKey (ewk_provider_id (cpi_key i)) (cpi_period i) (ewk_kind (cpi_key i)) (ewk_isolation_class (cpi_key i)).

Lemma om_set_elem {K V} `{Ordered K} (k : K) (v : V) m k' v' :
  om_wf m -> (k', v') ∈ om_set k v m -> (k', v') = (k, v) \/ (k', v') ∈ m.
Proof.
  intros Hwf Hin. apply om_elem_find in Hin; [|by apply om_wf_set].
  destruct (key_eqb k k') eqn:E.
  - apply key_eqb_true in E as <-. rewrite om_find_set_eq in Hin. left. congruence.
  - apply key_eqb_false in E. rewrite om_find_set_ne in Hin by done. right. by apply om_find_elem.
Qed.

Lemma groups_ok_push groups w : om_wf groups -> groups_ok groups ->
  groups_ok (om_set (group_of w) (default [] (om_find (group_of w) groups) ++ [item_of w]) groups).
Proof.
  intros Hwf Hok g its i Hin Hi. apply om_set_elem in Hin as [[= -> ->]|Hin]; [|by eapply Hok|done].
  apply elem_of_app in Hi as [Hi|Hi%list_elem_of_singleton]; [|by subst i].
  destruct (om_find (group_of w) groups) as [its'|] eqn:Ef; [|by inversion Hi].
  eapply Hok; [|exact Hi]. by apply om_find_elem.
Qed.

(** The watches that can be compiled. *)
Definition compilable (m : DataManager) (w : EffectiveWatch) : Prop :=
  ewk_provider_id (ew_key w) <> "" /\ ewk_data_id (ew_key w) <> 0 /\ 0 < ew_period w <= ew_freshness w /\
  known_data m (ew_key w) = true.

Lemma group_watches_spec m ws seen groups : om_wf groups -> groups_ok groups ->
  match group_watches m seen groups ws with
  | Some groups' =>
      om_wf groups' /\ groups_ok groups' /\ concat groups'.*2 ≡ₚ map item_of ws ++ concat groups.*2 /\
      Forall (compilable m) ws /\ NoDup (map ew_key ws) /\ (forall w, w ∈ ws -> ew_key w ∉ seen)
  | None => ~ (Forall (compilable m) ws /\ NoDup (map ew_key ws) /\ forall w, w ∈ ws -> ew_key w ∉ seen)
  end.
Proof.
  revert seen groups. induction ws as [|w ws IH]; intros seen groups Hwf Hok; cbn [group_watches].
  { split_and!; try done; [constructor|inversion 1]. }
  assert (watch_bad m seen w = false <-> compilable m w /\ ew_key w ∉ seen) as Hbad.
  { unfold watch_bad, compilable. bprop. split; [intros; split_and!|]; intuition lia. }
  destruct (watch_bad m seen w) eqn:Eb.
  - intros (Hc & Hn & Hs). apply Forall_cons in Hc as [Hc _]. assert (true = false); [|done]. apply Hbad.
    split; [done|]. apply Hs. left.
  - apply proj1 in Hbad. specialize (Hbad eq_refl) as [Hc Hns].
    specialize (IH (ew_key w :: seen) _ (om_wf_set _ _ _ Hwf) (groups_ok_push groups w Hwf Hok)).
    assert ((Forall (compilable m) ws /\ NoDup (map ew_key ws) /\ forall w', w' ∈ ws -> ew_key w' ∉ ew_key w :: seen) <->
      Forall (compilable m) (w :: ws) /\ NoDup (map ew_key (w :: ws)) /\ forall w', w' ∈ w :: ws -> ew_key w' ∉ seen) as Hiff.
    { cbn [map]. rewrite Forall_cons, NoDup_cons. split.
      - intros (I1 & I2 & I3). split_and!; auto.
        + intros (w' & Hw' & Hin)%list_elem_of_fmap. apply (I3 w' Hin). rewrite Hw'. left.
        + intros w' [->|Hw']%elem_of_cons; [done|]. intros Hs. apply (I3 w' Hw'). by right.
      - intros ((_ & I1) & (I2 & I3) & I4). split_and!; auto. intros w' Hw' [Heq|Hs]%elem_of_cons.
        + apply I2. rewrite <- Heq. by apply list_elem_of_fmap_2.
        + apply (I4 w'); [by right|done]. }
    destruct (group_watches _ _ _ ws) as [groups'|]; [|by rewrite <- Hiff].
    destruct IH as (J1 & J2 & J3 & J4). split_and!; auto; try (by apply Hiff).
    rewrite J3, om_push by done. cbn [map app]. apply Permutation_sym, Permutation_middle.
Qed.

(** ** Lemmas on the jobs *)

Lemma sort_items_perm l : sort_items l ≡ₚ l.
Proof.
  unfold sort_items. induction l as [|i l IH]; [done|]. cbn [foldr]. rewrite <- IH at 2. generalize (foldr insert_item [] l).
  intros k. induction k as [|j k IHk]; [done|]. cbn [insert_item]. destruct (key_ltb _ _); [|done].
  rewrite IHk. apply Permutation_swap.
Qed.

Lemma batches_spec fuel n items : (1 <= n)%nat -> (length items <= fuel)%nat ->
  concat (batches fuel n items) = items /\ Forall (fun b => (1 <= length b <= n)%nat) (batches fuel n items).
Proof.
  intros Hn. revert items. induction fuel as [|fuel IH]; intros items Hl; cbn [batches].
  { destruct items; [done|cbn in Hl; lia]. }
  destruct items as [|i items]; [done|]. set (l := i :: items) in *.
  assert (1 <= length l)%nat by (cbn; lia).
  destruct (IH (drop n l)) as [I1 I2]; [rewrite length_drop; lia|].
  cbn [concat]. rewrite I1, take_drop. split; [done|]. constructor; [|done]. rewrite length_take. lia.
Qed.

Lemma group_batches_spec n g : (1 <= n)%nat ->
  concat (group_batches n g).*2 ≡ₚ g.2 /\
  Forall (fun b => b.1 = g.1 /\ (1 <= length b.2 <= n)%nat /\ forall i, i ∈ b.2 -> i ∈ g.2) (group_batches n g).
Proof.
  intros Hn. unfold group_batches.
  destruct (batches_spec (length g.2) n (sort_items g.2) Hn) as [B1 B2].
  { by rewrite (Permutation_length (sort_items_perm g.2)). }
  rewrite <- list_fmap_compose. cbn. rewrite list_fmap_id, B1. split; [apply sort_items_perm|].
  apply Forall_fmap, Forall_forall. intros b Hb. cbn. rewrite Forall_forall in B2. split_and!; [done|by apply B2..|].
  intros i Hi. rewrite <- (sort_items_perm g.2), <- B1. apply list_elem_of_In, in_concat.
  exists b. by rewrite <- !list_elem_of_In.
Qed.

Lemma all_batches_spec n groups : (1 <= n)%nat -> groups_ok groups ->
  let bs := concat (map (group_batches n) groups) in
  concat bs.*2 ≡ₚ concat groups.*2 /\
  Forall (fun b => (1 <= length b.2 <= n)%nat /\ forall i, i ∈ b.2 ->
    b.1 = mkGroupKey (ewk_provider_id (cpi_key i)) (cpi_period i) (ewk_kind (cpi_key i)) (ewk_isolation_class (cpi_key i))) bs.
Proof.
  intros Hn. cbv zeta. induction groups as [|g groups IH]; intros Hok; [done|]. cbn [map concat].
  destruct (group_batches_spec n g Hn) as [G1 G2].
  destruct IH as [I1 I2]. { intros g' its i Hin. apply Hok. by right. }
  split.
  - rewrite fmap_app, concat_app, G1, I1. done.
  - apply Forall_app. split; [|done]. eapply Forall_impl; [exact G2|]. intros [k b] (E & El & Ei). cbn in *. split; [done|].
    intros i Hi. rewrite E. destruct g as [k' its]. apply (Hok k' its); [left|by apply Ei].
Qed.

Lemma make_jobs_spec limit bs jobs id : zlen jobs <= limit < u64_max - 1 -> id = zlen jobs + 1 ->
  match make_jobs limit jobs id bs with
  | Some jobs' => jobs' = jobs ++ zip_with job_of (seqZ id (zlen bs)) bs /\ zlen jobs' <= limit
  | None => limit < zlen jobs + zlen bs
  end.
Proof.
  revert jobs id. induction bs as [|b bs IH]; intros jobs id Hl Hid; cbn [make_jobs].
  { rewrite zlen_nil, seqZ_nil by lia. rewrite app_nil_r. split; [done|lia]. }
  rewrite zlen_cons. pose proof (zlen_nonneg bs). guard as G; bprop in G; [lia|].
  specialize (IH (jobs ++ [job_of id b]) (id + 1)). rewrite zlen_app, zlen_cons, zlen_nil in IH.
  specialize (IH ltac:(lia) ltac:(lia)). destruct (make_jobs _ _ _ bs) as [jobs'|]; [|lia].
  rewrite seqZ_cons by lia. cbn [zip_with]. destruct IH as [-> I2]. split; [|done].
  rewrite <- app_assoc. cbn [app]. do 4 f_equal; lia.
Qed.

Lemma jobs_fields bs id :
  let jobs := zip_with job_of (seqZ id (zlen bs)) bs in
  map cj_items jobs = bs.*2 /\ map cj_id jobs = seqZ id (zlen bs) /\ zlen jobs = zlen bs /\
  (forall j, j ∈ jobs -> exists id' b, b ∈ bs /\ j = job_of id' b).
Proof.
  revert id. induction bs as [|b bs IH]; intros id; cbv zeta.
  { rewrite zlen_nil, seqZ_nil by lia. split_and!; try done. inversion 1. }
  rewrite zlen_cons. pose proof (zlen_nonneg bs). rewrite seqZ_cons by lia. cbn [zip_with map fmap list_fmap].
  replace (Z.pred (1 + zlen bs)) with (zlen bs) by lia. destruct (IH (Z.succ id)) as (I1 & I2 & I3 & I4).
  split_and!; [by rewrite <- I1|by rewrite I2|rewrite zlen_cons; by rewrite I3|].
  intros j [->|Hj]%elem_of_cons; [exists id, b; split; [left|done]|].
  destruct (I4 j Hj) as (id' & b' & Hb & ->). exists id', b'. split; [by right|done].
Qed.

Lemma prio_max_le a b : priority_value a <= priority_value (prio_max a b) /\ priority_value b <= priority_value (prio_max a b) /\
  (prio_max a b = a \/ prio_max a b = b).
Proof. unfold prio_max. guard as G; bprop in G; split_and!; auto; lia. Qed.

(** The priority of a job is the highest of its items. *)
Lemma prio_of_spec its : its <> [] ->
  (exists i, i ∈ its /\ prio_of its = cpi_priority i) /\
  forall i, i ∈ its -> priority_value (cpi_priority i) <= priority_value (prio_of its).
Proof.
  unfold prio_of. assert (forall p, let q := foldl (fun p i => prio_max p (cpi_priority i)) p its in
    (q = p \/ exists i, i ∈ its /\ q = cpi_priority i) /\ priority_value p <= priority_value q /\
    forall i, i ∈ its -> priority_value (cpi_priority i) <= priority_value q) as Hgen.
  { induction its as [|x its IH]; intros p; cbn [foldl]; [split_and!; [by left|done|inversion 1]|].
    destruct (IH (prio_max p (cpi_priority x))) as (I1 & I2 & I3). destruct (prio_max_le p (cpi_priority x)) as (P1 & P2 & P3).
    cbv zeta in *. split_and!; [|lia|].
    - destruct I1 as [I1|(i & Hi & I1)]; [|right; exists i; split; [by right|done]].
      destruct P3 as [P3|P3]; [left; congruence|]. right. exists x. split; [left|congruence].
    - intros i [->|Hi]%elem_of_cons; [lia|by apply I3]. }
  intros Hne. destruct (Hgen WP_Low) as (I1 & _ & I3). cbv zeta in *. split; [|done]. destruct I1 as [I1|I1]; [|done].
  destruct its as [|x its]; [done|]. exists x. split; [left|]. specialize (I3 x ltac:(left)). rewrite I1 in I3 |- *.
  by destruct (cpi_priority x).
Qed.

(** The specification of [compilePlan]. *)
Lemma compilePlan_spec limits m ws now current :
  1 <= max_batch_items limits -> 0 <= max_plan_jobs limits < u64_max - 1 ->
  ws_catalog_generation ws = cst_generation (dm_catalog_ m) -> cst_generation (dm_catalog_ m) <> 0 ->
  let effective := ws_effective_watches ws in
  let ok := Forall (compilable m) effective /\ NoDup (map ew_key effective) in
  match compilePlan limits m (Some ws) now current with
  | inl status => st_ok status = false /\ (st_code status = PDCM_STATUS_INVALID_ARGUMENT <-> ~ ok)
  | inr plan =>
      ok /\ cp_version plan = current + 1 /\ cp_watch_snapshot_version plan = ws_version ws /\
      cp_catalog_generation plan = ws_catalog_generation ws /\ cp_created_at plan = now /\
      concat (map cj_items (cp_jobs plan)) ≡ₚ map item_of effective /\
      Forall (fun j =>
        1 <= zlen (cj_items j) <= max_batch_items limits /\
        (forall i, i ∈ cj_items j ->
           ewk_provider_id (cpi_key i) = cj_provider_id j /\ cpi_period i = cj_period j /\
           ewk_kind (cpi_key i) = cj_kind j /\ ewk_isolation_class (cpi_key i) = cj_isolation_class j /\
           priority_value (cpi_priority i) <= priority_value (cj_priority j)) /\
        exists i, i ∈ cj_items j /\ cpi_priority i = cj_priority j) (cp_jobs plan) /\
      map cj_id (cp_jobs plan) = seqZ 1 (zlen (cp_jobs plan)) /\ zlen (cp_jobs plan) <= max_plan_jobs limits
  end.
Proof.
  intros Hb Hp Hg Hg0. cbv zeta. unfold compilePlan. rewrite Hg, Z.eqb_refl, (proj2 (Z.eqb_neq _ 0)) by done. cbn [negb orb].
  assert (groups_ok []) as Hok0 by (intros ? ? ? ?%elem_of_nil; done).
  pose proof (group_watches_spec m (ws_effective_watches ws) [] [] om_wf_nil Hok0) as Hgw.
  assert (forall w, w ∈ ws_effective_watches ws -> ew_key w ∉ @nil EffectiveWatchKey) as Hnil by (intros w _; inversion 1).
  destruct (group_watches m [] [] _) as [groups|]; [|split; [done|]; split; [tauto|done]].
  destruct Hgw as (G1 & G2 & G3 & G4 & G5 & _). cbn [fmap list_fmap concat] in G3. rewrite app_nil_r in G3.
  destruct (all_batches_spec (Z.to_nat (max_batch_items limits)) groups ltac:(lia) G2) as [A1 A2].
  set (bs := concat (map (group_batches _) groups)) in *.
  pose proof (make_jobs_spec (max_plan_jobs limits) bs [] 1 ltac:(rewrite zlen_nil; lia) eq_refl) as Hj.
  destruct (make_jobs _ _ _ bs) as [jobs|]; [|split; [done|]; split; [done|]; intros Hn; tauto].
  destruct Hj as [-> Hl]. guard as Gv; [split; [done|]; split; [done|tauto]|].
  cbn [cp_version cp_watch_snapshot_version cp_catalog_generation cp_created_at cp_jobs app].
  destruct (jobs_fields bs 1) as (J1 & J2 & J3 & J4). cbv zeta in *.
  split_and!; try done; [by rewrite J1, A1, G3| |by rewrite J2, J3].
  apply Forall_forall. intros j (id & b & Hin & ->)%J4. rewrite Forall_forall in A2. destruct (A2 b Hin) as [L1 L2].
  cbn [job_of cj_items cj_provider_id cj_kind cj_isolation_class cj_period cj_priority].
  destruct (prio_of_spec b.2) as [(i & Hi & Hpi) Hpm]; [intros E; rewrite E in L1; cbn in L1; lia|].
  split_and!; [unfold zlen; lia|unfold zlen; lia| |by exists i].
  intros i' Hi'. rewrite (L2 i' Hi'). cbn. split_and!; try done. by apply Hpm.
Qed.

(** Every job of a compiled plan has items and a positive period. *)
Lemma compilePlan_jobs limits m ws now current plan :
  1 <= max_batch_items limits -> 0 <= max_plan_jobs limits < u64_max - 1 ->
  compilePlan limits m ws now current = inr plan ->
  Forall (fun j => cj_items j <> [] /\ 0 < cj_period j) (cp_jobs plan) /\ NoDup (map cj_id (cp_jobs plan)).
Proof.
  intros Hb Hp Hc. destruct ws as [ws|]; [|done]. pose proof (compilePlan_spec limits m ws now current Hb Hp) as Hs.
  assert (ws_catalog_generation ws = cst_generation (dm_catalog_ m) /\ cst_generation (dm_catalog_ m) <> 0) as [G1 G2].
  { unfold compilePlan in Hc. guard Hc as G; [done|]. bprop in G. lia. }
  specialize (Hs G1 G2). cbv zeta in Hs. rewrite Hc in Hs. destruct Hs as ([Hok _] & _ & _ & _ & _ & Hperm & Hj & Hid & _).
  split; [|rewrite Hid; apply NoDup_seqZ].
  apply Forall_forall. intros j Hin. rewrite Forall_forall in Hj. rewrite Forall_forall in Hok. destruct (Hj j Hin) as (H1 & H2 & i & Hi & _).
  split; [intros E; rewrite E in Hi; by inversion Hi|].
  assert (i ∈ concat (map cj_items (cp_jobs plan))) as Hic.
  { apply list_elem_of_In, in_concat. exists (cj_items j). rewrite <- !list_elem_of_In. split; [|done].
    by apply list_elem_of_fmap_2. }
  rewrite Hperm in Hic. apply list_elem_of_fmap in Hic as (w & -> & Hw). destruct (H2 _ Hi) as (_ & <- & _).
  destruct (Hok w Hw) as (_ & _ & ? & _). cbn. lia.
Qed.

(** ** The layout of the jobs *)

Definition job_group (j : CollectionJob) : GroupKey :=
  mkGroupKey (cj_provider_id j) (cj_period j) (cj_kind j) (cj_isolation_class j).
Definition item_group (i : CollectionPlanItem) : GroupKey :=
  mkGroupKey (ewk_provider_id (cpi_key i)) (cpi_period i) (ewk_kind (cpi_key i)) (ewk_isolation_class (cpi_key i)).
Definition of_group {A} (f : A -> GroupKey) (g : GroupKey) (l : list A) : list A :=
  List.filter (fun x => bool_decide (f x = g)) l.

(** The number of jobs that watches need in batches of [n]: every group on its
    own, rounded up. *)
Definition jobs_needed (n : Z) (ws : list EffectiveWatch) : Z :=
  foldr Z.add 0 (map (fun g => (zlen (of_group group_of g ws) + n - 1) / n) (remove_dups (map group_of ws))).

(** In a concatenation by distinct keys the elements of one key are its part. *)
Lemma of_group_concat {A C} (key : A -> GroupKey) (f : A -> list C) (ck : C -> GroupKey) l g :
  (forall a, a ∈ l -> Forall (fun c => ck c = key a) (f a)) -> NoDup (map key l) ->
  (forall a, a ∈ l -> key a = g -> of_group ck g (concat (map f l)) = f a) /\
  (g ∉ map key l -> of_group ck g (concat (map f l)) = []).
Proof.
  induction l as [|x l IH]; intros Hf Hnd; [split; [by intros a ?%elem_of_nil|done]|].
  cbn [map] in Hnd. apply NoDup_cons in Hnd as [Hx Hnd].
  destruct IH as [I1 I2]; [intros a Ha; apply Hf; by right|done|]. specialize (Hf x ltac:(left)). rewrite Forall_forall in Hf.
  unfold of_group in *. cbn [map concat]. rewrite List.filter_app. split.
  - intros a [->|Ha]%elem_of_cons Hk.
    + rewrite I2 by (by rewrite <- Hk). rewrite app_nil_r. apply filter_true_id. intros c Hc.
      apply bool_decide_eq_true. rewrite <- Hk. auto.
    + rewrite (I1 a Ha Hk), filter_false_nil; [done|]. intros c Hc. apply bool_decide_eq_false. rewrite (Hf c Hc).
      intros Heq. apply Hx. rewrite Heq, <- Hk. by apply list_elem_of_fmap_2.
  - rewrite not_elem_of_cons. intros [Hg Hn]. rewrite (I2 Hn), filter_false_nil; [done|].
    intros c Hc. apply bool_decide_eq_false. rewrite (Hf c Hc). congruence.
Qed.

Lemma batches_count fuel n items : (1 <= n)%nat -> (length items <= fuel)%nat ->
  zlen (batches fuel n items) = (zlen items + Z.of_nat n - 1) / Z.of_nat n.
Proof.
  intros Hn. revert items. induction fuel as [|fuel IH]; intros items Hl; cbn [batches].
  { destruct items; [|cbn in Hl; lia]. rewrite Z.div_small; [done|]. unfold zlen; cbn [length]; lia. }
  destruct items as [|i items]; [rewrite Z.div_small; [done|]; unfold zlen; cbn [length]; lia|]. set (l := i :: items) in *.
  assert (1 <= length l)%nat by (cbn; lia). rewrite zlen_cons, IH by (rewrite length_drop; lia).
  unfold zlen. rewrite length_drop. destruct (decide (length l <= n)%nat) as [Hle|Hgt].
  - replace (Z.of_nat (length l - n)) with 0 by lia. rewrite Z.div_small by lia.
    replace (Z.of_nat (length l) + Z.of_nat n - 1) with (Z.of_nat (length l) - 1 + 1 * Z.of_nat n) by lia.
    rewrite Z.div_add, Z.div_small by lia. lia.
  - replace (Z.of_nat (length l) + Z.of_nat n - 1) with
      (Z.of_nat (length l - n) + Z.of_nat n - 1 + 1 * Z.of_nat n) by lia. rewrite Z.div_add by lia. lia.
Qed.

(** Every batch but the last is full. *)
Lemma batches_full fuel n items before b after :
  batches fuel n items = before ++ b :: after -> after <> [] -> length b = n.
Proof.
  revert items before. induction fuel as [|fuel IH]; intros items before Heq Hne; cbn [batches] in Heq; [by destruct before|].
  destruct items as [|i items]; [by destruct before|]. destruct before as [|b' before]; injection Heq as Hb Heq; [|by eapply IH].
  subst b after. rewrite length_take. destruct fuel as [|fuel]; [done|]. cbn [batches] in Hne.
  destruct (drop n (i :: items)) as [|y ys] eqn:Ed; [done|].
  assert (length (drop n (i :: items)) = S (length ys)) as Hlen by (by rewrite Ed). rewrite length_drop in Hlen. lia.
Qed.

Definition item_le (a b : CollectionPlanItem) : Prop := key_le (cpi_key a) (cpi_key b).

Lemma sort_items_sorted l : StronglySorted item_le (sort_items l).
Proof.
  unfold sort_items. induction l as [|i l IH]; cbn [foldr]; [constructor|]. revert IH. generalize (foldr insert_item [] l).
  intros k Hs. induction k as [|j k IHk]; cbn [insert_item]; [repeat constructor|].
  apply StronglySorted_inv in Hs as [Hs Hall]. destruct (key_ltb (cpi_key j) (cpi_key i)) eqn:E.
  - constructor; [auto|]. apply Forall_forall. intros x Hx.
    assert (insert_item i k ≡ₚ i :: k) as Hp.
    { clear. induction k as [|y k IH]; [done|]. cbn [insert_item]. destruct (key_ltb _ _); [|done].
      rewrite IH. apply Permutation_swap. }
    rewrite Hp in Hx. apply elem_of_cons in Hx as [->|Hx]; [by apply key_lt_le|]. rewrite Forall_forall in Hall. auto.
  - constructor; [by constructor|]. constructor; [done|]. eapply Forall_impl; [exact Hall|].
    intros x Hx. by eapply key_le_trans.
Qed.

Lemma group_watches_nonempty m seen groups ws groups' : om_wf groups -> Forall (fun g => g.2 <> []) groups ->
  group_watches m seen groups ws = Some groups' -> Forall (fun g => g.2 <> []) groups'.
Proof.
  revert seen groups. induction ws as [|w ws IH]; intros seen groups Hwf Hne; cbn [group_watches]; [by intros [= <-]|].
  guard as G; [done|]. apply IH; [by apply om_wf_set|]. apply Forall_forall. intros [k v] Hin.
  apply om_set_elem in Hin as [[= -> ->]|Hin]; [by destruct (default _ _)| |done].
  rewrite Forall_forall in Hne. by apply (Hne (k, v)).
Qed.

Lemma of_group_perm {A} (f : A -> GroupKey) g l l' : l ≡ₚ l' -> of_group f g l ≡ₚ of_group f g l'.
Proof.
  unfold of_group. induction 1 as [|x l l' _ IH|x y l|l1 l2 l3 _ IH1 _ IH2]; cbn [List.filter]; [done| | |by rewrite IH1].
  - case_bool_decide; by rewrite IH.
  - repeat case_bool_decide; try done. apply Permutation_swap.
Qed.

Lemma of_group_map {A B} (f : B -> GroupKey) (h : A -> B) g l :
  of_group f g (map h l) = map h (of_group (fun x => f (h x)) g l).
Proof.
  unfold of_group. induction l as [|x l IH]; [done|]. cbn [map List.filter]. rewrite IH. by case_bool_decide.
Qed.

Lemma sum_perm (l l' : list Z) : l ≡ₚ l' -> foldr Z.add 0 l = foldr Z.add 0 l'.
Proof. induction 1; cbn [foldr]; lia. Qed.

Section layout.
Context (ws : list EffectiveWatch) (groups : list (GroupKey * list CollectionPlanItem)).
Context (Hwf : om_wf groups) (Hok : groups_ok groups) (Hne : Forall (fun g => g.2 <> []) groups).
Context (Hperm : concat groups.*2 ≡ₚ map item_of ws) (n : nat) (Hn : (1 <= n)%nat).

Lemma group_members g : g ∈ groups -> g.2 ≡ₚ map item_of (of_group group_of g.1 ws).
Proof.
  intros Hg. pose proof (of_group_map item_group item_of g.1 ws) as Hm.
  change (fun x => item_group (item_of x)) with group_of in Hm. rewrite <- Hm, <- (of_group_perm _ _ _ _ Hperm). clear Hm.
  change (groups.*2) with (map snd groups).
  destruct (of_group_concat fst snd item_group groups g.1) as [H1 _]; [|apply (om_wf_NoDup _ Hwf)|].
  - intros [k its] Hin. apply Forall_forall. intros i Hi. symmetry. by eapply Hok.
  - by rewrite (H1 g Hg eq_refl).
Qed.

Lemma group_keys : groups.*1 ≡ₚ remove_dups (map group_of ws).
Proof.
  apply NoDup_Permutation; [apply (om_wf_NoDup _ Hwf)|apply NoDup_remove_dups|]. intros k. rewrite elem_of_remove_dups.
  split.
  - intros (g & -> & Hg)%list_elem_of_fmap. rewrite Forall_forall in Hne. specialize (Hne g Hg).
    pose proof (group_members g Hg) as Hm. destruct (of_group group_of g.1 ws) as [|w l] eqn:E.
    { by apply Permutation_nil_r in Hm. }
    assert (w ∈ of_group group_of g.1 ws) as Hw by (rewrite E; left).
    apply elem_of_filterb in Hw as [Hw Hk]. apply bool_decide_eq_true in Hk. rewrite <- Hk. by apply list_elem_of_fmap_2.
  - intros (w & -> & Hw)%list_elem_of_fmap.
    assert (item_of w ∈ concat groups.*2) as Hin by (rewrite Hperm; by apply list_elem_of_fmap_2).
    apply list_elem_of_In, in_concat in Hin as (its & Hits & Hi). apply list_elem_of_In in Hits, Hi.
    apply list_elem_of_fmap in Hits as ([k its'] & -> & Hg). apply list_elem_of_fmap. exists (k, its').
    split; [|done]. symmetry. exact (Hok k its' (item_of w) Hg Hi).
Qed.

Lemma batches_needed : zlen (concat (map (group_batches n) groups)) = jobs_needed (Z.of_nat n) ws.
Proof.
  unfold jobs_needed. rewrite <- (sum_perm _ _ (Permutation_map _ group_keys)).
  change (groups.*1) with (map fst groups). rewrite map_map.
  pose proof group_members as Hm. clear - Hm Hn. induction groups as [|g gs IH]; [done|]. cbn [map concat foldr].
  rewrite zlen_app, IH by (intros g' Hg'; apply Hm; by right). f_equal. unfold group_batches.
  specialize (Hm g ltac:(left)). assert (zlen g.2 = zlen (of_group group_of g.1 ws)) as <-.
  { unfold zlen. rewrite Hm. by rewrite length_map. }
  unfold zlen at 1. rewrite length_map. fold (zlen (batches (length g.2) n (sort_items g.2))).
  assert (length (sort_items g.2) = length g.2) as Hs by apply Permutation_length, sort_items_perm.
  rewrite batches_count by lia. unfold zlen. by rewrite Hs.
Qed.

(** The batches of one group. *)
Lemma group_jobs g id :
  let jobs := of_group job_group g (zip_with job_of (seqZ id (zlen (concat (map (group_batches n) groups))))
                                      (concat (map (group_batches n) groups))) in
  exists its, its ≡ₚ map item_of (of_group group_of g ws) /\ map cj_items jobs = batches (length its) n (sort_items its).
Proof.
  cbv zeta. set (bs := concat _).
  assert (forall id, map cj_items (of_group job_group g (zip_with job_of (seqZ id (zlen bs)) bs)) =
    (of_group fst g bs).*2) as Hjobs.
  { clear. unfold of_group. induction bs as [|b bs IH]; intros id; [rewrite zlen_nil, seqZ_nil by lia; done|].
    rewrite zlen_cons. pose proof (zlen_nonneg bs). rewrite seqZ_cons by lia. cbn [zip_with List.filter].
    replace (Z.pred (1 + zlen bs)) with (zlen bs) by lia.
    assert (job_group (job_of id b) = b.1) as -> by (by destruct b as [[]]).
    case_bool_decide; cbn [map fmap list_fmap]; by rewrite IH. }
  rewrite Hjobs. clear Hjobs.
  destruct (of_group_concat fst (group_batches n) fst groups g) as [H1 H2]; [|apply (om_wf_NoDup _ Hwf)|].
  { intros a _. apply Forall_fmap, Forall_true. done. }
  destruct (decide (g ∈ groups.*1)) as [Hin|Hout].
  - apply list_elem_of_fmap in Hin as (a & -> & Ha). exists a.2. split; [by apply group_members|].
    unfold bs. rewrite (H1 a Ha eq_refl). unfold group_batches. rewrite <- list_fmap_compose. by rewrite list_fmap_id.
  - exists []. unfold bs. rewrite (H2 Hout). split; [|done].
    destruct (of_group group_of g ws) as [|w l] eqn:E; [done|]. exfalso. apply Hout. rewrite group_keys, elem_of_remove_dups.
    assert (w ∈ of_group group_of g ws) as Hw by (rewrite E; left).
    apply elem_of_filterb in Hw as [Hw Hk]. apply bool_decide_eq_true in Hk. rewrite <- Hk. by apply list_elem_of_fmap_2.
Qed.

Lemma batch_groups_sorted : StronglySorted key_le (concat (map (group_batches n) groups)).*1.
Proof.
  unfold om_wf in Hwf. clear Hok Hne Hperm. induction groups as [|g gs IH]; [constructor|].
  cbn [map concat fmap list_fmap] in *. apply StronglySorted_inv in Hwf as [Hwf' Hall]. specialize (IH Hwf').
  rewrite fmap_app. unfold group_batches at 1. rewrite <- list_fmap_compose.
  assert (Forall (key_le g.1) (concat (map (group_batches n) gs)).*1) as Hle.
  { apply Forall_forall. intros k (b & -> & Hb)%list_elem_of_fmap. apply list_elem_of_In, in_concat in Hb as (l & Hl & Hb).
    apply list_elem_of_In in Hl, Hb. apply list_elem_of_fmap in Hl as (g' & -> & Hg').
    apply list_elem_of_fmap in Hb as (x & -> & _). cbn. apply key_lt_le. rewrite Forall_forall in Hall. apply Hall.
    by apply list_elem_of_fmap_2. }
  induction (batches (length g.2) n (sort_items g.2)) as [|x xs IHx]; [done|]. cbn [fmap list_fmap app compose fst]. constructor; [done|].
  apply Forall_app. split; [|done]. apply Forall_fmap, Forall_true. intros y. unfold compose, key_le. apply key_ltb_irrefl.
Qed.
End layout.

(** The snapshots that the active catalog admits, and those that can be
    compiled. *)
Definition active_snapshot (m : DataManager) (ws : WatchSnapshot) : Prop :=
  ws_catalog_generation ws = cst_generation (dm_catalog_ m) /\ cst_generation (dm_catalog_ m) <> 0.
Definition compilable_snapshot (m : DataManager) (ws : WatchSnapshot) : Prop :=
  Forall (compilable m) (ws_effective_watches ws) /\ NoDup (map ew_key (ws_effective_watches ws)).

(** One group of a plan: the watches of the group in the order of their keys,
    cut into full jobs but for the last. *)
Definition group_layout (n : Z) (ws : list EffectiveWatch) (jobs : list CollectionJob) (g : GroupKey) : Prop :=
  let js := of_group job_group g jobs in
  concat (map cj_items js) ≡ₚ map item_of (of_group group_of g ws) /\
  StronglySorted item_le (concat (map cj_items js)) /\
  forall before j after, js = before ++ j :: after -> after <> [] -> zlen (cj_items j) = n.

Lemma job_groups (bs : list (GroupKey * list CollectionPlanItem)) id :
  map job_group (zip_with job_of (seqZ id (zlen bs)) bs) = bs.*1.
Proof.
  revert id. induction bs as [|b bs IH]; intros id; [by rewrite zlen_nil, seqZ_nil|].
  rewrite zlen_cons. pose proof (zlen_nonneg bs). rewrite seqZ_cons by lia. cbn [zip_with map fmap list_fmap].
  replace (Z.pred (1 + zlen bs)) with (zlen bs) by lia. rewrite IH. f_equal. by destruct b as [[]].
Qed.

Lemma compilePlan_layout limits m ws now current :
  1 <= max_batch_items limits -> 0 <= max_plan_jobs limits < u64_max - 1 -> active_snapshot m ws ->
  let needed := jobs_needed (max_batch_items limits) (ws_effective_watches ws) in
  match compilePlan limits m (Some ws) now current with
  | inl status =>
      (st_code status = PDCM_STATUS_INVALID_ARGUMENT /\ ~ compilable_snapshot m ws) \/
      (st_code status = PDCM_STATUS_RESOURCE_EXHAUSTED /\ compilable_snapshot m ws /\ max_plan_jobs limits < needed) \/
      (st_code status = PDCM_STATUS_INTERNAL /\ compilable_snapshot m ws /\ needed <= max_plan_jobs limits /\ current = u64_max)
  | inr plan => current <> u64_max /\ zlen (cp_jobs plan) = needed /\
      StronglySorted key_le (map job_group (cp_jobs plan)) /\
      forall g, group_layout (max_batch_items limits) (ws_effective_watches ws) (cp_jobs plan) g
  end.
Proof.
  intros Hb Hp [Hg Hg0]. cbv zeta. unfold compilePlan. rewrite Hg, Z.eqb_refl, (proj2 (Z.eqb_neq _ 0)) by done. cbn [negb orb].
  assert (groups_ok []) as Hok0 by (intros ? ? ? ?%elem_of_nil; done).
  pose proof (group_watches_spec m (ws_effective_watches ws) [] [] om_wf_nil Hok0) as Hgw.
  pose proof (group_watches_nonempty m [] [] (ws_effective_watches ws)) as Hne.
  assert (forall w, w ∈ ws_effective_watches ws -> ew_key w ∉ @nil EffectiveWatchKey) as Hnil by (intros w _; inversion 1).
  destruct (group_watches m [] [] _) as [groups|]; [|left; split; [done|]; intros []; tauto].
  destruct Hgw as (G1 & G2 & G3 & G4 & G5 & _). cbn [fmap list_fmap concat] in G3. rewrite app_nil_r in G3.
  specialize (Hne groups om_wf_nil (Forall_nil_2 _) eq_refl).
  set (n := Z.to_nat (max_batch_items limits)). assert (1 <= n)%nat as Hn by lia.
  pose proof (batches_needed _ groups G1 G2 Hne G3 n Hn) as Hcount. unfold n in Hcount. rewrite Z2Nat.id in Hcount by lia.
  fold n in Hcount. pose proof (fun g => group_jobs _ groups G1 G2 Hne G3 n g 1) as Hjobs.
  pose proof (batch_groups_sorted groups G1 n) as Hsorted.
  set (bs := concat (map (group_batches n) groups)) in *.
  pose proof (make_jobs_spec (max_plan_jobs limits) bs [] 1 ltac:(rewrite zlen_nil; lia) eq_refl) as Hj.
  destruct (make_jobs _ _ _ bs) as [jobs|]; [|right; left; rewrite zlen_nil in Hj; split_and!; done || lia].
  destruct Hj as [-> Hl]. cbn [app] in *. destruct (jobs_fields bs 1) as (_ & _ & J3 & _). cbv zeta in J3.
  guard as Gv; bprop in Gv; [right; right; split_and!; done || lia|].
  cbn [cp_jobs]. split_and!; [done|lia| |].
  - rewrite job_groups. exact Hsorted.
  - intros g. destruct (Hjobs g) as (its & Hits & Hmap). clear Hjobs Hcount Hsorted.
    destruct (batches_spec (length its) n (sort_items its) Hn) as [B1 _].
    { by rewrite (Permutation_length (sort_items_perm its)). }
    split_and!.
    + by rewrite Hmap, B1, sort_items_perm.
    + rewrite Hmap, B1. apply sort_items_sorted.
    + intros before j after Heq Hafter. rewrite Heq, map_app in Hmap. cbn [map] in Hmap. symmetry in Hmap.
      apply batches_full in Hmap; [unfold zlen; lia|by destruct after].
Qed.

(** ** Theorem *)


(** ** Witness *)

Definition plan_watch (id : Z) (kind : ProviderDataKind) (p : WatchPriority) (watch : WatchId) : EffectiveWatch :=
  mkEffective (mkEffectiveKey "prov-1" sample_entity kind id 0) 100 300 1000 p [watch].
Definition plan_snapshot : WatchSnapshot :=
  mkWatchSnapshot 4 1 [] [plan_watch 7 PDK_Metric WP_Normal 1; plan_watch 3 PDK_HeartbeatEvidence WP_Heartbeat 2].

