(* ===== verification/Collect.v ===== *)
(** Normalisation of provider results
    (src/product/src/collection/collection_coordinator.cpp,
    [normalizeAndCommit]): the answer of a provider to a batch read is matched
    with the request, checked item by item, and committed to the data manager
    as observations or as heartbeat evidence.

    The function reads the catalog generation, the metric descriptors and the
    clock, and then commits, without holding a lock: what it reads is an
    argument ([g], [descriptor], [observed], [wall]), the data manager [dm] is
    the one at the commit.  [metrics] is the metrics manager, if any, with the
    time it evaluates the evidence at. *)
From S2P Require Import Prelude Containers Common Provider Catalog EventStore DataStore HealthStore Watch ProcessorGraph Metrics Plan.
Local Open Scope string_scope.
Local Open Scope list_scope.
Open Scope Z_scope.
Open Scope pdcm_scope.

(** ** Status mappings and item checks *)

Definition statusFor (s : ObservationStatus) : pdcm_status_t :=
  match s with
  | OS_NotAvailable => PDCM_STATUS_UNAVAILABLE
  | OS_Unsupported => PDCM_STATUS_UNSUPPORTED
  | OS_Error | OS_Stale => PDCM_STATUS_INTERNAL
  | OS_Valid => PDCM_STATUS_SUCCESS
  end.

Definition callFailureStatus (s : pdcm_status_t) : ObservationStatus :=
  if (s ==? PDCM_STATUS_UNAVAILABLE) || (s ==? PDCM_STATUS_NOT_INITIALIZED) then OS_NotAvailable
  else if s ==? PDCM_STATUS_UNSUPPORTED then OS_Unsupported
  else OS_Error.

Definition usableCallStatus (s : pdcm_status_t) : bool :=
  (s ==? PDCM_STATUS_SUCCESS) || (s ==? PDCM_STATUS_PARTIAL_RESULT).

Definition validProviderItem (item : ProviderReadItemResult) : bool :=
  if (pir_status item ==? OS_Stale) || opt_negative (pir_source_sample_time_ns item) then false
  else
  match pri_kind (pir_item item) with
  | PDK_HeartbeatEvidence =>
      if has_value (pir_value item) then false
      else if pir_status item ==? OS_Valid
      then match pir_heartbeat_class item with Some c => c !=? HN_UnknownNative | None => false end
           && has_value (pir_sequence_or_token item) && has_value (pir_source_sample_time_ns item)
      else negb (has_value (pir_heartbeat_class item)) && negb (has_value (pir_sequence_or_token item))
  | PDK_Metric =>
      if has_value (pir_heartbeat_class item) || has_value (pir_sequence_or_token item) then false
      else if pir_status item ==? OS_Valid then has_value (pir_value item) else negb (has_value (pir_value item))
  end.

(** [ProviderItemLess] *)
Definition item_tuple (i : ProviderReadItem) : Z * Z * Z * Z * Z :=
  (entity_tuple (pri_entity i), data_kind_value (pri_kind i), pri_data_id i).
Lemma item_tuple_inj a b : item_tuple a = item_tuple b -> a = b.
Proof.
  destruct a as [e k d], b as [e' k' d']. unfold item_tuple. cbn [pri_entity pri_kind pri_data_id]. intros Ht.
  apply pair_equal_spec in Ht as [Ht ->]. apply pair_equal_spec in Ht as [He Hk]. apply entity_tuple_inj in He as ->.
  f_equal. by destruct k, k'.
Qed.
#[export] Instance ProviderReadItem_ordered : Ordered ProviderReadItem := ordered_by item_tuple item_tuple_inj.

Record CollectionRunResult := mkCollectionRun {
  crr_status : Status;
  crr_request_id : Z;
  crr_plan_version : Z;
  crr_requested_items : Z;
  crr_normalized_items : Z;
  crr_contract_violations : Z;
  crr_commit : option DataCommitResult;
  crr_evidence_commit : option EvidenceCommitResult }.

(** ** The items of a result *)

(** The loop that sorts the returned items: the first answer for every
    requested item, the items answered more than once, and the violations. *)
Definition index_one (requested : list (ProviderReadItem * nat))
    (s : list (ProviderReadItem * ProviderReadItemResult) * list (ProviderReadItem * unit) * Z)
    (item : ProviderReadItemResult) :=
  let '(returned, duplicated, violations) := s in
  if negb (om_mem (pir_item item) requested) then (returned, duplicated, violations + 1)
  else if om_mem (pir_item item) returned then (returned, om_set (pir_item item) tt duplicated, violations + 1)
  else (om_set (pir_item item) item returned, duplicated, violations).

Fixpoint requested_map (index : nat) (m : list (ProviderReadItem * nat)) (items : list ProviderReadItem)
    : list (ProviderReadItem * nat) :=
  match items with
  | [] => m
  | i :: items' => requested_map (S index) (om_emplace i index m) items'
  end.

Definition index_results (request : ProviderReadRequest) (result : ProviderReadResult) :=
  if usableCallStatus (st_code (prr_call_status result))
  then foldl (index_one (requested_map 0 [] (prq_items request))) ([], [], 0) (prr_items result)
  else ([], [], 0).

(** A default-constructed item result for [i]. *)
Definition blank_item (i : ProviderReadItem) (s : ObservationStatus) : ProviderReadItemResult :=
  mkItemResult i s None None None None "" 0 false.

(** What the loop over the requested metrics uses for one of them: [inl v]
    skips it and counts [v] violations. *)
Definition select_item (call : Status) (returned : list (ProviderReadItem * ProviderReadItemResult))
    (duplicated : list (ProviderReadItem * unit)) (i : ProviderReadItem) : Z + ProviderReadItemResult * Status :=
  if negb (usableCallStatus (st_code call)) then inr (blank_item i (callFailureStatus (st_code call)), call)
  else if om_mem i duplicated then inl 0
  else
  match om_find i returned with
  | None => inr (blank_item i OS_Error, err_status PDCM_STATUS_INTERNAL "provider omitted requested item")
  | Some item =>
      if negb (validProviderItem item) then inl 1
      else inr (item, if pir_status item !=? OS_Valid
                      then err_status (statusFor (pir_status item)) "provider item read failed"
                      else st_success)
  end.

(** The observation of a selected item. *)
Definition observation_of (job : CollectionJob) (request : ProviderReadRequest) (observed wall : Z)
    (i : ProviderReadItem) (d : MetricDescriptor) (item : ProviderReadItemResult) (error : Status) : Observation :=
  mkObservation (pri_entity i) (pri_data_id i) (pir_value item) (pir_status item) (prq_scheduled_time request)
    (pir_source_sample_time_ns item) observed (md_semantic_version d) wall (prq_catalog_generation request) 0 0
    (mkSource (cj_provider_id job) (pir_native_source item)) None None
    (mkError error (pir_native_code item) (pir_retryable item)) dm_default.

Definition normalize_one (job : CollectionJob) (request : ProviderReadRequest) (call : Status)
    (descriptor : Z -> option MetricDescriptor) (observed wall : Z)
    (returned : list (ProviderReadItem * ProviderReadItemResult)) (duplicated : list (ProviderReadItem * unit))
    (s : list Observation * Z) (i : ProviderReadItem) : list Observation * Z :=
  let '(observations, violations) := s in
  match select_item call returned duplicated i with
  | inl v => (observations, violations + v)
  | inr (item, error) =>
      match descriptor (pri_data_id i) with
      | None => (observations, violations + 1)
      | Some d =>
          if (pir_status item ==? OS_Valid)
             && match pir_value item with Some v => negb (valueMatches d v) | None => false end
          then (observations, violations + 1)
          else (observations ++ [observation_of job request observed wall i d item error], violations)
      end
  end.

(** The evidence of a heartbeat read, [inl] when the result cannot be used. *)
Definition heartbeat_item (call : Status) (returned : list (ProviderReadItem * ProviderReadItemResult))
    (duplicated : list (ProviderReadItem * unit)) (violations : Z) (i : ProviderReadItem)
    : (Status * Z) + (ProviderReadItemResult * Status) :=
  if negb (usableCallStatus (st_code call)) then inr (blank_item i (callFailureStatus (st_code call)), call)
  else
  let missing := inl (err_status PDCM_STATUS_INTERNAL "provider returned no unique heartbeat evidence", violations) in
  if om_mem i duplicated then missing
  else
  match om_find i returned with
  | None => missing
  | Some item =>
      if negb (validProviderItem item)
      then inl (err_status PDCM_STATUS_INTERNAL "provider heartbeat evidence is malformed", violations + 1)
      else inr (item, if pir_status item !=? OS_Valid
                      then err_status (statusFor (pir_status item)) "provider heartbeat read failed"
                      else st_success)
  end.

Definition evidence_of (job : CollectionJob) (request : ProviderReadRequest) (observed : Z) (i : ProviderReadItem)
    (item : ProviderReadItemResult) (error : Status) : FirmwareHeartbeatEvidence :=
  mkEvidence 0 (pri_entity i) (pri_data_id i) (default HN_UnknownNative (pir_heartbeat_class item))
    (pir_status item) (default 0 (pir_sequence_or_token item)) (pir_source_sample_time_ns item) observed
    (mkSource (cj_provider_id job) (pir_native_source item))
    (mkError error (pir_native_code item) (pir_retryable item)) (prq_catalog_generation request).

Section Collect.
Context `{Layout}.

Definition resultItemBytes (item : ProviderReadItemResult) : Z :=
  sizeof_ProviderReadItemResult + str_size (pir_native_source item)
  + match pir_value item with Some (MV_String s) => str_size s | _ => 0 end.

(** The byte check: [None] when the limit is exceeded. *)
Fixpoint result_bytes (limit bytes : Z) (items : list ProviderReadItemResult) : option Z :=
  match items with
  | [] => Some bytes
  | i :: items' =>
      if size_sub limit bytes <? resultItemBytes i then None
      else result_bytes limit (bytes + resultItemBytes i) items'
  end.

Definition run_status (call : Status) (violations : Z) (violated : string) (status : Status) : Status :=
  if negb (usableCallStatus (st_code call)) then call
  else if negb (violations =? 0) then err_status PDCM_STATUS_PARTIAL_RESULT violated
  else status.

(** The heartbeat branch. *)
Definition commit_heartbeat (job : CollectionJob) (request : ProviderReadRequest) (call : Status)
    (result : Status -> Z -> Z -> option EvidenceCommitResult -> CollectionRunResult) (observed : Z)
    (returned : list (ProviderReadItem * ProviderReadItemResult)) (duplicated : list (ProviderReadItem * unit))
    (violations : Z) (metrics : option (MetricsManager * Z)) (dm : DataManager) : CollectionRunResult * DataManager :=
  match prq_items request with
  | [i] =>
      match heartbeat_item call returned duplicated violations i with
      | inl (status, v) => (result status 0 v None, dm)
      | inr (item, error) =>
          let '(commit, dm1) := commitHeartbeatEvidence dm (evidence_of job request observed i item error) in
          let finish status := result status 1 violations (Some commit) in
          if negb (st_ok (ecr_status commit)) then (finish (ecr_status commit), dm1)
          else
          let done := run_status call violations "provider heartbeat result violated the read contract" st_success in
          match metrics with
          | Some (mm, now) =>
              if ecr_committed commit then
                let '(evaluated, dm2) := onHeartbeatEvidenceCommitted mm (ecr_evidence_id commit) now dm1 dm1 in
                if negb (st_ok evaluated) then (finish evaluated, dm2) else (finish done, dm2)
              else (finish done, dm1)
          | None => (finish done, dm1)
          end
      end
  | _ => (result (invalid_argument "heartbeat collection requires one item") 0 violations None, dm)
  end.

Definition normalizeAndCommit (limits : CollectionLimits) (plan : CollectionPlan) (job : CollectionJob)
    (request : ProviderReadRequest) (provider_result : ProviderReadResult) (g : Z)
    (descriptor : Z -> option MetricDescriptor) (observed wall : Z) (metrics : option (MetricsManager * Z))
    (dm : DataManager) : CollectionRunResult * DataManager :=
  let result status normalized violations commit evidence :=
    mkCollectionRun status (prq_request_id request) (cp_version plan) (zlen (prq_items request)) normalized violations
      commit evidence in
  let failed status := (result status 0 0 None None, dm) in
  if max_result_items limits <? zlen (prr_items provider_result)
  then failed (err_status PDCM_STATUS_RESOURCE_EXHAUSTED "provider result item limit exceeded")
  else if negb (has_value (result_bytes (max_result_bytes limits) 0 (prr_items provider_result)))
  then failed (err_status PDCM_STATUS_RESOURCE_EXHAUSTED "provider result byte limit exceeded")
  else if negb (g =? cp_catalog_generation plan)
  then failed (err_status PDCM_STATUS_STALE_GENERATION "collection result belongs to an old catalog")
  else
  let call := prr_call_status provider_result in
  let '(returned, duplicated, violations) := index_results request provider_result in
  match cj_kind job with
  | PDK_HeartbeatEvidence =>
      commit_heartbeat job request call (fun status n v e => result status n v None e) observed returned duplicated
        violations metrics dm
  | PDK_Metric =>
      let '(observations, violations) :=
        foldl (normalize_one job request call descriptor observed wall returned duplicated) ([], violations)
          (prq_items request) in
      if is_nil observations
      then (result (err_status PDCM_STATUS_INTERNAL "provider returned no committable items") 0 violations None None, dm)
      else
      let '(commit, dm1) := dm_commit dm observations in
      let finish status := (result status (zlen observations) violations (Some commit) None, dm1) in
      if negb (st_ok (dcr_status commit)) && (st_code (dcr_status commit) !=? PDCM_STATUS_PARTIAL_RESULT)
      then finish (dcr_status commit)
      else finish (run_status call violations "provider result violated the read contract" (dcr_status commit))
  end.

(** ** Specification *)

(** The answers of the provider for one item. *)
Definition answers (items : list ProviderReadItemResult) (i : ProviderReadItem) : list ProviderReadItemResult :=
  List.filter (fun x => pir_item x ==? i) items.

(** The observation the provider's result determines for a requested metric:
    none when the item is answered twice, malformed, unknown to the catalog or
    of the wrong type. *)
Definition expected_observation (job : CollectionJob) (request : ProviderReadRequest) (result : ProviderReadResult)
    (descriptor : Z -> option MetricDescriptor) (observed wall : Z) (i : ProviderReadItem) : option Observation :=
  let call := prr_call_status result in
  match descriptor (pri_data_id i) with
  | None => None
  | Some d =>
      let observation item error := observation_of job request observed wall i d item error in
      if negb (usableCallStatus (st_code call))
      then Some (observation (blank_item i (callFailureStatus (st_code call))) call)
      else
      match answers (prr_items result) i with
      | [] => Some (observation (blank_item i OS_Error)
                      (err_status PDCM_STATUS_INTERNAL "provider omitted requested item"))
      | [item] =>
          if negb (validProviderItem item) then None
          else if pir_status item !=? OS_Valid
          then Some (observation item (err_status (statusFor (pir_status item)) "provider item read failed"))
          else match pir_value item with
               | Some v => if valueMatches d v then Some (observation item st_success) else None
               | None => None
               end
      | _ => None
      end
  end.

(** ** Lemmas *)

Lemma requested_map_mem items index (m : list (ProviderReadItem * nat)) i :
  om_mem i (requested_map index m items) = true <-> i ∈ items \/ om_mem i m = true.
Proof.
  revert index m. induction items as [|x items IH]; intros index m; cbn [requested_map].
  { split; [by right|]. intros [?%elem_of_nil|?]; done. }
  rewrite IH, elem_of_cons. unfold om_emplace, om_mem. destruct (om_find x m) eqn:E.
  - split; [tauto|]. intros [[->|?]|?]; auto. right. by rewrite E.
  - destruct (decide (x = i)) as [->|Hne]; [rewrite om_find_set_eq; cbn; tauto|].
    rewrite om_find_set_ne by done. split; [tauto|]. intros [[->|?]|?]; auto.
Qed.

(** The indexed results are the answers. *)
Lemma index_results_spec request result i :
  usableCallStatus (st_code (prr_call_status result)) = true -> i ∈ prq_items request ->
  let '(returned, duplicated, _) := index_results request result in
  om_find i returned = head (answers (prr_items result) i) /\
  (om_mem i duplicated = true <-> (2 <= length (answers (prr_items result) i))%nat).
Proof.
  intros Hu Hi. unfold index_results. rewrite Hu. set (req := requested_map 0 [] (prq_items request)).
  assert (om_mem i req = true) as Hreq by (apply requested_map_mem; by left).
  generalize (prr_items result). intros items. induction items as [|x items IH] using rev_ind.
  { cbn. split; [done|]. split; [done|lia]. }
  rewrite foldl_app. cbn [foldl]. destruct (foldl _ _ items) as [[returned duplicated] v]. destruct IH as [I1 I2].
  unfold index_one, answers in *. rewrite List.filter_app. cbn [List.filter].
  destruct (decide (pir_item x = i)) as [->|Hne].
  - rewrite Hreq, bool_decide_true by done. cbn [negb]. unfold om_mem at 1.
    destruct (List.filter _ items) as [|y ys] eqn:Ef.
    + rewrite I1. cbn [has_value head app]. rewrite om_find_set_eq. split; [done|].
      split; [intros ?%I2; cbn in *; lia|cbn; lia].
    + rewrite I1. cbn [has_value head app]. split; [done|]. split; [cbn; rewrite length_app; cbn; lia|].
      intros _. unfold om_mem. by rewrite om_find_set_eq.
  - rewrite bool_decide_false, app_nil_r by done.
    destruct (negb (om_mem (pir_item x) req)); [done|]. destruct (om_mem (pir_item x) returned).
    + split; [done|]. unfold om_mem in *. by rewrite om_find_set_ne.
    + by rewrite om_find_set_ne.
Qed.

(** One turn of the loop. *)
Lemma normalize_one_spec job request result descriptor observed wall obs v i :
  i ∈ prq_items request -> pri_kind i = PDK_Metric ->
  let '(returned, duplicated, _) := index_results request result in
  fst (normalize_one job request (prr_call_status result) descriptor observed wall returned duplicated (obs, v) i) =
  obs ++ match expected_observation job request result descriptor observed wall i with Some o => [o] | None => [] end.
Proof.
  intros Hi Hk. pose proof (index_results_spec request result i) as Hidx.
  assert (forall item, item ∈ answers (prr_items result) i -> pir_item item = i) as Hans.
  { intros item Hin. apply elem_of_filterb in Hin as [_ Hin]. by bprop in Hin. }
  destruct (index_results request result) as [[returned duplicated] v0].
  unfold normalize_one, select_item, expected_observation. cbv zeta.
  destruct (usableCallStatus (st_code (prr_call_status result))) eqn:Eu; cbn [negb].
  - destruct (Hidx eq_refl Hi) as [F1 F2]. rewrite F1.
    destruct (answers (prr_items result) i) as [|item [|item2 rest]]; cbn [head].
    + destruct (om_mem i duplicated) eqn:Ed; [pose proof (proj1 F2 eq_refl) as Hlen; cbn in Hlen; lia|].
      destruct (descriptor _) as [d|]; [done|by rewrite app_nil_r].
    + destruct (om_mem i duplicated) eqn:Ed; [pose proof (proj1 F2 eq_refl) as Hlen; cbn in Hlen; lia|].
      destruct (validProviderItem item) eqn:Ev; cbn [negb]; [|by destruct (descriptor _); rewrite app_nil_r].
      destruct (descriptor _) as [d|]; [|by rewrite app_nil_r].
      destruct (decide (pir_status item = OS_Valid)) as [Es|Es];
        [rewrite bool_decide_true by done|rewrite bool_decide_false by done]; cbn [negb andb]; [|done].
      destruct (pir_value item) as [w|] eqn:Ew; [destruct (valueMatches d w); by rewrite ?app_nil_r|].
      exfalso. unfold validProviderItem in Ev. rewrite Ew, Es, (Hans item), Hk in Ev by left.
      destruct (_ || opt_negative _); [done|]. by destruct (has_value _ || has_value _).
    + destruct (om_mem i duplicated) eqn:Ed; [by destruct (descriptor _); rewrite app_nil_r|].
      discriminate (proj2 F2 ltac:(cbn; lia)).
  - destruct (descriptor _) as [d|]; [|by rewrite app_nil_r]. cbn [blank_item pir_value pir_status].
    by rewrite andb_false_r.
Qed.

Lemma normalize_spec job request result descriptor observed wall v :
  Forall (fun i => pri_kind i = PDK_Metric) (prq_items request) ->
  let '(returned, duplicated, _) := index_results request result in
  fst (foldl (normalize_one job request (prr_call_status result) descriptor observed wall returned duplicated)
         ([], v) (prq_items request)) =
  omap (expected_observation job request result descriptor observed wall) (prq_items request).
Proof.
  intros Hk. rewrite Forall_forall in Hk.
  pose proof (normalize_one_spec job request result descriptor observed wall) as Hone.
  destruct (index_results request result) as [[returned duplicated] v0].
  assert (forall items obs v, (forall i, i ∈ items -> i ∈ prq_items request) ->
    fst (foldl (normalize_one job request (prr_call_status result) descriptor observed wall returned duplicated)
           (obs, v) items) =
    obs ++ omap (expected_observation job request result descriptor observed wall) items) as Hgen; [|by apply Hgen].
  induction items as [|i items IH]; intros obs w Hin; cbn [foldl omap list_omap]; [by rewrite app_nil_r|].
  specialize (Hone obs w i (Hin i ltac:(left)) (Hk i (Hin i ltac:(left)))).
  destruct (normalize_one _ _ _ _ _ _ _ _ (obs, w) i) as [obs' w']. cbn [fst] in Hone. subst obs'.
  rewrite IH by (intros; apply Hin; by right).
  destruct (expected_observation _ _ _ _ _ _ i); by rewrite <- app_assoc.
Qed.

(** A collection without violations skips no requested item. *)
Lemma index_results_violations request result :
  let '(_, duplicated, v) := index_results request result in
  0 <= v /\ (v = 0 -> forall i, om_mem i duplicated = false).
Proof.
  unfold index_results. destruct (usableCallStatus _); [|done]. generalize (prr_items result). intros items.
  induction items as [|x items IH] using rev_ind; [done|]. rewrite foldl_app. cbn [foldl].
  destruct (foldl _ _ items) as [[returned duplicated] v]. unfold index_one. destruct IH as [I1 I2].
  repeat case_match; simplify_eq; (split; [lia|]); try (intros ?; lia). exact I2.
Qed.

Lemma normalize_one_violations job request call descriptor observed wall returned duplicated obs v i :
  let s := normalize_one job request call descriptor observed wall returned duplicated (obs, v) i in
  v <= snd s /\ (snd s = v -> om_mem i duplicated = false -> exists o, fst s = obs ++ [o]).
Proof.
  unfold normalize_one, select_item. cbv zeta.
  repeat case_match; simplify_eq; cbn [fst snd]; (split; [lia|]); intros; try lia; by eexists.
Qed.

Lemma normalize_complete job request result descriptor observed wall :
  let '(returned, duplicated, v) := index_results request result in
  snd (foldl (normalize_one job request (prr_call_status result) descriptor observed wall returned duplicated)
         ([], v) (prq_items request)) = 0 ->
  Forall (fun i => pri_kind i = PDK_Metric) (prq_items request) ->
  Forall (fun i => is_Some (expected_observation job request result descriptor observed wall i)) (prq_items request).
Proof.
  pose proof (index_results_violations request result) as Hv.
  pose proof (normalize_one_spec job request result descriptor observed wall) as Hone.
  pose proof (normalize_one_violations job request (prr_call_status result) descriptor observed wall) as Hvio.
  destruct (index_results request result) as [[returned duplicated] v]. destruct Hv as [V1 V2]. intros H0 Hk.
  rewrite Forall_forall in Hk. set (step := normalize_one _ _ _ _ _ _ returned duplicated) in *.
  assert (forall items obs w, (forall i, i ∈ items -> i ∈ prq_items request) ->
    w <= snd (foldl step (obs, w) items) /\ (snd (foldl step (obs, w) items) = 0 -> 0 <= w -> v = 0 ->
    Forall (fun i => is_Some (expected_observation job request result descriptor observed wall i)) items)) as Hgen.
  { induction items as [|i items IH]; intros obs w Hin; cbn [foldl]; [split; [cbn; lia|constructor]|].
    specialize (Hone obs w i (Hin i ltac:(left)) (Hk i (Hin i ltac:(left)))).
    destruct (Hvio returned duplicated obs w i) as [M1 M2]. fold step in M1, M2, Hone.
    destruct (step (obs, w) i) as [obs' w']. cbn [fst snd] in *.
    destruct (IH obs' w') as [I1 I2]; [intros; apply Hin; by right|]. split; [lia|]. intros Hz Hw Hv0.
    constructor; [|apply I2; [done|lia|done]]. destruct (M2 ltac:(lia) (V2 Hv0 i)) as [o Ho].
    rewrite Hone in Ho. apply app_inv_head in Ho. by destruct (expected_observation _ _ _ _ _ _ i). }
  destruct (Hgen (prq_items request) [] v) as [G1 G2]; [done|]. apply G2; [done|done|lia].
Qed.

(** An expected observation is well-formed and reports only what the provider
    answered. *)
Lemma expected_observation_ok job request result descriptor observed wall i o :
  er_kind (pri_entity i) <> EK_Unknown -> er_generation (pri_entity i) <> 0 -> pri_data_id i <> 0 ->
  pri_kind i = PDK_Metric -> prq_catalog_generation request <> 0 -> 0 <= prq_scheduled_time request -> 0 <= observed ->
  (forall d, descriptor (pri_data_id i) = Some d -> md_semantic_version d <> 0) ->
  expected_observation job request result descriptor observed wall i = Some o ->
  ObservationOk o /\ obs_status o <> OS_Stale /\
  (exists d, descriptor (pri_data_id i) = Some d /\ obs_metric_semantic_version o = md_semantic_version d /\
     forall v, obs_value o = Some v -> valueMatches d v = true) /\
  (obs_value o <> None -> exists item,
     usableCallStatus (st_code (prr_call_status result)) = true /\ answers (prr_items result) i = [item] /\
     validProviderItem item = true /\ pir_status item = OS_Valid /\ obs_value o = pir_value item).
Proof.
  intros K1 K2 K3 K4 K5 K6 K7 Hd. unfold expected_observation. cbv zeta. destruct (descriptor _) as [d|]; [|done].
  specialize (Hd d eq_refl).
  assert (forall item error, opt_negative (pir_source_sample_time_ns item) = false ->
    StatusOk (observation_of job request observed wall i d item error) ->
    ObservationOk (observation_of job request observed wall i d item error)) as Hok.
  { intros item error Ht Hs. bprop in Ht. split; try done. }
  destruct (usableCallStatus _) eqn:Eu; cbn [negb]; cycle 1.
  { intros [= <-]. cbn. split_and!; [|by unfold callFailureStatus; repeat case_match|by exists d|done].
    apply Hok; [done|]. unfold usableCallStatus in Eu. bprop in Eu.
    split; cbn; try (intros _ _; split_and!; try done; tauto); unfold callFailureStatus; repeat case_match; done. }
  destruct (answers _ i) as [|item [|]] eqn:Ea; [| |done].
  { intros [= <-]. cbn. split_and!; [|done|by exists d|done]. apply Hok; [done|]. split; cbn; done. }
  assert (pir_item item = i) as Hit.
  { assert (item ∈ answers (prr_items result) i) as Hin by (rewrite Ea; left).
    apply elem_of_filterb in Hin as [_ Hin]. by bprop in Hin. }
  destruct (validProviderItem item) eqn:Ev; cbn [negb]; [|done]. pose proof Ev as Ev'.
  unfold validProviderItem in Ev'. rewrite Hit, K4 in Ev'. destruct (_ || opt_negative _) eqn:G1; [done|].
  apply orb_false_iff in G1 as [G1 G1']. bprop in G1.
  destruct (has_value (pir_heartbeat_class item) || _); [done|].
  destruct (decide (pir_status item = OS_Valid)) as [Es|Es]; [rewrite bool_decide_true in * by done|rewrite bool_decide_false in * by done];
    cbn [negb].
  - destruct (pir_value item) as [w|] eqn:Ew; [|done]. destruct (valueMatches d w) eqn:Em; [|done]. intros [= <-].
    cbn. rewrite Ew. split_and!; [|congruence| |by exists item].
    + apply Hok; [done|]. split; cbn; rewrite ?Es, ?Ew; done.
    + exists d. split_and!; try done. by intros v [= <-].
  - intros [= <-]. destruct (pir_value item) as [w|] eqn:Ew; [done|]. cbn. rewrite Ew.
    split_and!; [|done|by exists d|done]. apply Hok; [done|]. split; cbn; try done.
    intros _ _. rewrite Ew. split_and!; try done. by destruct (pir_status item).
Qed.

(** Keys of the expected observations. *)
Lemma expected_keys job request result descriptor observed wall items :
  Forall (fun i => pri_kind i = PDK_Metric) items -> NoDup items ->
  let os := omap (expected_observation job request result descriptor observed wall) items in
  NoDup (map key_of os) /\ Forall (fun o => exists i, i ∈ items /\
    expected_observation job request result descriptor observed wall i = Some o /\
    key_of o = mkKey (pri_entity i) (pri_data_id i) /\ obs_commit_epoch o = 0 /\
    obs_catalog_generation o = prq_catalog_generation request) os.
Proof.
  set (f := expected_observation job request result descriptor observed wall). cbv zeta.
  assert (forall i o, f i = Some o -> key_of o = mkKey (pri_entity i) (pri_data_id i) /\ obs_commit_epoch o = 0 /\
    obs_catalog_generation o = prq_catalog_generation request) as Hf.
  { intros i o. unfold f, expected_observation. cbv zeta. repeat (case_match; try done); by intros [= <-]. }
  induction items as [|i items IH]; intros Hk Hnd; cbn [omap list_omap]; [split; constructor|].
  apply Forall_cons in Hk as [Hi Hk]. apply NoDup_cons in Hnd as [Hni Hnd]. destruct (IH Hk Hnd) as [I1 I2].
  assert (Forall (fun o => exists j, j ∈ i :: items /\ f j = Some o /\
    key_of o = mkKey (pri_entity j) (pri_data_id j) /\ obs_commit_epoch o = 0 /\
    obs_catalog_generation o = prq_catalog_generation request) (omap f items)) as I2'.
  { eapply Forall_impl; [exact I2|]. intros o (j & Hj & ?). exists j. split; [by right|done]. }
  destruct (f i) as [o|] eqn:Ef; [|done]. split.
  - cbn [map]. constructor; [|done]. intros (o' & Heq & Ho')%list_elem_of_fmap. rewrite Forall_forall in I2.
    destruct (I2 o' Ho') as (j & Hj & _ & Hkj & _). destruct (Hf i o Ef) as [Hki _]. rewrite Hki, Hkj in Heq.
    injection Heq as He Hd. apply Hni. rewrite Forall_forall in Hk. specialize (Hk j Hj).
    destruct i, j. cbn in *. by subst.
  - constructor; [|done]. exists i. split; [left|]. split; [done|]. by apply Hf.
Qed.

(** [normalizeAndCommit] of metrics against its specification. *)
Lemma normalizeAndCommit_metrics limits plan job request result g descriptor observed wall metrics dm :
  cj_kind job = PDK_Metric -> Forall (fun i => pri_kind i = PDK_Metric) (prq_items request) ->
  let observations := omap (expected_observation job request result descriptor observed wall) (prq_items request) in
  let run := normalizeAndCommit limits plan job request result g descriptor observed wall metrics dm in
  let refused := max_result_items limits < zlen (prr_items result) \/
    result_bytes (max_result_bytes limits) 0 (prr_items result) = None \/ g <> cp_catalog_generation plan in
  (refused -> snd run = dm /\ crr_commit (fst run) = None /\ st_ok (crr_status (fst run)) = false) /\
  (~ refused ->
     crr_normalized_items (fst run) = zlen observations /\
     (observations = [] -> snd run = dm /\ crr_commit (fst run) = None /\ st_ok (crr_status (fst run)) = false) /\
     (observations <> [] ->
        snd run = snd (dm_commit dm observations) /\ crr_commit (fst run) = Some (fst (dm_commit dm observations)) /\
        (st_ok (crr_status (fst run)) = true <->
         st_ok (dcr_status (fst (dm_commit dm observations))) = true /\
         usableCallStatus (st_code (prr_call_status result)) = true /\ crr_contract_violations (fst run) = 0))).
Proof.
  intros Hk Hks. cbv zeta. pose proof (normalize_spec job request result descriptor observed wall) as Hn.
  unfold normalizeAndCommit. cbv zeta.
  guard as G1; bprop in G1; [split; [done|]; intros Hr; exfalso; apply Hr; by left|].
  destruct (result_bytes _ _ _) as [bytes|]; cbn [has_value negb]; cycle 1.
  { split; [done|]. intros Hr. exfalso. apply Hr. right. by left. }
  guard as G2; bprop in G2; [split; [done|]; intros Hr; exfalso; apply Hr; right; by right|].
  split; [intros [?|[?|?]]; [lia|done|done]|]. intros _.
  destruct (index_results request result) as [[returned duplicated] v]. specialize (Hn v Hks). rewrite Hk.
  destruct (foldl _ _ (prq_items request)) as [os v']. cbn [fst] in Hn. subst os. set (os := omap _ _) in *.
  guard as G3; bprop in G3; [rewrite G3; split_and!; done|].
  destruct (dm_commit dm os) as [commit dm1] eqn:Ec. cbn [fst snd].
  assert (forall b x y, (if b : bool then (mkCollectionRun (dcr_status commit) (prq_request_id request) (cp_version plan) x y v'
    (Some commit) None, dm1) else (mkCollectionRun (run_status (prr_call_status result) v'
    "provider result violated the read contract" (dcr_status commit)) (prq_request_id request) (cp_version plan) x y v'
    (Some commit) None, dm1)) = (mkCollectionRun (if b then dcr_status commit else run_status (prr_call_status result) v'
    "provider result violated the read contract" (dcr_status commit)) (prq_request_id request) (cp_version plan) x y v'
    (Some commit) None, dm1)) as -> by by intros [].
  cbn [fst snd crr_normalized_items crr_commit crr_status crr_contract_violations].
  split_and!; [done|done|]. intros _. split_and!; [done|done|]. unfold run_status, usableCallStatus.
  assert (st_ok (prr_call_status result) = (st_code (prr_call_status result) ==? PDCM_STATUS_SUCCESS)) as Hc by done.
  destruct (st_ok (dcr_status commit)) eqn:Eok; cbn [negb andb].
  - destruct (_ || _) eqn:Eu; cbn [negb].
    + destruct (v' =? 0) eqn:Ev; cbn [negb]; bprop in Ev; [rewrite Eok; tauto|]. split; [done|]. tauto.
    + apply orb_false_iff in Eu as [Eu _]. rewrite Hc, Eu. split; [done|]. by intros (_ & ? & _).
  - split; [|by intros (? & _)]. guard as G4; [congruence|]. destruct (_ || _) eqn:Eu; cbn [negb].
    + guard as G5; [done|congruence].
    + apply orb_false_iff in Eu as [Eu _]. by rewrite Hc, Eu.
Qed.

(** A successful metric collection answers every requested item. *)
Lemma normalizeAndCommit_success limits plan job request result g descriptor observed wall metrics dm :
  cj_kind job = PDK_Metric -> Forall (fun i => pri_kind i = PDK_Metric) (prq_items request) ->
  let observations := omap (expected_observation job request result descriptor observed wall) (prq_items request) in
  let run := normalizeAndCommit limits plan job request result g descriptor observed wall metrics dm in
  st_ok (crr_status (fst run)) = true ->
  usableCallStatus (st_code (prr_call_status result)) = true /\
  st_ok (dcr_status (fst (dm_commit dm observations))) = true /\ snd run = snd (dm_commit dm observations) /\
  Forall (fun i => is_Some (expected_observation job request result descriptor observed wall i)) (prq_items request).
Proof.
  intros Hk Hks. cbv zeta. intros Hok.
  destruct (normalizeAndCommit_metrics limits plan job request result g descriptor observed wall metrics dm Hk Hks) as [N1 N2].
  cbv zeta in N1, N2.
  assert (~ (max_result_items limits < zlen (prr_items result) \/
    result_bytes (max_result_bytes limits) 0 (prr_items result) = None \/ g <> cp_catalog_generation plan)) as Hn.
  { intros Hr. destruct (N1 Hr) as (_ & _ & ?). congruence. }
  destruct (N2 Hn) as (_ & N3 & N4). set (os := omap _ _) in *.
  assert (os <> []) as Hne by (intros E; destruct (N3 E) as (_ & _ & ?); congruence).
  destruct (N4 Hne) as (R1 & R2 & R3). destruct (proj1 R3 Hok) as (C1 & C2 & C3). split_and!; try done.
  clear - Hks Hk C3 Hn Hne. pose proof (normalize_complete job request result descriptor observed wall) as Hc.
  pose proof (normalize_spec job request result descriptor observed wall) as Hsp.
  unfold normalizeAndCommit in C3. cbv zeta in C3. guard C3 as G1; [bprop in G1; exfalso; apply Hn; by left|].
  destruct (result_bytes _ _ _) as [b|] eqn:Eb; cbn [has_value negb] in C3; [|exfalso; apply Hn; by right; left].
  guard C3 as G2; [bprop in G2; exfalso; apply Hn; by right; right|].
  destruct (index_results request result) as [[returned duplicated] v]. rewrite Hk in C3. specialize (Hsp v Hks).
  destruct (foldl _ _ (prq_items request)) as [obs v']. cbn [fst snd] in *. subst obs. apply Hc; [|done].
  fold os in C3. guard C3 as G3; [by bprop in G3|]. destruct (dm_commit dm os) as [cr dm1]. by guard C3 as G4.
Qed.

(** ** Theorems *)

(** A metric collection commits exactly what the provider answered.  A
    result beyond the item or byte limits or of an old catalog changes nothing;
    otherwise the batch committed to the data manager is, item by item of the
    request and in its order, the observation the specification derives from
    the answers: the one valid answer, a failure for an omitted item or a
    failed call, and nothing for an item answered twice, malformed or of the
    wrong type.  An empty batch commits nothing. *)
Theorem collect_exact limits plan job request result g descriptor observed wall metrics dm :
  cj_kind job = PDK_Metric -> Forall (fun i => pri_kind i = PDK_Metric) (prq_items request) ->
  let observations := omap (expected_observation job request result descriptor observed wall) (prq_items request) in
  let run := normalizeAndCommit limits plan job request result g descriptor observed wall metrics dm in
  let refused := max_result_items limits < zlen (prr_items result) \/
    result_bytes (max_result_bytes limits) 0 (prr_items result) = None \/ g <> cp_catalog_generation plan in
  (refused -> snd run = dm /\ crr_commit (fst run) = None /\ st_ok (crr_status (fst run)) = false) /\
  (~ refused ->
     crr_normalized_items (fst run) = zlen observations /\
     (observations = [] -> snd run = dm /\ crr_commit (fst run) = None /\ st_ok (crr_status (fst run)) = false) /\
     (observations <> [] ->
        snd run = snd (dm_commit dm observations) /\ crr_commit (fst run) = Some (fst (dm_commit dm observations)) /\
        (st_ok (crr_status (fst run)) = true <->
         st_ok (dcr_status (fst (dm_commit dm observations))) = true /\
         usableCallStatus (st_code (prr_call_status result)) = true /\ crr_contract_violations (fst run) = 0))).
Proof. apply normalizeAndCommit_metrics. Qed.

(** The provider gave [v] for the item: in a usable result, as the only answer
    for it, well formed and valid. *)
Definition gave_value (result : ProviderReadResult) (i : ProviderReadItem) (v : MetricValue) : Prop :=
  usableCallStatus (st_code (prr_call_status result)) = true /\
  exists item, answers (prr_items result) i = [item] /\ validProviderItem item = true /\
    pir_status item = OS_Valid /\ pir_value item = Some v.

(** A request of distinct metrics of devices of the active catalog. *)
Record request_ok (dm : DataManager) (request : ProviderReadRequest) : Prop := {
  ro_generation : prq_catalog_generation request = cst_generation (dm_catalog_ dm) /\ prq_catalog_generation request <> 0;
  ro_scheduled : 0 <= prq_scheduled_time request;
  ro_distinct : NoDup (prq_items request);
  ro_items : Forall (fun i => pri_kind i = PDK_Metric /\ pri_data_id i <> 0 /\ pri_entity i ∈ cst_entities (dm_catalog_ dm))
    (prq_items request);
  ro_versions : forall id d, metricDescriptor dm id = Some d -> md_semantic_version d <> 0 }.

Lemma request_metrics dm request : request_ok dm request -> Forall (fun i => pri_kind i = PDK_Metric) (prq_items request).
Proof. intros Hr. eapply Forall_impl; [apply (ro_items dm request Hr)|]. by intros i [? _]. Qed.

Definition fits_values (dm : DataManager) (o : Observation) : Prop :=
  forall v, obs_value o = Some v -> valueBytes v <= max_value_bytes (dm_limits_ dm).

(** What the specification derives for a requested item passes the data
    manager's checks, up to the size of its value. *)
Lemma expected_observation_sound job request result observed wall dm i o :
  data_wf dm -> request_ok dm request -> 0 <= observed -> i ∈ prq_items request ->
  expected_observation job request result (metricDescriptor dm) observed wall i = Some o ->
  (fits_values dm o <-> batch_ok dm o) /\ st_ok (validateObservation o) = true /\
  key_of o = mkKey (pri_entity i) (pri_data_id i) /\ forall v, obs_value o = Some v -> gave_value result i v.
Proof.
  intros Hwf Hr Ho Hin He. destruct (ro_generation dm request Hr) as [Hg Hg0].
  pose proof (ro_items dm request Hr) as Hi. rewrite Forall_forall in Hi. destruct (Hi i Hin) as (I1 & I2 & I3).
  pose proof (dw_entities dm Hwf) as Hent. rewrite Forall_forall in Hent. destruct (Hent _ I3) as [E1 E2].
  destruct (expected_keys job request result (metricDescriptor dm) observed wall [i]) as [_ Kf];
    [by apply Forall_singleton|apply NoDup_singleton|]. cbn [omap list_omap] in Kf. rewrite He in Kf.
  apply Forall_singleton in Kf as (j & ->%list_elem_of_singleton & _ & Hk & Hep & Hgen).
  destruct (expected_observation_ok _ _ _ _ _ _ _ _ ltac:(by rewrite E1) E2 I2 I1 Hg0 (ro_scheduled dm request Hr) Ho
    (ro_versions dm request Hr _) He) as (O1 & O2 & (d & D1 & D2 & D3) & O4).
  pose proof Hk as Hk'. unfold key_of in Hk'. injection Hk' as Hke Hkm. split_and!; [|by apply validateObservation_ok|done|].
  - split.
    + intros Hfit. split; try congruence. exists d. rewrite Hkm. split_and!; [done|done|]. intros v Ev.
      split; [by apply D3|by apply Hfit].
    + intros [_ _ _ _ _ (d' & _ & _ & Hv)] v Ev. by apply Hv.
  - intros v Ev. destruct O4 as (item & A0 & A1 & A2 & A3 & A4); [congruence|]. split; [done|]. exists item. split_and!; congruence.
Qed.

(** A value that the provider gave is expected. *)
Lemma gave_value_expected job request result descriptor observed wall i d v :
  gave_value result i v -> descriptor (pri_data_id i) = Some d -> valueMatches d v = true ->
  exists o, expected_observation job request result descriptor observed wall i = Some o /\ obs_value o = Some v.
Proof.
  intros (Hu & item & Ha & Hv & Hs & Hval) Hd Hm. unfold expected_observation. rewrite Hd, Hu, Ha, Hv, Hs, Hval, Hm.
  cbn [negb]. eexists. by split.
Qed.

End Collect.

(** ** Witnesses *)

Definition sample_read_item : ProviderReadItem := mkReadItem sample_entity PDK_Metric 7.
Definition sample_read_request : ProviderReadRequest := mkReadRequest 1 1 1 100 400 [sample_read_item].
Definition sample_answer (id value : Z) : ProviderReadItemResult :=
  mkItemResult (mkReadItem sample_entity PDK_Metric id) OS_Valid (Some (MV_Uint64 value)) None None None "reg" 0 false.
Definition sample_read_result : ProviderReadResult := mkReadResult st_success [sample_answer 7 42; sample_answer 8 1].
Definition sample_plan : CollectionPlan := mkPlan 1 1 1 0 [].
Definition sample_job : CollectionJob := mkJob 1 "prov-1" PDK_Metric 0 100 WP_Normal [].

(** The answer for metric 7 is committed; metric 8 was not requested. *)
Lemma collect_exact_witness :
  let run := @normalizeAndCommit sample_layout collection_limits_default sample_plan sample_job sample_read_request
               sample_read_result 1 (metricDescriptor sample_manager) 120 0 None sample_manager in
  let os := omap (expected_observation sample_job sample_read_request sample_read_result
                    (metricDescriptor sample_manager) 120 0) [sample_read_item] in
  map obs_value os = [Some (MV_Uint64 42)] /\ crr_contract_violations (fst run) = 1 /\
  snd run = snd (@dm_commit sample_layout sample_manager os).
Proof.
  cbv zeta. split; [vm_compute; reflexivity|]. split; [vm_compute; reflexivity|].
  pose proof (@collect_exact sample_layout collection_limits_default sample_plan sample_job sample_read_request
    sample_read_result 1 (metricDescriptor sample_manager) 120 0 None sample_manager) as Ht. cbv zeta in Ht.
  apply Ht.
  - reflexivity.
  - repeat constructor.
  - intros [Hr|[Hr|Hr]]; [vm_compute in Hr; discriminate Hr|vm_compute in Hr; discriminate Hr|done].
  - vm_compute. discriminate.
Defined.

