(* ===== verification/Scheduler.v ===== *)
(** The collection coordinator
    (src/product/src/collection/collection_coordinator.hpp and .cpp): the
    scheduler that turns due jobs into tasks, fresh reads, the bounded priority
    queue in front of the provider, and its worker.

    The operations of the coordinator's runtime hold its mutex, so they are
    functions on the state; what happens outside the mutex separates the two
    halves of the worker's turn ([workerBegin], [workerEnd]) and of a fresh
    read ([freshRead], [freshReadEnd]).  A task is identified by its request
    identifier, which the coordinator never reuses, where the code compares
    pointers; [co_completed] holds the completions that are done.  The threads
    and condition variables themselves are not modelled. *)
From S2P Require Import Prelude Containers Common Provider Catalog EventStore DataStore HealthStore Watch ProcessorGraph Metrics Plan Collect.
Local Open Scope string_scope.
Local Open Scope list_scope.
Open Scope Z_scope.
Open Scope pdcm_scope.

(** ** Data *)

(** [FreshSignature] *)
Notation FreshSignature := (Z * list DataKey)%type (only parsing).

Record CollectionTask := mkCollectionTask {
  ct_plan : CollectionPlan;
  ct_job : CollectionJob;
  ct_request : ProviderReadRequest;
  ct_keys : list DataKey;
  ct_priority : WatchPriority;
  ct_fresh_signature : option FreshSignature;
  ct_completion : bool }.
Definition ct_id (t : CollectionTask) : Z := prq_request_id (ct_request t).

Inductive EnqueueResult := EQ_Accepted | EQ_Busy | EQ_Full | EQ_Stopped.
#[export] Instance EnqueueResult_eq_dec : EqDecision EnqueueResult.
Proof. solve_decision. Defined.

(** The queue part of the runtime. *)
Record TaskQueue := mkQueue {
  tq_queue : list CollectionTask;
  tq_in_flight : option CollectionTask;
  tq_busy_keys : list (DataKey * unit);
  tq_fresh_tasks : list (FreshSignature * CollectionTask);
  tq_completed : list (Z * Status);
  tq_shutdown : bool }.

Record Coordinator := mkCoordinator {
  co_limits_ : CollectionLimits;
  co_plan_ : CollectionPlan;
  co_next_request_id_ : Z;
  co_tasks : TaskQueue;
  co_next_due : list (Z * MonotonicTime);
  co_scheduled_plan_version : Z;
  co_fresh_waiters : Z;
  co_route_generation : Z;
  co_route_provider_id : string;
  co_route_entity : option EntityRef;
  co_route_metrics : list (Z * unit);
  co_scheduler_running : bool }.

(** The constructor throws on invalid limits. *)
Definition co_construct (limits : CollectionLimits) : string + Coordinator :=
  let status := cl_validate limits in
  if negb (st_ok status) then inl (st_message status)
  else inr (mkCoordinator limits plan_default 1 (mkQueue [] None [] [] [] false) [] 0 0 0 "" None [] false).

Definition co_with_tasks (c : Coordinator) (q : TaskQueue) : Coordinator :=
  mkCoordinator (co_limits_ c) (co_plan_ c) (co_next_request_id_ c) q (co_next_due c) (co_scheduled_plan_version c)
    (co_fresh_waiters c) (co_route_generation c) (co_route_provider_id c) (co_route_entity c) (co_route_metrics c)
    (co_scheduler_running c).
Definition co_with_next_id (c : Coordinator) (id : Z) : Coordinator :=
  mkCoordinator (co_limits_ c) (co_plan_ c) id (co_tasks c) (co_next_due c) (co_scheduled_plan_version c)
    (co_fresh_waiters c) (co_route_generation c) (co_route_provider_id c) (co_route_entity c) (co_route_metrics c)
    (co_scheduler_running c).
Definition co_with_due (c : Coordinator) (version : Z) (due : list (Z * MonotonicTime)) : Coordinator :=
  mkCoordinator (co_limits_ c) (co_plan_ c) (co_next_request_id_ c) (co_tasks c) due version
    (co_fresh_waiters c) (co_route_generation c) (co_route_provider_id c) (co_route_entity c) (co_route_metrics c)
    (co_scheduler_running c).
Definition co_with_waiters (c : Coordinator) (n : Z) : Coordinator :=
  mkCoordinator (co_limits_ c) (co_plan_ c) (co_next_request_id_ c) (co_tasks c) (co_next_due c)
    (co_scheduled_plan_version c) n (co_route_generation c) (co_route_provider_id c) (co_route_entity c)
    (co_route_metrics c) (co_scheduler_running c).
Definition co_with_route (c : Coordinator) (g : Z) (provider : string) (entity : option EntityRef)
    (metrics : list (Z * unit)) : Coordinator :=
  mkCoordinator (co_limits_ c) (co_plan_ c) (co_next_request_id_ c) (co_tasks c) (co_next_due c)
    (co_scheduled_plan_version c) (co_fresh_waiters c) g provider entity metrics (co_scheduler_running c).
Definition co_with_running (c : Coordinator) (b : bool) : Coordinator :=
  mkCoordinator (co_limits_ c) (co_plan_ c) (co_next_request_id_ c) (co_tasks c) (co_next_due c)
    (co_scheduled_plan_version c) (co_fresh_waiters c) (co_route_generation c) (co_route_provider_id c)
    (co_route_entity c) (co_route_metrics c) b.

(** [allocateRequestId]: 0 when the space is exhausted. *)
Definition allocateRequestId (c : Coordinator) : Z * Coordinator :=
  let id := co_next_request_id_ c in
  if (id =? 0) || (id =? u64_max) then ((if id =? u64_max then 0 else id), c)
  else (id, co_with_next_id c (id + 1)).

(** ** The queue *)

Definition setCompletion (q : TaskQueue) (t : CollectionTask) (status : Status) : TaskQueue :=
  if ct_completion t
  then mkQueue (tq_queue q) (tq_in_flight q) (tq_busy_keys q) (tq_fresh_tasks q)
         (om_set (ct_id t) status (tq_completed q)) (tq_shutdown q)
  else q.

Definition find_fresh (fresh : list (FreshSignature * CollectionTask)) (s : FreshSignature) : option CollectionTask :=
  match find_if (fun st => st.1 ==? s) fresh with Some st => Some st.2 | None => None end.
Definition erase_fresh (fresh : list (FreshSignature * CollectionTask)) (s : FreshSignature)
    : list (FreshSignature * CollectionTask) := List.filter (fun st => st.1 !=? s) fresh.

Definition releaseTaskLocked (q : TaskQueue) (t : CollectionTask) : TaskQueue :=
  let busy := foldl (fun keys k => om_erase k keys) (tq_busy_keys q) (ct_keys t) in
  let fresh := match ct_fresh_signature t with
               | Some s =>
                   match find_fresh (tq_fresh_tasks q) s with
                   | Some registered =>
                       if ct_id registered =? ct_id t then erase_fresh (tq_fresh_tasks q) s else tq_fresh_tasks q
                   | None => tq_fresh_tasks q
                   end
               | None => tq_fresh_tasks q
               end in
  mkQueue (tq_queue q) (tq_in_flight q) busy fresh (tq_completed q) (tq_shutdown q).

(** Before the first task of lower priority. *)
Fixpoint insert_task (t : CollectionTask) (queue : list CollectionTask) : list CollectionTask :=
  match queue with
  | [] => [t]
  | x :: queue' =>
      if priority_value (ct_priority x) <? priority_value (ct_priority t) then t :: queue
      else x :: insert_task t queue'
  end.

Definition queue_with (q : TaskQueue) (queue : list CollectionTask) : TaskQueue :=
  mkQueue queue (tq_in_flight q) (tq_busy_keys q) (tq_fresh_tasks q) (tq_completed q) (tq_shutdown q).

Definition evicted_status : Status :=
  err_status PDCM_STATUS_RESOURCE_EXHAUSTED "provider queue evicted a lower-priority request".

(** The end of [enqueueLocked], when there is room. *)
Definition insert_locked (q : TaskQueue) (t : CollectionTask) : TaskQueue :=
  mkQueue (insert_task t (tq_queue q)) (tq_in_flight q)
    (foldl (fun keys k => om_set k tt keys) (tq_busy_keys q) (ct_keys t))
    (match ct_fresh_signature t with
     | Some s => (s, t) :: erase_fresh (tq_fresh_tasks q) s
     | None => tq_fresh_tasks q
     end) (tq_completed q) (tq_shutdown q).

Definition enqueueLocked (limit : Z) (q : TaskQueue) (t : CollectionTask) : EnqueueResult * TaskQueue :=
  if tq_shutdown q then (EQ_Stopped, q)
  else if existsb (fun k => om_mem k (tq_busy_keys q)) (ct_keys t) then (EQ_Busy, q)
  else if zlen (tq_queue q) =? limit then
    match last (tq_queue q) with
    | None => (EQ_Full, q)
    | Some back =>
        if priority_value (ct_priority t) <=? priority_value (ct_priority back) then (EQ_Full, q)
        else
        let popped := queue_with q (take (length (tq_queue q) - 1) (tq_queue q)) in
        let released := releaseTaskLocked popped back in
        (EQ_Accepted, insert_locked (setCompletion released back evicted_status) t)
    end
  else (EQ_Accepted, insert_locked q t).

(** ** Plans and routes *)

Definition due_times (plan : CollectionPlan) : list (Z * MonotonicTime) :=
  foldl (fun due job => om_emplace (cj_id job) (cp_created_at plan + cj_period job) due) [] (cp_jobs plan).

(** [applyWatchSnapshot]: publishes the compiled plan and installs it. *)
Definition applyWatchSnapshot (c : Coordinator) (dm : DataManager) (watches : option WatchSnapshot) (now : Z)
    : Status * Coordinator :=
  match compilePlan (co_limits_ c) dm watches now (cp_version (co_plan_ c)) with
  | inl status => (status, c)
  | inr plan =>
      let c1 := mkCoordinator (co_limits_ c) plan (co_next_request_id_ c) (co_tasks c) (co_next_due c)
                  (co_scheduled_plan_version c) (co_fresh_waiters c) (co_route_generation c) (co_route_provider_id c)
                  (co_route_entity c) (co_route_metrics c) (co_scheduler_running c) in
      (st_success, co_with_due c1 (cp_version plan) (due_times plan))
  end.

(** [activateCatalog]: the route of fresh reads. *)
Definition co_activateCatalog (c : Coordinator) (dm : DataManager) (catalog : option CatalogView) : Status * Coordinator :=
  let stale := (err_status PDCM_STATUS_STALE_GENERATION "collection route catalog is stale", c) in
  match catalog with
  | None => stale
  | Some v =>
      if (cv_generation_ v =? 0) || negb (cv_generation_ v =? cst_generation (dm_catalog_ dm)) then stale
      else
      let cleared := co_with_route c (cv_generation_ v) "" None [] in
      let no_device := (err_status PDCM_STATUS_UNSUPPORTED "collection routing requires one active device", cleared) in
      match cv_entities_ v with
      | [entity] =>
          if cv_topology_unsupported_ v then no_device
          else
          match cv_capabilities v (ent_ref entity) with
          | (status, Some set) =>
              if negb (st_ok status) || str_empty (ent_provider_version entity)
              then (err_status PDCM_STATUS_UNAVAILABLE "collection routing capabilities are unavailable", cleared)
              else
              (st_success,
               co_with_route c (cv_generation_ v) (ent_provider_version entity) (Some (ent_ref entity))
                 (foldl (fun ms item => if (cap_kind item ==? CAP_Metric) && cap_supported item
                                        then om_set (cap_id item) tt ms else ms) [] (cs_items set)))
          | (_, None) =>
              (err_status PDCM_STATUS_UNAVAILABLE "collection routing capabilities are unavailable", cleared)
          end
      | _ => no_device
      end
  end.

(** ** The scheduler *)

Record SchedulerRunSummary := mkSummary {
  srs_status : Status; srs_enqueued_jobs : Z; srs_missed_periods : Z; srs_busy_jobs : Z; srs_queue_rejections : Z }.

(** [LogicalResult] *)
Record LogicalResult := mkLogicalResult {
  lr_job : CollectionJob; lr_first_scheduled_time : MonotonicTime; lr_sample_count : Z }.

Definition job_key (i : CollectionPlanItem) : DataKey := mkKey (ewk_entity (cpi_key i)) (ewk_data_id (cpi_key i)).
Definition job_read_item (i : CollectionPlanItem) : ProviderReadItem :=
  mkReadItem (ewk_entity (cpi_key i)) (ewk_kind (cpi_key i)) (ewk_data_id (cpi_key i)).

(** The smallest freshness of a job's items ([items.front()] exists). *)
Definition deadline_window (items : list CollectionPlanItem) : Nanoseconds :=
  match items with
  | [] => 0
  | i :: items' => foldl (fun w j => Z.min w (cpi_freshness j)) (cpi_freshness i) items'
  end.

Definition job_task (plan : CollectionPlan) (job : CollectionJob) (request_id scheduled : Z) : CollectionTask :=
  mkCollectionTask plan job
    (mkReadRequest request_id (cp_version plan) (cp_catalog_generation plan) scheduled
       (scheduled + deadline_window (cj_items job)) (map job_read_item (cj_items job)))
    (map job_key (cj_items job)) (cj_priority job) None false.

(** The counters of the loop. *)
Record due_state := mkDue {
  du_co : Coordinator; du_enqueued : Z; du_missed : Z; du_busy : Z; du_rejected : Z; du_results : list LogicalResult }.

(** One turn of the loop over the jobs of the plan. *)
Definition run_job (plan : CollectionPlan) (now : Z) (s : due_state) (job : CollectionJob) : due_state :=
  let c := du_co s in
  match om_find (cj_id job) (co_next_due c) with
  | None => s
  | Some due =>
      if now <? due then s
      else
      let steps := (now - due) / cj_period job + 1 in
      let scheduled := due + cj_period job * (steps - 1) in
      let c1 := co_with_due c (co_scheduled_plan_version c)
                  (om_set (cj_id job) (due + cj_period job * steps) (co_next_due c)) in
      let '(request_id, c2) := allocateRequestId c1 in
      let missed := du_missed s + (steps - 1) in
      if request_id =? 0
      then mkDue c2 (du_enqueued s) missed (du_busy s) (du_rejected s + 1)
             (du_results s ++ [mkLogicalResult job due steps])
      else
      let '(queued, tasks) :=
        enqueueLocked (max_provider_queue (co_limits_ c)) (co_tasks c2) (job_task plan job request_id scheduled) in
      let c3 := co_with_tasks c2 tasks in
      match queued with
      | EQ_Accepted =>
          mkDue c3 (du_enqueued s + 1) missed (du_busy s) (du_rejected s)
            (if 1 <? steps then du_results s ++ [mkLogicalResult job due (steps - 1)] else du_results s)
      | EQ_Busy => mkDue c3 (du_enqueued s) missed (du_busy s + 1) (du_rejected s)
                     (du_results s ++ [mkLogicalResult job due steps])
      | EQ_Full | EQ_Stopped => mkDue c3 (du_enqueued s) missed (du_busy s) (du_rejected s + 1)
                                  (du_results s ++ [mkLogicalResult job due steps])
      end
  end.

(** [runDue] up to the release of the mutex: the summary and the logical
    results to report. *)
Definition runDue (c : Coordinator) (now : Z) : SchedulerRunSummary * list LogicalResult * Coordinator :=
  if now <? 0 then (mkSummary (invalid_argument "scheduler time is invalid") 0 0 0 0, [], c)
  else if tq_shutdown (co_tasks c)
  then (mkSummary (err_status PDCM_STATUS_NOT_INITIALIZED "collection runtime is stopped") 0 0 0 0, [], c)
  else
  let plan := co_plan_ c in
  let c1 := if negb (co_scheduled_plan_version c =? cp_version plan)
            then co_with_due c (cp_version plan) (due_times plan) else c in
  let s := foldl (run_job plan now) (mkDue c1 0 0 0 0 []) (cp_jobs plan) in
  (mkSummary (if (du_busy s =? 0) && (du_rejected s =? 0) then st_success
              else err_status PDCM_STATUS_PARTIAL_RESULT "one or more due jobs could not be queued")
     (du_enqueued s) (du_missed s) (du_busy s) (du_rejected s), du_results s, du_co s).

(** [noteLogicalResults]: counts the samples at the watch manager and applies
    the snapshot when that retired a watch. *)
Definition noteLogicalResults (c : Coordinator) (watch_manager : option WatchManager) (dm : DataManager)
    (job : CollectionJob) (first period count now : Z) : Coordinator * option WatchManager :=
  match watch_manager with
  | None => (c, None)
  | Some wm =>
      let watch_ids := std_unique (std_sort (concat (map cpi_logical_watches (cj_items job)))) in
      if is_nil watch_ids then (c, Some wm)
      else
      let '(counted, wm1) := recordSamples wm watch_ids first period count in
      if negb (st_ok counted) then (c, Some wm1)
      else
      let next := wm_snapshot wm1 in
      if negb (ws_version next =? cp_watch_snapshot_version (co_plan_ c))
      then (snd (applyWatchSnapshot c dm (Some next) now), Some wm1)
      else (c, Some wm1)
  end.

(** [runDueOnce] with its reports. *)
Definition runDueOnce (c : Coordinator) (wm : option WatchManager) (dm : DataManager) (now : Z)
    : SchedulerRunSummary * Coordinator * option WatchManager :=
  let '(summary, results, c1) := runDue c now in
  let '(c2, wm2) := foldl (fun s r => noteLogicalResults s.1 s.2 dm (lr_job r) (lr_first_scheduled_time r)
                                        (cj_period (lr_job r)) (lr_sample_count r) now) (c1, wm) results in
  (summary, c2, wm2).

(** ** Fresh reads *)

Definition fresh_item (provider : string) (descriptor : Z -> option MetricDescriptor) (key : DataKey)
    : CollectionPlanItem :=
  mkPlanItem (mkEffectiveKey provider (dk_entity key) PDK_Metric (dk_metric key) 0) 0
    (match descriptor (dk_metric key) with Some d => to_i64 (md_freshness_ns d) | None => 0 end) WP_Normal [].

(** The plan a fresh read runs under: the published one, at the requested
    generation. *)
Definition fresh_plan (plan : CollectionPlan) (g : Z) : CollectionPlan :=
  mkPlan (cp_version plan) (cp_watch_snapshot_version plan) g (cp_created_at plan) (cp_jobs plan).

Definition fresh_task (c : Coordinator) (descriptor : Z -> option MetricDescriptor) (keys : list DataKey) (g id now deadline : Z)
    : CollectionTask :=
  let plan := fresh_plan (co_plan_ c) g in
  mkCollectionTask plan
    (mkJob 0 (co_route_provider_id c) PDK_Metric 0 0 WP_Normal
       (map (fresh_item (co_route_provider_id c) descriptor) keys))
    (mkReadRequest id (cp_version plan) g now deadline
       (map (fun k => mkReadItem (dk_entity k) PDK_Metric (dk_metric k)) keys))
    keys WP_Normal (Some (g, keys)) true.

(** [freshRead] until it waits: an answer, or the task whose completion it
    waits for. *)
Definition freshRead (c : Coordinator) (dm : DataManager) (keys : list DataKey) (g deadline now : Z)
    : (Status + Z) * Coordinator :=
  let failed status := (inl status, c) in
  if is_nil keys || (g =? 0) then failed (invalid_argument "fresh read arguments are invalid")
  else if max_batch_items (co_limits_ c) <? zlen keys
  then failed (err_status PDCM_STATUS_RESOURCE_EXHAUSTED "fresh read batch item limit exceeded")
  else if deadline <=? now then failed (err_status PDCM_STATUS_TIMEOUT "fresh read deadline expired")
  else
  let sorted := std_sort keys in
  if has_adjacent_dup sorted then failed (invalid_argument "fresh read contains duplicate keys")
  else if tq_shutdown (co_tasks c)
  then failed (err_status PDCM_STATUS_NOT_INITIALIZED "collection runtime is stopped")
  else
  match co_route_entity c with
  | None => failed (err_status PDCM_STATUS_STALE_GENERATION "fresh read route is stale")
  | Some entity =>
      if negb (g =? co_route_generation c)
      then failed (err_status PDCM_STATUS_STALE_GENERATION "fresh read route is stale")
      else if existsb (fun k => (dk_entity k !=? entity) || negb (om_mem (dk_metric k) (co_route_metrics c))
                                || negb (has_value (metricDescriptor dm (dk_metric k)))) sorted
      then failed (err_status PDCM_STATUS_UNSUPPORTED "fresh read key is not supported")
      else if co_fresh_waiters c =? max_fresh_waiters (co_limits_ c)
      then failed (err_status PDCM_STATUS_RESOURCE_EXHAUSTED "fresh read waiter limit exceeded")
      else
      match find_fresh (tq_fresh_tasks (co_tasks c)) (g, sorted) with
      | Some task =>
          if deadline <=? prq_deadline (ct_request task)
          then (inr (ct_id task), co_with_waiters c (co_fresh_waiters c + 1))
          else failed (err_status PDCM_STATUS_RESOURCE_EXHAUSTED "in-flight fresh read has an incompatible deadline")
      | None =>
          let '(id, c1) := allocateRequestId c in
          if id =? 0 then (inl (err_status PDCM_STATUS_RESOURCE_EXHAUSTED "request ID space exhausted"), c1)
          else
          let '(queued, tasks) := enqueueLocked (max_provider_queue (co_limits_ c1)) (co_tasks c1)
                                    (fresh_task c1 (metricDescriptor dm) sorted g id now deadline) in
          match queued with
          | EQ_Accepted => (inr id, co_with_waiters (co_with_tasks c1 tasks) (co_fresh_waiters c1 + 1))
          | EQ_Busy => (inl (err_status PDCM_STATUS_RESOURCE_EXHAUSTED "fresh read key is already in flight"),
                        co_with_tasks c1 tasks)
          | EQ_Full | EQ_Stopped => (inl (err_status PDCM_STATUS_RESOURCE_EXHAUSTED "provider queue is full"),
                                     co_with_tasks c1 tasks)
          end
      end
  end.

(** The end of the wait, by completion or at the deadline. *)
Definition freshReadEnd (c : Coordinator) (id : Z) : Status * Coordinator :=
  (match om_find id (tq_completed (co_tasks c)) with
   | Some status => status
   | None => err_status PDCM_STATUS_TIMEOUT "fresh read waiter timed out"
   end, co_with_waiters c (co_fresh_waiters c - 1)).

(** ** The worker *)

(** The head of the worker's loop; it returns when stopped and idle. *)
Definition workerBegin (q : TaskQueue) : option (CollectionTask * TaskQueue) :=
  match tq_queue q with
  | [] => None
  | task :: queue =>
      Some (task, mkQueue queue (Some task) (tq_busy_keys q) (tq_fresh_tasks q) (tq_completed q) (tq_shutdown q))
  end.

(** The provider's result: an expired task is not sent to it. *)
Definition worker_read (task : CollectionTask) (now : Z) (batchRead : ProviderReadRequest -> ProviderReadResult)
    : ProviderReadResult :=
  if prq_deadline (ct_request task) <? now
  then mkReadResult (err_status PDCM_STATUS_TIMEOUT "collection task expired in the provider queue") []
  else batchRead (ct_request task).

(** The end of the worker's turn, with the status of the collection. *)
Definition workerEnd (q : TaskQueue) (task : CollectionTask) (status : Status) : TaskQueue :=
  let idle := mkQueue (tq_queue q) None (tq_busy_keys q) (tq_fresh_tasks q) (tq_completed q) (tq_shutdown q) in
  setCompletion (releaseTaskLocked idle task) task status.

(** ** Start and stop *)

Definition startScheduler (c : Coordinator) : Status * Coordinator :=
  if tq_shutdown (co_tasks c) then (err_status PDCM_STATUS_NOT_INITIALIZED "collection runtime is stopped", c)
  else (st_success, co_with_running c true).
Definition stopScheduler (c : Coordinator) : Coordinator := co_with_running c false.

(** [shutdownAll] before it joins the worker. *)
Definition cancel_queue (q : TaskQueue) : TaskQueue :=
  let released := foldl releaseTaskLocked (queue_with q []) (tq_queue q) in
  let stopped := mkQueue [] (tq_in_flight released) (tq_busy_keys released) (tq_fresh_tasks released)
                   (tq_completed released) true in
  foldl (fun q t => setCompletion q t (err_status PDCM_STATUS_NOT_INITIALIZED "collection runtime stopped"))
    stopped (tq_queue q).
Definition shutdownAll (c : Coordinator) : Coordinator :=
  let c1 := stopScheduler c in co_with_tasks c1 (cancel_queue (co_tasks c1)).

(** ** The tasks in hand

    The invariant is stated on the list of active tasks (queued or at the
    provider), so that popping, evicting and inserting are the same lemmas. *)

Definition active (q : TaskQueue) : list CollectionTask := tq_queue q ++ option_list (tq_in_flight q).

(** A task of a fresh read is registered under the metrics it reads. *)
Definition metric_item (k : DataKey) : ProviderReadItem := mkReadItem (dk_entity k) PDK_Metric (dk_metric k).
Definition task_shape (t : CollectionTask) : Prop :=
  ct_keys t <> [] /\ forall s, ct_fresh_signature t = Some s ->
    s.2 = ct_keys t /\ ct_completion t = true /\ cj_kind (ct_job t) = PDK_Metric /\ cj_id (ct_job t) = 0 /\
    prq_items (ct_request t) = map metric_item (ct_keys t).

Record tasks_ok (next : Z) (act : list CollectionTask) (busy : list (DataKey * unit))
    (fresh : list (FreshSignature * CollectionTask)) (completed : list (Z * Status)) : Prop := {
  tk_ids : NoDup (map ct_id act);
  tk_next : Forall (fun t => 1 <= ct_id t < next /\ task_shape t) act;
  tk_wf : om_wf busy;
  tk_busy : forall k, om_mem k busy = true <-> exists t, t ∈ act /\ k ∈ ct_keys t;
  tk_exclusive : forall a b k, a ∈ act -> b ∈ act -> k ∈ ct_keys a -> k ∈ ct_keys b -> a = b;
  tk_fresh : forall s t, find_fresh fresh s = Some t <-> t ∈ act /\ ct_fresh_signature t = Some s;
  tk_pending : forall t, t ∈ act -> om_find (ct_id t) completed = None;
  tk_done : forall id st, om_find id completed = Some st -> id < next }.

Lemma find_fresh_cons s t fresh s' :
  find_fresh ((s, t) :: fresh) s' = if decide (s = s') then Some t else find_fresh fresh s'.
Proof.
  unfold find_fresh. rewrite find_if_cons. cbn [fst]. destruct (decide (s = s')) as [->|Hne].
  - by rewrite bool_decide_true.
  - by rewrite bool_decide_false.
Qed.

Lemma find_fresh_erase fresh s s' :
  find_fresh (erase_fresh fresh s) s' = if decide (s = s') then None else find_fresh fresh s'.
Proof.
  unfold erase_fresh. induction fresh as [|[s0 t0] fresh IH]; cbn [List.filter fst]; [by destruct (decide _)|].
  destruct (decide (s0 = s)) as [->|Hne]; [rewrite bool_decide_true by done|rewrite bool_decide_false by done]; cbn [negb].
  - rewrite IH, find_fresh_cons. by destruct (decide (s = s')).
  - rewrite !find_fresh_cons, IH. destruct (decide (s0 = s')) as [->|]; [by destruct (decide (s = s')) as [->|]|done].
Qed.

Lemma tasks_ok_nil next : tasks_ok next [] [] [] [].
Proof.
  split; try done; try (by constructor).
  - intros k. split; [done|]. intros (t & Ht & _). by inversion Ht.
  - intros a b k Ha. by inversion Ha.
  - intros s t. split; [done|]. intros [Ht _]. by inversion Ht.
Qed.

Lemma tasks_ok_perm next act act' busy fresh completed :
  act ≡ₚ act' -> tasks_ok next act busy fresh completed -> tasks_ok next act' busy fresh completed.
Proof.
  intros Hp [T1 T2 T3 T4 T5 T6 T7 T8]. split; auto.
  - by rewrite <- Hp.
  - by rewrite <- Hp.
  - intros k. rewrite T4. split; intros (t & Ht & Hk); exists t; [by rewrite <- Hp|by rewrite Hp].
  - intros a b k Ha Hb. apply T5; by rewrite Hp.
  - intros s t. by rewrite T6, Hp.
  - intros t Ht. apply T7. by rewrite Hp.
Qed.

Lemma tasks_ok_mono next next' act busy fresh completed :
  next <= next' -> tasks_ok next act busy fresh completed -> tasks_ok next' act busy fresh completed.
Proof.
  intros Hn [T1 T2 T3 T4 T5 T6 T7 T8]. split; auto.
  - eapply Forall_impl; [exact T2|]. intros t [? ?]. split; [lia|done].
  - intros id st Hd. apply T8 in Hd. lia.
Qed.

(** The registered tasks after a release. *)
Definition release_fresh (fresh : list (FreshSignature * CollectionTask)) (t : CollectionTask)
    : list (FreshSignature * CollectionTask) :=
  match ct_fresh_signature t with
  | Some s =>
      match find_fresh fresh s with
      | Some registered => if ct_id registered =? ct_id t then erase_fresh fresh s else fresh
      | None => fresh
      end
  | None => fresh
  end.

Lemma task_by_id next act busy fresh completed a b :
  tasks_ok next act busy fresh completed -> a ∈ act -> b ∈ act -> ct_id a = ct_id b -> a = b.
Proof.
  intros Hok Ha Hb Hid. apply list_elem_of_lookup in Ha as [i Hi], Hb as [j Hj].
  assert (i = j) as ->; [|congruence].
  apply (NoDup_lookup (map ct_id act) i j (ct_id a)); [apply Hok|by rewrite list_lookup_fmap, Hi|].
  by rewrite list_lookup_fmap, Hj, Hid.
Qed.

Lemma tasks_ok_release next t act busy fresh completed :
  tasks_ok next (t :: act) busy fresh completed ->
  tasks_ok next act (foldl (fun m k => om_erase k m) busy (ct_keys t)) (release_fresh fresh t) completed.
Proof.
  intros Hok. pose proof Hok as [T1 T2 T3 T4 T5 T6 T7 T8]. cbn [map] in T1. apply NoDup_cons in T1 as [N1 N2].
  assert (t ∉ act) as Hnt by (intros Hin; apply N1; by apply list_elem_of_fmap_2).
  split; auto.
  - by apply Forall_cons in T2 as [_ ?].
  - by apply om_wf_erase_all.
  - intros k. rewrite om_mem_erase_all, T4 by done. split.
    + intros (Hk & t' & [->|Ht']%elem_of_cons & Hk'); [done|]. by exists t'.
    + intros (t' & Ht' & Hk). split; [|exists t'; split; [by right|done]]. intros Hkt.
      apply Hnt. by rewrite (T5 t t' k ltac:(left) ltac:(by right) Hkt Hk).
  - intros a b k Ha Hb. apply T5; by right.
  - assert (release_fresh fresh t = match ct_fresh_signature t with Some s => erase_fresh fresh s | None => fresh end) as ->.
    { unfold release_fresh. destruct (ct_fresh_signature t) as [s|] eqn:Es; [|done].
      rewrite (proj2 (T6 s t)) by (split; [left|done]). by rewrite Z.eqb_refl. }
    intros s t'. destruct (ct_fresh_signature t) as [s0|] eqn:Es.
    + rewrite find_fresh_erase. destruct (decide (s0 = s)) as [->|Hne].
      * split; [done|]. intros [Ht' Hs]. exfalso. apply Hnt.
        assert (find_fresh fresh s = Some t) as F1 by (apply T6; split; [left|done]).
        assert (find_fresh fresh s = Some t') as F2 by (apply T6; split; [by right|done]). congruence.
      * rewrite T6, elem_of_cons. split; [intros [[->|?] ?]; [congruence|done]|tauto].
    + rewrite T6, elem_of_cons. split; [intros [[->|?] ?]; [congruence|done]|tauto].
  - intros t' Ht'. apply T7. by right.
Qed.

(** A task that has left is completed. *)
Lemma tasks_ok_complete next id st act busy fresh completed :
  tasks_ok next act busy fresh completed -> id < next -> id ∉ map ct_id act ->
  tasks_ok next act busy fresh (om_set id st completed).
Proof.
  intros [T1 T2 T3 T4 T5 T6 T7 T8] Hid Hn. split; auto.
  - intros t Ht. rewrite om_find_set_ne; [by apply T7|]. intros ->. apply Hn. by apply list_elem_of_fmap_2.
  - intros id' st'. destruct (decide (id = id')) as [<-|]; [done|]. rewrite om_find_set_ne by done. apply T8.
Qed.

Lemma tasks_ok_insert next t act busy fresh completed :
  tasks_ok next act busy fresh completed -> next <= ct_id t -> 1 <= ct_id t -> task_shape t ->
  existsb (fun k => om_mem k busy) (ct_keys t) = false ->
  tasks_ok (ct_id t + 1) (t :: act) (foldl (fun m k => om_set k tt m) busy (ct_keys t))
    (match ct_fresh_signature t with Some s => (s, t) :: erase_fresh fresh s | None => fresh end) completed.
Proof.
  intros [T1 T2 T3 T4 T5 T6 T7 T8] Hn H1 Hshape Hb.
  assert (forall k a, a ∈ act -> k ∈ ct_keys a -> k ∉ ct_keys t) as Hfree.
  { intros k a Ha Hk Hkt. assert (existsb (fun k => om_mem k busy) (ct_keys t) = true); [|congruence].
    apply existsb_elem. exists k. split; [done|]. apply T4. by exists a. }
  assert (forall a, a ∈ act -> ct_id a < next) as Hlt.
  { intros a Ha. rewrite Forall_forall in T2. destruct (T2 a Ha). lia. }
  split.
  - cbn [map]. constructor; [|done]. intros (a & Heq & Ha)%list_elem_of_fmap. apply Hlt in Ha. lia.
  - constructor; [split; [lia|done]|]. eapply Forall_impl; [exact T2|]. intros a [? ?]. split; [lia|done].
  - by apply om_wf_set_all.
  - intros k. rewrite om_mem_set_all, T4. split.
    + intros [Hk|(a & Ha & Hk)]; [exists t; split; [left|done]|exists a; split; [by right|done]].
    + intros (a & [->|Ha]%elem_of_cons & Hk); [by left|right; by exists a].
  - intros a b k [->|Ha]%elem_of_cons [->|Hb']%elem_of_cons Hka Hkb; [done| | |by eapply T5].
    + by apply (Hfree k b) in Hka.
    + by apply (Hfree k a) in Hkb.
  - intros s t'. rewrite elem_of_cons. destruct (ct_fresh_signature t) as [s0|] eqn:Es.
    + rewrite find_fresh_cons, find_fresh_erase. destruct (decide (s0 = s)) as [->|Hne].
      * split; [intros [= <-]; split; [by left|done]|]. intros [[->|Ht'] Hs]; [done|]. exfalso.
        destruct Hshape as [Hne Hk]. destruct (Hk s Es) as [Hk0 _]. rewrite Forall_forall in T2.
        destruct (T2 t' Ht') as [_ [_ Hk']]. destruct (Hk' s Hs) as [Hk1 _]. destruct (ct_keys t) as [|k ks] eqn:Ek; [done|].
        apply (Hfree k t' Ht'); [rewrite <- Hk1, Hk0|]; left.
      * rewrite T6. split; [tauto|]. intros [[->|?] ?]; [congruence|done].
    + rewrite T6. split; [tauto|]. intros [[->|?] ?]; [congruence|done].
  - intros a [->|Ha]%elem_of_cons; [|by apply T7]. destruct (om_find (ct_id t) completed) eqn:E; [|done].
    apply T8 in E. lia.
  - intros id st Hd. apply T8 in Hd. lia.
Qed.

(** ** The queue operations *)

Definition higher_first (a b : CollectionTask) : Prop := priority_value (ct_priority b) <= priority_value (ct_priority a).

Record queue_wf (limit next : Z) (q : TaskQueue) : Prop := {
  qw_bound : zlen (tq_queue q) <= limit;
  qw_sorted : StronglySorted higher_first (tq_queue q);
  qw_tasks : tasks_ok next (active q) (tq_busy_keys q) (tq_fresh_tasks q) (tq_completed q) }.

(** No task is forgotten: one that is no longer active has been completed, and
    a completion stands. *)
Record progress (q q' : TaskQueue) : Prop := {
  pg_tasks : forall t, t ∈ active q ->
    t ∈ active q' \/ (ct_completion t = true -> is_Some (om_find (ct_id t) (tq_completed q')));
  pg_done : forall id st, om_find id (tq_completed q) = Some st -> om_find id (tq_completed q') = Some st }.

Lemma progress_refl q : progress q q.
Proof. split; auto. Qed.
Lemma progress_trans q1 q2 q3 : progress q1 q2 -> progress q2 q3 -> progress q1 q3.
Proof.
  intros [P1 P2] [P3 P4]. split; [|auto]. intros t [Ht|Hd]%P1; [by apply P3|]. right. intros Hc.
  destruct (Hd Hc) as [st Hst]. exists st. by apply P4.
Qed.

Lemma leave_ok next t act q st :
  tasks_ok next (t :: act) (tq_busy_keys q) (tq_fresh_tasks q) (tq_completed q) ->
  let q' := setCompletion (releaseTaskLocked q t) t st in
  tasks_ok next act (tq_busy_keys q') (tq_fresh_tasks q') (tq_completed q') /\
  (ct_completion t = true -> om_find (ct_id t) (tq_completed q') = Some st) /\
  (forall id s, om_find id (tq_completed q) = Some s -> om_find id (tq_completed q') = Some s) /\
  tq_queue q' = tq_queue q /\ tq_in_flight q' = tq_in_flight q /\ tq_shutdown q' = tq_shutdown q.
Proof.
  intros Hok. pose proof (tasks_ok_release _ _ _ _ _ _ Hok) as Hr. fold (release_fresh (tq_fresh_tasks q) t) in *.
  pose proof (tk_pending _ _ _ _ _ Hok t ltac:(left)) as Hp. pose proof (tk_next _ _ _ _ _ Hok) as Hn.
  apply Forall_cons in Hn as [[Hn _] _]. pose proof (tk_ids _ _ _ _ _ Hok) as Hids. cbn [map] in Hids.
  apply NoDup_cons in Hids as [Hid _]. cbv zeta. unfold setCompletion, releaseTaskLocked. destruct (ct_completion t).
  - cbn. split_and!; try done; [apply tasks_ok_complete; [done|lia|done]|intros _; apply om_find_set_eq|].
    intros id s Hs. rewrite om_find_set_ne; [done|]. intros <-. congruence.
  - cbn. split_and!; try done.
Qed.

Lemma insert_task_perm t queue : insert_task t queue ≡ₚ t :: queue.
Proof.
  induction queue as [|x queue IH]; [done|]. cbn [insert_task]. guard as G; [done|]. rewrite IH. apply Permutation_swap.
Qed.

Lemma insert_task_sorted t queue :
  StronglySorted higher_first queue -> StronglySorted higher_first (insert_task t queue).
Proof.
  induction 1 as [|x queue Hs IH Hall]; cbn [insert_task]; [repeat constructor|]. guard as G; bprop in G.
  - constructor; [by constructor|]. constructor; [unfold higher_first; lia|]. eapply Forall_impl; [exact Hall|].
    intros y Hy. unfold higher_first in *. lia.
  - constructor; [done|]. rewrite insert_task_perm. constructor; [unfold higher_first; lia|done].
Qed.

Lemma insert_locked_wf limit next q t :
  queue_wf limit next q -> zlen (tq_queue q) < limit -> next <= ct_id t -> 1 <= ct_id t -> task_shape t ->
  existsb (fun k => om_mem k (tq_busy_keys q)) (ct_keys t) = false ->
  queue_wf limit (ct_id t + 1) (insert_locked q t) /\ progress q (insert_locked q t) /\ t ∈ active (insert_locked q t).
Proof.
  intros [Q1 Q2 Q3] Hl Hn H1 Hs Hb.
  assert (active (insert_locked q t) ≡ₚ t :: active q) as Hact
    by (unfold active; cbn [insert_locked tq_queue tq_in_flight]; by rewrite insert_task_perm).
  split_and!.
  - split.
    + cbn [insert_locked tq_queue]. unfold zlen in *. rewrite insert_task_perm. cbn [length]. lia.
    + by apply insert_task_sorted.
    + eapply tasks_ok_perm; [symmetry; exact Hact|]. by apply tasks_ok_insert with next.
  - split; [|done]. intros t' Ht'. left. rewrite Hact. by right.
  - rewrite Hact. left.
Qed.

Lemma StronglySorted_snoc_inv {A} (R : A -> A -> Prop) l x : StronglySorted R (l ++ [x]) -> StronglySorted R l.
Proof. intros Hs. by apply StronglySorted_app in Hs as (_ & ? & _). Qed.

(** [enqueueLocked] accepts with the invariant, or changes nothing. *)
Lemma enqueueLocked_spec limit next q t :
  1 <= limit -> queue_wf limit next q -> next <= ct_id t -> 1 <= ct_id t -> task_shape t ->
  let r := enqueueLocked limit q t in
  (fst r = EQ_Accepted -> queue_wf limit (ct_id t + 1) (snd r) /\ t ∈ active (snd r)) /\
  (fst r <> EQ_Accepted -> snd r = q) /\ progress q (snd r) /\ tq_in_flight (snd r) = tq_in_flight q /\
  tq_shutdown (snd r) = tq_shutdown q.
Proof.
  intros Hl Hwf Hn H1 Hs. cbv zeta. unfold enqueueLocked.
  guard as G1; [split_and!; done || apply progress_refl|]. guard as G2; [split_and!; done || apply progress_refl|].
  guard as G3; bprop in G3; cycle 1.
  { pose proof (qw_bound _ _ _ Hwf). destruct (insert_locked_wf limit next q t Hwf ltac:(lia) Hn H1 Hs G2) as (I1 & I2 & I3).
    cbn [fst snd]. split_and!; done. }
  destruct (last (tq_queue q)) as [back|] eqn:El; [|split_and!; done || apply progress_refl].
  apply last_Some in El as [front El].
  guard as G4; [split_and!; done || apply progress_refl|]. bprop in G4. cbn [fst snd].
  assert (take (length (tq_queue q) - 1) (tq_queue q) = front) as ->.
  { rewrite El, length_app. cbn [length]. replace (length front + 1 - 1)%nat with (length front) by lia. apply take_app_length. }
  destruct Hwf as [Q1 Q2 Q3]. rewrite El in Q1, Q2. rewrite zlen_app, zlen_cons, zlen_nil in Q1.
  set (q1 := queue_with q front).
  assert (active q ≡ₚ back :: active q1) as Hact.
  { unfold active, q1. cbn [queue_with tq_queue tq_in_flight]. rewrite El, <- app_assoc. apply Permutation_sym, Permutation_middle. }
  pose proof (tasks_ok_perm _ _ _ _ _ _ Hact Q3) as Q3'.
  destruct (leave_ok next back (active q1) q1 evicted_status Q3') as (L1 & L2 & L3 & L4 & L5 & L6).
  set (q2 := setCompletion (releaseTaskLocked q1 back) back evicted_status) in *.
  assert (active q2 = active q1) as Ha2 by (unfold active; by rewrite L4, L5).
  assert (queue_wf limit next q2) as Hwf2.
  { split; rewrite ?L4; cbn [q1 queue_with tq_queue]; [lia|by eapply StronglySorted_snoc_inv|by rewrite Ha2]. }
  assert (progress q q2) as Hp.
  { split; [|done]. intros t' Ht'. rewrite Hact in Ht'. apply elem_of_cons in Ht' as [->|Ht']; [right; eauto|].
    left. by rewrite Ha2. }
  assert (existsb (fun k => om_mem k (tq_busy_keys q2)) (ct_keys t) = false) as Hfree.
  { apply not_true_iff_false. intros (k & Hk & Hm)%existsb_elem. apply (tk_busy _ _ _ _ _ L1) in Hm as (a & Ha & Hka).
    assert (existsb (fun k => om_mem k (tq_busy_keys q)) (ct_keys t) = true); [|congruence]. apply existsb_elem.
    exists k. split; [done|]. apply (tk_busy _ _ _ _ _ Q3). exists a. split; [|done]. rewrite Hact. by right. }
  assert (zlen (tq_queue q2) < limit) as Hroom by (rewrite L4; cbn [q1 queue_with tq_queue]; lia).
  destruct (insert_locked_wf limit next q2 t Hwf2 Hroom Hn H1 Hs Hfree) as (I1 & I2 & I3).
  split_and!; [done|done|by eapply progress_trans|cbn [insert_locked tq_in_flight]; by rewrite L5|
    cbn [insert_locked tq_shutdown]; by rewrite L6].
Qed.

(** ** The worker and the shutdown *)

Lemma workerBegin_wf limit next q t q' :
  queue_wf limit next q -> tq_in_flight q = None -> workerBegin q = Some (t, q') ->
  queue_wf limit next q' /\ progress q q' /\ tq_in_flight q' = Some t /\ tq_queue q = t :: tq_queue q' /\
  tq_completed q' = tq_completed q.
Proof.
  intros [Q1 Q2 Q3] Hf. unfold workerBegin. destruct (tq_queue q) as [|x queue] eqn:Eq; [done|]. intros [= -> <-].
  assert (active q ≡ₚ queue ++ [t]) as Hact.
  { unfold active. rewrite Eq, Hf. cbn. rewrite app_nil_r. apply Permutation_cons_append. }
  split_and!; try done.
  - split; cbn [tq_queue tq_busy_keys tq_fresh_tasks tq_completed].
    + rewrite zlen_cons in Q1. lia.
    + by apply StronglySorted_inv in Q2 as [? _].
    + by eapply tasks_ok_perm.
  - split; [|done]. intros t' Ht'. left. unfold active. cbn. by rewrite <- Hact.
Qed.

Lemma workerEnd_wf limit next q t st :
  queue_wf limit next q -> tq_in_flight q = Some t ->
  let q' := workerEnd q t st in
  queue_wf limit next q' /\ progress q q' /\ tq_in_flight q' = None /\ tq_queue q' = tq_queue q.
Proof.
  intros [Q1 Q2 Q3] Hf. cbv zeta. unfold workerEnd. set (q0 := mkQueue _ None _ _ _ _).
  assert (active q ≡ₚ t :: tq_queue q) as Hact.
  { unfold active. rewrite Hf. cbn. symmetry. apply Permutation_cons_append. }
  pose proof (tasks_ok_perm _ _ _ _ _ _ Hact Q3) as Q3'.
  destruct (leave_ok next t (tq_queue q) q0 st Q3') as (L1 & L2 & L3 & L4 & L5 & L6).
  set (q2 := setCompletion _ _ _) in *. cbn [q0 tq_queue tq_in_flight] in L4, L5.
  assert (active q2 = tq_queue q) as Ha by (unfold active; rewrite L4, L5; apply app_nil_r).
  split_and!; auto.
  - split; rewrite ?L4, ?Ha; done.
  - split; [|done]. intros t'. rewrite Hact, Ha. intros [->|Ht']%elem_of_cons; [right; eauto|by left].
Qed.

Lemma release_all_ok next ts q act :
  tasks_ok next (ts ++ act) (tq_busy_keys q) (tq_fresh_tasks q) (tq_completed q) ->
  let q' := foldl releaseTaskLocked q ts in
  tasks_ok next act (tq_busy_keys q') (tq_fresh_tasks q') (tq_completed q') /\
  tq_queue q' = tq_queue q /\ tq_in_flight q' = tq_in_flight q /\ tq_completed q' = tq_completed q.
Proof.
  revert q. induction ts as [|t ts IH]; intros q Hok; cbn [foldl app] in *; [done|].
  apply (IH (releaseTaskLocked q t)). exact (tasks_ok_release _ _ _ _ _ _ Hok).
Qed.

Lemma complete_all_ok next ts q act st :
  tasks_ok next act (tq_busy_keys q) (tq_fresh_tasks q) (tq_completed q) ->
  Forall (fun t => ct_id t < next /\ ct_id t ∉ map ct_id act) ts -> NoDup (map ct_id ts) ->
  (forall t, t ∈ ts -> om_find (ct_id t) (tq_completed q) = None) ->
  let q' := foldl (fun q t => setCompletion q t st) q ts in
  tasks_ok next act (tq_busy_keys q') (tq_fresh_tasks q') (tq_completed q') /\
  tq_queue q' = tq_queue q /\ tq_in_flight q' = tq_in_flight q /\ tq_shutdown q' = tq_shutdown q /\
  (forall t, t ∈ ts -> ct_completion t = true -> is_Some (om_find (ct_id t) (tq_completed q'))) /\
  (forall id s, om_find id (tq_completed q) = Some s -> om_find id (tq_completed q') = Some s).
Proof.
  revert q. induction ts as [|t ts IH]; intros q Hok Hf Hnd Hn; cbn [foldl].
  { split_and!; try done. inversion 1. }
  apply Forall_cons in Hf as [[F1 F2] Hf]. cbn [map] in Hnd. apply NoDup_cons in Hnd as [N1 N2].
  assert (forall id, id <> ct_id t -> om_find id (tq_completed (setCompletion q t st)) = om_find id (tq_completed q)) as Hne.
  { intros id Hid. unfold setCompletion. destruct (ct_completion t); [|done]. cbn. by rewrite om_find_set_ne. }
  destruct (IH (setCompletion q t st)) as (I1 & I2 & I3 & I4 & I5 & I6); try done.
  - unfold setCompletion. destruct (ct_completion t); [|done]. by apply tasks_ok_complete.
  - intros t' Ht'. rewrite Hne; [apply Hn; by right|]. intros Heq. apply N1. rewrite <- Heq. by apply list_elem_of_fmap_2.
  - split_and!; try done; [rewrite I2|rewrite I3|rewrite I4| |]; try (by unfold setCompletion; destruct (ct_completion t)).
    + intros t' [->|Ht']%elem_of_cons Hc; [|by apply I5]. exists st. apply I6. unfold setCompletion. rewrite Hc.
      apply om_find_set_eq.
    + intros id s Hs. apply I6. rewrite Hne; [done|]. intros ->. rewrite Hn in Hs by left. done.
Qed.

Lemma cancel_queue_wf limit next q : queue_wf limit next q -> 0 <= limit ->
  queue_wf limit next (cancel_queue q) /\ progress q (cancel_queue q) /\ tq_queue (cancel_queue q) = [] /\
  tq_in_flight (cancel_queue q) = tq_in_flight q.
Proof.
  intros [Q1 Q2 Q3] Hl. unfold cancel_queue. cbv zeta.
  destruct (release_all_ok next (tq_queue q) (queue_with q []) (option_list (tq_in_flight q)) Q3) as (R1 & R2 & R3 & R4).
  set (q1 := foldl releaseTaskLocked _ _) in *. cbn [queue_with tq_in_flight tq_completed] in R3, R4.
  set (q2 := mkQueue [] _ _ _ _ true).
  pose proof (tk_ids _ _ _ _ _ Q3) as Hids. unfold active in Hids. rewrite map_app in Hids. apply NoDup_app in Hids as (N1 & N2 & _).
  pose proof (tk_next _ _ _ _ _ Q3) as Hnx. unfold active in Hnx. apply Forall_app in Hnx as [Hnx _].
  destruct (complete_all_ok next (tq_queue q) q2 (option_list (tq_in_flight q))
    (err_status PDCM_STATUS_NOT_INITIALIZED "collection runtime stopped")) as (C1 & C2 & C3 & _ & C5 & C6); auto.
  - apply Forall_forall. intros t Ht. rewrite Forall_forall in Hnx. destruct (Hnx t Ht) as [? _]. split; [lia|].
    apply N2. by apply list_elem_of_fmap_2.
  - intros t Ht. cbn [q2 tq_completed]. rewrite R4. apply (tk_pending _ _ _ _ _ Q3). apply elem_of_app. by left.
  - set (q3 := foldl _ q2 _) in *. cbn [q2 tq_queue tq_in_flight] in C2, C3. rewrite R3 in C3.
    assert (active q3 = option_list (tq_in_flight q)) as Ha by (unfold active; by rewrite C2, C3).
    split_and!; auto.
    + split; rewrite ?C2, ?Ha; [by rewrite zlen_nil|constructor|done].
    + split; [|intros id s Hs; apply C6; cbn [q2 tq_completed]; by rewrite R4].
      intros t [Ht|Ht]%elem_of_app; [right; by apply C5|left; by rewrite Ha].
Qed.

(** ** Interleavings of the coordinator's operations *)

Inductive coordinator_op :=
  | CoApply (dm : DataManager) (ws : option WatchSnapshot) (now : Z)
  | CoActivate (dm : DataManager) (v : option CatalogView)
  | CoRunDue (now : Z)
  | CoFresh (dm : DataManager) (keys : list DataKey) (g deadline now : Z)
  | CoFreshEnd (id : Z)
  | CoBegin
  | CoEnd (status : Status)
  | CoStart
  | CoStop
  | CoShutdown.

(** The coordinator with the fresh reads that wait for a completion. *)
Definition coordinator_state : Type := Coordinator * list Z.

Fixpoint remove_one (id : Z) (l : list Z) : list Z :=
  match l with [] => [] | x :: l' => if x =? id then l' else x :: remove_one id l' end.

Definition co_step (s : coordinator_state) (op : coordinator_op) : coordinator_state :=
  let '(c, waiting) := s in
  match op with
  | CoApply dm ws now => (snd (applyWatchSnapshot c dm ws now), waiting)
  | CoActivate dm v => (snd (co_activateCatalog c dm v), waiting)
  | CoRunDue now => (snd (runDue c now), waiting)
  | CoFresh dm keys g deadline now =>
      match freshRead c dm keys g deadline now with
      | (inr id, c') => (c', id :: waiting)
      | (inl _, c') => (c', waiting)
      end
  | CoFreshEnd id =>
      if bool_decide (id ∈ waiting) then (snd (freshReadEnd c id), remove_one id waiting) else s
  | CoBegin =>
      match tq_in_flight (co_tasks c), workerBegin (co_tasks c) with
      | None, Some (_, q) => (co_with_tasks c q, waiting)
      | _, _ => s
      end
  | CoEnd status =>
      match tq_in_flight (co_tasks c) with
      | Some task => (co_with_tasks c (workerEnd (co_tasks c) task status), waiting)
      | None => s
      end
  | CoStart => (snd (startScheduler c), waiting)
  | CoStop => (stopScheduler c, waiting)
  | CoShutdown => (shutdownAll c, waiting)
  end.

Definition limits_ok (l : CollectionLimits) : Prop :=
  1 <= max_batch_items l /\ 0 <= max_plan_jobs l < u64_max - 1 /\ 1 <= max_provider_queue l /\ 1 <= max_fresh_waiters l.

Record co_wf (c : Coordinator) : Prop := {
  cw_limits : limits_ok (co_limits_ c);
  cw_next : 1 <= co_next_request_id_ c <= u64_max;
  cw_queue : queue_wf (max_provider_queue (co_limits_ c)) (co_next_request_id_ c) (co_tasks c);
  cw_jobs : Forall (fun j => cj_items j <> [] /\ 0 < cj_period j) (cp_jobs (co_plan_ c)) /\
    NoDup (map cj_id (cp_jobs (co_plan_ c))) }.

(** What a waiter relies on. *)
Definition will_answer (q : TaskQueue) (id : Z) : Prop :=
  (exists t, t ∈ active q /\ ct_id t = id /\ ct_completion t = true) \/ is_Some (om_find id (tq_completed q)).

Record waiters_ok (s : coordinator_state) : Prop := {
  ww_count : co_fresh_waiters (fst s) = zlen (snd s) /\ zlen (snd s) <= max_fresh_waiters (co_limits_ (fst s));
  ww_answer : Forall (will_answer (co_tasks (fst s))) (snd s) }.

Lemma will_answer_progress q q' id : progress q q' -> will_answer q id -> will_answer q' id.
Proof.
  intros [P1 P2] [(t & Ht & <- & Hc)|[st Hst]]; [|right; exists st; by apply P2].
  destruct (P1 t Ht) as [Ht'|Hd]; [left; by exists t|right; by apply Hd].
Qed.

Lemma allocateRequestId_spec c : 1 <= co_next_request_id_ c <= u64_max ->
  let '(id, c') := allocateRequestId c in
  (id = 0 /\ c' = c) \/ (id = co_next_request_id_ c /\ 1 <= id /\ c' = co_with_next_id c (id + 1) /\ id + 1 <= u64_max).
Proof.
  intros Hn. unfold allocateRequestId. cbv zeta. rewrite (proj2 (Z.eqb_neq (co_next_request_id_ c) 0)) by lia. cbn [orb].
  destruct (co_next_request_id_ c =? u64_max) eqn:E; [by left|]. bprop in E. right. split_and!; try done; lia.
Qed.

(** A request identifier that is not used leaves a gap. *)
Lemma queue_wf_mono limit next next' q : next <= next' -> queue_wf limit next q -> queue_wf limit next' q.
Proof. intros Hn [Q1 Q2 Q3]. split; auto. by eapply tasks_ok_mono. Qed.

Lemma job_task_shape plan job id scheduled : cj_items job <> [] -> task_shape (job_task plan job id scheduled).
Proof. intros Hne. split; cbn; [by destruct (cj_items job)|done]. Qed.

(** Enqueuing under the coordinator's invariant. *)
Lemma enqueue_co_wf c id t : co_wf c -> id = co_next_request_id_ c -> ct_id t = id -> id + 1 <= u64_max -> task_shape t ->
  let c1 := co_with_next_id c (id + 1) in
  let r := enqueueLocked (max_provider_queue (co_limits_ c)) (co_tasks c1) t in
  co_wf (co_with_tasks c1 (snd r)) /\ progress (co_tasks c) (snd r) /\
  (fst r = EQ_Accepted -> t ∈ active (snd r)) /\ tq_in_flight (snd r) = tq_in_flight (co_tasks c).
Proof.
  intros [W1 W2 W3 W4] -> Hid Hu Hs. cbv zeta. cbn [co_with_next_id co_tasks].
  destruct (enqueueLocked_spec (max_provider_queue (co_limits_ c)) (co_next_request_id_ c) (co_tasks c) t)
    as (E1 & E2 & E3 & E4 & _); try done; [apply W1|lia|lia|].
  destruct (enqueueLocked _ _ _) as [r q]. cbn [fst snd] in *. rewrite Hid in E1.
  split_and!; [|done|intros ->; by apply E1|done]. split; cbn; auto; [lia|].
  destruct (decide (r = EQ_Accepted)) as [->|Hr]; [by apply E1|]. rewrite E2 by done.
  eapply queue_wf_mono; [|exact W3]. lia.
Qed.

(** What an operation keeps: the limits and the tasks in hand. *)
Definition co_keeps (c c' : Coordinator) : Prop :=
  co_limits_ c' = co_limits_ c /\ co_fresh_waiters c' = co_fresh_waiters c /\ progress (co_tasks c) (co_tasks c').

Lemma co_keeps_refl c : co_keeps c c.
Proof. split_and!; try done. apply progress_refl. Qed.
Lemma co_keeps_trans a b c : co_keeps a b -> co_keeps b c -> co_keeps a c.
Proof.
  intros (A1 & A2 & A3) (B1 & B2 & B3). split_and!; [congruence|congruence|by eapply progress_trans].
Qed.

Lemma co_wf_due c v due : co_wf c -> co_wf (co_with_due c v due).
Proof. intros [W1 W2 W3 W4]. by split. Qed.

Lemma run_job_wf plan now s job : co_wf (du_co s) -> cj_items job <> [] ->
  co_wf (du_co (run_job plan now s job)) /\ co_keeps (du_co s) (du_co (run_job plan now s job)) /\
  co_plan_ (du_co (run_job plan now s job)) = co_plan_ (du_co s).
Proof.
  intros Hwf Hne. unfold run_job. destruct (om_find _ _) as [due|]; [|split_and!; done || apply co_keeps_refl].
  guard as G1; [split_and!; done || apply co_keeps_refl|]. cbv zeta.
  set (c1 := co_with_due _ _ _). assert (co_wf c1) as Hwf1 by (by apply co_wf_due).
  pose proof (allocateRequestId_spec c1 (cw_next c1 Hwf1)) as Ha. destruct (allocateRequestId c1) as [id c2].
  destruct Ha as [[-> ->]|(-> & A1 & -> & A2)].
  { cbn [Z.eqb du_co]. split_and!; [done| |done]. split_and!; try done. apply progress_refl. }
  rewrite (proj2 (Z.eqb_neq _ 0)) by lia.
  set (t := job_task _ _ _ _). pose proof (job_task_shape plan job (co_next_request_id_ c1) _ Hne : task_shape t) as Hs.
  destruct (enqueue_co_wf c1 _ t Hwf1 eq_refl eq_refl A2 Hs) as (E1 & E2 & _ & _).
  change (co_limits_ (du_co s)) with (co_limits_ c1). cbv zeta in E1, E2.
  destruct (enqueueLocked _ _ t) as [r q]. cbn [fst snd] in E1, E2.
  assert (co_keeps (du_co s) (co_with_tasks (co_with_next_id c1 (co_next_request_id_ c1 + 1)) q)) as Hk by done.
  by destruct r.
Qed.

Lemma run_jobs_wf plan now jobs s : co_wf (du_co s) -> Forall (fun j => cj_items j <> []) jobs ->
  let s' := foldl (run_job plan now) s jobs in
  co_wf (du_co s') /\ co_keeps (du_co s) (du_co s') /\ co_plan_ (du_co s') = co_plan_ (du_co s).
Proof.
  revert s. induction jobs as [|j jobs IH]; intros s Hwf Hj; cbn [foldl].
  { split_and!; try done. apply co_keeps_refl. }
  apply Forall_cons in Hj as [Hj Hjs]. destruct (run_job_wf plan now s j Hwf Hj) as (R1 & R2 & R3).
  destruct (IH (run_job plan now s j) R1 Hjs) as (I1 & I2 & I3).
  split_and!; [done|by eapply co_keeps_trans|congruence].
Qed.

Lemma runDue_wf c now : co_wf c -> co_wf (snd (runDue c now)) /\ co_keeps c (snd (runDue c now)).
Proof.
  intros Hwf. unfold runDue. guard as G1; [split; [done|apply co_keeps_refl]|].
  guard as G2; [split; [done|apply co_keeps_refl]|]. cbv zeta. cbn [snd].
  set (c1 := if negb _ then _ else c).
  assert (co_wf c1 /\ co_keeps c c1 /\ co_plan_ c1 = co_plan_ c) as (W1 & K1 & P1).
  { unfold c1. guard as G; [split_and!; [by apply co_wf_due| |done]|split_and!; [done|apply co_keeps_refl|done]].
    split_and!; try done. apply progress_refl. }
  destruct (run_jobs_wf (co_plan_ c) now (cp_jobs (co_plan_ c)) (mkDue c1 0 0 0 0 []) W1) as (R1 & R2 & _).
  { eapply Forall_impl; [apply (cw_jobs c Hwf)|]. by intros j [? _]. }
  split; [done|]. by eapply co_keeps_trans.
Qed.

(** A fresh read that waits, waits for a task that answers. *)
Lemma freshRead_wf c dm keys g deadline now : co_wf c ->
  let r := freshRead c dm keys g deadline now in
  co_wf (snd r) /\
  match fst r with
  | inl _ => co_keeps c (snd r)
  | inr id => co_limits_ (snd r) = co_limits_ c /\ progress (co_tasks c) (co_tasks (snd r)) /\
      co_fresh_waiters c <> max_fresh_waiters (co_limits_ c) /\
      co_fresh_waiters (snd r) = co_fresh_waiters c + 1 /\ will_answer (co_tasks (snd r)) id
  end.
Proof.
  intros Hwf. cbv zeta. unfold freshRead. cbv zeta.
  guard as G1; [split; [done|apply co_keeps_refl]|]. guard as G2; [split; [done|apply co_keeps_refl]|].
  guard as G3; [split; [done|apply co_keeps_refl]|]. guard as G4; [split; [done|apply co_keeps_refl]|].
  guard as G5; [split; [done|apply co_keeps_refl]|].
  destruct (co_route_entity c) as [entity|]; [|split; [done|apply co_keeps_refl]].
  guard as G6; [split; [done|apply co_keeps_refl]|]. guard as G7; [split; [done|apply co_keeps_refl]|].
  guard as G8; [split; [done|apply co_keeps_refl]|]. bprop in G1. bprop in G8.
  destruct (find_fresh _ _) as [t|] eqn:Ef.
  - guard as G9; [|split; [done|apply co_keeps_refl]]. cbn [fst snd].
    pose proof (qw_tasks _ _ _ (cw_queue c Hwf)) as Hok. apply (tk_fresh _ _ _ _ _ Hok) in Ef as [Ht Hs].
    split; [by destruct Hwf as [W1 W2 W3 W4]|]. split_and!; try done; [apply progress_refl|]. left. exists t.
    split_and!; try done. pose proof (tk_next _ _ _ _ _ Hok) as Hn. rewrite Forall_forall in Hn.
    destruct (Hn t Ht) as [_ [_ Hsh]]. by destruct (Hsh _ Hs) as (_ & ? & _).
  - pose proof (allocateRequestId_spec c (cw_next c Hwf)) as Ha. destruct (allocateRequestId c) as [id c1].
    destruct Ha as [[-> ->]|(-> & A1 & -> & A2)]; [split; [done|apply co_keeps_refl]|].
    rewrite (proj2 (Z.eqb_neq _ 0)) by lia.
    set (t := fresh_task _ _ _ _ _ _ _).
    assert (task_shape t) as Hs.
    { split; cbn; [|by intros s [= <-]]. intros Hn. destruct G1 as [G1 _]. apply G1.
      apply Permutation_nil_r. rewrite <- (std_sort_perm keys). by rewrite Hn. }
    destruct (enqueue_co_wf c _ t Hwf eq_refl eq_refl A2 Hs) as (E1 & E2 & E3 & _). cbv zeta in E1, E2, E3.
    change (co_limits_ (co_with_next_id c (co_next_request_id_ c + 1))) with (co_limits_ c).
    destruct (enqueueLocked _ _ t) as [r q]. cbn [fst snd] in E1, E2, E3.
    destruct r; cbn [fst snd]; (split; [done||(by destruct E1)|]); [|done..].
    split_and!; try done. left. exists t. split_and!; try done. by apply E3.
Qed.

Lemma remove_one_spec id l : id ∈ l ->
  zlen (remove_one id l) = zlen l - 1 /\ forall x, x ∈ remove_one id l -> x ∈ l.
Proof.
  induction l as [|x l IH]; [by inversion 1|]. cbn [remove_one]. destruct (x =? id) eqn:E; bprop in E.
  - intros _. rewrite zlen_cons. split; [lia|]. intros y Hy. by right.
  - intros [->|Hin]%elem_of_cons; [done|]. destruct (IH Hin) as [I1 I2]. rewrite !zlen_cons, I1. split; [lia|].
    intros y [->|Hy]%elem_of_cons; [left|right; by apply I2].
Qed.

Definition state_ok (s : coordinator_state) : Prop := co_wf (fst s) /\ waiters_ok s.

(** An operation that keeps the waiters. *)
Lemma state_ok_keeps c c' waiting : state_ok (c, waiting) -> co_wf c' -> co_keeps c c' -> state_ok (c', waiting).
Proof.
  intros [_ [W1 W2]] Hwf (K1 & K2 & K3). split; [done|]. cbn [fst snd] in *. split; cbn [fst snd]; [congruence|].
  eapply Forall_impl; [exact W2|]. intros id. by apply will_answer_progress.
Qed.

Lemma applyWatchSnapshot_wf c dm ws now : co_wf c ->
  co_wf (snd (applyWatchSnapshot c dm ws now)) /\ co_keeps c (snd (applyWatchSnapshot c dm ws now)).
Proof.
  intros [W1 W2 W3 W4]. unfold applyWatchSnapshot. destruct (compilePlan _ _ _ _ _) as [st|plan] eqn:Ec.
  { split; [by split|apply co_keeps_refl]. }
  destruct W1 as (L1 & L2 & L3 & L4). cbn [snd]. split.
  - split; cbn; [done..|]. exact (compilePlan_jobs _ _ _ _ _ _ L1 L2 Ec).
  - split_and!; try done. apply progress_refl.
Qed.

Lemma co_with_tasks_ok c q waiting : state_ok (c, waiting) ->
  queue_wf (max_provider_queue (co_limits_ c)) (co_next_request_id_ c) q -> progress (co_tasks c) q ->
  state_ok (co_with_tasks c q, waiting).
Proof.
  intros Hs Hq Hp. apply (state_ok_keeps c); [done| |done]. destruct Hs as [[W1 W2 W3 W4] _]. by split.
Qed.

Lemma co_step_ok s op : state_ok s -> state_ok (co_step s op).
Proof.
  destruct s as [c waiting]. intros Hs. pose proof Hs as [Hwf Hww]. cbn [fst] in Hwf.
  destruct op as [dm ws now|dm v|now|dm keys g deadline now|id| |st| | |]; cbn [co_step].
  - destruct (applyWatchSnapshot_wf c dm ws now Hwf). by apply (state_ok_keeps c).
  - apply (state_ok_keeps c); [done| |]; unfold co_activateCatalog; cbv zeta;
      repeat (case_match; cbn [snd]); try done; try apply co_keeps_refl;
      try (split_and!; done || apply progress_refl); by destruct Hwf.
  - destruct (runDue_wf c now Hwf). by apply (state_ok_keeps c).
  - pose proof (freshRead_wf c dm keys g deadline now Hwf) as Hf. cbv zeta in Hf.
    destruct (freshRead c dm keys g deadline now) as [[st|id] c']; cbn [fst snd] in Hf.
    + destruct Hf. by apply (state_ok_keeps c).
    + destruct Hf as (F1 & F2 & F3 & F4 & F5 & F6). destruct Hww as [[C1 C2] Ha]. cbn [fst snd] in *.
      split; [done|]. split; cbn [fst snd].
      * rewrite zlen_cons, F2. lia.
      * constructor; [done|]. eapply Forall_impl; [exact Ha|]. intros x. by apply will_answer_progress.
  - case_bool_decide as Hin; [|done]. destruct Hww as [[C1 C2] Ha]. cbn [fst snd] in *.
    destruct (remove_one_spec id waiting Hin) as [R1 R2]. split; [by destruct Hwf|]. split; cbn.
    + rewrite R1. lia.
    + apply Forall_forall. intros x Hx. rewrite Forall_forall in Ha. by apply Ha, R2.
  - destruct (tq_in_flight (co_tasks c)) eqn:Ef; [done|].
    destruct (workerBegin (co_tasks c)) as [[t q]|] eqn:Eb; [|done].
    destruct (workerBegin_wf _ _ _ _ _ (cw_queue c Hwf) Ef Eb) as (B1 & B2 & _). by apply co_with_tasks_ok.
  - destruct (tq_in_flight (co_tasks c)) as [t|] eqn:Ef; [|done].
    destruct (workerEnd_wf _ _ _ t st (cw_queue c Hwf) Ef) as (B1 & B2 & _). by apply co_with_tasks_ok.
  - unfold startScheduler. guard as G; [done|]. apply (state_ok_keeps c); [done|by destruct Hwf|].
    split_and!; done || apply progress_refl.
  - apply (state_ok_keeps c); [done|by destruct Hwf|]. split_and!; done || apply progress_refl.
  - pose proof (cw_limits c Hwf) as (_ & _ & L3 & _).
    destruct (cancel_queue_wf _ _ _ (cw_queue c Hwf)) as (B1 & B2 & _); [lia|].
    apply (co_with_tasks_ok (stopScheduler c)); [|done|done].
    apply (state_ok_keeps c); [done|by destruct Hwf|]. split_and!; done || apply progress_refl.
Qed.

Lemma co_steps_ok ops s : state_ok s -> state_ok (foldl co_step s ops).
Proof. revert s. induction ops as [|op ops IH]; intros s Hs; [done|]. by apply IH, co_step_ok. Qed.

Lemma co_construct_ok limits c : limits_ok limits -> co_construct limits = inr c -> state_ok (c, []) /\ co_limits_ c = limits.
Proof.
  intros Hl. unfold co_construct. cbv zeta. destruct (negb _); [done|]. intros [= <-]. destruct Hl as (L1 & L2 & L3 & L4).
  split; [|done]. split; cbn [fst].
  - split; cbn; [done|unfold u64_max; lia| |split; constructor].
    split; cbn; [change (zlen (@nil CollectionTask)) with 0; lia|constructor|apply tasks_ok_nil].
  - split; cbn; [change (zlen (@nil Z)) with 0; lia|constructor].
Qed.

Lemma co_step_limits s op : state_ok s -> co_limits_ (fst (co_step s op)) = co_limits_ (fst s).
Proof.
  destruct s as [c waiting]. intros [Hwf _]. cbn [fst] in Hwf.
  destruct op as [dm ws now|dm v|now|dm keys g deadline now|id| |st| | |]; cbn [co_step fst].
  - by destruct (applyWatchSnapshot_wf c dm ws now Hwf) as [_ (? & _)].
  - unfold co_activateCatalog. cbv zeta. repeat (case_match; cbn [snd]); done.
  - by destruct (runDue_wf c now Hwf) as [_ (? & _)].
  - pose proof (freshRead_wf c dm keys g deadline now Hwf) as [_ Hf].
    destruct (freshRead c dm keys g deadline now) as [[st|id] c']; cbn [fst snd] in *; by destruct Hf.
  - by case_bool_decide.
  - destruct (tq_in_flight _); [done|]. by destruct (workerBegin _) as [[? ?]|].
  - by destruct (tq_in_flight _).
  - unfold startScheduler. by guard as G.
  - done.
  - done.
Qed.

(** One turn of the worker leaves one task less. *)
Lemma co_worker_turn s st : state_ok s ->
  let s' := co_step (co_step s CoBegin) (CoEnd st) in
  (length (active (co_tasks (fst s'))) <= length (active (co_tasks (fst s))) - 1)%nat /\ snd s' = snd s.
Proof.
  intros Hs. pose proof (co_step_ok s CoBegin Hs) as Hs1. destruct s as [c waiting]. cbv zeta.
  cbn [co_step] in Hs1 |- *. destruct Hs as [Hwf _]. cbn [fst] in Hwf. unfold active at 2. cbn [fst].
  destruct (tq_in_flight (co_tasks c)) as [t|] eqn:Ef.
  - cbn [co_step]. rewrite Ef. destruct (workerEnd_wf _ _ _ t st (cw_queue c Hwf) Ef) as (_ & _ & E3 & E4).
    cbn [fst snd co_with_tasks co_tasks]. unfold active. rewrite E3, E4, !length_app. cbn. split; [lia|done].
  - destruct (workerBegin (co_tasks c)) as [[t q]|] eqn:Eb.
    + destruct (workerBegin_wf _ _ _ _ _ (cw_queue c Hwf) Ef Eb) as (B1 & _ & B3 & B4 & _).
      cbn [co_step co_with_tasks co_tasks]. rewrite B3. destruct (workerEnd_wf _ _ q t st B1 B3) as (_ & _ & E3 & E4).
      cbn [fst snd co_with_tasks co_tasks]. unfold active. rewrite E3, E4, B4, !length_app. cbn. split; [lia|done].
    + cbn [co_step]. rewrite Ef. split; [|done]. cbn [fst]. unfold workerBegin in Eb. unfold active. rewrite Ef.
      by destruct (tq_queue (co_tasks c)).
Qed.

(** The worker's turns, with the statuses of its collections. *)
Definition worker_turns (sts : list Status) : list coordinator_op := concat (map (fun st => [CoBegin; CoEnd st]) sts).

Lemma worker_turns_drain sts s : state_ok s ->
  let s' := foldl co_step s (worker_turns sts) in
  (length (active (co_tasks (fst s'))) <= length (active (co_tasks (fst s))) - length sts)%nat /\ snd s' = snd s.
Proof.
  revert s. induction sts as [|st sts IH]; intros s Hs; cbn [worker_turns map concat]; [cbn; split; [lia|done]|].
  rewrite foldl_app. cbn [foldl]. destruct (co_worker_turn s st Hs) as [T1 T2].
  destruct (IH (co_step (co_step s CoBegin) (CoEnd st)) (co_step_ok _ _ (co_step_ok _ _ Hs))) as [I1 I2].
  unfold worker_turns in I1, I2. cbv zeta in *. cbn [length]. split; [lia|congruence].
Qed.

Lemma run_limits ops s : state_ok s -> co_limits_ (fst (foldl co_step s ops)) = co_limits_ (fst s).
Proof.
  revert s. induction ops as [|op ops IH]; intros s Hs; [done|]. cbn [foldl].
  rewrite IH by by apply co_step_ok. by apply co_step_limits.
Qed.

(** ** The due times *)

(** The periods of a job that have elapsed at [now]. *)
Definition elapsed_periods (due : list (Z * MonotonicTime)) (now : Z) (job : CollectionJob) : Z :=
  match om_find (cj_id job) due with
  | Some d => if now <? d then 0 else (now - d) / cj_period job + 1
  | None => 0
  end.

Definition due_total (s : due_state) : Z := du_enqueued s + du_busy s + du_rejected s.
Definition due_samples (s : due_state) : Z := du_enqueued s + sum_by lr_sample_count (du_results s).

Lemma elapsed_nonneg due now job : 0 < cj_period job -> 0 <= elapsed_periods due now job.
Proof.
  intros Hp. unfold elapsed_periods. destruct (om_find _ due) as [d|]; [|lia]. guard as G; bprop in G; [lia|].
  pose proof (Z.div_pos (now - d) (cj_period job)). lia.
Qed.

Lemma run_job_account plan now s job : 0 < cj_period job ->
  let s' := run_job plan now s job in
  let n := elapsed_periods (co_next_due (du_co s)) now job in
  (forall id, id <> cj_id job -> om_find id (co_next_due (du_co s')) = om_find id (co_next_due (du_co s))) /\
  (forall d, om_find (cj_id job) (co_next_due (du_co s)) = Some d ->
     om_find (cj_id job) (co_next_due (du_co s')) = Some (d + n * cj_period job)) /\
  due_total s' = due_total s + (if 0 <? n then 1 else 0) /\ due_samples s' = due_samples s + n /\
  du_missed s' + due_total s' = du_missed s + due_total s + n.
Proof.
  intros Hp. cbv zeta. pose proof (elapsed_nonneg (co_next_due (du_co s)) now job Hp) as Hn0. revert Hn0.
  unfold elapsed_periods, run_job, due_total, due_samples. destruct (om_find _ _) as [due|] eqn:Ed.
  2: { intros _. split_and!; try done; cbn; lia. }
  guard as G1; bprop in G1.
  { intros _. split_and!; try done; cbn; try lia. intros d [= ->]. rewrite Ed. f_equal. lia. }
  intros Hn0. cbv zeta. set (n := (now - due) / cj_period job + 1) in *.
  assert (0 < n) as Hn by (pose proof (Z.div_pos (now - due) (cj_period job)); unfold n; lia).
  rewrite (proj2 (Z.ltb_lt 0 n)) by done. set (c1 := co_with_due _ _ _).
  assert (co_next_due (snd (allocateRequestId c1)) = co_next_due c1) as Hdue
    by (unfold allocateRequestId; cbv zeta; by destruct (_ || _)).
  destruct (allocateRequestId c1) as [id c2]. cbn [snd] in Hdue.
  assert (forall c', co_next_due c' = co_next_due c2 ->
    (forall id0, id0 <> cj_id job -> om_find id0 (co_next_due c') = om_find id0 (co_next_due (du_co s))) /\
    (forall d, Some due = Some d -> om_find (cj_id job) (co_next_due c') = Some (d + n * cj_period job))) as Hd.
  { intros c' ->. rewrite Hdue. cbn [c1 co_with_due co_next_due]. split.
    - intros id0 Hne. by rewrite om_find_set_ne.
    - intros d [= <-]. rewrite om_find_set_eq. f_equal. lia. }
  destruct (id =? 0).
  { cbn [du_co du_enqueued du_busy du_rejected du_results du_missed]. destruct (Hd c2 eq_refl) as [D1 D2].
    rewrite sum_by_app. unfold sum_by at 2. cbn [foldr lr_sample_count]. split_and!; try done; lia. }
  destruct (enqueueLocked _ _ _) as [r q]. destruct (Hd (co_with_tasks c2 q) eq_refl) as [D1 D2].
  destruct r; cbn [du_co du_enqueued du_busy du_rejected du_results du_missed]; try (rewrite sum_by_app; unfold sum_by at 2;
    cbn [foldr lr_sample_count]); try (split_and!; try done; lia).
  destruct (1 <? n) eqn:G2; bprop in G2; [rewrite sum_by_app; unfold sum_by at 2; cbn [foldr lr_sample_count]|];
    split_and!; try done; lia.
Qed.

Lemma run_jobs_account plan now jobs s : Forall (fun j => 0 < cj_period j) jobs -> NoDup (map cj_id jobs) ->
  let s' := foldl (run_job plan now) s jobs in
  let due := co_next_due (du_co s) in
  (forall id, id ∉ map cj_id jobs -> om_find id (co_next_due (du_co s')) = om_find id due) /\
  (forall j d, j ∈ jobs -> om_find (cj_id j) due = Some d ->
     om_find (cj_id j) (co_next_due (du_co s')) = Some (d + elapsed_periods due now j * cj_period j)) /\
  due_total s' = due_total s + zlen (List.filter (fun j => 0 <? elapsed_periods due now j) jobs) /\
  due_samples s' = due_samples s + sum_by (elapsed_periods due now) jobs /\
  du_missed s' + due_total s' = du_missed s + due_total s + sum_by (elapsed_periods due now) jobs.
Proof.
  intros Hp Hnd. cbv zeta. revert s. induction jobs as [|j jobs IH]; intros s; cbn [foldl map List.filter].
  { split_and!; try done; try (unfold sum_by; cbn [foldr]; lia); try (rewrite zlen_nil; lia). by inversion 1. }
  apply Forall_cons in Hp as [Hj Hp]. cbn [map] in Hnd. apply NoDup_cons in Hnd as [Hni Hnd].
  destruct (run_job_account plan now s j Hj) as (A1 & A2 & A3 & A4 & A5). cbv zeta in *.
  destruct (IH Hp Hnd (run_job plan now s j)) as (I1 & I2 & I3 & I4 & I5).
  assert (forall k, k ∈ jobs -> elapsed_periods (co_next_due (du_co (run_job plan now s j))) now k =
    elapsed_periods (co_next_due (du_co s)) now k) as Hsame.
  { intros k Hk. unfold elapsed_periods. rewrite A1; [done|]. intros Heq. apply Hni. rewrite <- Heq. by apply list_elem_of_fmap_2. }
  assert (sum_by (elapsed_periods (co_next_due (du_co (run_job plan now s j))) now) jobs =
    sum_by (elapsed_periods (co_next_due (du_co s)) now) jobs) as Hsum.
  { clear - Hsame. induction jobs as [|k jobs IH]; [done|]. rewrite !sum_by_cons, IH, Hsame; [done|left|].
    intros k' Hk'. apply Hsame. by right. }
  assert (List.filter (fun k => 0 <? elapsed_periods (co_next_due (du_co (run_job plan now s j))) now k) jobs =
    List.filter (fun k => 0 <? elapsed_periods (co_next_due (du_co s)) now k) jobs) as Hfil.
  { clear - Hsame. induction jobs as [|k jobs IH]; [done|]. cbn [List.filter]. rewrite IH, Hsame; [done|left|].
    intros k' Hk'. apply Hsame. by right. }
  rewrite Hsum in I4, I5. rewrite Hfil in I3. rewrite sum_by_cons. split_and!; [| | |lia|lia].
  - intros id Hid. rewrite elem_of_cons in Hid. rewrite I1, A1 by tauto. done.
  - intros k d [->|Hk]%elem_of_cons Hd; [rewrite I1 by done; by apply A2|]. rewrite <- (Hsame k Hk). apply I2; [done|].
    rewrite A1; [done|]. intros Heq. apply Hni. rewrite <- Heq. by apply list_elem_of_fmap_2.
  - rewrite I3, A3. destruct (0 <? _); [rewrite zlen_cons; lia|lia].
Qed.

(** ** Theorems *)

(** C27: However scheduling, fresh reads, plan changes, the worker and shutdown
    interleave: the provider queue stays within its limit and ordered by
    priority, no two tasks in hand have the same identifier or share a data
    key, the number of fresh-read waiters is exact and bounded, and every
    waiter's task is still in hand or its completion is set, so that no waiter
    is left without an answer. *)
Theorem coordinator_invariant limits c0 ops :
  limits_ok limits -> co_construct limits = inr c0 ->
  let s := foldl co_step (c0, []) ops in
  let q := co_tasks (fst s) in
  zlen (tq_queue q) <= max_provider_queue limits /\ StronglySorted higher_first (tq_queue q) /\
  NoDup (map ct_id (active q)) /\
  (forall a b k, a ∈ active q -> b ∈ active q -> k ∈ ct_keys a -> k ∈ ct_keys b -> a = b) /\
  co_fresh_waiters (fst s) = zlen (snd s) /\ zlen (snd s) <= max_fresh_waiters limits /\
  Forall (will_answer q) (snd s).
Proof.
  intros Hl Hc. destruct (co_construct_ok limits c0 Hl Hc) as [Hs0 Hlim]. cbv zeta.
  pose proof (co_steps_ok ops _ Hs0) as [Hwf [[W1 W2] W3]]. pose proof (run_limits ops _ Hs0) as Hl'. cbn [fst] in Hl'.
  rewrite Hlim in Hl'. destruct (cw_queue _ Hwf) as [Q1 Q2 Q3]. rewrite Hl' in Q1, W2.
  split_and!; try done; [apply (tk_ids _ _ _ _ _ Q3)|apply (tk_exclusive _ _ _ _ _ Q3)].
Qed.

(** C28: Fresh reads complete.  From any reachable state, once the worker has
    taken as many turns as there are tasks in hand, whatever the collections
    return, every waiting fresh read has its completion set. *)
Theorem fresh_read_completes limits c0 ops sts :
  limits_ok limits -> co_construct limits = inr c0 ->
  let s := foldl co_step (c0, []) ops in
  let s' := foldl co_step s (worker_turns sts) in
  (length (active (co_tasks (fst s))) <= length sts)%nat ->
  snd s' = snd s /\ Forall (fun id => is_Some (om_find id (tq_completed (co_tasks (fst s'))))) (snd s').
Proof.
  intros Hl Hc. cbv zeta. intros Hn. destruct (co_construct_ok limits c0 Hl Hc) as [Hs0 _].
  pose proof (co_steps_ok ops _ Hs0) as Hs. destruct (worker_turns_drain sts _ Hs) as [D1 D2]. cbv zeta in *.
  split; [done|]. pose proof (co_steps_ok (worker_turns sts) _ Hs) as [_ [_ W3]].
  eapply Forall_impl; [exact W3|]. intros id [(t & Ht & _)|Hd]; [|done].
  assert (active (co_tasks (fst (foldl co_step (foldl co_step (c0, []) ops) (worker_turns sts)))) = []) as Ha
    by (apply length_zero_iff_nil; lia).
  rewrite Ha in Ht. by inversion Ht.
Qed.

(** Scheduling does not drift and loses no period.  At [now] every job of
    the plan moves on along its own grid to the first due time after [now];
    every job that is due is either queued, busy or rejected, once; every
    elapsed period is accounted for exactly once, by the queued task or by a
    logical result; all but one period per due job are reported as missed; and
    the run is a success exactly when every due job was queued. *)
Theorem run_due_exact c now :
  co_wf c -> 0 <= now -> tq_shutdown (co_tasks c) = false ->
  let summary := (runDue c now).1.1 in
  let results := (runDue c now).1.2 in
  let c' := snd (runDue c now) in
  let jobs := cp_jobs (co_plan_ c) in
  let due := if co_scheduled_plan_version c =? cp_version (co_plan_ c) then co_next_due c else due_times (co_plan_ c) in
  (forall j d, j ∈ jobs -> om_find (cj_id j) due = Some d ->
     exists d', om_find (cj_id j) (co_next_due c') = Some d' /\ d' = d + elapsed_periods due now j * cj_period j /\
       now < d' /\ (d <= now -> d' <= now + cj_period j) /\ (now < d -> d' = d)) /\
  srs_enqueued_jobs summary + srs_busy_jobs summary + srs_queue_rejections summary =
    zlen (List.filter (fun j => 0 <? elapsed_periods due now j) jobs) /\
  srs_enqueued_jobs summary + sum_by lr_sample_count results = sum_by (elapsed_periods due now) jobs /\
  srs_missed_periods summary + zlen (List.filter (fun j => 0 <? elapsed_periods due now j) jobs) =
    sum_by (elapsed_periods due now) jobs /\
  (st_ok (srs_status summary) = true <-> srs_busy_jobs summary = 0 /\ srs_queue_rejections summary = 0).
Proof.
  intros Hwf Hn Hs. cbv zeta. unfold runDue. rewrite (proj2 (Z.ltb_ge now 0)), Hs by done. cbv zeta. cbn [fst snd].
  set (c1 := if negb _ then _ else c). set (due := if _ =? _ then co_next_due c else _).
  assert (co_next_due c1 = due) as Hdue by (unfold c1, due; by destruct (_ =? _)).
  destruct (cw_jobs c Hwf) as [Hj Hnd]. assert (Forall (fun j => 0 < cj_period j) (cp_jobs (co_plan_ c))) as Hp
    by (eapply Forall_impl; [exact Hj|]; by intros j [_ ?]).
  destruct (run_jobs_account (co_plan_ c) now _ (mkDue c1 0 0 0 0 []) Hp Hnd) as (_ & R2 & R3 & R4 & R5).
  cbn [du_co] in *. rewrite Hdue in *. set (s := foldl _ _ _) in *.
  unfold due_total, due_samples in *. cbn [du_enqueued du_busy du_rejected du_results du_missed] in R3, R4, R5.
  unfold sum_by at 2 in R4. cbn [foldr] in R4.
  cbn [srs_enqueued_jobs srs_busy_jobs srs_queue_rejections srs_missed_periods srs_status].
  split_and!; [|lia|lia|lia|].
  - intros j d Hin Hd. exists (d + elapsed_periods due now j * cj_period j). rewrite Forall_forall in Hp. specialize (Hp j Hin).
    split; [by apply R2|]. split; [done|]. unfold elapsed_periods. rewrite Hd.
    pose proof (Z.div_mod (now - d) (cj_period j)). pose proof (Z.mod_pos_bound (now - d) (cj_period j)).
    guard as G; bprop in G; split_and!; nia.
  - destruct (du_busy s =? 0) eqn:E1, (du_rejected s =? 0) eqn:E2; bprop in E1; bprop in E2; cbn [andb]; split; try done; lia.
Qed.

(** ** Witnesses *)

Definition sched_view : CatalogView :=
  mkCatalogView 1 1 false (cv_entities_ sample_view)
    [mkCapabilitySet sample_entity 1 [mkCapabilityItem CAP_Metric 7 true CR_Supported 1 1]].
Definition sched_start : Coordinator :=
  mkCoordinator collection_limits_default plan_default 1 (mkQueue [] None [] [] [] false) [] 0 0 0 "" None [] false.
Definition sched_key : DataKey := mkKey sample_entity 7.

(** A fresh read of metric 7 is queued; a second reader joins it; at 400 the
    metric's job finds the key busy and the heartbeat is queued. *)
Definition sched_ops : list coordinator_op :=
  [CoActivate sample_health_data (Some sched_view); CoApply sample_health_data (Some plan_snapshot) 50;
   CoFresh sample_health_data [sched_key] 1 1000 200; CoFresh sample_health_data [sched_key] 1 900 300; CoRunDue 400].

Lemma sched_limits_ok : limits_ok collection_limits_default.
Proof. unfold limits_ok. split_and!; vm_compute; congruence. Qed.

Lemma coordinator_invariant_witness :
  let s := foldl co_step (sched_start, []) sched_ops in
  snd s = [1; 1] /\ map ct_id (tq_queue (co_tasks (fst s))) = [3; 1] /\ Forall (will_answer (co_tasks (fst s))) (snd s).
Proof.
  cbv zeta. split; [vm_compute; reflexivity|]. split; [vm_compute; reflexivity|].
  apply (coordinator_invariant collection_limits_default sched_start sched_ops); [apply sched_limits_ok|reflexivity].
Defined.

Lemma fresh_read_completes_witness :
  let s' := foldl co_step (foldl co_step (sched_start, []) sched_ops) (worker_turns [st_success; st_success]) in
  snd s' = snd (foldl co_step (sched_start, []) sched_ops) /\
  Forall (fun id => is_Some (om_find id (tq_completed (co_tasks (fst s'))))) (snd s').
Proof.
  apply (fresh_read_completes collection_limits_default sched_start sched_ops);
    [apply sched_limits_ok|reflexivity|vm_compute; lia].
Defined.

Definition sched_planned : Coordinator := fst (foldl co_step (sched_start, []) (take 2 sched_ops)).

Lemma sched_planned_wf : co_wf sched_planned.
Proof.
  destruct (co_construct_ok collection_limits_default sched_start sched_limits_ok eq_refl) as [Hs _].
  exact (proj1 (co_steps_ok (take 2 sched_ops) _ Hs)).
Qed.

(** Both jobs are due at 150 every 100: at 420 three periods have elapsed for
    each, two of them missed. *)
Lemma run_due_exact_witness :
  let summary := (runDue sched_planned 420).1.1 in
  srs_enqueued_jobs summary = 2 /\ srs_missed_periods summary = 4 /\
  (st_ok (srs_status summary) = true <-> srs_busy_jobs summary = 0 /\ srs_queue_rejections summary = 0).
Proof.
  cbv zeta. split; [vm_compute; reflexivity|]. split; [vm_compute; reflexivity|].
  apply (run_due_exact sched_planned 420); [apply sched_planned_wf|lia|vm_compute; reflexivity].
Defined.

(** ** A shared data key

    The busy keys of a task identify its data by entity and number only, so that
    a metric and the heartbeat evidence with the same number exclude each
    other. *)

Definition shared_target : TargetCatalog :=
  mkTargetCatalog 1 TK_Emu MCS_Ready [sample_metric]
    [mkHealthEntry kFirmwareHeartbeatHealthId EK_Device RL_Required "firmware_heartbeat" (Some 7) 5000000000 1
       "native mapping pending"].
Definition shared_data : DataManager :=
  snd (@activateCatalog sample_layout sample_empty (Some sample_hb_view) shared_target).
Definition shared_snapshot : WatchSnapshot :=
  mkWatchSnapshot 4 1 [] [plan_watch 7 PDK_Metric WP_Normal 1; plan_watch 7 PDK_HeartbeatEvidence WP_Heartbeat 2].

(** The catalog is valid and the plan is accepted; yet at every due time the
    metric's job is queued first and the heartbeat job of the same period, of
    higher priority, is counted busy: its evidence is never collected, although
    the worker has finished all work in between. *)
Theorem heartbeat_starved_by_metric :
  let s0 := foldl co_step (sched_start, []) [CoApply shared_data (Some shared_snapshot) 50] in
  let r1 := runDue (fst s0) 150 in
  let s1 := foldl co_step (co_step s0 (CoRunDue 150)) (worker_turns [st_success]) in
  let r2 := runDue (fst s1) 250 in
  st_ok (tc_validate shared_target) = true /\
  map cj_kind (cp_jobs (co_plan_ (fst s0))) = [PDK_Metric; PDK_HeartbeatEvidence] /\
  active (co_tasks (fst s1)) = [] /\
  map (fun r => (srs_enqueued_jobs r, srs_busy_jobs r)) [r1.1.1; r2.1.1] = [(1, 1); (1, 1)] /\
  map (fun r => map (fun l => cj_kind (lr_job l)) r) [r1.1.2; r2.1.2] = [[PDK_HeartbeatEvidence]; [PDK_HeartbeatEvidence]].
Proof. cbv zeta. split_and!; vm_compute; reflexivity. Qed.
