(* ===== verification/Turn.v ===== *)
(** The collection path end to end
    (src/product/src/collection/collection_coordinator.cpp): a whole turn of the
    provider worker and [collectJob], composed from the task queue, the read of
    the provider, [normalizeAndCommit], the sample accounting of the watch
    manager and the completion of the task; and what a successful collection
    promises to the readers of the data manager. *)
From S2P Require Import Prelude Containers Common Provider Catalog EventStore DataStore HealthStore Watch ProcessorGraph Metrics Plan Collect Scheduler.
Local Open Scope string_scope.
Local Open Scope list_scope.
Open Scope Z_scope.
Open Scope pdcm_scope.

(** One whole turn of the worker on the task at the head of the queue, with the
    data manager as it is when the provider has answered; [now] is the clock
    before the read, [observed] and [wall] after it. *)
Definition worker_turn `{Layout} (c : Coordinator) (wm : option WatchManager) (mm : option MetricsManager) (dm : DataManager)
    (batchRead : ProviderReadRequest -> ProviderReadResult) (now observed wall : Z)
    : option (CollectionRunResult * Coordinator * option WatchManager * DataManager) :=
  match workerBegin (co_tasks c) with
  | None => None
  | Some (task, q) =>
      let c1 := co_with_tasks c q in
      let provider_result := worker_read task now batchRead in
      let '(run, dm1) := normalizeAndCommit (co_limits_ c1) (ct_plan task) (ct_job task) (ct_request task) provider_result
                           (catalogGeneration dm) (metricDescriptor dm) observed wall
                           (match mm with Some m => Some (m, observed) | None => None end) dm in
      let '(c2, wm1) :=
        if negb (cj_id (ct_job task) =? 0)
        then noteLogicalResults c1 wm dm1 (ct_job task) (prq_scheduled_time (ct_request task)) (cj_period (ct_job task)) 1
               observed
        else (c1, wm) in
      Some (run, co_with_tasks c2 (workerEnd (co_tasks c2) task (crr_status run)), wm1, dm1)
  end.

(** [collectJob]: collects one job of the plan at once, outside the queue. *)
Definition collectJob `{Layout} (c : Coordinator) (wm : option WatchManager) (mm : option MetricsManager) (dm : DataManager)
    (batchRead : ProviderReadRequest -> ProviderReadResult) (job_id scheduled deadline now observed wall : Z)
    : CollectionRunResult * Coordinator * option WatchManager * DataManager :=
  let plan := co_plan_ c in
  let failed c status := (mkCollectionRun status 0 (cp_version plan) 0 0 0 None None, c, wm, dm) in
  match find_if (fun j => cj_id j =? job_id) (cp_jobs plan) with
  | None => failed c (err_status PDCM_STATUS_NOT_FOUND "collection job does not exist")
  | Some job =>
      if (scheduled <? 0) || (deadline <? scheduled) || (deadline <? now)
      then failed c (err_status PDCM_STATUS_TIMEOUT "collection job deadline expired")
      else
      let '(request_id, c1) := allocateRequestId c in
      if request_id =? 0 then failed c1 (err_status PDCM_STATUS_RESOURCE_EXHAUSTED "request ID space exhausted")
      else
      let request := mkReadRequest request_id (cp_version plan) (cp_catalog_generation plan) scheduled deadline
                       (map job_read_item (cj_items job)) in
      let '(run, dm1) := normalizeAndCommit (co_limits_ c1) plan job request (batchRead request)
                           (catalogGeneration dm) (metricDescriptor dm) observed wall
                           (match mm with Some m => Some (m, observed) | None => None end) dm in
      let '(c2, wm1) := noteLogicalResults c1 wm dm1 job scheduled (cj_period job) 1 observed in
      (run, c2, wm1, dm1)
  end.

(** ** What a successful collection shows to readers *)

Section Turn.
Context `{Layout}.

(** The committed observation of [i] is the one the provider's result
    determines, readers find it as the latest of its key, and a valid one is
    the single answer of the provider and is what a query returns. *)
Definition collected (job : CollectionJob) (request : ProviderReadRequest) (result : ProviderReadResult)
    (observed wall : Z) (dm dm' : DataManager) (i : ProviderReadItem) : Prop :=
  let epoch := dm_commit_epoch_ dm + 1 in
  let key := mkKey (pri_entity i) (pri_data_id i) in
  exists o, expected_observation job request result (metricDescriptor dm) observed wall i = Some o /\
    latest_of (dm_shards_ dm') key = Some (obs_with_epoch o epoch) /\
    (obs_status o = OS_Valid ->
       (exists item, answers (prr_items result) i = [item] /\ pir_status item = OS_Valid /\ obs_value o = pir_value item) /\
       forall allow t, 0 <= t ->
         readLatest dm' [key] allow t 0 =
         mkDataRead st_success (cst_generation (dm_catalog_ dm)) epoch [obs_with_epoch o epoch]).

Lemma expected_valid_answer job request result descriptor observed wall i o :
  expected_observation job request result descriptor observed wall i = Some o -> obs_status o = OS_Valid ->
  exists item, answers (prr_items result) i = [item] /\ pir_status item = OS_Valid /\ obs_value o = pir_value item.
Proof.
  unfold expected_observation. cbv zeta. destruct (descriptor _) as [d|]; [|done].
  destruct (usableCallStatus _); cbn [negb]; cycle 1.
  { intros [= <-]. cbn. by unfold callFailureStatus; repeat case_match. }
  destruct (answers _ i) as [|item [|]]; [by intros [= <-]| |done]. destruct (validProviderItem item); cbn [negb]; [|done].
  destruct (decide (pir_status item = OS_Valid)) as [Es|Es];
    [rewrite bool_decide_true by done|rewrite bool_decide_false by done]; cbn [negb].
  - destruct (pir_value item) as [v|] eqn:Ev; [|done]. destruct (valueMatches d v); [|done]. intros [= <-] _. exists item.
    cbn. by rewrite Ev.
  - by intros [= <-].
Qed.

Lemma expected_key job request result descriptor observed wall i o :
  expected_observation job request result descriptor observed wall i = Some o -> key_of o = mkKey (pri_entity i) (pri_data_id i).
Proof. unfold expected_observation. cbv zeta. repeat (case_match; try done); by intros [= <-]. Qed.

Lemma collect_visible limits plan job request result observed wall metrics dm :
  data_wf dm -> logical_unique (cst_entities (dm_catalog_ dm)) -> cj_kind job = PDK_Metric ->
  Forall (fun i => pri_kind i = PDK_Metric) (prq_items request) ->
  let run := normalizeAndCommit limits plan job request result (catalogGeneration dm) (metricDescriptor dm) observed wall
               metrics dm in
  st_ok (crr_status (fst run)) = true ->
  usableCallStatus (st_code (prr_call_status result)) = true /\
  Forall (collected job request result observed wall dm (snd run)) (prq_items request).
Proof.
  intros Hwf Hu Hk Hks. cbv zeta. intros Hok.
  destruct (normalizeAndCommit_success _ _ _ _ _ _ _ _ _ _ _ Hk Hks Hok) as (U & C1 & C2 & C3). cbv zeta in *. rewrite C2.
  set (os := omap _ _) in *.
  destruct (dm_commit_visible dm os Hwf Hu) as (V1 & _ & V3).
  { unfold st_ok in C1. bprop in C1. by rewrite C1. }
  cbv zeta in *. split; [done|]. apply Forall_forall. intros i Hi. rewrite Forall_forall in C3.
  destruct (C3 i Hi) as [o Ho]. assert (o ∈ os) as Hin by (apply list_elem_of_omap; by exists i).
  exists o. pose proof (expected_key _ _ _ _ _ _ _ _ Ho) as Hkey. rewrite <- Hkey. split_and!; [done|by apply V1|].
  intros Hv. split; [by eapply expected_valid_answer|]. intros allow t Ht. by apply V3.
Qed.

(** ** The jobs of an applied plan *)

Lemma find_job jobs job : NoDup (map cj_id jobs) -> job ∈ jobs -> find_if (fun j => cj_id j =? cj_id job) jobs = Some job.
Proof.
  induction jobs as [|j jobs IH]; cbn [map]; [by inversion 2|]. intros [Hn Hnd]%NoDup_cons Hin. rewrite find_if_cons.
  apply elem_of_cons in Hin as [->|Hin]; [by rewrite Z.eqb_refl|].
  destruct (cj_id j =? cj_id job) eqn:E; bprop in E; [|by apply IH]. exfalso. apply Hn. rewrite E. by apply list_elem_of_fmap_2.
Qed.

(** In a list of pieces without repetition an element is in one piece. *)
Lemma concat_piece_unique {A B} (f : A -> list B) (l : list A) x a b :
  NoDup (concat (map f l)) -> NoDup l -> a ∈ l -> b ∈ l -> x ∈ f a -> x ∈ f b -> a = b.
Proof.
  induction l as [|y l IH]; [by inversion 3|]. cbn [map concat]. intros (N1 & N2 & N3)%NoDup_app [Hy Hnd]%NoDup_cons.
  assert (forall z, z ∈ l -> x ∈ f z -> x ∈ concat (map f l)) as Hin.
  { intros z Hz Hx. apply list_elem_of_In, in_concat. exists (f z). rewrite <- !list_elem_of_In. split; [|done].
    by apply list_elem_of_fmap_2. }
  intros [->|Ha]%elem_of_cons [->|Hb]%elem_of_cons Hxa Hxb; [done| | |by apply IH].
  - exfalso. by apply (N2 x Hxa), (Hin b).
  - exfalso. by apply (N2 x Hxb), (Hin a).
Qed.

Lemma applied_plan c dm ws now c1 :
  1 <= max_batch_items (co_limits_ c) -> 0 <= max_plan_jobs (co_limits_ c) < u64_max - 1 ->
  applyWatchSnapshot c dm (Some ws) now = (st_success, c1) ->
  concat (map cj_items (cp_jobs (co_plan_ c1))) ≡ₚ map item_of (ws_effective_watches ws) /\
  NoDup (map ew_key (ws_effective_watches ws)) /\
  Forall (fun j => forall i, i ∈ cj_items j -> ewk_kind (cpi_key i) = cj_kind j) (cp_jobs (co_plan_ c1)) /\
  NoDup (map cj_id (cp_jobs (co_plan_ c1))).
Proof.
  intros L1 L2. unfold applyWatchSnapshot.
  pose proof (compilePlan_spec (co_limits_ c) dm ws now (cp_version (co_plan_ c)) L1 L2) as Hs.
  destruct (compilePlan _ _ _ _ _) as [st|plan] eqn:Ec.
  { intros [= -> _]. unfold compilePlan in Ec. repeat (case_match; try done). }
  intros [= <-]. cbn [co_with_due co_plan_].
  assert (ws_catalog_generation ws = cst_generation (dm_catalog_ dm) /\ cst_generation (dm_catalog_ dm) <> 0) as [G1 G2].
  { unfold compilePlan in Ec. guard Ec as G; [done|]. bprop in G. lia. }
  destruct (Hs G1 G2) as ([_ S1] & _ & _ & _ & _ & S2 & S3 & S4 & _). split_and!; try done.
  - eapply Forall_impl; [exact S3|]. intros j (_ & Hj & _) i Hi. by destruct (Hj i Hi) as (_ & _ & ? & _).
  - rewrite S4. apply NoDup_seqZ.
Qed.

Lemma plan_job_of plan effective w :
  concat (map cj_items (cp_jobs plan)) ≡ₚ map item_of effective -> NoDup (map ew_key effective) -> w ∈ effective ->
  NoDup (cp_jobs plan) ->
  exists job, job ∈ cp_jobs plan /\ item_of w ∈ cj_items job /\
    forall job', job' ∈ cp_jobs plan -> item_of w ∈ cj_items job' -> job' = job.
Proof.
  intros Hp Hnd Hw Hj.
  assert (item_of w ∈ concat (map cj_items (cp_jobs plan))) as Hin by (rewrite Hp; by apply list_elem_of_fmap_2).
  apply list_elem_of_In, in_concat in Hin as (items & Hi & Hx). apply list_elem_of_In in Hi, Hx.
  apply list_elem_of_fmap in Hi as (job & -> & Hjob). exists job. split_and!; try done.
  intros job' Hjob' Hx'. apply (concat_piece_unique cj_items (cp_jobs plan) (item_of w)); try done.
  rewrite Hp. apply (NoDup_fmap_1 cpi_key). replace (map item_of effective) with (item_of <$> effective) by done.
  rewrite <- list_fmap_compose. exact Hnd.
Qed.

Lemma normalize_request_id limits plan job request result g descriptor observed wall metrics dm :
  crr_request_id (fst (normalizeAndCommit limits plan job request result g descriptor observed wall metrics dm)) =
  prq_request_id request.
Proof. unfold normalizeAndCommit, commit_heartbeat. cbv zeta. repeat (case_match; try done). Qed.

(** ** Theorems *)

(** C25: A fresh read that succeeds is truthful.  Whatever happened before, when
    the worker takes the task of a fresh read, the waiter's answer is the status
    of that collection; and if it is success, the provider was asked in time and
    every requested key now has, as its latest observation, what the provider
    answered in this very read: a query for a key read validly returns the
    provider's value at the new epoch. *)
Theorem fresh_read_truthful limits c0 ops wm mm dm batchRead now observed wall task run c' wm' dm' :
  limits_ok limits -> co_construct limits = inr c0 ->
  let c := fst (foldl co_step (c0, []) ops) in
  head (tq_queue (co_tasks c)) = Some task -> ct_fresh_signature task <> None ->
  data_wf dm -> logical_unique (cst_entities (dm_catalog_ dm)) ->
  worker_turn c wm mm dm batchRead now observed wall = Some (run, c', wm', dm') ->
  fst (freshReadEnd c' (ct_id task)) = crr_status run /\ wm' = wm /\
  (st_ok (crr_status run) = true ->
     now <= prq_deadline (ct_request task) /\
     Forall (fun k => collected (ct_job task) (ct_request task) (batchRead (ct_request task)) observed wall dm dm'
                        (metric_item k)) (ct_keys task)).
Proof.
  intros Hl Hc. cbv zeta. intros Hh Hf Hwf Hu. destruct (co_construct_ok limits c0 Hl Hc) as [Hs0 _].
  pose proof (co_steps_ok ops _ Hs0) as [Hco _]. set (c := fst _) in *.
  pose proof (tk_next _ _ _ _ _ (qw_tasks _ _ _ (cw_queue c Hco))) as Hn. rewrite Forall_forall in Hn.
  unfold worker_turn, workerBegin. destruct (tq_queue (co_tasks c)) as [|t queue] eqn:Eq; [done|]. injection Hh as ->.
  destruct (Hn task) as [_ [_ Hsh]]; [unfold active; rewrite Eq; left|].
  destruct (ct_fresh_signature task) as [sg|]; [|done]. destruct (Hsh sg eq_refl) as (_ & S2 & S3 & S4 & S5).
  rewrite S4. cbn [Z.eqb negb]. set (result := worker_read task now batchRead). set (mx := match mm with Some _ => _ | _ => _ end).
  pose proof (collect_visible (co_limits_ (co_with_tasks c (mkQueue queue (Some task) (tq_busy_keys (co_tasks c))
    (tq_fresh_tasks (co_tasks c)) (tq_completed (co_tasks c)) (tq_shutdown (co_tasks c))))) (ct_plan task) (ct_job task)
    (ct_request task) result observed wall mx dm Hwf Hu S3) as Hv.
  cbv zeta in Hv. destruct (normalizeAndCommit _ _ _ _ _ _ _ _ _ _ _) as [run0 dm0]. cbn [fst snd] in Hv.
  intros [= -> <- <- ->]. split; [|split; [done|]].
  - unfold freshReadEnd, workerEnd, setCompletion. rewrite S2. cbn [fst co_with_tasks co_tasks tq_completed].
    by rewrite om_find_set_eq.
  - intros Hok. destruct Hv as [V1 V2]; [rewrite S5; apply Forall_forall; intros i (k & -> & _)%list_elem_of_fmap; done|done|].
    unfold result, worker_read in *. destruct (prq_deadline (ct_request task) <? now) eqn:Ed; bprop in Ed; [done|].
    split; [done|]. rewrite S5 in V2. by rewrite Forall_fmap in V2.
Qed.

(** C26: From a watch to a readable value.  When a watch snapshot has been
    applied, every effective watch of a metric belongs to exactly one job of the
    plan, and whenever collecting that job reports success, at whatever time and
    state of the data manager, the latest observation of the watched metric is
    the one the provider gave in this collection; a query for a key read validly
    returns the provider's value. *)
Theorem watch_collected c dm0 ws t0 c1 w :
  limits_ok (co_limits_ c) -> applyWatchSnapshot c dm0 (Some ws) t0 = (st_success, c1) ->
  w ∈ ws_effective_watches ws -> ewk_kind (ew_key w) = PDK_Metric ->
  exists job, job ∈ cp_jobs (co_plan_ c1) /\ item_of w ∈ cj_items job /\
    (forall job', job' ∈ cp_jobs (co_plan_ c1) -> item_of w ∈ cj_items job' -> job' = job) /\
    forall wm mm dm batchRead scheduled deadline now observed wall run c2 wm2 dm2,
    data_wf dm -> logical_unique (cst_entities (dm_catalog_ dm)) ->
    collectJob c1 wm mm dm batchRead (cj_id job) scheduled deadline now observed wall = (run, c2, wm2, dm2) ->
    st_ok (crr_status run) = true ->
    let request := mkReadRequest (crr_request_id run) (cp_version (co_plan_ c1)) (cp_catalog_generation (co_plan_ c1))
                     scheduled deadline (map job_read_item (cj_items job)) in
    collected job request (batchRead request) observed wall dm dm2 (job_read_item (item_of w)).
Proof.
  intros (L1 & L2 & _) Ha Hw Hk. destruct (applied_plan c dm0 ws t0 c1 L1 L2 Ha) as (P1 & P2 & P3 & P4).
  destruct (plan_job_of (co_plan_ c1) (ws_effective_watches ws) w P1 P2 Hw (NoDup_fmap_1 cj_id _ P4)) as (job & J1 & J2 & J3).
  exists job. split_and!; try done. intros wm mm dm batchRead scheduled deadline now observed wall run c2 wm2 dm2 Hwf Hu.
  rewrite Forall_forall in P3. specialize (P3 job J1).
  assert (cj_kind job = PDK_Metric) as Hjk by (rewrite <- (P3 _ J2); done).
  unfold collectJob. rewrite (find_job (cp_jobs (co_plan_ c1)) job P4 J1). cbv zeta.
  guard as G1; [by intros [= <- <- <- <-]|]. destruct (allocateRequestId c1) as [id c3].
  guard as G2; [by intros [= <- <- <- <-]|]. set (request := mkReadRequest id _ _ _ _ _).
  set (mx := match mm with Some _ => _ | _ => _ end).
  pose proof (collect_visible (co_limits_ c3) (co_plan_ c1) job request (batchRead request) observed wall mx dm Hwf Hu Hjk) as Hv.
  pose proof (normalize_request_id (co_limits_ c3) (co_plan_ c1) job request (batchRead request) (catalogGeneration dm)
    (metricDescriptor dm) observed wall mx dm) as Hid.
  cbv zeta in Hv. destruct (normalizeAndCommit _ _ _ _ _ _ _ _ _ _ _) as [run0 dm1]. cbn [fst snd] in Hv, Hid.
  destruct (noteLogicalResults _ _ _ _ _ _ _ _) as [c4 wm4]. intros [= <- <- <- <-] Hok. rewrite Hid. fold request.
  destruct Hv as [_ V2]; [|done|].
  - cbn [request prq_items]. apply Forall_forall. intros i (it & -> & Hit)%list_elem_of_fmap. cbn. rewrite (P3 it Hit). done.
  - rewrite Forall_forall in V2. apply V2. cbn [request prq_items]. by apply list_elem_of_fmap_2.
Qed.
End Turn.

(** ** Witnesses *)

Definition turn_ops : list coordinator_op :=
  [CoActivate sample_health_data (Some sched_view); CoFresh sample_health_data [sched_key] 1 1000 200].
Definition turn_start : Coordinator := fst (foldl co_step (sched_start, []) turn_ops).
Definition turn_task : CollectionTask := fresh_task turn_start (metricDescriptor sample_health_data) [sched_key] 1 1 200 1000.
Definition turn_read (_ : ProviderReadRequest) : ProviderReadResult := mkReadResult st_success [sample_answer 7 42].
Definition turn_run := @worker_turn sample_layout turn_start None None sample_health_data turn_read 250 260 0.

Lemma turn_unique : logical_unique (cst_entities (dm_catalog_ sample_health_data)).
Proof. rewrite sample_entities. intros a b ->%list_elem_of_singleton ->%list_elem_of_singleton. reflexivity. Qed.

(** The waiter of a fresh read of metric 7 gets success and the value is there. *)
Lemma fresh_read_truthful_witness :
  match turn_run with
  | Some (run, c', wm', dm') =>
      st_ok (crr_status run) = true /\ fst (freshReadEnd c' 1) = crr_status run /\
      collected (ct_job turn_task) (ct_request turn_task) (turn_read (ct_request turn_task)) 260 0
        sample_health_data dm' (metric_item sched_key)
  | None => False
  end.
Proof.
  assert (match turn_run with Some (run, _, _, _) => st_ok (crr_status run) | None => false end = true) as Hok
    by (vm_compute; reflexivity).
  destruct turn_run as [[[[run c'] wm'] dm']|] eqn:Et; [|discriminate Hok].
  pose proof (@fresh_read_truthful sample_layout collection_limits_default sched_start turn_ops None None sample_health_data
    turn_read 250 260 0 turn_task run c' wm' dm' sched_limits_ok eq_refl) as Ht. cbv zeta in Ht.
  destruct Ht as (T1 & _ & T3).
  - vm_compute. reflexivity.
  - discriminate.
  - apply sample_health_data_wf.
  - apply turn_unique.
  - exact Et.
  - split_and!; [exact Hok|exact T1|]. destruct (T3 Hok) as [_ T4]. exact (proj1 (Forall_singleton _ _) T4).
Defined.

Definition turn_job : CollectionJob :=
  job_of 1 (mkGroupKey "prov-1" 100 PDK_Metric 0, [item_of (plan_watch 7 PDK_Metric WP_Normal 1)]).

(** The metric watch of the snapshot is collected and readable. *)
Lemma watch_collected_witness :
  exists job, job ∈ cp_jobs (co_plan_ sched_planned) /\
    let '(run, _, _, dm2) :=
      @collectJob sample_layout sched_planned None None sample_health_data turn_read (cj_id job) 150 450 200 210 0 in
    st_ok (crr_status run) = true /\
    let request := mkReadRequest (crr_request_id run) 1 1 150 450 (map job_read_item (cj_items job)) in
    collected job request (turn_read request) 210 0 sample_health_data dm2 (mkReadItem sample_entity PDK_Metric 7).
Proof.
  destruct (@watch_collected sample_layout (snd (co_activateCatalog sched_start sample_health_data (Some sched_view)))
    sample_health_data plan_snapshot 50 sched_planned (plan_watch 7 PDK_Metric WP_Normal 1)) as (job & J1 & J2 & J3 & J4).
  - exact sched_limits_ok.
  - vm_compute. reflexivity.
  - left.
  - reflexivity.
  - assert (job = turn_job) as -> by (symmetry; apply J3; vm_compute; left).
    exists turn_job. split; [exact J1|].
    assert (st_ok (crr_status (@collectJob sample_layout sched_planned None None sample_health_data turn_read (cj_id turn_job)
      150 450 200 210 0).1.1.1) = true) as Hok by (vm_compute; reflexivity).
    destruct (@collectJob _ _ _ _ _ _ _ _ _ _ _ _) as [[[run c2] wm2] dm2] eqn:Ec.
    split; [exact Hok|]. apply (J4 _ _ _ _ _ _ _ _ _ _ _ _ _ (proj1 sample_health_data_wf) turn_unique Ec Hok).
Defined.
