(* ===== verification/Heartbeat.v ===== *)
(** The heartbeat loop end to end: a collection of the firmware heartbeat
    (src/product/src/collection/collection_coordinator.cpp) through the evidence
    store (src/product/src/data/data_manager.cpp) and the metrics manager
    (src/product/src/metrics/metrics_manager.cpp) to the answer of a health query.
    No operation is added here; the file composes those of Turn, Collect,
    HealthStore and Metrics. *)
From S2P Require Import Prelude Containers Common Provider Catalog EventStore DataStore HealthStore Watch ProcessorGraph Metrics Plan Collect Scheduler Turn.
Local Open Scope string_scope.
Local Open Scope list_scope.
Open Scope Z_scope.
Open Scope pdcm_scope.

Section Heartbeat.
Context `{Layout}.

(** The metrics manager serves [entity], whose heartbeat the catalog of the data
    manager maps to the provider's datum [id]. *)
Record loop_ready (mm : MetricsManager) (dm : DataManager) (entity : EntityRef) (id : Z) : Prop := {
  lr_wf : health_wf dm;
  lr_unique : logical_unique (cst_entities (dm_catalog_ dm));
  lr_active : active_entity (mm_runtime_ mm) = Some entity;
  lr_runtime : runtime_ok (mm_runtime_ mm);
  lr_supported : rt_heartbeat_supported (mm_runtime_ mm) = true;
  lr_freshness : 0 <= hce_freshness_ns (rt_heartbeat (mm_runtime_ mm));
  lr_generation : rt_catalog_generation (mm_runtime_ mm) = cst_generation (dm_catalog_ dm);
  lr_topology : cst_topology_unsupported (dm_catalog_ dm) = false;
  lr_entity : entity ∈ cst_entities (dm_catalog_ dm);
  lr_device : er_kind entity = EK_Device /\ er_generation entity <> 0;
  lr_mapping : exists h, cst_heartbeat (dm_catalog_ dm) = Some h /\ hce_provider_data_id h = Some id;
  lr_mapped : cst_heartbeat_supported (dm_catalog_ dm) = true;
  lr_id : id <> 0 }.

(** A beat of the heartbeat: a valid answer of the provider for [i]. *)
Record beat (i : ProviderReadItem) (item : ProviderReadItemResult) (class : HeartbeatNativeClass) (token time : Z) : Prop := {
  bt_item : pir_item item = i;
  bt_kind : pri_kind i = PDK_HeartbeatEvidence;
  bt_status : pir_status item = OS_Valid;
  bt_value : pir_value item = None;
  bt_class : pir_heartbeat_class item = Some class /\ class <> HN_UnknownNative;
  bt_token : pir_sequence_or_token item = Some token;
  bt_time : pir_source_sample_time_ns item = Some time /\ 0 <= time }.

(** It is newer than everything stored about the device. *)
Definition newer (dm : DataManager) (entity : EntityRef) (token time observed : Z) : Prop :=
  forall x, x ∈ heartbeat_evidence_ dm -> fhe_entity x = entity ->
    fhe_observed_monotonic_time_ns x < observed /\
    (fhe_status x = OS_Valid -> fhe_sequence_or_token x < token /\
       forall t, fhe_source_sample_time_ns x = Some t -> t < time).

Definition exhausted (s : Status) : Prop :=
  st_code s = PDCM_STATUS_RESOURCE_EXHAUSTED \/ st_code s = PDCM_STATUS_INTERNAL.

(** ** The answer becomes evidence *)

Lemma beat_valid i item class token time : beat i item class token time -> validProviderItem item = true.
Proof.
  intros [B1 B2 B3 B4 [B5 B5'] B6 [B7 B8]]. unfold validProviderItem. rewrite B1, B2, B3, B4, B5, B6, B7.
  change (OS_Valid ==? OS_Stale) with false. cbn [orb opt_negative has_value]. rewrite (proj2 (Z.ltb_ge _ _)) by done.
  change (OS_Valid ==? OS_Valid) with true. cbv iota. rewrite bool_decide_false by done. done.
Qed.

Lemma beat_indexed request result i item class token time :
  prq_items request = [i] -> prr_items result = [item] -> usableCallStatus (st_code (prr_call_status result)) = true ->
  beat i item class token time -> index_results request result = ([(i, item)], [], 0).
Proof.
  intros Hq Hr Hu [B1 _ _ _ _ _ _]. unfold index_results. rewrite Hu, Hq, Hr. cbn [requested_map foldl].
  unfold index_one. rewrite B1. unfold om_emplace, om_mem, om_find. cbn. unfold om_set, om_find. cbn.
  by rewrite key_eqb_refl.
Qed.

(** The evidence of a beat passes the validation. *)
Lemma evidence_of_valid job request observed i item class token time entity :
  beat i item class token time -> pri_entity i = entity -> er_kind entity = EK_Device /\ er_generation entity <> 0 -> pri_data_id i <> 0 ->
  prq_catalog_generation request <> 0 -> 0 <= observed -> cj_provider_id job <> "" ->
  st_ok (validateFirmwareHeartbeatEvidence (evidence_of job request observed i item st_success)) = true.
Proof.
  intros [B1 B2 B3 B4 [B5 B5'] B6 [B7 B8]] He [D1 D2] Hi Hg Ho Hp. unfold validateFirmwareHeartbeatEvidence, evidence_of.
  cbn [fhe_entity fhe_provider_data_id fhe_catalog_generation fhe_observed_monotonic_time_ns fhe_source_sample_time_ns fhe_source
       fhe_status fhe_native_class fhe_error src_provider em_status].
  rewrite He, D1, B3, B5, B7. rewrite !(proj2 (Z.eqb_neq _ _)) by done. rewrite (proj2 (Z.ltb_ge _ _)) by done.
  change (EK_Device !=? EK_Device) with false. cbn [orb opt_negative default has_value]. rewrite (proj2 (Z.ltb_ge _ _)) by done.
  assert (str_empty (cj_provider_id job) = false) as -> by (destruct (cj_provider_id job); done).
  change (OS_Valid ==? OS_Stale) with false. change (OS_Valid ==? OS_Valid) with true. cbn [orb]. cbv iota.
  unfold default, id. rewrite bool_decide_false by done. done.
Qed.

(** Newer evidence is neither a repetition nor a replay. *)
Lemma newer_latest dm e token time id l :
  health_wf dm -> newer dm (fhe_entity e) token time (fhe_observed_monotonic_time_ns e) ->
  om_find (fhe_entity e) (latest_heartbeat_ dm) = Some id -> find_evidence (heartbeat_evidence_ dm) id = Some l ->
  sameHeartbeatEvidence l e = false /\ (fhe_observed_monotonic_time_ns e <=? fhe_observed_monotonic_time_ns l) = false.
Proof.
  intros Hwf Hn Ei Ef. apply find_if_Some in Ef as [Hin Hid]. bprop in Hid. destruct (hw_latest dm Hwf _ _ Ei) as [_ Hl].
  destruct (Hn l Hin (Hl l Hin Hid)) as [Ho _]. split; [|apply Z.leb_gt; lia]. unfold sameHeartbeatEvidence.
  rewrite (proj2 (Z.eqb_neq (fhe_observed_monotonic_time_ns l) _)) by lia. by rewrite !andb_false_r.
Qed.

Lemma newer_last_valid dm e token time last :
  newer dm (fhe_entity e) token time (fhe_observed_monotonic_time_ns e) ->
  fhe_sequence_or_token e = token -> fhe_source_sample_time_ns e = Some time ->
  find_if (fun c => (fhe_entity c ==? fhe_entity e) && (fhe_status c ==? OS_Valid)) (rev (heartbeat_evidence_ dm)) = Some last ->
  (fhe_sequence_or_token e <=? fhe_sequence_or_token last)
  || sample_time_le (fhe_source_sample_time_ns e) (fhe_source_sample_time_ns last) = false.
Proof.
  intros Hn Ht Hs El. apply find_if_Some in El as [Hin Hp]. rewrite list_elem_of_In, <- in_rev, <- list_elem_of_In in Hin.
  bprop in Hp. destruct Hp as [P1 P2]. destruct (Hn last Hin P1) as [_ Hlast]. destruct (Hlast P2) as [L1 L2].
  rewrite (proj2 (Z.leb_gt _ _)) by lia. rewrite Hs. destruct (fhe_source_sample_time_ns last) as [t|] eqn:Et; [|done].
  cbn. apply Z.leb_gt. by apply L2.
Qed.

Lemma newer_unanswered dm e token time :
  health_wf dm -> newer dm (fhe_entity e) token time (fhe_observed_monotonic_time_ns e) ->
  fhe_sequence_or_token e = token -> fhe_source_sample_time_ns e = Some time -> evidence_answer dm e = None.
Proof.
  intros Hwf Hn Ht Hs. unfold evidence_answer. cbv zeta.
  match goal with |- context [if fhe_status e ==? OS_Valid then ?m else None] =>
    assert ((if fhe_status e ==? OS_Valid then m else None) = None) as -> end.
  { guard as G; [|done]. destruct (find_if _ _) as [last|] eqn:El; [|done]. by rewrite (newer_last_valid dm e token time last Hn Ht Hs El). }
  destruct (om_find (fhe_entity e) _) as [id|] eqn:Ei; [|done]. destruct (find_evidence _ id) as [l|] eqn:Ef; [|done].
  by destruct (newer_latest dm e token time id l Hwf Hn Ei Ef) as [-> ->].
Qed.

(** The evidence is stored as the latest of its device, or a limit or counter is
    exhausted and nothing changes. *)
Lemma beat_stored mm dm entity id e token time :
  loop_ready mm dm entity id -> fhe_evidence_id e = 0 -> fhe_entity e = entity -> fhe_provider_data_id e = id ->
  fhe_catalog_generation e = cst_generation (dm_catalog_ dm) -> st_ok (validateFirmwareHeartbeatEvidence e) = true ->
  newer dm entity token time (fhe_observed_monotonic_time_ns e) -> fhe_sequence_or_token e = token ->
  fhe_source_sample_time_ns e = Some time ->
  let '(commit, dm1) := commitHeartbeatEvidence dm e in
  let e' := fhe_with_id e (next_evidence_id_ dm) in
  (dm1 = dm /\ st_ok (ecr_status commit) = false /\ exhausted (ecr_status commit)) \/
  (ecr_status commit = st_success /\ ecr_committed commit = true /\ ecr_evidence_id commit = fhe_evidence_id e' /\
   dm_catalog_ dm1 = dm_catalog_ dm /\ health_ dm1 = health_ dm /\ health_wf dm1 /\
   latestHeartbeatEvidence dm1 entity (cst_generation (dm_catalog_ dm)) = (st_success, Some e') /\
   heartbeatEvidence dm1 (fhe_evidence_id e') = (st_success, Some e')).
Proof.
  intros [R1 R2 R3 R4 R5 R6 R7 R8 R9 [R10 R11] (h & R12 & R13) R14 R15] E0 E1 E2 E3 E4 Hn Ht Hs. subst entity.
  destruct (active_entity_some _ _ R3) as [Hg0 _]. rewrite R7 in Hg0.
  pose proof (commitHeartbeatEvidence_health dm e R1) as Hwf1.
  assert (existsb (fun x => x ==? fhe_entity e) (cst_entities (dm_catalog_ dm)) = true) as Hex.
  { apply existsb_elem. exists (fhe_entity e). split; [done|]. by bprop. }
  revert Hwf1. unfold commitHeartbeatEvidence. cbv zeta. rewrite E0, E4, R8, E3, R12, R13, R14, E2, !Z.eqb_refl, Hex.
  rewrite (proj2 (Z.eqb_neq _ 0)) by done. cbn [negb orb]. cbv iota.
  guard as G; [intros _; left; split_and!; [done|done|by right]|].
  rewrite (newer_unanswered dm e token time R1 Hn Ht Hs).
  set (e' := fhe_with_id e (next_evidence_id_ dm)). set (staged := List.filter _ _).
  pose proof (evict_evidence_spec (length staged) (max_evidence_items (dm_limits_ dm)) (max_evidence_bytes (dm_limits_ dm)) (health_ dm)
    (next_evidence_id_ dm) staged ltac:(lia)) as Hspec.
  destruct (evict_evidence _ _ _ _ _ _) as [staged'|]; [|intros _; left; split_and!; [done|done|by left]].
  destruct Hspec as (_ & _ & Hkeep). cbn [snd]. intros Hwf1. right.
  assert (e' ∈ staged') as Hin.
  { assert (e' ∈ List.filter (keep (health_ dm) (next_evidence_id_ dm)) staged) as Hk.
    { apply elem_of_filterb. split; [|unfold keep; cbn; by rewrite Z.eqb_refl]. apply elem_of_filterb.
      split; [apply elem_of_app; right; by apply list_elem_of_singleton|]. unfold expired. by rewrite Z.eqb_refl. }
    rewrite <- Hkeep in Hk. apply elem_of_filterb in Hk. tauto. }
  pose proof (find_evidence_unique staged' e' (hw_order _ Hwf1) Hin) as Hf. cbn [ecr_status ecr_committed ecr_evidence_id].
  pose proof (hw_next dm R1). change (fhe_evidence_id e') with (next_evidence_id_ dm) in *.
  split_and!; try done.
  - unfold latestHeartbeatEvidence, generation_mismatch, current_entity. cbn [dm_catalog_ latest_heartbeat_ heartbeat_evidence_].
    rewrite (proj2 (Z.eqb_neq _ 0)), Z.eqb_refl, andb_false_r, find_logical by done. by rewrite bool_decide_true, om_find_set_eq, Hf by done.
  - unfold heartbeatEvidence. cbn [dm_catalog_ heartbeat_evidence_]. rewrite !(proj2 (Z.eqb_neq _ 0)), Hf by (done || lia). done.
Qed.

(** ** The evidence becomes health *)

Lemma commitHealth_latest dm r entity g : latestHeartbeatEvidence (snd (commitHealth dm r)) entity g = latestHeartbeatEvidence dm entity g.
Proof. by destruct (commitHealth_cases dm r) as [[-> _]|(? & ? & ? & _ & _ & _ & _ & _ & _ & _ & _ & ->)]. Qed.

(** What a query answers when valid evidence is the latest. *)
Definition answered (mm : MetricsManager) (entity : EntityRef) (e : FirmwareHeartbeatEvidence) (t max_age : Z) (dm : DataManager) : Prop :=
  let rt := mm_runtime_ mm in
  let q := queryHealth mm (mkHealthRequest entity kFirmwareHeartbeatHealthId (rt_catalog_generation rt) max_age) t dm in
  exists r, hqr_item q = Some r /\ hqr_aggregate q = Some r /\ hr_entity r = entity /\ hr_evidence r = [evidenceReference e] /\
    hr_evidence_age_ns r = t - fhe_observed_monotonic_time_ns e /\
    if t - fhe_observed_monotonic_time_ns e <=? effectiveFreshness (hce_freshness_ns (rt_heartbeat rt)) max_age
    then hqr_status q = st_success /\ hr_state r = determined_state (fhe_native_class e)
    else st_code (hqr_status q) = PDCM_STATUS_PARTIAL_RESULT /\ hr_state r = HS_Unknown /\ hr_code r = HC_HeartbeatStale.

Lemma evaluate_stale rt e now freshness : fhe_status e = OS_Valid -> 0 <= fhe_observed_monotonic_time_ns e <= now -> now <= i64_max ->
  freshness < now - fhe_observed_monotonic_time_ns e -> hr_code (evaluate rt e now freshness) = HC_HeartbeatStale.
Proof.
  intros Hv Hn Hm Hf. unfold evaluate, wrap64, i64_max in *. rewrite (Z.mod_small (now - _)) by lia.
  rewrite Hv, bool_decide_true, (proj2 (Z.ltb_lt _ _)) by done. done.
Qed.

Lemma query_answers mm dm entity e t max_age :
  health_wf dm -> active_entity (mm_runtime_ mm) = Some entity -> rt_heartbeat_supported (mm_runtime_ mm) = true ->
  latestHeartbeatEvidence dm entity (rt_catalog_generation (mm_runtime_ mm)) = (st_success, Some e) -> fhe_status e = OS_Valid ->
  fhe_observed_monotonic_time_ns e <= t <= i64_max -> answered mm entity e t max_age dm.
Proof.
  intros Hwf Ha Hs Hl Hv Ht. destruct (latestHeartbeatEvidence_some _ _ _ _ _ Hl) as [_ Hin].
  destruct (stored_evidence_facts dm e Hwf Hin) as [Hf _]. pose proof (ef_time e Hf) as Hz.
  pose proof (latest_evidence_entity _ _ _ _ _ Hwf Hl) as He.
  unfold answered. cbv zeta. unfold queryHealth. rewrite Ha. cbn [hq_catalog_generation hq_entity hq_subsystem_id hq_max_age_ns].
  rewrite !Z.eqb_refl, !bool_decide_true, (proj2 (Z.ltb_ge t 0)) by (done || lia). rewrite andb_false_r. cbn [negb orb andb].
  unfold heartbeatAt. rewrite Hs, Hl. change (negb (st_ok st_success)) with false. rewrite (proj2 (Z.ltb_ge t _)) by lia. cbn [negb]. cbv iota.
  set (rt := mm_runtime_ mm) in *. set (fr := effectiveFreshness _ _).
  destruct (evaluate_fields rt e t fr) as (F1 & _ & _ & _ & F5 & F6).
  destruct (evaluate_state rt e t fr Hf ltac:(lia)) as [S1 S2]. exists (evaluate rt e t fr).
  cbn [hqr_item hqr_aggregate hqr_status]. rewrite F1, F5, F6. split_and!; try done.
  destruct (_ <=? fr) eqn:G; bprop in G.
  - destruct (S1 (conj Hv G)) as [S3 S4]. by rewrite S4.
  - rewrite S2 by lia. split_and!; [done|done|]. apply evaluate_stale; auto; lia.
Qed.

(** After the metrics manager has been told of stored evidence. *)
Lemma beat_evaluated mm dm entity id e now :
  loop_ready mm dm entity id -> fhe_entity e = entity -> fhe_catalog_generation e = cst_generation (dm_catalog_ dm) ->
  fhe_status e = OS_Valid -> heartbeatEvidence dm (fhe_evidence_id e) = (st_success, Some e) ->
  latestHeartbeatEvidence dm entity (cst_generation (dm_catalog_ dm)) = (st_success, Some e) ->
  fhe_observed_monotonic_time_ns e = now -> now <= i64_max ->
  let '(status, dm2) := onHeartbeatEvidenceCommitted mm (fhe_evidence_id e) now dm dm in
  latestHeartbeatEvidence dm2 entity (cst_generation (dm_catalog_ dm)) = (st_success, Some e) /\ health_wf dm2 /\
  if st_ok status
  then exists r, readHealth dm2 entity (cst_generation (dm_catalog_ dm)) = (st_success, Some r) /\ hr_state r = determined_state (fhe_native_class e)
  else health_ dm2 = health_ dm /\ exhausted status.
Proof.
  intros [R1 R2 R3 R4 R5 R6 R7 R8 R9 R10 (h & R12 & R13) R14 R15] E1 E2 E3 Hid Hl Ho Hn.
  assert (exists r, onHeartbeatEvidenceCommitted mm (fhe_evidence_id e) now dm dm =
    (hcr_status (fst (commitHealth dm r)), snd (commitHealth dm r))) as [r Hr].
  { unfold onHeartbeatEvidenceCommitted. rewrite R3, Hid. change (negb (st_ok st_success)) with false. cbv iota.
    rewrite E2, R7, E1, Z.eqb_refl, bool_decide_true, (proj2 (Z.ltb_ge _ _)) by (done || lia). cbn [negb orb].
    exists (evaluate (mm_runtime_ mm) e now (hce_freshness_ns (rt_heartbeat (mm_runtime_ mm)))). by destruct (commitHealth _ _). }
  destruct (evidence_becomes_health mm (fhe_evidence_id e) now dm entity e R1 R2 ltac:(by eexists) R4 R3 Hid ltac:(congruence) E1 ltac:(lia)) as [B1 B2].
  rewrite Hr in *. cbn [fst snd] in *. rewrite commitHealth_latest. split; [done|]. split; [by apply commitHealth_health|].
  rewrite R7 in B1. destruct (st_ok (hcr_status (fst (commitHealth dm r)))).
  - eexists. split; [exact B1|]. rewrite B2, bool_decide_true by done. replace (now - _) with 0 by lia. by rewrite (proj2 (Z.leb_le _ _)).
  - destruct B1 as [-> B1]. done.
Qed.

(** ** A whole collection *)

Lemma resultItemBytes_nonneg item : 0 <= resultItemBytes item.
Proof.
  pose proof layout_pos as Hl. rewrite !Forall_cons in Hl. unfold resultItemBytes, str_size. destruct (pir_value item) as [[]|]; lia.
Qed.

Lemma loop_ready_kept mm dm dm1 entity id : loop_ready mm dm entity id -> dm_catalog_ dm1 = dm_catalog_ dm -> health_wf dm1 ->
  loop_ready mm dm1 entity id.
Proof. intros [] E Hwf. split; rewrite ?E; done. Qed.

(** The outcome of a collection of a beat. *)
Definition looped (mm : MetricsManager) (dm : DataManager) (entity : EntityRef) (class : HeartbeatNativeClass) (token observed : Z)
    (status : Status) (dm' : DataManager) : Prop :=
  if st_ok status
  then (exists r, readHealth dm' entity (rt_catalog_generation (mm_runtime_ mm)) = (st_success, Some r) /\ hr_state r = determined_state class) /\
    exists e, fhe_native_class e = class /\ fhe_sequence_or_token e = token /\ fhe_observed_monotonic_time_ns e = observed /\
      forall t max_age, observed <= t <= i64_max -> answered mm entity e t max_age dm'
  else health_ dm' = health_ dm /\ exhausted status.

Lemma beat_committed mm dm entity id job request call result i item class token time observed :
  loop_ready mm dm entity id -> prq_items request = [i] -> prq_catalog_generation request = cst_generation (dm_catalog_ dm) ->
  usableCallStatus (st_code call) = true -> cj_provider_id job <> "" ->
  pri_entity i = entity -> pri_data_id i = id -> beat i item class token time -> newer dm entity token time observed ->
  0 <= observed <= i64_max -> (forall s n v e, crr_status (result s n v e) = s) ->
  let '(run, dm') := commit_heartbeat job request call result observed [(i, item)] [] 0 (Some (mm, observed)) dm in
  looped mm dm entity class token observed (crr_status run) dm'.
Proof.
  intros Hr Hi Hg Hu Hp He Hd Hb Hn Ho Hres. pose proof Hb as [B1 B2 B3 B4 [B5 B5'] B6 [B7 B8]]. pose proof Hr as [_ _ R3 _ R5 _ R7 _ _ R10 _ _ R15].
  destruct (active_entity_some _ _ R3) as [Hg0 _]. unfold commit_heartbeat. rewrite Hi. unfold heartbeat_item. rewrite Hu. cbn [negb].
  change (om_mem i []) with false. unfold om_find. rewrite key_eqb_refl, (beat_valid _ _ _ _ _ Hb), B3. cbn [negb].
  change (OS_Valid !=? OS_Valid) with false. cbv iota. set (e := evidence_of job request observed i item st_success).
  assert (st_ok (validateFirmwareHeartbeatEvidence e) = true) as Hv.
  { eapply evidence_of_valid; [exact Hb|exact He|exact R10|congruence|congruence|lia|done]. }
  pose proof (beat_stored mm dm entity id e token time Hr eq_refl He Hd Hg Hv Hn ltac:(cbn; by rewrite B6) B7) as Hst.
  destruct (commitHeartbeatEvidence dm e) as [commit dm1]. cbv zeta in Hst.
  destruct Hst as [(-> & S1 & S2)|(S1 & S2 & S3 & S4 & S5 & S6 & S7 & S8)].
  { rewrite S1. cbn [negb]. rewrite Hres. unfold looped. by rewrite S1. }
  rewrite S1, S2, S3. change (negb (st_ok st_success)) with false. cbv iota. set (e' := fhe_with_id e (next_evidence_id_ dm)) in *.
  pose proof (beat_evaluated mm dm1 entity id e' observed (loop_ready_kept _ _ _ _ _ Hr S4 S6) He
    ltac:(rewrite S4; exact Hg) B3 S8 ltac:(by rewrite S4) eq_refl ltac:(lia)) as Hev.
  destruct (onHeartbeatEvidenceCommitted _ _ _ _ _) as [evaluated dm2]. rewrite S4, <- R7 in Hev. destruct Hev as (V1 & V2 & V3).
  assert (fhe_native_class e' = class) as Hc by (cbn; by rewrite B5).
  assert (fhe_sequence_or_token e' = token) as Ht by (cbn; by rewrite B6).
  destruct (st_ok evaluated) eqn:Es; cbn [negb]; rewrite Hres; unfold looped, run_status; [|rewrite Es, <- S5; exact V3].
  rewrite Hu. change (negb (0 =? 0)) with false. cbn [negb]. change (st_ok st_success) with true. cbv iota. rewrite <- Hc. split; [exact V3|].
  exists e'. split_and!; [done|done|done|]. intros t max_age Htt. apply query_answers; auto.
Qed.

(** C24: The heartbeat loop is closed.  When a job that reads the heartbeat of the
    active device is collected and the provider answers with one valid beat that
    is newer than everything stored about the device, then, unless a limit or a
    counter is exhausted (and then no health result changes), the collection
    succeeds, the stored health is the state of the beat's class, and from then
    on every health query, at any time and with any maximum age, cites this
    beat with its age and answers the state of its class exactly while the beat
    is within the freshness, and Unknown for a stale heartbeat, as a partial
    result, when it is not. *)
Theorem heartbeat_closed_loop c wm mm dm batchRead job it class token time item scheduled deadline now observed wall :
  let i := job_read_item it in
  let plan := co_plan_ c in
  let request := mkReadRequest (fst (allocateRequestId c)) (cp_version plan) (cp_catalog_generation plan) scheduled deadline [i] in
  loop_ready mm dm (pri_entity i) (pri_data_id i) ->
  find_if (fun j => cj_id j =? cj_id job) (cp_jobs plan) = Some job -> cj_kind job = PDK_HeartbeatEvidence -> cj_items job = [it] ->
  cj_provider_id job <> "" -> cp_catalog_generation plan = cst_generation (dm_catalog_ dm) ->
  0 <= scheduled <= deadline -> now <= deadline -> fst (allocateRequestId c) <> 0 ->
  prr_items (batchRead request) = [item] -> usableCallStatus (st_code (prr_call_status (batchRead request))) = true ->
  1 <= max_result_items (co_limits_ c) -> resultItemBytes item <= max_result_bytes (co_limits_ c) <= u64_max ->
  beat i item class token time -> newer dm (pri_entity i) token time observed -> 0 <= observed <= i64_max ->
  let '(run, _, _, dm') := collectJob c wm (Some mm) dm batchRead (cj_id job) scheduled deadline now observed wall in
  looped mm dm (pri_entity i) class token observed (crr_status run) dm'.
Proof.
  cbv zeta. intros Hr Hj Hk Hi Hp Hg Hs Hn Hid Hit Hu Hl1 Hl2 Hb Hnew Ho. unfold collectJob. cbv zeta. rewrite Hj.
  rewrite !(proj2 (Z.ltb_ge _ _)) by lia. cbn [orb].
  assert (co_limits_ (snd (allocateRequestId c)) = co_limits_ c) as El by (unfold allocateRequestId; by guard as G).
  destruct (allocateRequestId c) as [request_id c1]. cbn [fst snd] in *. rewrite (proj2 (Z.eqb_neq _ _)) by done. rewrite Hi, El. cbn [map].
  set (request := mkReadRequest _ _ _ _ _ _) in *.
  pose proof (beat_committed mm dm (pri_entity (job_read_item it)) (pri_data_id (job_read_item it)) job request (prr_call_status (batchRead request))
    (fun status n v e => mkCollectionRun status request_id (cp_version (co_plan_ c)) (zlen (prq_items request)) n v None e)
    (job_read_item it) item class token time observed Hr eq_refl Hg Hu Hp eq_refl eq_refl Hb Hnew Ho ltac:(done)) as Hc.
  unfold normalizeAndCommit. cbv zeta. rewrite Hit, Hk, (beat_indexed request _ _ _ _ _ _ eq_refl Hit Hu Hb).
  rewrite (proj2 (Z.ltb_ge _ _)) by (rewrite zlen_cons, zlen_nil; lia). cbn [result_bytes].
  assert ((size_sub (max_result_bytes (co_limits_ c)) 0 <? resultItemBytes item) = false) as ->.
  { apply Z.ltb_ge. unfold size_sub, wrap64, u64_max in *. rewrite Z.sub_0_r, Z.mod_small by (pose proof (resultItemBytes_nonneg item); lia). lia. }
  cbn [has_value negb]. unfold catalogGeneration. rewrite Hg, Z.eqb_refl. cbn [negb]. change (prq_request_id request) with request_id.
  destruct (commit_heartbeat _ _ _ _ _ _ _ _ _ _) as [run dm']. by destruct (noteLogicalResults _ _ _ _ _ _ _ _).
Qed.
End Heartbeat.
