(* ===== verification/Service.v ===== *)
(** The service core (src/product/src/core/service_core.hpp and .cpp): the
    object that owns the provider manager, the semantic catalog, the data
    manager and the metrics manager, brings them up in order and answers the
    discovery, capability and health queries.

    [start] and [stop] are each run by one owner (the daemon's main function,
    the embedded backend under its mutex), one after the other; between two of
    them any number of queries reads the published snapshot.  The times of the
    clock's successive readings are arguments. *)
From S2P Require Import Prelude Containers Common Provider Session Catalog EventStore DataStore HealthStore ProcessorGraph Metrics.
Local Open Scope string_scope.
Local Open Scope list_scope.
Open Scope Z_scope.
Open Scope pdcm_scope.

(** ** Data *)

Inductive CoreState := CS_Created | CS_Starting | CS_Ready | CS_Degraded | CS_Failed | CS_Stopping | CS_Stopped.
#[export] Instance CoreState_eq_dec : EqDecision CoreState.
Proof. solve_decision. Defined.

Inductive CoreDegradedReason := DR_None | DR_ProviderUnavailable | DR_DiscoveryFailed | DR_TopologyUnsupported.
#[export] Instance CoreDegradedReason_eq_dec : EqDecision CoreDegradedReason.
Proof. solve_decision. Defined.

Record CoreSnapshot := mkCoreSnapshot {
  core_state : CoreState;
  core_provider_state : ProviderState;
  core_degraded_reason : CoreDegradedReason;
  core_detail_status : pdcm_status_t;
  core_detected_device_count : Z;
  core_catalog_generation : Z }.
Definition core_snapshot_default : CoreSnapshot :=
  mkCoreSnapshot CS_Created PS_Uninitialized DR_None PDCM_STATUS_SUCCESS 0 0.

Definition defaultCatalog (target : TargetKind) : TargetCatalog :=
  tc_blocked (if target ==? TK_Unknown then TK_Fpga else target).

(** The states in which [entities], [capabilities] and [health] refuse. *)
Definition not_serving (s : CoreState) : bool :=
  (s ==? CS_Created) || (s ==? CS_Starting) || (s ==? CS_Failed) || (s ==? CS_Stopping) || (s ==? CS_Stopped).

(** [std::chrono::milliseconds] added to a time in nanoseconds. *)
Definition ms_after (now ms : Z) : MonotonicTime := now + ms * 1000000.

Section Service.
Context {P : Type} `{Provider P} `{Layout}.

Record ServiceCore := mkService {
  sv_config_ : RuntimeConfig;
  sv_provider_manager_ : ProviderManager P;
  sv_target_catalog_ : TargetCatalog;
  sv_semantic_catalog_ : SemanticCatalog;
  sv_data_manager_ : DataManager;
  sv_metrics_manager_ : MetricsManager;
  sv_snapshot_ : CoreSnapshot }.

(** The constructors of the members run in this order; one that throws ends the
    construction. *)
Definition core_construct (config : RuntimeConfig) (provider : option P) (clock : bool) (target : TargetCatalog)
    : string + ServiceCore :=
  match pm_construct provider with
  | inl msg => inl msg
  | inr manager =>
      if negb clock then inl "PdcmServiceCore requires a clock"
      else
      match sc_construct target with
      | inl msg => inl msg
      | inr catalog =>
          match dm_construct data_limits_default with
          | inl msg => inl msg
          | inr data => inr (mkService config manager target catalog data (mm_construct []) core_snapshot_default)
          end
      end
  end.

(** The constructor without a target catalog. *)
Definition core_construct_default (config : RuntimeConfig) (provider : option P) (clock : bool) : string + ServiceCore :=
  core_construct config provider clock (defaultCatalog (rc_target config)).

Definition sv_with_snapshot (c : ServiceCore) (s : CoreSnapshot) : ServiceCore :=
  mkService (sv_config_ c) (sv_provider_manager_ c) (sv_target_catalog_ c) (sv_semantic_catalog_ c)
    (sv_data_manager_ c) (sv_metrics_manager_ c) s.
Definition sv_with_provider (c : ServiceCore) (m : ProviderManager P) : ServiceCore :=
  mkService (sv_config_ c) m (sv_target_catalog_ c) (sv_semantic_catalog_ c) (sv_data_manager_ c)
    (sv_metrics_manager_ c) (sv_snapshot_ c).
Definition sv_with_catalog (c : ServiceCore) (s : SemanticCatalog) : ServiceCore :=
  mkService (sv_config_ c) (sv_provider_manager_ c) (sv_target_catalog_ c) s (sv_data_manager_ c)
    (sv_metrics_manager_ c) (sv_snapshot_ c).
Definition sv_with_data (c : ServiceCore) (dm : DataManager) (mm : MetricsManager) : ServiceCore :=
  mkService (sv_config_ c) (sv_provider_manager_ c) (sv_target_catalog_ c) (sv_semantic_catalog_ c) dm mm (sv_snapshot_ c).

(** [snapshot_.state = state]. *)
Definition core_enter (c : ServiceCore) (state : CoreState) : ServiceCore :=
  let s := sv_snapshot_ c in
  sv_with_snapshot c (mkCoreSnapshot state (core_provider_state s) (core_degraded_reason s) (core_detail_status s)
                        (core_detected_device_count s) (core_catalog_generation s)).

Definition core_publish (c : ServiceCore) (state : CoreState) (provider_state : ProviderState)
    (reason : CoreDegradedReason) (detail : pdcm_status_t) (count generation : Z) : ServiceCore :=
  sv_with_snapshot c (mkCoreSnapshot state provider_state reason detail count generation).

(** ** Start and stop *)

(** The end of [start], once a catalog of at most one device is committed. *)
Definition core_activate (c : ServiceCore) (committed : CatalogCommitResult) (now : Z) : Status * ServiceCore :=
  let view := Some (snapshot_ (sv_semantic_catalog_ c)) in
  let '(data_status, dm1) := activateCatalog (sv_data_manager_ c) view (sv_target_catalog_ c) in
  let '(metrics_status, mm1, dm2) :=
    mm_activateCatalog (sv_metrics_manager_ c) view (sv_target_catalog_ c) now dm1 dm1 in
  let provider_state := pm_state_ (sv_provider_manager_ c) in
  if negb (st_ok data_status) || negb (st_ok metrics_status)
  then
    let failure := if negb (st_ok data_status) then st_code data_status else st_code metrics_status in
    (mkStatus failure "core data services activation failed",
     core_publish (sv_with_data c dm2 mm1) CS_Failed provider_state DR_DiscoveryFailed failure
       (ccr_detected_device_count committed) (ccr_catalog_generation committed))
  else
  let '(_, dm3) := onProviderStateChanged mm1 provider_state now dm2 dm2 in
  (st_success,
   core_publish (sv_with_data c dm3 mm1) CS_Ready provider_state DR_None (st_code (ccr_status committed))
     (ccr_detected_device_count committed) (ccr_catalog_generation committed)).

Definition core_start (c : ServiceCore) (t_init t_discover t_health : Z) : Status * ServiceCore :=
  if core_state (sv_snapshot_ c) !=? CS_Created
  then (err_status PDCM_STATUS_NOT_INITIALIZED "core can only be started once", c)
  else
  let c0 := core_enter c CS_Starting in
  let config_status := rc_validate (sv_config_ c0) in
  if negb (st_ok config_status)
  then (config_status, core_publish c0 CS_Failed PS_Uninitialized DR_None (st_code config_status) 0 0)
  else
  let timeout := rc_provider_call_timeout (sv_config_ c0) in
  let '(provider_status, pm1) :=
    pm_initialize (sv_provider_manager_ c0) (mkInitOptions (rc_target (sv_config_ c0)) (ms_after t_init timeout)) in
  let c1 := sv_with_provider c0 pm1 in
  if negb (st_ok provider_status)
  then (st_success, core_publish c1 CS_Degraded (pm_state_ pm1) DR_ProviderUnavailable (st_code provider_status) 0 0)
  else
  let '(discovery, pm2) := pm_discover pm1 (ms_after t_discover timeout) in
  let c2 := sv_with_provider c1 pm2 in
  let count := pd_detected_device_count (pdr_descriptor discovery) in
  if negb (st_ok (pdr_call_status discovery))
  then (st_success, core_publish c2 CS_Degraded (pm_state_ pm2) DR_DiscoveryFailed (st_code (pdr_call_status discovery)) count 0)
  else
  let '(committed, sc) := sc_commit (sv_semantic_catalog_ c2) (pdr_descriptor discovery) in
  let c3 := sv_with_catalog c2 sc in
  if negb (ccr_committed committed)
  then (st_success, core_publish c3 CS_Degraded (pm_state_ pm2) DR_DiscoveryFailed (st_code (ccr_status committed)) count
          (ccr_catalog_generation committed))
  else if st_code (ccr_status committed) ==? PDCM_STATUS_UNSUPPORTED
  then (st_success, core_publish c3 CS_Degraded (pm_state_ pm2) DR_TopologyUnsupported PDCM_STATUS_UNSUPPORTED
          (ccr_detected_device_count committed) (ccr_catalog_generation committed))
  else core_activate c3 committed t_health.

Definition core_stop (c : ServiceCore) : Status * ServiceCore :=
  if core_state (sv_snapshot_ c) ==? CS_Stopped then (st_success, c)
  else
  let c0 := core_enter c CS_Stopping in
  let c1 := sv_with_provider c0 (pm_shutdown (sv_provider_manager_ c0)) in
  (st_success, core_publish c1 CS_Stopped PS_Shutdown DR_None PDCM_STATUS_SUCCESS 0 0).

(** ** Queries *)

Definition core_entities (c : ServiceCore) (kind : EntityKind) : EntityListResult :=
  let core := sv_snapshot_ c in
  let view := snapshot_ (sv_semantic_catalog_ c) in
  if not_serving (core_state core)
  then mkEntityList (err_status PDCM_STATUS_NOT_INITIALIZED "core is not serving discovery") 0 0 []
  else if cv_generation_ view =? 0
  then mkEntityList (err_status PDCM_STATUS_UNAVAILABLE "no discovery snapshot is available")
         (core_detected_device_count core) 0 []
  else cv_list view kind.

Definition core_capabilities (c : ServiceCore) (entity : EntityRef) : Status * option CapabilitySet :=
  let view := snapshot_ (sv_semantic_catalog_ c) in
  if not_serving (core_state (sv_snapshot_ c))
  then (err_status PDCM_STATUS_NOT_INITIALIZED "core is not serving capabilities", None)
  else if cv_generation_ view =? 0
  then (err_status PDCM_STATUS_UNAVAILABLE "no capability snapshot is available", None)
  else cv_capabilities view entity.

Definition core_health (c : ServiceCore) (request : HealthRequest) (now : Z) : HealthQueryResult :=
  let core := sv_snapshot_ c in
  if not_serving (core_state core)
  then mkHealthQuery (err_status PDCM_STATUS_NOT_INITIALIZED "core is not serving health") None None
  else if core_catalog_generation core =? 0
  then mkHealthQuery (err_status PDCM_STATUS_UNAVAILABLE "health catalog is unavailable") None None
  else queryHealth (sv_metrics_manager_ c) request now (sv_data_manager_ c).

(** ** What a successful activation means *)

(** The metrics manager serves the single device of the view. *)
Lemma mm_activate_success mm v t now dm dm' :
  let r := mm_activateCatalog mm (Some v) t now dm dm' in
  st_ok r.1.1 = true ->
  cv_generation_ v <> 0 /\ cst_generation (dm_catalog_ dm) = cv_generation_ v /\ cv_topology_unsupported_ v = false /\
  zlen (cv_entities_ v) <= 1 /\ rt_catalog_generation (mm_runtime_ r.1.2) = cv_generation_ v /\
  rt_entity (mm_runtime_ r.1.2) = head (map ent_ref (cv_entities_ v)).
Proof.
  cbv zeta. unfold mm_activateCatalog. guard as G1; [done|]. bprop in G1. cbv zeta.
  guard as G2; [apply negb_true_iff in G2; cbn [fst]; congruence|]. destruct (rebuild _ _ _ _) as [gs graph].
  guard as G3; [apply negb_true_iff in G3; cbn [fst]; congruence|]. guard as G4; [done|]. guard as G5; [done|]. bprop in G5.
  destruct (next_runtime v _) as [st|next] eqn:En.
  { unfold next_runtime in En. destruct (cv_entities_ v) as [|record rs]; [done|].
    destruct (cv_capabilities _ _) as [st' set] eqn:Ec. destruct (negb (st_ok st')) eqn:Eo.
    - injection En as ->. apply negb_true_iff in Eo. cbn [fst]. congruence.
    - exfalso. destruct set; [done|]. unfold cv_capabilities in Ec. destruct (cv_resolve _ _) as [st2 ?].
      destruct (negb (st_ok st2)) eqn:E2; [injection Ec as ->; congruence|]. by case_match; simplify_eq. }
  guard as G6; [done|].
  assert (rt_catalog_generation next = cv_generation_ v /\ rt_entity next = head (map ent_ref (cv_entities_ v))) as [N1 N2].
  { unfold next_runtime in En. destruct (cv_entities_ v) as [|record rs]; [by injection En as <-|].
    destruct (cv_capabilities _ _) as [st set]. destruct (negb (st_ok st)); [done|]. destruct set; [|done]. by injection En as <-. }
  intros Hok.
  match goal with |- context [mm_runtime_ ?x.1.2] => assert (mm_runtime_ x.1.2 = next) as -> end.
  { destruct (rt_entity next); [|done]. by destruct (commitHealth _ _). }
  split_and!; try done; lia.
Qed.

Lemma activateCatalog_generation m v t :
  st_ok (fst (activateCatalog m (Some v) t)) = true ->
  cst_generation (dm_catalog_ (snd (activateCatalog m (Some v) t))) = cv_generation_ v.
Proof.
  unfold activateCatalog. guard as G1; [done|]. cbv zeta. guard as G2; [apply negb_true_iff in G2; cbn [fst]; congruence|].
  guard as G3; [done|]. guard as G4; [done|]. guard as G5; [bprop in G5; cbn; congruence|].
  by destruct (publish _ _) as [[? ?] ?].
Qed.

(** An answer of the metrics manager about its device. *)
Lemma queryHealth_own mm request now dm entity :
  health_wf dm -> active_entity (mm_runtime_ mm) = Some entity -> hq_entity request = entity ->
  hq_catalog_generation request = 0 \/ hq_catalog_generation request = rt_catalog_generation (mm_runtime_ mm) ->
  0 <= now ->
  let q := queryHealth mm request now dm in
  (st_code (hqr_status q) = PDCM_STATUS_SUCCESS \/ st_code (hqr_status q) = PDCM_STATUS_PARTIAL_RESULT) /\
  exists item, hqr_item q = Some item /\ hr_entity item = entity /\ hr_subsystem_id item = hq_subsystem_id request /\
    hr_catalog_generation item = rt_catalog_generation (mm_runtime_ mm).
Proof.
  intros Hwf Ha He Hg Hn. cbv zeta. unfold queryHealth. rewrite Ha, He.
  assert (negb (hq_catalog_generation request =? 0)
    && negb (hq_catalog_generation request =? rt_catalog_generation (mm_runtime_ mm)) = false) as ->.
  { apply andb_false_iff. rewrite !negb_false_iff, !Z.eqb_eq. tauto. }
  rewrite Z.eqb_refl, !bool_decide_true, (proj2 (Z.ltb_ge now 0)) by done. cbn [negb orb hqr_status hqr_item].
  set (rt := mm_runtime_ mm) in *. set (fr := effectiveFreshness _ _).
  assert (hr_entity (heartbeatAt rt entity now fr dm) = entity /\
    hr_subsystem_id (heartbeatAt rt entity now fr dm) = kFirmwareHeartbeatHealthId /\
    hr_catalog_generation (heartbeatAt rt entity now fr dm) = rt_catalog_generation rt) as (A1 & A2 & A3).
  { unfold heartbeatAt. guard as G1; [done|]. destruct (latestHeartbeatEvidence _ _ _) as [st [e|]] eqn:El; [|done].
    guard as G2; [done|]. guard as G3; [done|].
    destruct (evaluate_fields rt e now fr) as (F1 & F2 & F3 & _). rewrite F1, F2, F3.
    split_and!; [by eapply latest_evidence_entity|done|done]. }
  destruct (hq_subsystem_id request =? kFirmwareHeartbeatHealthId) eqn:Es; bprop in Es; cbn [andb].
  - split; [destruct (isDeterminateHealth _); [by left|by right]|]. eexists. split; [done|]. by rewrite Es.
  - split; [by right|]. by eexists.
Qed.

(** ** Start *)

(** The commit of the first discovery. *)
Lemma first_commit t c0 d :
  sc_construct t = inr c0 -> ccr_committed (fst (sc_commit c0 d)) = true ->
  cv_generation_ (snapshot_ (snd (sc_commit c0 d))) = 1 /\ ccr_catalog_generation (fst (sc_commit c0 d)) = 1 /\
  ccr_detected_device_count (fst (sc_commit c0 d)) = pd_detected_device_count d /\
  (st_code (ccr_status (fst (sc_commit c0 d))) ==? PDCM_STATUS_UNSUPPORTED) = (1 <? pd_detected_device_count d) /\
  sc_wf (snd (sc_commit c0 d)).
Proof.
  intros Hc Hok. split_and!; [| | | |apply sc_commit_wf; by eapply sc_construct_wf];
    (unfold sc_construct in Hc; destruct (negb _) in Hc; [done|]; injection Hc as <-; revert Hok;
     unfold sc_commit; cbv zeta; guard as G1; [done|]; guard as G2; [done|]; guard as G3; [done|]; guard as G4; [done|];
     cbn [snapshot_ cv_default cv_generation_]).
  - destruct (if _ =? 1 then _ else None); [destruct (select_identity _ _ _ _ _) as [|[? ?]]|]; done.
  - destruct (if _ =? 1 then _ else None); [destruct (select_identity _ _ _ _ _) as [|[? ?]]|]; done.
  - destruct (if _ =? 1 then _ else None); [destruct (select_identity _ _ _ _ _) as [|[? ?]]|]; done.
  - destruct (pd_detected_device_count d =? 1) eqn:E1; bprop in E1.
    + rewrite E1. destruct (head _) as [pe|]; [|done].
      destruct (select_identity _ _ _ _ _) as [|[? ?]]; [done|]. intros _. cbn [fst ccr_status st_code build_record ent_item_status]. by guard as G5.
    + by destruct (1 <? _).
Qed.

Lemma core_construct_inv config p clock target c0 :
  core_construct config p clock target = inr c0 ->
  sv_config_ c0 = config /\ sv_target_catalog_ c0 = target /\ sv_snapshot_ c0 = core_snapshot_default /\
  sc_construct target = inr (sv_semantic_catalog_ c0) /\ dm_construct data_limits_default = inr (sv_data_manager_ c0) /\
  pm_state_ (sv_provider_manager_ c0) = PS_Uninitialized.
Proof.
  unfold core_construct. destruct p as [p|]; [|done]. cbn [pm_construct]. guard as G; [done|].
  destruct (sc_construct target) as [|sc]; [done|]. destruct (dm_construct _) as [|dm]; [done|]. by intros [= <-].
Qed.

(** What [start] reaches: the data and metrics services are active exactly when
    the core is ready. *)
Record ready_core (c : ServiceCore) : Prop := {
  rd_view : cv_generation_ (snapshot_ (sv_semantic_catalog_ c)) = 1 /\ sc_wf (sv_semantic_catalog_ c) /\
    cv_topology_unsupported_ (snapshot_ (sv_semantic_catalog_ c)) = false;
  rd_generation : core_catalog_generation (sv_snapshot_ c) = 1 /\ cst_generation (dm_catalog_ (sv_data_manager_ c)) = 1 /\
    rt_catalog_generation (mm_runtime_ (sv_metrics_manager_ c)) = 1;
  rd_entity : rt_entity (mm_runtime_ (sv_metrics_manager_ c)) =
    head (map ent_ref (cv_entities_ (snapshot_ (sv_semantic_catalog_ c))));
  rd_reason : core_degraded_reason (sv_snapshot_ c) = DR_None;
  rd_provider : core_provider_state (sv_snapshot_ c) = pm_state_ (sv_provider_manager_ c) }.

Lemma commitHealth_catalog dm r : dm_catalog_ (snd (commitHealth dm r)) = dm_catalog_ dm.
Proof.
  by destruct (commitHealth_cases dm r) as [[-> _]|(? & ? & ? & _ & _ & _ & _ & _ & _ & _ & _ & ->)].
Qed.

Lemma mm_activate_catalog mm v t now dm dm' :
  dm_catalog_ (snd (mm_activateCatalog mm v t now dm dm')) = dm_catalog_ dm'.
Proof.
  unfold mm_activateCatalog. destruct v as [v|]; [|done]. guard as G1; [done|]. cbv zeta. guard as G2; [done|].
  destruct (rebuild _ _ _ _) as [gs graph]. guard as G3; [done|]. guard as G4; [done|]. guard as G5; [done|].
  destruct (next_runtime v _) as [|next]; [done|]. guard as G6; [done|]. destruct (rt_entity next) as [e|]; [|done].
  pose proof (commitHealth_catalog dm' (initial_health next e now)) as Hc. by destruct (commitHealth _ _).
Qed.

Lemma onProviderStateChanged_catalog mm st now dm dm' :
  dm_catalog_ (snd (onProviderStateChanged mm st now dm dm')) = dm_catalog_ dm'.
Proof.
  unfold onProviderStateChanged. guard as G1; [done|]. destruct (active_entity _) as [e|]; [|done].
  pose proof (commitHealth_catalog dm' (provider_failure (mm_runtime_ mm) e now dm)) as Hc. by destruct (commitHealth _ _).
Qed.

(** The activation step: ready, or failed with an error. *)
Lemma core_activate_spec c committed now :
  sc_wf (sv_semantic_catalog_ c) -> cv_generation_ (snapshot_ (sv_semantic_catalog_ c)) = 1 ->
  ccr_catalog_generation committed = 1 ->
  let r := core_activate c committed now in
  (st_ok (fst r) = true /\ core_state (sv_snapshot_ (snd r)) = CS_Ready /\ ready_core (snd r)) \/
  (st_ok (fst r) = false /\ core_state (sv_snapshot_ (snd r)) = CS_Failed).
Proof.
  intros Hwf Hg Hc. cbv zeta. unfold core_activate.
  pose proof (activateCatalog_generation (sv_data_manager_ c) (snapshot_ (sv_semantic_catalog_ c)) (sv_target_catalog_ c)) as Ha.
  destruct (activateCatalog _ _ _) as [ds dm1]. cbn [fst snd] in Ha.
  pose proof (mm_activate_success (sv_metrics_manager_ c) (snapshot_ (sv_semantic_catalog_ c)) (sv_target_catalog_ c) now dm1 dm1) as Hm.
  pose proof (mm_activate_catalog (sv_metrics_manager_ c) (Some (snapshot_ (sv_semantic_catalog_ c))) (sv_target_catalog_ c) now
    dm1 dm1) as Hd.
  cbv zeta in Hm. destruct (mm_activateCatalog _ _ _ _ _ _) as [[ms mm1] dm2]. cbn [fst snd] in Hm, Hd.
  destruct (st_ok ds) eqn:E1; cbn [negb orb]; [|right; split; [|done]; cbn [fst]; unfold st_ok in *; done].
  destruct (st_ok ms) eqn:E2; cbn [negb]; [|right; split; [|done]; cbn [fst]; unfold st_ok in *; done].
  pose proof (onProviderStateChanged_catalog mm1 (pm_state_ (sv_provider_manager_ c)) now dm2 dm2) as Ho.
  destruct (onProviderStateChanged _ _ _ _ _) as [os dm3]. cbn [snd] in Ho. left. split; [done|]. split; [done|].
  destruct (Hm eq_refl) as (M1 & M2 & M3 & M4 & M5 & M6). rewrite Hg in *.
  split; cbn; try done. split_and!; [done| |done]. rewrite Ho, Hd. by apply Ha.
Qed.

(** The state and the answer of [start]. *)
Definition started (st : Status) (c : ServiceCore) : Prop :=
  let s := sv_snapshot_ c in
  core_state s ∈ [CS_Ready; CS_Degraded; CS_Failed] /\
  (st_ok st = true <-> core_state s <> CS_Failed) /\
  (core_state s = CS_Ready -> ready_core c) /\
  (core_state s = CS_Degraded -> core_degraded_reason s <> DR_None /\ core_detail_status s <> PDCM_STATUS_SUCCESS /\
     core_provider_state s = pm_state_ (sv_provider_manager_ c)).

Lemma core_start_started config p clock target c0 t1 t2 t3 :
  core_construct config p clock target = inr c0 ->
  started (fst (core_start c0 t1 t2 t3)) (snd (core_start c0 t1 t2 t3)).
Proof.
  intros Hc. destruct (core_construct_inv _ _ _ _ _ Hc) as (C1 & C2 & C3 & C4 & C5 & C6).
  destruct (core_start c0 t1 t2 t3) as [st c] eqn:Es. cbn [fst snd]. revert Es. unfold core_start, started. rewrite C3. cbn [core_state core_snapshot_default]. rewrite bool_decide_true by done. cbn [negb]. cbv zeta.
  cbn [core_enter sv_with_snapshot sv_config_ sv_provider_manager_ sv_semantic_catalog_].
  guard as G1. { intros [= <- <-]. apply negb_true_iff in G1. cbn. rewrite G1. split_and!; try done. set_solver. }
  destruct (pm_initialize _ _) as [ps pm1].
  guard as G2. { intros [= <- <-]. apply negb_true_iff in G2. cbn. unfold st_ok in G2. bprop in G2. split_and!; try done. set_solver. }
  destruct (pm_discover _ _) as [disc pm2].
  guard as G3. { intros [= <- <-]. apply negb_true_iff in G3. cbn. unfold st_ok in G3. bprop in G3. split_and!; try done. set_solver. }
  cbn [sv_with_provider sv_semantic_catalog_].
  pose proof (first_commit target (sv_semantic_catalog_ c0) (pdr_descriptor disc) C4) as Hfc.
  pose proof (sc_commit_cases (sv_semantic_catalog_ c0) (pdr_descriptor disc)) as Hcc.
  destruct (sc_commit _ _) as [committed sc]. cbn [fst snd] in Hfc, Hcc.
  guard as G4.
  { intros [= <- <-]. apply negb_true_iff in G4. destruct Hcc as [(_ & _ & Hs)|(? & ? & ? & ? & _ & ? & _)]; [|congruence].
    cbn. unfold st_ok in Hs. bprop in Hs. split_and!; try done. set_solver. }
  apply negb_false_iff in G4. destruct (Hfc G4) as (F1 & F2 & F3 & F4 & F5).
  guard as G5. { intros [= <- <-]. cbn. split_and!; try done. set_solver. }
  intros Es. match type of Es with core_activate ?c3 _ _ = _ =>
    pose proof (core_activate_spec c3 committed t3 F5 F1 F2) as Hact end.
  cbv zeta in Hact. rewrite Es in Hact. cbn [fst snd] in Hact.
  destruct Hact as [(A1 & A2 & A3)|(A1 & A2)]; rewrite A1, A2; split_and!; try done; set_solver.
Qed.
(** ** Theorems *)

(** C21: [start] brings the core to a definite state.  From a constructed core it
    ends ready, degraded or failed; it reports an error exactly when it failed,
    and can be called only once.  A ready core has its catalog, data and metrics
    services active at the same first generation, with no degraded reason; a
    degraded core names a reason and the provider state it stems from, and a
    failed one serves nothing. *)
Theorem core_start_outcome config p clock target c0 t1 t2 t3 :
  core_construct config p clock target = inr c0 ->
  let r := core_start c0 t1 t2 t3 in
  let c := snd r in
  let s := sv_snapshot_ c in
  core_state s ∈ [CS_Ready; CS_Degraded; CS_Failed] /\
  (st_ok (fst r) = true <-> core_state s <> CS_Failed) /\
  (core_state s = CS_Ready -> ready_core c) /\
  (core_state s = CS_Degraded -> core_degraded_reason s <> DR_None /\ core_detail_status s <> PDCM_STATUS_SUCCESS /\
     core_provider_state s = pm_state_ (sv_provider_manager_ c)) /\
  (core_state s = CS_Failed -> forall kind entity request now,
     elr_entities (core_entities c kind) = [] /\ snd (core_capabilities c entity) = None /\
     hqr_item (core_health c request now) = None) /\
  forall u1 u2 u3, core_start c u1 u2 u3 = (err_status PDCM_STATUS_NOT_INITIALIZED "core can only be started once", c).
Proof.
  intros Hc. pose proof (core_start_started _ _ _ _ _ t1 t2 t3 Hc) as Hst. cbv zeta.
  destruct (core_start c0 t1 t2 t3) as [st c]. cbn [fst snd] in *. destruct Hst as (A1 & A2 & A3 & A4). cbv zeta in *.
  split_and!; try done.
  - intros Hf *. unfold core_entities, core_capabilities, core_health. by rewrite Hf.
  - intros u1 u2 u3. unfold core_start. rewrite bool_decide_false; [done|]. intros E0. rewrite E0 in A1. set_solver.
Qed.

(** A ready core serves the device it lists.  Once [start] has made the core
    ready, the device list is the catalog's, at most one device of generation 1;
    and for every listed device the capability query succeeds for that very
    entity and generation, and every health query for it, whatever evidence and
    results have been stored since, is answered with an item of that entity,
    subsystem and generation. *)
Theorem core_device_served config p clock target c0 t1 t2 t3 :
  core_construct config p clock target = inr c0 ->
  let c := snd (core_start c0 t1 t2 t3) in
  core_state (sv_snapshot_ c) = CS_Ready ->
  let l := core_entities c EK_Device in
  accepted_code (st_code (elr_status l)) = true /\ elr_catalog_generation l = 1 /\
  elr_entities l = cv_entities_ (snapshot_ (sv_semantic_catalog_ c)) /\ zlen (elr_entities l) <= 1 /\
  forall e, e ∈ elr_entities l ->
    (exists set, core_capabilities c (ent_ref e) = (st_success, Some set) /\ cs_entity set = ent_ref e) /\
    forall dm request now, health_wf dm -> hq_entity request = ent_ref e ->
      hq_catalog_generation request = 0 \/ hq_catalog_generation request = elr_catalog_generation l -> 0 <= now ->
      let q := core_health (sv_with_data c dm (sv_metrics_manager_ c)) request now in
      accepted_code (st_code (hqr_status q)) = true /\
      exists item, hqr_item q = Some item /\ hr_entity item = ent_ref e /\
        hr_subsystem_id item = hq_subsystem_id request /\ hr_catalog_generation item = elr_catalog_generation l.
Proof.
  intros Hc. cbv zeta. intros Hr. destruct (core_start_started _ _ _ _ _ t1 t2 t3 Hc) as (_ & _ & Hrd & _).
  destruct (Hrd Hr) as [(V1 & V2 & V3) (G1 & G2 & G3) En _ _]. set (c := snd _) in *.
  assert (core_entities c EK_Device = cv_list (snapshot_ (sv_semantic_catalog_ c)) EK_Device) as ->
    by (unfold core_entities; by rewrite Hr, V1).
  set (view := snapshot_ (sv_semantic_catalog_ c)) in *.
  assert (elr_entities (cv_list view EK_Device) = cv_entities_ view) as Hl by (unfold cv_list; by rewrite V3).
  assert (elr_catalog_generation (cv_list view EK_Device) = 1) as Hg by (unfold cv_list; by rewrite V3).
  rewrite Hl, Hg. split_and!; [|done|done|apply (sw_shape _ V2)|].
  { unfold cv_list. rewrite V3. cbn. by destruct (existsb _ _). }
  intros e He. pose proof (single_entity _ e V2 He) as Hone. destruct (sw_entities _ V2 e He) as (h & _ & _ & Href). split.
  - unfold core_capabilities. fold view. rewrite Hr, V1. cbn [Z.eqb]. unfold cv_capabilities.
    rewrite (resolve_own view e) by (done || by rewrite Href). change (negb (st_ok st_success)) with false. cbv iota.
    destruct (sw_shape _ V2) as [_ Hsets]. fold view in Hsets, Hone. rewrite Hone in Hsets.
    destruct (cv_capability_sets_ view) as [|set [|]]; [done| |done]. injection Hsets as Hset. exists set.
    rewrite find_if_cons, bool_decide_true by done. done.
  - intros dm request now Hwf Hq Hgen Hn. unfold core_health.
    cbn [sv_with_data sv_snapshot_ sv_metrics_manager_ sv_data_manager_]. rewrite Hr, G1. cbn [Z.eqb].
    change (not_serving CS_Ready) with false. cbv iota.
    assert (active_entity (mm_runtime_ (sv_metrics_manager_ c)) = Some (ent_ref e)) as Ha
      by (unfold active_entity; rewrite G3, En; fold view in Hone |- *; by rewrite Hone).
    destruct (queryHealth_own (sv_metrics_manager_ c) request now dm (ent_ref e) Hwf Ha Hq ltac:(by rewrite G3) Hn)
      as ([Q1|Q1] & item & I1 & I2 & I3 & I4); rewrite Q1; (split; [done|]); exists item; by rewrite I4.
Qed.

(** ** The life of a core *)

Inductive core_op := OpStart (t_init t_discover t_health : Z) | OpStop.

Definition core_step (c : ServiceCore) (op : core_op) : ServiceCore :=
  match op with
  | OpStart t1 t2 t3 => snd (core_start c t1 t2 t3)
  | OpStop => snd (core_stop c)
  end.

Lemma core_start_once c t1 t2 t3 : core_state (sv_snapshot_ c) <> CS_Created -> snd (core_start c t1 t2 t3) = c.
Proof. intros Hne. unfold core_start. by rewrite bool_decide_false. Qed.

Definition settled (s : CoreState) : bool := (s !=? CS_Starting) && (s !=? CS_Stopping).

(** The states between two operations, after the operations [ops]. *)
Record life_ok (c0 c : ServiceCore) (ops : list core_op) : Prop := {
  lf_state : settled (core_state (sv_snapshot_ c)) = true;
  lf_created : core_state (sv_snapshot_ c) = CS_Created <-> ops = [];
  lf_start : ops = [] -> c = c0;
  lf_stopped : OpStop ∈ ops -> core_state (sv_snapshot_ c) = CS_Stopped;
  lf_shutdown : core_state (sv_snapshot_ c) = CS_Stopped ->
    pm_state_ (sv_provider_manager_ c) = PS_Shutdown /\ core_provider_state (sv_snapshot_ c) = PS_Shutdown }.

Lemma core_step_life config p clock target c0 c ops op :
  core_construct config p clock target = inr c0 -> life_ok c0 c ops -> life_ok c0 (core_step c op) (ops ++ [op]).
Proof.
  intros Hc [J1 J2 J3 J4 J5]. assert (ops ++ [op] <> []) as Hne by (by destruct ops). destruct op as [t1 t2 t3|]; cbn [core_step].
  - assert (OpStop ∈ ops ++ [OpStart t1 t2 t3] -> OpStop ∈ ops) as Hin
      by (intros [?|?%list_elem_of_singleton]%elem_of_app; done).
    destruct (decide (core_state (sv_snapshot_ c) = CS_Created)) as [Ec|Ec].
    + rewrite (J3 (proj1 J2 Ec)). destruct (core_start_started _ _ _ _ _ t1 t2 t3 Hc) as (S1 & _). cbv zeta in S1.
      rewrite (proj1 J2 Ec) in Hin |- *. apply list_elem_of_In in S1.
      destruct S1 as [S1|[S1|[S1|[]]]]; (split; rewrite <- ?S1; try done; by intros ?%Hin%elem_of_nil).
    + rewrite core_start_once by done. split; try done. intros ?. by apply J4, Hin.
  - unfold core_stop. guard as G; bprop in G; cbn [snd].
    + split; try done; [split; [congruence|done]].
    + split; try done. intros _. split; [|done].
      cbn [core_publish sv_with_snapshot sv_with_provider core_enter sv_provider_manager_]. unfold pm_shutdown.
      by guard as G2; bprop in G2.
Qed.

(** C22: Stopping is final.  However starts and stops are ordered, between two of
    them the core is never in a transient state; a start does nothing but in a
    newly constructed core; and once a stop has been made, the core stays
    stopped, its provider manager is shut down, and every query is refused as
    not initialised. *)
Theorem core_lifecycle config p clock target c0 ops :
  core_construct config p clock target = inr c0 ->
  let c := foldl core_step c0 ops in
  settled (core_state (sv_snapshot_ c)) = true /\
  (core_state (sv_snapshot_ c) = CS_Created <-> ops = []) /\
  (OpStop ∈ ops ->
     core_state (sv_snapshot_ c) = CS_Stopped /\ pm_state_ (sv_provider_manager_ c) = PS_Shutdown /\
     core_provider_state (sv_snapshot_ c) = PS_Shutdown /\
     forall kind entity request now,
       st_code (elr_status (core_entities c kind)) = PDCM_STATUS_NOT_INITIALIZED /\
       st_code (fst (core_capabilities c entity)) = PDCM_STATUS_NOT_INITIALIZED /\
       st_code (hqr_status (core_health c request now)) = PDCM_STATUS_NOT_INITIALIZED).
Proof.
  intros Hc. cbv zeta. destruct (core_construct_inv _ _ _ _ _ Hc) as (_ & _ & C3 & _).
  assert (life_ok c0 (foldl core_step c0 ops) ops) as [I1 I2 _ I3 I4].
  { induction ops as [|op ops IH] using rev_ind; [|rewrite foldl_app; by eapply core_step_life].
    cbn [foldl]. split; rewrite ?C3; try done. by intros ?%elem_of_nil. }
  set (c := foldl core_step c0 ops) in *. split; [done|]. split; [done|].
  intros Hin. destruct (I4 (I3 Hin)) as (A2 & A3). split_and!; try auto. intros *.
  unfold core_entities, core_capabilities, core_health. by rewrite (I3 Hin).
Qed.
End Service.

(** ** Witnesses *)

(** A provider with one device. *)
#[export] Instance sample_provider : Provider ProviderState := {|
  p_initialize := fun _ _ => (st_success, PS_Ready);
  p_shutdown := fun _ => PS_Shutdown;
  p_state := fun s => s;
  p_concurrency := fun _ => mkConcurrency 1 false;
  p_discover := fun s _ => (mkDiscovery st_success (sample_descriptor "boot-1"), s);
  p_batchRead := fun s _ => (mkReadResult st_success [], s) |}.

Definition sample_config : RuntimeConfig := mkRuntimeConfig TK_Emu limits_default 1000 5000.
Definition sample_core : ServiceCore (P := ProviderState) :=
  match core_construct sample_config (Some PS_Uninitialized) true sample_hb_target with
  | inr c => c
  | inl _ => mkService sample_config (mkProviderManager PS_Uninitialized PS_Uninitialized) sample_hb_target
               sample_catalog sample_empty (mm_construct []) core_snapshot_default
  end.
Lemma sample_core_eq : core_construct sample_config (Some PS_Uninitialized) true sample_hb_target = inr sample_core.
Proof. vm_compute. reflexivity. Qed.
Definition sample_ready : ServiceCore (P := ProviderState) := snd (core_start (H0 := sample_layout) sample_core 0 0 0).

Lemma core_start_outcome_witness :
  let r := core_start (H0 := sample_layout) sample_core 0 0 0 in
  core_state (sv_snapshot_ (snd r)) = CS_Ready /\ (st_ok (fst r) = true <-> core_state (sv_snapshot_ (snd r)) <> CS_Failed).
Proof.
  cbv zeta. split; [vm_compute; reflexivity|].
  apply (core_start_outcome (H0 := sample_layout) sample_config (Some PS_Uninitialized) true sample_hb_target).
  exact sample_core_eq.
Defined.

Lemma core_device_served_witness :
  let l := core_entities sample_ready EK_Device in
  map ent_ref (elr_entities l) = [mkEntityRef EK_Device 0 1] /\
  exists set, core_capabilities sample_ready (mkEntityRef EK_Device 0 1) = (st_success, Some set) /\
    cs_entity set = mkEntityRef EK_Device 0 1.
Proof.
  cbv zeta. assert (map ent_ref (elr_entities (core_entities sample_ready EK_Device)) = [mkEntityRef EK_Device 0 1]) as El
    by (vm_compute; reflexivity).
  split; [exact El|].
  pose proof (core_device_served (H0 := sample_layout) sample_config (Some PS_Uninitialized) true sample_hb_target sample_core
    0 0 0 sample_core_eq) as Ht. cbv zeta in Ht.
  destruct Ht as (_ & _ & _ & _ & Ht); [vm_compute; reflexivity|]. change (snd (core_start sample_core 0 0 0)) with sample_ready in Ht.
  destruct (elr_entities (core_entities sample_ready EK_Device)) as [|e es] eqn:Ee; [discriminate El|].
  injection El as He _. rewrite <- He. apply (Ht e). left.
Defined.

Lemma core_lifecycle_witness :
  let c := foldl (core_step (H0 := sample_layout)) sample_core [OpStart 0 0 0; OpStop; OpStart 1 1 1] in
  core_state (sv_snapshot_ c) = CS_Stopped /\ pm_state_ (sv_provider_manager_ c) = PS_Shutdown.
Proof.
  pose proof (core_lifecycle (H0 := sample_layout) sample_config (Some PS_Uninitialized) true sample_hb_target sample_core
    [OpStart 0 0 0; OpStop; OpStart 1 1 1] sample_core_eq) as Ht. cbv zeta in Ht |- *.
  destruct Ht as (_ & _ & Ht). destruct Ht as (T1 & T2 & _); [right; left|]. split; [exact T1|exact T2].
Defined.
