(* ===== verification/Protocol.v ===== *)
(** The messages of the local protocol
    (src/product/proto/local/v1/pdcm_local.proto) and the conversions of
    enumerations that the daemon's handlers (ipc/handshake.cpp,
    ipc/request_router.cpp) and the client (client/standalone_backend.cpp)
    share.

    A message is a record of its fields; an enumeration of proto3 is open, so a
    field of an enumeration type is a number, with the constants of the .proto
    file and the [IsValid] test of the generated code; a field of a message type
    is an option ([has_entity()]).  The serialiser and the parser that protoc
    generates are not part of the sources: they are the class [LocalProtocol],
    whose documented behaviour is the class [LocalProtocolLaws]: a message whose
    numbers fit their types and whose strings are valid UTF-8 is parsed back as
    it was serialised, and every ASCII string is valid UTF-8. *)
From S2P Require Import Prelude Containers Common Provider Session Catalog Frame Service.
Local Open Scope string_scope.
Local Open Scope list_scope.
Open Scope Z_scope.
Open Scope pdcm_scope.

(** ** Enumerations *)

(** [X_IsValid] of an enumeration whose constants are 0 to [max]. *)
Definition enum_valid (max v : Z) : bool := (0 <=? v) && (v <=? max).
Definition CoreState_IsValid : Z -> bool := enum_valid 7.
Definition ProviderState_IsValid : Z -> bool := enum_valid 4.
Definition ProviderFailurePhase_IsValid : Z -> bool := enum_valid 5.
Definition EntityKind_IsValid : Z -> bool := enum_valid 2.
Definition EntityState_IsValid : Z -> bool := enum_valid 2.
Definition ObservationStatus_IsValid : Z -> bool := enum_valid 5.
Definition CapabilityKind_IsValid : Z -> bool := enum_valid 3.
Definition CapabilityReason_IsValid : Z -> bool := enum_valid 8.
Definition HealthState_IsValid : Z -> bool := enum_valid 4.

Definition ENTITY_KIND_DEVICE : Z := 1.
Definition PROVIDER_STATE_UNINITIALIZED : Z := 1.
Definition PROVIDER_STATE_READY : Z := 2.

(** ** Messages *)

Record PbResourceLimits := mkPbLimits {
  wrl_max_outstanding_requests : Z; wrl_max_watches : Z; wrl_max_subscriptions : Z; wrl_max_frame_bytes : Z }.

Record HelloRequest := mkHello {
  whq_protocol_major : Z;
  whq_protocol_minor : Z;
  whq_client_library_version : string;
  whq_process_id : Z;
  whq_nonce : string;
  whq_requested_features : list string }.

Record HelloResponse := mkHelloResponse {
  whr_protocol_major : Z;
  whr_protocol_minor : Z;
  whr_session_id : Z;
  whr_daemon_version : string;
  whr_core_state : Z;
  whr_provider_state : Z;
  whr_provider_failure_phase : Z;
  whr_catalog_generation : Z;
  whr_detected_device_count : Z;
  whr_detail_status : Z;
  whr_limits : option PbResourceLimits }.

Record ErrorResponse := mkErrorResponse {
  wer_status : Z; wer_stable_reason : string; wer_supported_protocol_major : Z; wer_supported_protocol_minor : Z }.

Record PbEntityRef := mkPbEntityRef { wen_kind : Z; wen_pdcm_id : Z; wen_generation : Z }.

Record EntityListRequest := mkEntityListRequest { wel_kind : Z }.

Record EntityInfo := mkEntityInfo {
  wei_entity : option PbEntityRef;
  wei_state : Z;
  wei_item_status : Z;
  wei_native_id_status : Z;
  wei_pci_bdf_status : Z;
  wei_pdrv_version_status : Z;
  wei_native_id : string;
  wei_pci_bdf : string;
  wei_pdrv_version : string }.

Record EntityListResponse := mkEntityListResponse {
  wlr_status : Z; wlr_detected_device_count : Z; wlr_catalog_generation : Z; wlr_entities : list EntityInfo }.

Record CapabilityQueryRequest := mkCapabilityRequest { wcq_entity : option PbEntityRef }.

Record PbCapabilityItem := mkPbCapability {
  wci_kind : Z; wci_id : Z; wci_supported : bool; wci_reason : Z; wci_semantic_version : Z; wci_catalog_generation : Z }.

Record CapabilityQueryResponse := mkCapabilityResponse {
  wcr_status : Z; wcr_entity : option PbEntityRef; wcr_catalog_generation : Z; wcr_items : list PbCapabilityItem }.

Record HealthQueryRequest := mkHealthQueryRequest {
  whe_entity : option PbEntityRef; whe_subsystem_id : Z; whe_catalog_generation : Z; whe_max_age_ns : Z }.

Record HealthQueryResponse := mkHealthResponse {
  wht_status : Z;
  wht_entity : option PbEntityRef;
  wht_subsystem_id : Z;
  wht_state : Z;
  wht_item_status : Z;
  wht_code : Z;
  wht_catalog_generation : Z;
  wht_evaluated_monotonic_time_ns : Z;
  wht_evidence_age_ns : Z;
  wht_evidence_id : Z;
  wht_sequence_or_token : Z;
  wht_source : string;
  wht_limitations : list string }.

(** ** The generated code *)

Class Message (M : Type) := {
  SerializeAsString : M -> list Z;
  ParseFromArray : list Z -> option M }.

Class LocalProtocol := {
  pb_utf8 : string -> bool;
  pb_HelloRequest :: Message HelloRequest;
  pb_HelloResponse :: Message HelloResponse;
  pb_ErrorResponse :: Message ErrorResponse;
  pb_EntityListRequest :: Message EntityListRequest;
  pb_EntityListResponse :: Message EntityListResponse;
  pb_CapabilityQueryRequest :: Message CapabilityQueryRequest;
  pb_CapabilityQueryResponse :: Message CapabilityQueryResponse;
  pb_HealthQueryRequest :: Message HealthQueryRequest;
  pb_HealthQueryResponse :: Message HealthQueryResponse }.

Definition u32 (v : Z) : Prop := 0 <= v <= u32_max.
Definition u64 (v : Z) : Prop := 0 <= v <= u64_max.
Definition i32 (v : Z) : Prop := -2147483648 <= v <= 2147483647.
Definition i64 (v : Z) : Prop := -9223372036854775808 <= v <= i64_max.

Section Representable.
Context `{LocalProtocol}.

(** Messages that the serialiser represents: numbers within their types and
    strings in UTF-8. *)
Definition utf8 (s : string) : Prop := pb_utf8 s = true.

Definition limits_ok (l : PbResourceLimits) : Prop :=
  u32 (wrl_max_outstanding_requests l) /\ u32 (wrl_max_watches l) /\ u32 (wrl_max_subscriptions l) /\
  u32 (wrl_max_frame_bytes l).
Definition hello_ok (m : HelloRequest) : Prop :=
  u32 (whq_protocol_major m) /\ u32 (whq_protocol_minor m) /\ utf8 (whq_client_library_version m) /\
  u64 (whq_process_id m) /\ Forall utf8 (whq_requested_features m).
Definition hello_response_ok (m : HelloResponse) : Prop :=
  u32 (whr_protocol_major m) /\ u32 (whr_protocol_minor m) /\ u64 (whr_session_id m) /\ utf8 (whr_daemon_version m) /\
  i32 (whr_core_state m) /\ i32 (whr_provider_state m) /\ i32 (whr_provider_failure_phase m) /\
  u64 (whr_catalog_generation m) /\ u32 (whr_detected_device_count m) /\ i32 (whr_detail_status m) /\
  from_option limits_ok True (whr_limits m).
Definition error_ok (m : ErrorResponse) : Prop :=
  i32 (wer_status m) /\ utf8 (wer_stable_reason m) /\ u32 (wer_supported_protocol_major m) /\
  u32 (wer_supported_protocol_minor m).
Definition entity_ok (m : PbEntityRef) : Prop := i32 (wen_kind m) /\ u64 (wen_pdcm_id m) /\ u64 (wen_generation m).
Definition list_request_ok (m : EntityListRequest) : Prop := i32 (wel_kind m).
Definition entity_info_ok (m : EntityInfo) : Prop :=
  from_option entity_ok True (wei_entity m) /\ i32 (wei_state m) /\ i32 (wei_item_status m) /\
  i32 (wei_native_id_status m) /\ i32 (wei_pci_bdf_status m) /\ i32 (wei_pdrv_version_status m) /\
  utf8 (wei_native_id m) /\ utf8 (wei_pci_bdf m) /\ utf8 (wei_pdrv_version m).
Definition list_response_ok (m : EntityListResponse) : Prop :=
  i32 (wlr_status m) /\ u32 (wlr_detected_device_count m) /\ u64 (wlr_catalog_generation m) /\
  Forall entity_info_ok (wlr_entities m).
Definition capability_request_ok (m : CapabilityQueryRequest) : Prop := from_option entity_ok True (wcq_entity m).
Definition capability_ok (m : PbCapabilityItem) : Prop :=
  i32 (wci_kind m) /\ u32 (wci_id m) /\ i32 (wci_reason m) /\ u32 (wci_semantic_version m) /\ u64 (wci_catalog_generation m).
Definition capability_response_ok (m : CapabilityQueryResponse) : Prop :=
  i32 (wcr_status m) /\ from_option entity_ok True (wcr_entity m) /\ u64 (wcr_catalog_generation m) /\
  Forall capability_ok (wcr_items m).
Definition health_request_ok (m : HealthQueryRequest) : Prop :=
  from_option entity_ok True (whe_entity m) /\ u32 (whe_subsystem_id m) /\ u64 (whe_catalog_generation m) /\
  u64 (whe_max_age_ns m).
Definition health_response_ok (m : HealthQueryResponse) : Prop :=
  i32 (wht_status m) /\ from_option entity_ok True (wht_entity m) /\ u32 (wht_subsystem_id m) /\ i32 (wht_state m) /\
  i32 (wht_item_status m) /\ u32 (wht_code m) /\ u64 (wht_catalog_generation m) /\
  i64 (wht_evaluated_monotonic_time_ns m) /\ i64 (wht_evidence_age_ns m) /\ u64 (wht_evidence_id m) /\
  u64 (wht_sequence_or_token m) /\ utf8 (wht_source m) /\ Forall utf8 (wht_limitations m).

Definition ascii_string (s : string) : bool := forallb (fun c => ascii_code c <? 128) (String.list_ascii_of_string s).

(** The documented behaviour of the generated code. *)
Definition round_trips {M} `{Message M} (ok : M -> Prop) : Prop :=
  forall m, ok m -> Forall (fun b => 0 <= b < 256) (SerializeAsString m) /\ ParseFromArray (SerializeAsString m) = Some m.

Class LocalProtocolLaws : Prop := {
  pl_ascii : forall s, ascii_string s = true -> pb_utf8 s = true;
  pl_hello : round_trips hello_ok;
  pl_hello_response : round_trips hello_response_ok;
  pl_error : round_trips error_ok;
  pl_list : round_trips list_request_ok;
  pl_list_response : round_trips list_response_ok;
  pl_capability : round_trips capability_request_ok;
  pl_capability_response : round_trips capability_response_ok;
  pl_health : round_trips health_request_ok;
  pl_health_response : round_trips health_response_ok }.
End Representable.
Arguments LocalProtocolLaws : clear implicits.
Arguments LocalProtocolLaws {_}.

(** ** Conversions of the daemon *)

Definition toProtocolCoreState (s : CoreState) : Z :=
  match s with
  | CS_Created => 1 | CS_Starting => 2 | CS_Ready => 3 | CS_Degraded => 4 | CS_Failed => 5 | CS_Stopping => 6
  | CS_Stopped => 7
  end.
Definition toProtocolProviderState (s : ProviderState) : Z :=
  match s with PS_Uninitialized => 1 | PS_Ready => 2 | PS_Unavailable => 3 | PS_Shutdown => 4 end.
Definition toFailurePhase (r : CoreDegradedReason) : Z :=
  match r with
  | DR_ProviderUnavailable => 4
  | DR_DiscoveryFailed | DR_TopologyUnsupported => 5
  | DR_None => 0
  end.
Definition toProtocolEntityKind (k : EntityKind) : Z :=
  match k with EK_Device => 1 | EK_Node => 2 | EK_Unknown => 0 end.
Definition fromProtocolEntityKind (k : Z) : EntityKind :=
  if k =? 1 then EK_Device else if k =? 2 then EK_Node else EK_Unknown.
Definition toProtocolEntityState (s : EntityState) : Z :=
  match s with ES_Ready => 1 | ES_Error => 2 | ES_Unknown => 0 end.
Definition toProtocolStatus (s : ObservationStatus) : Z :=
  match s with OS_Valid => 1 | OS_Stale => 2 | OS_NotAvailable => 3 | OS_Unsupported => 4 | OS_Error => 5 end.
Definition toProtocolHealthState (s : HealthState) : Z :=
  match s with HS_Healthy => 1 | HS_Unknown => 2 | HS_Warning => 3 | HS_Error => 4 end.
Definition toProtocolCapabilityKind (k : CapabilityKind) : Z :=
  match k with CAP_MetricsCatalog => 1 | CAP_Metric => 2 | CAP_Health => 3 end.
Definition toProtocolReason (r : CapabilityReason) : Z :=
  match r with
  | CR_Supported => 1
  | CR_CatalogBlockedExternal => 2
  | CR_ProviderUnsupported => 3
  | CR_DependencyMissing => 4
  | CR_TemporarilyUnavailable => 5
  | CR_PermissionHidden => 6
  | CR_PostP0Disabled => 7
  | CR_TopologyUnsupported => 8
  end.
Definition fillEntityRef (e : EntityRef) : PbEntityRef :=
  mkPbEntityRef (toProtocolEntityKind (er_kind e)) (er_id e) (er_generation e).

(** [static_cast<std::uint32_t>] of a stable health code. *)
Definition health_code_value (c : StableHealthCode) : Z :=
  match c with
  | HC_HeartbeatOk => 0 | HC_HeartbeatWarning => 1 | HC_HeartbeatFault => 2 | HC_HeartbeatMissing => 3
  | HC_HeartbeatStale => 4 | HC_HeartbeatTimeout => 5 | HC_HeartbeatReadError => 6 | HC_HeartbeatUnsupported => 7
  | HC_ProviderUnavailable => 8 | HC_ProcessorError => 9
  end.

Definition INT_MAX : Z := 2147483647.

(** ** Error frames *)

Section ErrorFrame.
Context `{LocalProtocol}.

Definition error_message (status : pdcm_status_t) (stable_reason : string) : ErrorResponse :=
  mkErrorResponse (status_value status) stable_reason kProtocolMajor kProtocolMinor.

(** [HandshakeHandler::errorFrame] and [RequestRouter::errorFrame], which are
    the same. *)
Definition errorFrame (request_id : Z) (status : pdcm_status_t) (stable_reason : string) : Frame :=
  mkFrame kProtocolMajor kProtocolMinor kErrorResponse 0 request_id
    (SerializeAsString (error_message status stable_reason)).

Lemma status_value_i32 s : i32 (status_value s).
Proof. unfold i32. destruct s; cbn; lia. Qed.

Lemma error_message_ok `{!LocalProtocolLaws} status reason : ascii_string reason = true -> error_ok (error_message status reason).
Proof.
  intros Ha. split_and!; cbn; [apply status_value_i32|by apply pl_ascii|by vm_compute..].
Qed.
End ErrorFrame.
