(* ===== verification/Codec.v ===== *)
(** A concrete encoding of the protocol messages.

    The development treats protoc's code as the class [LocalProtocol] with the
    laws [LocalProtocolLaws]; this file shows that the laws can hold, by an
    encoder built from combinators, each with its round trip.  It is not the
    wire format of protobuf and nothing but the witnesses uses it. *)
From S2P Require Import Prelude Containers Common Provider Session Catalog Frame Service Protocol.
Local Open Scope list_scope.
Open Scope Z_scope.
Open Scope pdcm_scope.

(** An encoder whose output can be followed by anything. *)
Record ser (A : Type) := mkSer {
  put : A -> list Z;
  get : list Z -> option (A * list Z);
  get_put : forall a rest, get (put a ++ rest) = Some (a, rest);
  put_bytes : forall a, Forall (fun b => 0 <= b < 256) (put a) }.
Arguments put {_} _ _.
Arguments get {_} _ _.
Arguments get_put {_} _ _ _.
Arguments put_bytes {_} _ _.

Fixpoint put_pos (p : positive) : list Z :=
  match p with xH => [0] | xO p => 1 :: put_pos p | xI p => 2 :: put_pos p end.
Fixpoint get_pos (l : list Z) : option (positive * list Z) :=
  match l with
  | 0 :: l => Some (xH, l)
  | 1 :: l => match get_pos l with Some (p, r) => Some (xO p, r) | None => None end
  | 2 :: l => match get_pos l with Some (p, r) => Some (xI p, r) | None => None end
  | _ => None
  end.

Lemma get_put_pos p rest : get_pos (put_pos p ++ rest) = Some (p, rest).
Proof. induction p as [p IH|p IH|]; cbn; by rewrite ?IH. Qed.
Lemma put_pos_bytes p : Forall (fun b => 0 <= b < 256) (put_pos p).
Proof. induction p; cbn; repeat constructor; done || lia. Qed.

Definition put_Z (z : Z) : list Z :=
  match z with Z0 => [0] | Zpos p => 1 :: put_pos p | Zneg p => 2 :: put_pos p end.
Definition get_Z (l : list Z) : option (Z * list Z) :=
  match l with
  | 0 :: l => Some (0, l)
  | 1 :: l => match get_pos l with Some (p, r) => Some (Zpos p, r) | None => None end
  | 2 :: l => match get_pos l with Some (p, r) => Some (Zneg p, r) | None => None end
  | _ => None
  end.

Lemma get_put_Z z rest : get_Z (put_Z z ++ rest) = Some (z, rest).
Proof. destruct z; cbn; by rewrite ?get_put_pos. Qed.
Lemma put_Z_bytes z : Forall (fun b => 0 <= b < 256) (put_Z z).
Proof. destruct z; cbn; repeat constructor; try lia; apply put_pos_bytes. Qed.
Definition ser_Z : ser Z := mkSer Z put_Z get_Z get_put_Z put_Z_bytes.

(** Images under a function with a left inverse. *)
Lemma get_put_map {A B} (s : ser A) (f : B -> A) (g : A -> option B) (Hfg : forall b, g (f b) = Some b) b rest :
  match get s (put s (f b) ++ rest) with
  | Some (a, r) => match g a with Some b => Some (b, r) | None => None end
  | None => None
  end = Some (b, rest).
Proof. by rewrite get_put, Hfg. Qed.
Definition ser_map {A B} (s : ser A) (f : B -> A) (g : A -> option B) (Hfg : forall b, g (f b) = Some b) : ser B :=
  mkSer B (fun b => put s (f b))
    (fun l => match get s l with
              | Some (a, r) => match g a with Some b => Some (b, r) | None => None end
              | None => None end)
    (get_put_map s f g Hfg) (fun b => put_bytes s (f b)).

Lemma get_put_pair {A B} (s : ser A) (t : ser B) (x : A * B) rest :
  match get s ((put s x.1 ++ put t x.2) ++ rest) with
  | Some (a, r) => match get t r with Some (b, r') => Some ((a, b), r') | None => None end
  | None => None
  end = Some (x, rest).
Proof. destruct x. by rewrite <- app_assoc, get_put, get_put. Qed.
Lemma put_pair_bytes {A B} (s : ser A) (t : ser B) (x : A * B) : Forall (fun b => 0 <= b < 256) (put s x.1 ++ put t x.2).
Proof. apply Forall_app. split; apply put_bytes. Qed.
Definition ser_pair {A B} (s : ser A) (t : ser B) : ser (A * B) :=
  mkSer (A * B) (fun x => put s x.1 ++ put t x.2)
    (fun l => match get s l with
              | Some (a, r) => match get t r with Some (b, r') => Some ((a, b), r') | None => None end
              | None => None end)
    (get_put_pair s t) (put_pair_bytes s t).

(** Lists, each element behind a mark. *)
Fixpoint put_list {A} (s : ser A) (l : list A) : list Z :=
  match l with [] => [0] | x :: l => 1 :: put s x ++ put_list s l end.
Fixpoint get_list {A} (s : ser A) (fuel : nat) (l : list Z) : option (list A * list Z) :=
  match fuel, l with
  | _, 0 :: l => Some ([], l)
  | S fuel, 1 :: l =>
      match get s l with
      | Some (x, r) => match get_list s fuel r with Some (xs, r') => Some (x :: xs, r') | None => None end
      | None => None
      end
  | _, _ => None
  end.

Lemma get_put_list_fuel {A} (s : ser A) l fuel rest : (length l <= fuel)%nat ->
  get_list s fuel (put_list s l ++ rest) = Some (l, rest).
Proof.
  revert fuel. induction l as [|x l IH]; intros fuel Hf; [by destruct fuel|]. destruct fuel as [|fuel]; [cbn in Hf; lia|].
  cbn [put_list app get_list]. rewrite <- app_assoc, get_put, IH; [done|cbn in Hf; lia].
Qed.
Lemma put_list_length {A} (s : ser A) l : (length l <= length (put_list s l))%nat.
Proof. induction l as [|x l IH]; cbn; [lia|]. rewrite length_app. lia. Qed.
Lemma get_put_list {A} (s : ser A) l rest :
  get_list s (length (put_list s l ++ rest)) (put_list s l ++ rest) = Some (l, rest).
Proof. apply get_put_list_fuel. rewrite length_app. pose proof (put_list_length s l). lia. Qed.
Lemma put_list_bytes {A} (s : ser A) l : Forall (fun b => 0 <= b < 256) (put_list s l).
Proof.
  induction l as [|x l IH]; cbn [put_list]; [repeat constructor; lia|]. constructor; [lia|]. apply Forall_app.
  split; [apply put_bytes|done].
Qed.
Definition ser_list {A} (s : ser A) : ser (list A) :=
  mkSer (list A) (put_list s) (fun l => get_list s (length l) l) (get_put_list s) (put_list_bytes s).

Definition ser_ascii : ser Ascii.ascii :=
  ser_map ser_Z (fun c => ascii_code c) (fun z => Some (Ascii.ascii_of_N (Z.to_N z)))
    (fun c => f_equal Some (eq_trans (f_equal Ascii.ascii_of_N (N2Z.id _)) (Ascii.ascii_N_embedding c))).
Definition ser_string : ser string :=
  ser_map (ser_list ser_ascii) String.list_ascii_of_string (fun l => Some (String.string_of_list_ascii l))
    (fun s => f_equal Some (String.string_of_list_ascii_of_string s)).
Definition ser_bool : ser bool :=
  ser_map ser_Z (fun b : bool => if b then 1 else 0) (fun z => Some (z =? 1))
    (fun b => match b with true => eq_refl | false => eq_refl end).
Definition ser_option {A} (s : ser A) : ser (option A) :=
  ser_map (ser_list s) (fun o => match o with Some a => [a] | None => [] end) (fun l => Some (head l))
    (fun o => match o with Some _ => eq_refl | None => eq_refl end).

(** ** The messages *)

Definition ser_limits : ser PbResourceLimits :=
  ser_map (ser_list ser_Z)
    (fun m => [wrl_max_outstanding_requests m; wrl_max_watches m; wrl_max_subscriptions m; wrl_max_frame_bytes m])
    (fun l => match l with [a; b; c; d] => Some (mkPbLimits a b c d) | _ => None end)
    (fun m => match m with mkPbLimits _ _ _ _ => eq_refl end).
Definition ser_hello : ser HelloRequest :=
  ser_map (ser_pair (ser_list ser_Z) (ser_list ser_string))
    (fun m => ([whq_protocol_major m; whq_protocol_minor m; whq_process_id m],
               whq_client_library_version m :: whq_nonce m :: whq_requested_features m))
    (fun x => match x with ([a; b; c], v :: n :: fs) => Some (mkHello a b v c n fs) | _ => None end)
    (fun m => match m with mkHello _ _ _ _ _ _ => eq_refl end).
Definition ser_hello_response : ser HelloResponse :=
  ser_map (ser_pair (ser_list ser_Z) (ser_pair ser_string (ser_option ser_limits)))
    (fun m => ([whr_protocol_major m; whr_protocol_minor m; whr_session_id m; whr_core_state m; whr_provider_state m;
                whr_provider_failure_phase m; whr_catalog_generation m; whr_detected_device_count m; whr_detail_status m],
               (whr_daemon_version m, whr_limits m)))
    (fun x => match x with
              | ([a; b; c; d; e; f; g; h; i], (v, l)) => Some (mkHelloResponse a b c v d e f g h i l)
              | _ => None end)
    (fun m => match m with mkHelloResponse _ _ _ _ _ _ _ _ _ _ _ => eq_refl end).
Definition ser_error : ser ErrorResponse :=
  ser_map (ser_pair (ser_list ser_Z) ser_string)
    (fun m => ([wer_status m; wer_supported_protocol_major m; wer_supported_protocol_minor m], wer_stable_reason m))
    (fun x => match x with ([a; b; c], s) => Some (mkErrorResponse a s b c) | _ => None end)
    (fun m => match m with mkErrorResponse _ _ _ _ => eq_refl end).
Definition ser_entity : ser PbEntityRef :=
  ser_map (ser_list ser_Z) (fun m => [wen_kind m; wen_pdcm_id m; wen_generation m])
    (fun l => match l with [a; b; c] => Some (mkPbEntityRef a b c) | _ => None end)
    (fun m => match m with mkPbEntityRef _ _ _ => eq_refl end).
Definition ser_list_request : ser EntityListRequest :=
  ser_map ser_Z wel_kind (fun k => Some (mkEntityListRequest k)) (fun m => match m with mkEntityListRequest _ => eq_refl end).
Definition ser_entity_info : ser EntityInfo :=
  ser_map (ser_pair (ser_option ser_entity) (ser_pair (ser_list ser_Z) (ser_list ser_string)))
    (fun m => (wei_entity m, ([wei_state m; wei_item_status m; wei_native_id_status m; wei_pci_bdf_status m;
                               wei_pdrv_version_status m], [wei_native_id m; wei_pci_bdf m; wei_pdrv_version m])))
    (fun x => match x with (e, ([a; b; c; d; f], [s; t; u])) => Some (mkEntityInfo e a b c d f s t u) | _ => None end)
    (fun m => match m with mkEntityInfo _ _ _ _ _ _ _ _ _ => eq_refl end).
Definition ser_list_response : ser EntityListResponse :=
  ser_map (ser_pair (ser_list ser_Z) (ser_list ser_entity_info))
    (fun m => ([wlr_status m; wlr_detected_device_count m; wlr_catalog_generation m], wlr_entities m))
    (fun x => match x with ([a; b; c], es) => Some (mkEntityListResponse a b c es) | _ => None end)
    (fun m => match m with mkEntityListResponse _ _ _ _ => eq_refl end).
Definition ser_capability_request : ser CapabilityQueryRequest :=
  ser_map (ser_option ser_entity) wcq_entity (fun e => Some (mkCapabilityRequest e))
    (fun m => match m with mkCapabilityRequest _ => eq_refl end).
Definition ser_capability : ser PbCapabilityItem :=
  ser_map (ser_pair (ser_list ser_Z) ser_bool)
    (fun m => ([wci_kind m; wci_id m; wci_reason m; wci_semantic_version m; wci_catalog_generation m], wci_supported m))
    (fun x => match x with ([a; b; c; d; e], s) => Some (mkPbCapability a b s c d e) | _ => None end)
    (fun m => match m with mkPbCapability _ _ _ _ _ _ => eq_refl end).
Definition ser_capability_response : ser CapabilityQueryResponse :=
  ser_map (ser_pair (ser_list ser_Z) (ser_pair (ser_option ser_entity) (ser_list ser_capability)))
    (fun m => ([wcr_status m; wcr_catalog_generation m], (wcr_entity m, wcr_items m)))
    (fun x => match x with ([a; b], (e, is_)) => Some (mkCapabilityResponse a e b is_) | _ => None end)
    (fun m => match m with mkCapabilityResponse _ _ _ _ => eq_refl end).
Definition ser_health_request : ser HealthQueryRequest :=
  ser_map (ser_pair (ser_option ser_entity) (ser_list ser_Z))
    (fun m => (whe_entity m, [whe_subsystem_id m; whe_catalog_generation m; whe_max_age_ns m]))
    (fun x => match x with (e, [a; b; c]) => Some (mkHealthQueryRequest e a b c) | _ => None end)
    (fun m => match m with mkHealthQueryRequest _ _ _ _ => eq_refl end).
Definition ser_health_response : ser HealthQueryResponse :=
  ser_map (ser_pair (ser_option ser_entity) (ser_pair (ser_list ser_Z) (ser_list ser_string)))
    (fun m => (wht_entity m, ([wht_status m; wht_subsystem_id m; wht_state m; wht_item_status m; wht_code m;
       wht_catalog_generation m; wht_evaluated_monotonic_time_ns m; wht_evidence_age_ns m; wht_evidence_id m;
       wht_sequence_or_token m], wht_source m :: wht_limitations m)))
    (fun x => match x with
              | (e, ([a; b; c; d; f; g; h; i; j; k], s :: ls)) => Some (mkHealthResponse a e b c d f g h i j k s ls)
              | _ => None end)
    (fun m => match m with mkHealthResponse _ _ _ _ _ _ _ _ _ _ _ _ _ => eq_refl end).

Definition message_of {M} (s : ser M) : Message M := {|
  SerializeAsString := put s;
  ParseFromArray := fun l => match get s l with Some (m, []) => Some m | _ => None end |}.

Lemma message_of_round_trips {M} (s : ser M) (ok : M -> Prop) : @round_trips M (message_of s) ok.
Proof.
  intros m _. split; [apply put_bytes|]. cbn. pose proof (get_put s m []) as Hg. rewrite app_nil_r in Hg. by rewrite Hg.
Qed.

Definition sample_protocol : LocalProtocol := {|
  pb_utf8 := fun _ => true;
  pb_HelloRequest := message_of ser_hello;
  pb_HelloResponse := message_of ser_hello_response;
  pb_ErrorResponse := message_of ser_error;
  pb_EntityListRequest := message_of ser_list_request;
  pb_EntityListResponse := message_of ser_list_response;
  pb_CapabilityQueryRequest := message_of ser_capability_request;
  pb_CapabilityQueryResponse := message_of ser_capability_response;
  pb_HealthQueryRequest := message_of ser_health_request;
  pb_HealthQueryResponse := message_of ser_health_response |}.

(** The laws hold for the sample encoding. *)
Lemma sample_protocol_laws : @LocalProtocolLaws sample_protocol.
Proof. split; try done; apply message_of_round_trips. Qed.
