(* ===== verification/Handshake.v ===== *)
(** The handshake of a connection (src/product/src/ipc/handshake.hpp and
    handshake.cpp): the checks of the first message, the creation of the
    session, and the response that describes the core. *)
From S2P Require Import Prelude Containers Common Provider Session Catalog Frame Service Protocol Codec.
Local Open Scope string_scope.
Local Open Scope list_scope.
Open Scope Z_scope.
Open Scope pdcm_scope.

Record HandshakeResult := mkHandshake {
  hs_status : Status; hs_response : Frame; hs_session_id : option Z; hs_close_connection : bool }.

Definition narrowLimit (v : Z) : Z := Z.min v u32_max.

(** [size()] of a string outside an acceptable range. *)
Definition hello_fields_bad (hello : HelloRequest) (peer : PeerIdentity) : bool :=
  str_empty (whq_client_library_version hello) || (64 <? str_size (whq_client_library_version hello))
  || (str_size (whq_nonce hello) <? 16) || (64 <? str_size (whq_nonce hello))
  || (32 <? zlen (whq_requested_features hello))
  || (negb (process_id peer =? 0) && negb (whq_process_id hello =? process_id peer)).
Definition feature_bad (feature : string) : bool := str_empty feature || (64 <? str_size feature).

Section Handshake.
Context `{LocalProtocol}.

Definition hello_response (request : Frame) (hello : HelloRequest) (core : CoreSnapshot) (limits : ResourceLimits)
    (session : Z) : HelloResponse :=
  mkHelloResponse kProtocolMajor
    (Z.min (Z.min kProtocolMinor (whq_protocol_minor hello)) (protocol_minor request))
    session "0.1.0" (toProtocolCoreState (core_state core)) (toProtocolProviderState (core_provider_state core))
    (toFailurePhase (core_degraded_reason core)) (core_catalog_generation core) (core_detected_device_count core)
    (status_value (core_detail_status core))
    (Some (mkPbLimits (narrowLimit (max_outstanding_requests_per_session limits))
             (narrowLimit (max_watches_per_session limits)) (narrowLimit (max_subscriptions_per_session limits))
             (narrowLimit (lim_max_frame_bytes limits)))).

Definition handle (sessions : SessionManager) (request : Frame) (core : CoreSnapshot) (limits : ResourceLimits)
    (peer : PeerIdentity) : HandshakeResult * SessionManager :=
  let refused status reason m :=
    (mkHandshake status (errorFrame (request_id request) (st_code status) reason) None true, m) in
  if negb (message_type request =? kHelloRequest)
  then refused (invalid_argument "first message must be hello") "EXPECTED_HELLO" sessions
  else if INT_MAX <? zlen (payload request)
  then refused (invalid_argument "hello payload is too large") "HELLO_PAYLOAD_TOO_LARGE" sessions
  else
  match ParseFromArray (M := HelloRequest) (payload request) with
  | None => refused (invalid_argument "malformed hello payload") "MALFORMED_HELLO" sessions
  | Some hello =>
      if negb (protocol_major request =? kProtocolMajor) || negb (whq_protocol_major hello =? kProtocolMajor)
         || negb (whq_protocol_major hello =? protocol_major request)
      then refused (mkStatus PDCM_STATUS_PROTOCOL_INCOMPATIBLE "protocol major is incompatible")
             "INCOMPATIBLE_PROTOCOL_MAJOR" sessions
      else if hello_fields_bad hello peer
      then refused (invalid_argument "invalid hello fields") "INVALID_HELLO_FIELDS" sessions
      else if existsb feature_bad (whq_requested_features hello)
      then refused (invalid_argument "invalid requested feature") "INVALID_HELLO_FEATURE" sessions
      else
      let '(created, id, m1) := beginHandshake sessions peer in
      if negb (st_ok created) then refused created "SESSION_CAPACITY_UNAVAILABLE" m1
      else
      let '(activated, m2) := activate m1 id in
      if negb (st_ok activated) then refused activated "SESSION_ACTIVATION_FAILED" (snd (sm_close m2 id))
      else
      let response := hello_response request hello core limits id in
      (mkHandshake st_success
         (mkFrame kProtocolMajor (whr_protocol_minor response mod 65536) kHelloResponse 0 (request_id request)
            (SerializeAsString response)) (Some id) false, m2)
  end.

(** ** Specification *)

(** A hello that this daemon accepts. *)
Record hello_acceptable (request : Frame) (peer : PeerIdentity) (hello : HelloRequest) : Prop := {
  ha_type : message_type request = kHelloRequest;
  ha_size : zlen (payload request) <= INT_MAX;
  ha_parsed : ParseFromArray (payload request) = Some hello;
  ha_major : protocol_major request = kProtocolMajor /\ whq_protocol_major hello = kProtocolMajor;
  ha_version : 1 <= str_size (whq_client_library_version hello) <= 64;
  ha_nonce : 16 <= str_size (whq_nonce hello) <= 64;
  ha_features : zlen (whq_requested_features hello) <= 32 /\
    Forall (fun f => 1 <= str_size f <= 64) (whq_requested_features hello);
  ha_peer : process_id peer = 0 \/ whq_process_id hello = process_id peer }.

Definition has_capacity (m : SessionManager) : Prop :=
  draining_ m = false /\ sm_size m < max_sessions (sm_limits_ m) /\ next_session_id_ m <> 0.

Lemma str_size_empty s : str_empty s = false <-> 1 <= str_size s.
Proof. unfold str_size. destruct s; cbn [str_empty String.length]; (split; [intros ?|intros ?]); done || lia. Qed.

Lemma feature_bad_false f : feature_bad f = false <-> 1 <= str_size f <= 64.
Proof. unfold feature_bad. rewrite orb_false_iff, str_size_empty, Z.ltb_ge. lia. Qed.

Lemma hello_fields_ok hello peer : hello_fields_bad hello peer = false <->
  1 <= str_size (whq_client_library_version hello) <= 64 /\ 16 <= str_size (whq_nonce hello) <= 64 /\
  zlen (whq_requested_features hello) <= 32 /\ (process_id peer = 0 \/ whq_process_id hello = process_id peer).
Proof.
  unfold hello_fields_bad. rewrite !orb_false_iff, str_size_empty, !Z.ltb_ge, andb_false_iff, !negb_false_iff, !Z.eqb_eq.
  lia.
Qed.

(** A new session is activated. *)
Lemma begin_activate m peer : sm_wf m -> has_capacity m ->
  let r := beginHandshake m peer in
  let id := next_session_id_ m in
  r.1 = (st_success, id) /\ sessions_ m !! id = None /\
  activate r.2 id = (st_success, mkSessionManager (sm_limits_ m)
    (<[id := mkSession id SS_Active peer counters_zero]> (sessions_ m))
    (if id =? u64_max then 0 else id + 1) false).
Proof.
  intros Hwf (Hd & Hs & Hn). cbv zeta. unfold beginHandshake.
  rewrite Hd, (proj2 (Z.leb_gt _ _)), (proj2 (Z.eqb_neq _ _)) by done. cbv zeta. cbn [fst snd].
  assert (sessions_ m !! next_session_id_ m = None) as Hnone.
  { destruct (sessions_ m !! next_session_id_ m) as [s|] eqn:E; [|done].
    pose proof (mw_sessions m Hwf _ _ E) as Hw. destruct (sw_issued _ _ _ Hw). lia. }
  rewrite Hnone. split_and!; [done|done|]. unfold activate. cbn [sessions_ draining_]. rewrite lookup_insert_eq.
  cbn [ss_state ss_with_state]. rewrite bool_decide_true by done. cbn [negb orb]. f_equal.
  unfold sm_with_sessions. cbn. by rewrite insert_insert_eq.
Qed.

Lemma begin_refused m peer : ~ has_capacity m ->
  st_ok (beginHandshake m peer).1.1 = false /\ (beginHandshake m peer).2 = m.
Proof.
  intros Hc. unfold beginHandshake. destruct (draining_ m) eqn:E1; [done|].
  guard as G1; [done|]. bprop in G1. guard as G2; [done|]. bprop in G2. destruct Hc. split_and!; done || lia.
Qed.

Local Ltac refused := eexists _, _; split; [|reflexivity]; done.

(** Either everything is acceptable, or the connection is refused. *)
Lemma handle_cases m request core limits peer : sm_wf m ->
  let id := next_session_id_ m in
  let next := if id =? u64_max then 0 else id + 1 in
  (exists hello, hello_acceptable request peer hello /\ has_capacity m /\
     handle m request core limits peer =
     let response := hello_response request hello core limits id in
     (mkHandshake st_success
        (mkFrame kProtocolMajor (whr_protocol_minor response mod 65536) kHelloResponse 0 (request_id request)
           (SerializeAsString response)) (Some id) false,
      mkSessionManager (sm_limits_ m) (<[id := mkSession id SS_Active peer counters_zero]> (sessions_ m)) next false)) \/
  (~ ((exists hello, hello_acceptable request peer hello) /\ has_capacity m) /\
   exists status reason, st_ok status = false /\
     handle m request core limits peer =
     (mkHandshake status (errorFrame (request_id request) (st_code status) reason) None true, m)).
Proof.
  intros Hwf. cbv zeta. unfold handle. cbv zeta.
  guard as G1; bprop in G1; [right; split; [intros [[hello []] _]; done|refused]|].
  guard as G2; bprop in G2; [right; split; [intros [[hello []] _]; lia|refused]|].
  destruct (ParseFromArray (payload request)) as [hello|] eqn:Ep;
    [|right; split; [intros [[hello []] _]; congruence|refused]].
  assert (forall hello', hello_acceptable request peer hello' -> hello' = hello) as Hsame
    by (intros hello' []; congruence).
  guard as G3; bprop in G3.
  { right. split; [|refused]. intros [[h' Ha] _]. rewrite (Hsame h' Ha) in Ha. destruct (ha_major _ _ _ Ha) as [A1 A2].
    destruct G3 as [[?|?]|?]; congruence. }
  guard as G4.
  { right. split; [|refused]. intros [[h' Ha] _]. rewrite (Hsame h' Ha) in Ha. destruct Ha as [_ _ _ _ A1 A2 [A3 _] A4].
    assert (hello_fields_bad hello peer = false) by (by apply hello_fields_ok). congruence. }
  apply hello_fields_ok in G4 as (F1 & F2 & F3 & F4).
  guard as G5.
  { right. split; [|refused]. intros [[h' Ha] _]. rewrite (Hsame h' Ha) in Ha. destruct Ha as [_ _ _ _ _ _ [_ A3] _].
    apply existsb_elem in G5 as (f & Hf & Hbad). rewrite Forall_forall in A3. apply A3, feature_bad_false in Hf. congruence. }
  assert (hello_acceptable request peer hello) as Hacc.
  { destruct G3 as [[? ?] ?]. split; try done. split; [done|]. apply Forall_forall. intros f Hf.
    apply feature_bad_false. destruct (feature_bad f) eqn:E; [|done].
    assert (existsb feature_bad (whq_requested_features hello) = true) by (apply existsb_elem; by exists f). congruence. }
  destruct (decide (draining_ m = false /\ sm_size m < max_sessions (sm_limits_ m) /\ next_session_id_ m <> 0)) as [Hc|Hc].
  - left. exists hello. destruct (begin_activate m peer Hwf Hc) as (B1 & B2 & B3). cbv zeta in *.
    destruct (beginHandshake m peer) as [[created id] m1]. cbn [fst snd] in *. injection B1 as -> ->.
    change (negb (st_ok st_success)) with false. cbv iota. rewrite B3. done.
  - right. split; [by intros [_ ?]|]. destruct (begin_refused m peer Hc) as [B1 B2].
    destruct (beginHandshake m peer) as [[created id] m1]. cbn [fst snd] in *. rewrite B1, B2. cbn [negb]. refused.
Qed.

(** ** Theorem *)

(** The handshake admits exactly the acceptable clients.  It succeeds exactly
    when the first frame is an acceptable hello and the session manager has
    capacity.  Then one session is added, active, with the peer's identity and
    no resources, under an identifier not used before, and the response carries
    that session, the negotiated minor version and the state of the core.
    Otherwise the session manager is left as it was, the answer is an error
    frame for the same request and the connection is to be closed. *)
Theorem handshake_exact m request core limits peer :
  sm_wf m ->
  let r := fst (handle m request core limits peer) in
  let m' := snd (handle m request core limits peer) in
  let id := next_session_id_ m in
  (st_ok (hs_status r) = true <-> (exists hello, hello_acceptable request peer hello) /\ has_capacity m) /\
  (forall hello, hello_acceptable request peer hello -> has_capacity m ->
     hs_session_id r = Some id /\ hs_close_connection r = false /\ sessions_ m !! id = None /\
     sessions_ m' = <[id := mkSession id SS_Active peer counters_zero]> (sessions_ m) /\
     message_type (hs_response r) = kHelloResponse /\ request_id (hs_response r) = request_id request /\
     payload (hs_response r) = SerializeAsString (hello_response request hello core limits id)) /\
  (st_ok (hs_status r) = false ->
     m' = m /\ hs_session_id r = None /\ hs_close_connection r = true /\
     exists reason, hs_response r = errorFrame (request_id request) (st_code (hs_status r)) reason).
Proof.
  intros Hwf. cbv zeta. destruct (handle_cases m request core limits peer Hwf) as
    [(hello & Ha & Hc & ->)|(Hn & status & reason & Hs & ->)]; cbv zeta; cbn [fst snd hs_status hs_session_id hs_close_connection hs_response sessions_].
  - split_and!; [|intros hello' Ha' _|done].
    + split; [|done]. intros _. split; [by exists hello|done].
    + assert (hello' = hello) as -> by (destruct Ha, Ha'; congruence).
      destruct (begin_activate m peer Hwf Hc) as (_ & B2 & _). done.
  - rewrite Hs. split_and!; [|intros hello Ha Hc; exfalso; apply Hn; split; [by exists hello|done]|].
    + split; [done|]. intros ?. by exfalso.
    + intros _. split_and!; try done. by exists reason.
Qed.
End Handshake.

(** ** Witness *)

Definition sample_hello : HelloRequest := mkHello 1 0 "0.1.0" 4242 "0123456789abcdef" [].
Definition sample_hello_frame : Frame :=
  mkFrame kProtocolMajor kProtocolMinor kHelloRequest 0 1 (SerializeAsString (Message := pb_HelloRequest (LocalProtocol := sample_protocol)) sample_hello).

Lemma handshake_exact_witness :
  let p := sample_protocol in
  let peer := mkPeer 1000 1000 4242 in
  let r := handle (H := p) (sm_init limits_default) sample_hello_frame core_snapshot_default limits_default peer in
  hs_session_id (fst r) = Some 1 /\ sessions_ (snd r) !! 1 = Some (mkSession 1 SS_Active peer counters_zero).
Proof.
  cbv zeta.
  pose proof (handshake_exact (H := sample_protocol) (sm_init limits_default) sample_hello_frame core_snapshot_default
    limits_default (mkPeer 1000 1000 4242) (sm_init_wf limits_default ltac:(by repeat split))) as Ht. cbv zeta in Ht. destruct Ht as (_ & Ht & _).
  destruct (Ht sample_hello) as (T1 & _ & _ & T2 & _).
  - split; [reflexivity|vm_compute; discriminate|vm_compute; reflexivity|split; reflexivity| | |split; [vm_compute; discriminate|constructor]|right; reflexivity];
      vm_compute; split; discriminate.
  - split; [reflexivity|split; [vm_compute; reflexivity|discriminate]].
  - split; [exact T1|]. rewrite T2. vm_compute. reflexivity.
Defined.
