(* ===== verification/Router.v ===== *)
(** The router of requests (src/product/src/ipc/request_router.hpp and .cpp):
    a frame of a connection whose handshake is complete is answered from the
    service core, or with an error frame. *)
From S2P Require Import Prelude Containers Common Provider Session Catalog Frame EventStore DataStore HealthStore ProcessorGraph Metrics Service Protocol Codec.
Local Open Scope string_scope.
Local Open Scope list_scope.
Open Scope Z_scope.
Open Scope pdcm_scope.

Record RequestRouteResult := mkRoute { rr_response : Frame; rr_close_connection : bool }.

Definition responseFrame (request : Frame) (type : Z) (serialized : list Z) : Frame :=
  mkFrame kProtocolMajor (Z.min (protocol_minor request) kProtocolMinor) type 0 (request_id request) serialized.

Definition validRequestPayload (request : Frame) : bool := zlen (payload request) <=? INT_MAX.

(** ** The messages of the answers *)

Definition entity_info (e : EntityRecord) : EntityInfo :=
  mkEntityInfo (Some (fillEntityRef (ent_ref e))) (toProtocolEntityState (ent_state e))
    (status_value (ent_item_status e)) (toProtocolStatus (sa_status (ent_native_id e)))
    (toProtocolStatus (sa_status (ent_pci_bdf e))) (toProtocolStatus (sa_status (ent_pdrv_version e)))
    (sa_value (ent_native_id e)) (sa_value (ent_pci_bdf e)) (sa_value (ent_pdrv_version e)).
Definition entity_list_message (result : EntityListResult) : EntityListResponse :=
  mkEntityListResponse (status_value (st_code (elr_status result))) (elr_detected_device_count result)
    (elr_catalog_generation result) (map entity_info (elr_entities result)).

Definition capability_item_message (item : CapabilityItem) : PbCapabilityItem :=
  mkPbCapability (toProtocolCapabilityKind (cap_kind item)) (cap_id item) (cap_supported item)
    (toProtocolReason (cap_reason item)) (cap_semantic_version item) (cap_catalog_generation item).
Definition capability_message (result : Status * option CapabilitySet) : CapabilityQueryResponse :=
  let status := status_value (st_code (fst result)) in
  match snd result with
  | None => mkCapabilityResponse status None 0 []
  | Some set => mkCapabilityResponse status (Some (fillEntityRef (cs_entity set))) (cs_catalog_generation set)
                  (map capability_item_message (cs_items set))
  end.

Definition health_message (result : HealthQueryResult) : HealthQueryResponse :=
  let status := status_value (st_code (hqr_status result)) in
  match hqr_item result with
  | None => mkHealthResponse status None 0 0 0 0 0 0 0 0 0 "" []
  | Some item =>
      let '(evidence_id, token, source) :=
        match hr_evidence item with
        | [] => (0, 0, "")
        | front :: _ => (evr_evidence_id front, evr_sequence_or_token front, src_provider (evr_source front))
        end in
      mkHealthResponse status (Some (fillEntityRef (hr_entity item))) (hr_subsystem_id item)
        (toProtocolHealthState (hr_state item)) (toProtocolStatus (hr_item_status item))
        (health_code_value (hr_code item)) (hr_catalog_generation item) (hr_evaluated_monotonic_time_ns item)
        (hr_evidence_age_ns item) evidence_id token source (map lim_detail (hr_limitations item))
  end.

Section Router.
Context {P : Type} `{LP : LocalProtocol}.

(** ** The operation *)

(** [route]; the clock read by a health query is an argument. *)
Definition route (core : ServiceCore (P := P)) (request : Frame) (now : Z) : RequestRouteResult :=
  let refused status reason := mkRoute (errorFrame (request_id request) status reason) true in
  if negb (protocol_major request =? kProtocolMajor) || (kProtocolMinor <? protocol_minor request)
  then refused PDCM_STATUS_PROTOCOL_INCOMPATIBLE "INCOMPATIBLE_PROTOCOL"
  else if (request_id request =? 0) || negb (flags request =? 0) || negb (validRequestPayload request)
  then refused PDCM_STATUS_INVALID_ARGUMENT "INVALID_FRAME_FIELDS"
  else if message_type request =? kEntityListRequest
  then
    match ParseFromArray (M := EntityListRequest) (payload request) with
    | Some m =>
        if negb (EntityKind_IsValid (wel_kind m))
        then refused PDCM_STATUS_INVALID_ARGUMENT "MALFORMED_ENTITY_LIST_REQUEST"
        else
        let result := core_entities core (fromProtocolEntityKind (wel_kind m)) in
        mkRoute (responseFrame request kEntityListResponse (SerializeAsString (entity_list_message result))) false
    | None => refused PDCM_STATUS_INVALID_ARGUMENT "MALFORMED_ENTITY_LIST_REQUEST"
    end
  else if message_type request =? kCapabilityQueryRequest
  then
    match ParseFromArray (M := CapabilityQueryRequest) (payload request) with
    | Some (mkCapabilityRequest (Some e)) =>
        if negb (EntityKind_IsValid (wen_kind e)) || negb (wen_kind e =? ENTITY_KIND_DEVICE) || (wen_generation e =? 0)
        then refused PDCM_STATUS_INVALID_ARGUMENT "MALFORMED_CAPABILITY_QUERY_REQUEST"
        else
        let entity := mkEntityRef (fromProtocolEntityKind (wen_kind e)) (wen_pdcm_id e) (wen_generation e) in
        let result := core_capabilities core entity in
        mkRoute (responseFrame request kCapabilityQueryResponse (SerializeAsString (capability_message result))) false
    | _ => refused PDCM_STATUS_INVALID_ARGUMENT "MALFORMED_CAPABILITY_QUERY_REQUEST"
    end
  else if message_type request =? kHealthQueryRequest
  then
    match ParseFromArray (M := HealthQueryRequest) (payload request) with
    | Some (mkHealthQueryRequest (Some e) subsystem_id catalog_generation max_age_ns) =>
        if negb (wen_kind e =? ENTITY_KIND_DEVICE) || (wen_generation e =? 0) || (subsystem_id =? 0)
        then refused PDCM_STATUS_INVALID_ARGUMENT "MALFORMED_HEALTH_QUERY_REQUEST"
        else
        let health_request :=
          mkHealthRequest (mkEntityRef EK_Device (wen_pdcm_id e) (wen_generation e)) subsystem_id catalog_generation max_age_ns in
        let result := core_health core health_request now in
        mkRoute (responseFrame request kHealthQueryResponse (SerializeAsString (health_message result))) false
    | _ => refused PDCM_STATUS_INVALID_ARGUMENT "MALFORMED_HEALTH_QUERY_REQUEST"
    end
  else mkRoute (errorFrame (request_id request) PDCM_STATUS_UNSUPPORTED "UNSUPPORTED_MESSAGE_TYPE") false.

(** ** Specification *)

(** A query and its answer, whatever carries it. *)
Inductive CoreQuery :=
  | QEntities (kind : EntityKind)
  | QCapabilities (entity : EntityRef)
  | QHealth (request : HealthRequest).

Definition response_type (q : CoreQuery) : Z :=
  match q with
  | QEntities _ => kEntityListResponse | QCapabilities _ => kCapabilityQueryResponse | QHealth _ => kHealthQueryResponse
  end.
Definition answer (core : ServiceCore (P := P)) (now : Z) (q : CoreQuery) : list Z :=
  match q with
  | QEntities kind => SerializeAsString (entity_list_message (core_entities core kind))
  | QCapabilities entity => SerializeAsString (capability_message (core_capabilities core entity))
  | QHealth request => SerializeAsString (health_message (core_health core request now))
  end.

(** A reference to a device that may exist. *)
Definition device_ref (e : PbEntityRef) (entity : EntityRef) : Prop :=
  wen_kind e = ENTITY_KIND_DEVICE /\ wen_generation e <> 0 /\ entity = mkEntityRef EK_Device (wen_pdcm_id e) (wen_generation e).

(** The query that a frame carries. *)
Inductive carries (f : Frame) : CoreQuery -> Prop :=
  | carries_entities m :
      message_type f = kEntityListRequest -> ParseFromArray (payload f) = Some m -> 0 <= wel_kind m <= 2 ->
      carries f (QEntities (fromProtocolEntityKind (wel_kind m)))
  | carries_capabilities e entity :
      message_type f = kCapabilityQueryRequest -> ParseFromArray (payload f) = Some (mkCapabilityRequest (Some e)) ->
      device_ref e entity -> carries f (QCapabilities entity)
  | carries_health e entity subsystem generation age :
      message_type f = kHealthQueryRequest ->
      ParseFromArray (payload f) = Some (mkHealthQueryRequest (Some e) subsystem generation age) ->
      device_ref e entity -> subsystem <> 0 -> carries f (QHealth (mkHealthRequest entity subsystem generation age)).

Record envelope (f : Frame) : Prop := {
  ev_major : protocol_major f = kProtocolMajor;
  ev_minor : protocol_minor f <= kProtocolMinor;
  ev_id : request_id f <> 0;
  ev_flags : flags f = 0;
  ev_size : zlen (payload f) <= INT_MAX }.

Definition request_types : list Z := [kEntityListRequest; kCapabilityQueryRequest; kHealthQueryRequest].

(** What the router does with a frame, by the three ways it can end. *)
Inductive routed (core : ServiceCore (P := P)) (now : Z) (f : Frame) : RequestRouteResult -> Prop :=
  | routed_answer q :
      envelope f -> carries f q ->
      routed core now f (mkRoute (responseFrame f (response_type q) (answer core now q)) false)
  | routed_unsupported :
      envelope f -> message_type f ∉ request_types ->
      routed core now f (mkRoute (errorFrame (request_id f) PDCM_STATUS_UNSUPPORTED "UNSUPPORTED_MESSAGE_TYPE") false)
  | routed_refused status reason :
      (envelope f -> message_type f ∈ request_types /\ forall q, ~ carries f q) ->
      status = PDCM_STATUS_INVALID_ARGUMENT \/ status = PDCM_STATUS_PROTOCOL_INCOMPATIBLE ->
      ascii_string reason = true ->
      routed core now f (mkRoute (errorFrame (request_id f) status reason) true).

(** Two types of message for one frame. *)
Local Ltac same_frame := match goal with
  | E1 : message_type ?f = _, E2 : message_type ?f = _ |- _ => rewrite E1 in E2; discriminate E2
  | _ => congruence
  end.

Lemma carries_request_type f q : carries f q -> message_type f ∈ request_types.
Proof. intros [m E|e entity E|e entity ? ? ? E]; rewrite E; vm_compute; repeat constructor. Qed.

Lemma carries_unique f q1 q2 : carries f q1 -> carries f q2 -> q1 = q2.
Proof.
  intros [m1 T1 P1 _|e1 n1 T1 P1 (_ & _ & ->)|e1 n1 s1 g1 a1 T1 P1 (_ & _ & ->) _]
    [m2 T2 P2 _|e2 n2 T2 P2 (_ & _ & ->)|e2 n2 s2 g2 a2 T2 P2 (_ & _ & ->) _]; same_frame.
Qed.

Local Ltac refused := apply routed_refused; [intros _; split; [rewrite_type; vm_compute; repeat constructor|]|by left|done]
with rewrite_type := match goal with E : message_type ?f = _ |- context [message_type ?f] => rewrite E end.

Lemma entity_kind_valid k : EntityKind_IsValid k = true <-> 0 <= k <= 2.
Proof. unfold EntityKind_IsValid, enum_valid. rewrite andb_true_iff, !Z.leb_le. done. Qed.

(** Every frame ends in exactly one of the three ways. *)
Lemma route_routed core f now : routed core now f (route core f now).
Proof.
  unfold route. cbv zeta.
  guard as G1. { apply routed_refused; [|by right|done]. intros [E1 E2 _ _ _]. bprop in G1. destruct G1; [done|lia]. }
  bprop in G1. destruct G1 as [M1 M2].
  guard as G2.
  { apply routed_refused; [|by left|done]. intros [_ _ E3 E4 E5]. unfold validRequestPayload in G2. bprop in G2.
    destruct G2 as [[?|?]|?]; [done|done|lia]. }
  unfold validRequestPayload in G2. bprop in G2. destruct G2 as [[I1 I2] I3].
  assert (envelope f) as He by (split; done || lia).
  guard as G3; bprop in G3.
  { destruct (ParseFromArray (payload f)) as [m|] eqn:Ep; [|refused; intros q []; same_frame].
    guard as G4; [apply negb_true_iff in G4|apply negb_false_iff, entity_kind_valid in G4].
    - refused. intros q [m' ? Ep' Hk| |]; [|same_frame..]. apply entity_kind_valid in Hk. congruence.
    - apply (routed_answer core now f (QEntities (fromProtocolEntityKind (wel_kind m)))); [done|by constructor]. }
  guard as G4; bprop in G4.
  { destruct (ParseFromArray (payload f)) as [[[e|]]|] eqn:Ep; [|refused; intros q []; same_frame..].
    guard as G5.
    - refused. intros q [|e' entity ? Ep' (D1 & D2 & _)|]; [same_frame| |same_frame]. assert (e' = e) as -> by congruence.
      rewrite D1 in G5. cbn in G5. bprop in G5. done.
    - bprop in G5. destruct G5 as [[_ D1] D2]. rewrite D1.
      apply (routed_answer core now f (QCapabilities (mkEntityRef EK_Device (wen_pdcm_id e) (wen_generation e)))); [done|].
      by econstructor. }
  guard as G5; bprop in G5.
  { destruct (ParseFromArray (payload f)) as [[[e|] subsystem generation age]|] eqn:Ep; [|refused; intros q []; same_frame..].
    guard as G6; bprop in G6.
    - refused. intros q [| |e' entity s' g' a' ? Ep' (D1 & D2 & _) Hs]; [same_frame..|].
      assert (e' = e /\ s' = subsystem) as [-> ->] by (split; congruence). by destruct G6 as [[?|?]|?].
    - destruct G6 as [[D1 D2] D3].
      apply (routed_answer core now f (QHealth (mkHealthRequest (mkEntityRef EK_Device (wen_pdcm_id e) (wen_generation e))
        subsystem generation age))); [done|]. by econstructor. }
  apply routed_unsupported; [done|]. unfold request_types. rewrite !not_elem_of_cons. split_and!; try done. apply not_elem_of_nil.
Qed.

Lemma route_answers core f now q : envelope f -> carries f q ->
  route core f now = mkRoute (responseFrame f (response_type q) (answer core now q)) false.
Proof.
  intros He Hq. destruct (route_routed core f now) as [q' _ Hq'|_ Ht|st reason Hr _ _].
  - by rewrite (carries_unique f q' q).
  - destruct Ht. by eapply carries_request_type.
  - destruct (Hr He) as [_ Hno]. by destruct (Hno q).
Qed.

(** ** Theorem *)

(** C20: The router answers exactly what it was asked.  A frame with a valid
    envelope that carries a query is answered by the core's answer to that
    query, in a frame of the matching response type, and the connection stays
    open.  A frame of an unknown type is answered with an unsupported error and
    the connection stays open; any other frame is answered with an error and
    the connection is closed.  The answer always bears the request's identifier
    and a protocol version no higher than the request's or the daemon's. *)
Theorem route_exact core f now :
  let r := route core f now in
  (forall q, envelope f -> carries f q ->
     r = mkRoute (responseFrame f (response_type q) (answer core now q)) false) /\
  ((~ exists q, envelope f /\ carries f q) ->
     exists status reason, status <> PDCM_STATUS_SUCCESS /\ rr_response r = errorFrame (request_id f) status reason) /\
  (rr_close_connection r = false <-> envelope f /\ (message_type f ∈ request_types -> exists q, carries f q)) /\
  request_id (rr_response r) = request_id f /\ protocol_major (rr_response r) = kProtocolMajor /\
  protocol_minor (rr_response r) <= kProtocolMinor /\ flags (rr_response r) = 0.
Proof.
  cbv zeta. destruct (route_routed core f now) as [q He Hq|He Ht|status reason Hr Hs _].
  - split; [|split; [|split; [|cbn; split_and!; done || lia]]].
    + intros q' _ Hq'. by rewrite (carries_unique f q' q).
    + intros []. by exists q.
    + split; [|done]. intros _. split; [done|]. intros _. by exists q.
  - split; [|split; [|split; [|done]]].
    + intros q _ Hq. by destruct Ht; eapply carries_request_type.
    + intros _. by eexists PDCM_STATUS_UNSUPPORTED, _.
    + done.
  - split; [|split; [|split; [|done]]].
    + intros q He Hq. destruct (Hr He) as [_ Hno]. by destruct (Hno q).
    + intros _. exists status, reason. split; [|done]. by destruct Hs as [-> | ->].
    + cbn. split; [done|]. intros [He Hx]. destruct (Hr He) as [Hin Hno]. destruct (Hx Hin) as [q Hq]. by destruct (Hno q).
Qed.
End Router.
