(* ===== verification/Connection.v ===== *)
(** One connection of the local API server: the loop of
    [LocalApiServer::handleConnection] (src/product/src/ipc/local_api_server.cpp)
    over the chunks that [recv] returns.

    A connection decodes the bytes it receives, makes the handshake with its
    first frame and routes the frames that follow, answering each in turn.  The
    clock read by a health query and the outcome of the write of a response are
    the environment of a frame ([frame_env]). *)
From S2P Require Import Prelude Containers Common Provider Session Catalog Frame EventStore DataStore HealthStore ProcessorGraph Metrics Service Protocol Codec Handshake Router.
Local Open Scope string_scope.
Local Open Scope list_scope.
Open Scope Z_scope.
Open Scope pdcm_scope.

(** The variables of [handleConnection]. *)
Record Connection := mkConnection {
  cn_fd : Z;
  cn_peer : PeerIdentity;
  cn_decoder : FrameDecoder;
  cn_handshake_complete : bool;
  cn_close_connection : bool;
  cn_session_id : option Z }.

Definition conn_open (fd : Z) (peer : PeerIdentity) (limits : ResourceLimits) : Connection :=
  mkConnection fd peer (decoder_init (lim_max_frame_bytes limits)) false false None.
Definition conn_with_decoder (c : Connection) (d : FrameDecoder) : Connection :=
  mkConnection (cn_fd c) (cn_peer c) d (cn_handshake_complete c) (cn_close_connection c) (cn_session_id c).
Definition conn_with_close (c : Connection) (close : bool) : Connection :=
  mkConnection (cn_fd c) (cn_peer c) (cn_decoder c) (cn_handshake_complete c) close (cn_session_id c).

Record frame_env := mkFrameEnv { fe_now : Z; fe_written : bool }.

Section Connection.
Context {P : Type} `{LP : LocalProtocol}.
Variable core : ServiceCore (P := P).
Variable limits : ResourceLimits.

(** The response to one frame. *)
Definition serve_frame (m : SessionManager) (c : Connection) (frame : Frame) (now : Z)
    : Frame * Connection * SessionManager :=
  if cn_handshake_complete c
  then
    let result := route core frame now in
    (rr_response result, conn_with_close c (rr_close_connection result), m)
  else
    let '(result, m') := handle m frame (sv_snapshot_ core) limits (cn_peer c) in
    let session_id := hs_session_id result in
    (hs_response result,
     mkConnection (cn_fd c) (cn_peer c) (cn_decoder c)
       (st_ok (hs_status result) && match session_id with Some _ => true | None => false end)
       (hs_close_connection result) session_id, m').

(** The loop over the frames of a chunk, with the responses that were written. *)
Fixpoint serve_frames (m : SessionManager) (c : Connection) (frames : list Frame) (env : nat -> frame_env)
    : list (list Z) * Connection * SessionManager :=
  match frames with
  | [] => ([], c, m)
  | frame :: frames' =>
      let '(response, c1, m1) := serve_frame m c frame (fe_now (env 0%nat)) in
      let '(encoded, response_bytes) := encodeFrame response (lim_max_frame_bytes limits) (Some []) in
      if negb (st_ok encoded) || negb (fe_written (env 0%nat))
      then ([], conn_with_close c1 true, m1)
      else
      let '(out, c2, m2) := serve_frames m1 c1 frames' (fun i => env (S i)) in
      (default [] response_bytes :: out, c2, m2)
  end.

(** One received chunk.  The first component tells whether the loop goes on. *)
Definition conn_receive (m : SessionManager) (c : Connection) (received : list Z) (env : nat -> frame_env)
    : bool * list (list Z) * Connection * SessionManager :=
  let '(decoded, decoder, frames) := decoder_append (cn_decoder c) (Some received) (Some []) in
  let c0 := conn_with_decoder c decoder in
  if negb (st_ok decoded) then (false, [], c0, m)
  else
  let '(out, c1, m1) := serve_frames m c0 (default [] frames) env in
  (negb (cn_close_connection c1), out, c1, m1).

(** The chunks of a connection, one after the other while the loop goes on. *)
Fixpoint conn_run (m : SessionManager) (c : Connection) (chunks : list (list Z * (nat -> frame_env)))
    : bool * list (list Z) * Connection * SessionManager :=
  match chunks with
  | [] => (true, [], c, m)
  | (received, env) :: chunks' =>
      let '(go_on, out, c1, m1) := conn_receive m c received env in
      if negb go_on then (false, out, c1, m1)
      else
      let '(go_on', out', c2, m2) := conn_run m1 c1 chunks' in
      (go_on', out ++ out', c2, m2)
  end.

(** ** Admission *)

(** The bytes of an error frame. *)
Definition error_bytes (bytes : list Z) : Prop :=
  exists id status reason, bytes = frame_bytes (errorFrame id status reason).

(** The session manager with a new active session. *)
Definition admitted (m : SessionManager) (peer : PeerIdentity) : SessionManager :=
  let id := next_session_id_ m in
  mkSessionManager (sm_limits_ m) (<[id := mkSession id SS_Active peer counters_zero]> (sessions_ m))
    (if id =? u64_max then 0 else id + 1) false.

(** A connection that has had no handshake has been sent nothing but errors and
    has left the sessions alone; one that has holds one new session. *)
Inductive admission (m0 : SessionManager) (out : list (list Z)) (c : Connection) : SessionManager -> Prop :=
  | not_admitted :
      cn_handshake_complete c = false -> cn_session_id c = None -> Forall error_bytes out -> admission m0 out c m0
  | is_admitted :
      cn_handshake_complete c = true -> cn_session_id c = Some (next_session_id_ m0) -> has_capacity m0 ->
      sessions_ m0 !! next_session_id_ m0 = None -> admission m0 out c (admitted m0 (cn_peer c)).

Lemma handle_admission m f peer : sm_wf m ->
  let '(r, m') := handle m f (sv_snapshot_ core) limits peer in
  (st_ok (hs_status r) = true /\ hs_session_id r = Some (next_session_id_ m) /\ has_capacity m /\
   sessions_ m !! next_session_id_ m = None /\ hs_close_connection r = false /\ m' = admitted m peer) \/
  (st_ok (hs_status r) = false /\ hs_session_id r = None /\ hs_close_connection r = true /\ m' = m /\
   exists reason, hs_response r = errorFrame (request_id f) (st_code (hs_status r)) reason).
Proof.
  intros Hwf. destruct (handle_cases m f (sv_snapshot_ core) limits peer Hwf) as
    [(hello & Ha & Hc & ->)|(Hn & status & reason & Hs & ->)]; cbv zeta.
  - left. destruct (begin_activate m peer Hwf Hc) as (_ & B2 & _). done.
  - right. split_and!; try done. by exists reason.
Qed.

Lemma admission_close m0 out c m b : admission m0 out c m -> admission m0 out (conn_with_close c b) m.
Proof. intros [K1 K2 K3|K1 K2 K3 K4]; [by apply not_admitted|by apply (is_admitted m0 out (conn_with_close c b))]. Qed.

Lemma admission_decoder m0 out c m d : admission m0 out c m -> admission m0 out (conn_with_decoder c d) m.
Proof. intros [K1 K2 K3|K1 K2 K3 K4]; [by apply not_admitted|by apply (is_admitted m0 out (conn_with_decoder c d))]. Qed.

Lemma serve_frame_admission m0 m c f now out : sm_wf m0 -> admission m0 out c m ->
  let '(response, c', m') := serve_frame m c f now in
  cn_peer c' = cn_peer c /\ cn_fd c' = cn_fd c /\ cn_decoder c' = cn_decoder c /\
  admission m0 out c' m' /\ admission m0 (out ++ [frame_bytes response]) c' m'.
Proof.
  intros Hwf Ha. unfold serve_frame. destruct Ha as [E1 E2 E3|E1 E2 E3 E4]; rewrite E1.
  - pose proof (handle_admission m0 f (cn_peer c) Hwf) as Hh. destruct (handle _ _ _ _ _) as [r m'].
    split; [done|]. split; [done|]. split; [done|].
    destruct Hh as [(K1 & K2 & K3 & K4 & _ & ->)|(K1 & K2 & _ & -> & reason & K5)]; rewrite K1, K2; cbn [andb].
    + by split; apply (is_admitted m0 _ (mkConnection _ (cn_peer c) _ _ _ _)).
    + split; apply not_admitted; try done. apply Forall_app. split; [done|]. apply Forall_singleton. rewrite K5. by do 3 eexists.
  - split; [done|]. split; [done|]. split; [done|]. by split; apply (is_admitted m0 _ (conn_with_close c _)).
Qed.

Lemma serve_frames_admission m0 fs : sm_wf m0 -> forall m c out env, admission m0 out c m ->
  let '(out', c', m') := serve_frames m c fs env in
  cn_peer c' = cn_peer c /\ cn_fd c' = cn_fd c /\ cn_decoder c' = cn_decoder c /\ admission m0 (out ++ out') c' m'.
Proof.
  intros Hwf. induction fs as [|f fs IH]; intros m c out env Ha; cbn [serve_frames]; [by rewrite app_nil_r|].
  pose proof (serve_frame_admission m0 m c f (fe_now (env 0%nat)) out Hwf Ha) as Hf.
  destruct (serve_frame m c f _) as [[response c1] m1]. destruct Hf as (F1 & F2 & F3 & F4 & F5).
  destruct (encodeFrame response _ _) as [encoded bytes] eqn:Ee.
  destruct (st_ok encoded) eqn:Eo; cbn [negb orb]; [|rewrite app_nil_r; by split_and!; try apply admission_close].
  destruct (fe_written _); cbn [negb]; [|rewrite app_nil_r; by split_and!; try apply admission_close].
  destruct (encodeFrame_ok _ _ _ _ _ Ee Eo) as (_ & _ & _ & _ & ->).
  specialize (IH m1 c1 (out ++ [frame_bytes response]) (fun i => env (S i)) F5).
  destruct (serve_frames m1 c1 fs _) as [[out' c'] m']. rewrite <- app_assoc in IH. cbn [from_option id].
  destruct IH as (I1 & I2 & I3 & I4). split_and!; try congruence; done.
Qed.

Lemma conn_receive_admission m0 m c out received env : sm_wf m0 -> admission m0 out c m ->
  let '(_, out', c', m') := conn_receive m c received env in
  cn_peer c' = cn_peer c /\ cn_fd c' = cn_fd c /\ admission m0 (out ++ out') c' m'.
Proof.
  intros Hwf Ha. unfold conn_receive. destruct (decoder_append _ _ _) as [[decoded d] frames].
  destruct (st_ok decoded); cbn [negb]; [|rewrite app_nil_r; by split_and!; try apply admission_decoder].
  pose proof (serve_frames_admission m0 (default [] frames) Hwf m (conn_with_decoder c d) out env
    (admission_decoder _ _ _ _ d Ha)) as Hs.
  destruct (serve_frames _ _ _ _) as [[out' c'] m']. destruct Hs as (S1 & S2 & _ & S4). done.
Qed.

Lemma conn_run_admission m0 chunks : sm_wf m0 -> forall m c out, admission m0 out c m ->
  let '(_, out', c', m') := conn_run m c chunks in
  cn_peer c' = cn_peer c /\ cn_fd c' = cn_fd c /\ admission m0 (out ++ out') c' m'.
Proof.
  intros Hwf. induction chunks as [|[received env] chunks IH]; intros m c out Ha; cbn [conn_run]; [by rewrite app_nil_r|].
  pose proof (conn_receive_admission m0 m c out received env Hwf Ha) as Hr.
  destruct (conn_receive m c received env) as [[[go_on out1] c1] m1]. destruct Hr as (R1 & R2 & R3).
  destruct go_on; cbn [negb]; [|done]. specialize (IH m1 c1 (out ++ out1) R3).
  destruct (conn_run m1 c1 chunks) as [[[go_on' out2] c2] m2]. rewrite <- app_assoc in IH.
  destruct IH as (I1 & I2 & I3). split_and!; try congruence; done.
Qed.

(** After the handshake the sessions are left alone. *)
Definition same_session (c c' : Connection) : Prop :=
  cn_handshake_complete c' = cn_handshake_complete c /\ cn_session_id c' = cn_session_id c /\
  cn_peer c' = cn_peer c /\ cn_fd c' = cn_fd c.

Lemma serve_frames_complete m fs : forall c env, cn_handshake_complete c = true ->
  let '(_, c', m') := serve_frames m c fs env in m' = m /\ same_session c c'.
Proof.
  induction fs as [|f fs IH]; intros c env Hc; cbn [serve_frames]; [done|]. unfold serve_frame. rewrite Hc.
  destruct (encodeFrame _ _ _) as [encoded bytes]. guard as G; [done|].
  specialize (IH (conn_with_close c (rr_close_connection (route core f (fe_now (env 0%nat))))) (fun i => env (S i)) Hc).
  by destruct (serve_frames m _ fs _) as [[out c'] m'].
Qed.

Lemma conn_receive_complete m c received env : cn_handshake_complete c = true ->
  let '(_, _, c', m') := conn_receive m c received env in m' = m /\ same_session c c'.
Proof.
  intros Hc. unfold conn_receive. destruct (decoder_append _ _ _) as [[decoded d] frames]. guard as G; [done|].
  pose proof (serve_frames_complete m (default [] frames) (conn_with_decoder c d) env Hc) as Hs.
  by destruct (serve_frames _ _ _ _) as [[out c'] m'].
Qed.

Lemma admitted_wf m peer : sm_wf m -> has_capacity m -> sm_wf (admitted m peer).
Proof.
  intros Hwf Hc. destruct (begin_activate m peer Hwf Hc) as (_ & _ & B3). cbv zeta in B3.
  pose proof (session_step_wf _ (SActivate (next_session_id_ m)) (session_step_wf m (SBegin peer) Hwf)) as Hs.
  cbn [session_step] in Hs. by rewrite B3 in Hs.
Qed.

(** ** Streams of requests *)

(** A response that can be sent. *)
Definition fits (f : Frame) : Prop :=
  20 <= lim_max_frame_bytes limits /\ zlen (payload f) <= u32_max - 20 /\
  20 + zlen (payload f) <= lim_max_frame_bytes limits.

(** The frames [fs] are answered by [rs], each keeping the connection open. *)
Inductive serves (now : Z) : SessionManager -> Connection -> list Frame -> list Frame -> SessionManager -> Connection -> Prop :=
  | serves_nil m c : serves now m c [] [] m c
  | serves_cons m c f fs response c1 m1 rs m2 c2 :
      serve_frame m c f now = (response, c1, m1) -> fits response -> cn_close_connection c1 = false ->
      serves now m1 c1 fs rs m2 c2 -> serves now m c (f :: fs) (response :: rs) m2 c2.

Lemma serve_frame_decoder m c f now d :
  serve_frame m (conn_with_decoder c d) f now =
  let '(r, c1, m1) := serve_frame m c f now in (r, conn_with_decoder c1 d, m1).
Proof.
  unfold serve_frame. cbn [cn_handshake_complete conn_with_decoder cn_peer]. destruct (cn_handshake_complete c); [done|].
  by destruct (handle _ _ _ _ _).
Qed.

Lemma serves_frames now m c fs rs m' c' d env :
  serves now m c fs rs m' c' -> cn_close_connection c = false -> (forall i, env i = mkFrameEnv now true) ->
  serve_frames m (conn_with_decoder c d) fs env = (map frame_bytes rs, conn_with_decoder c' d, m') /\
  cn_close_connection c' = false.
Proof.
  intros Hs. revert env. induction Hs as [m c|m c f fs response c1 m1 rs m2 c2 Hf Hfit Hc Hs IH]; intros env Hclose Henv; [done|].
  cbn [serve_frames map]. rewrite Henv, serve_frame_decoder. cbn [fe_now fe_written]. rewrite Hf.
  destruct Hfit as (L1 & L2 & L3). rewrite encodeFrame_bytes by done. change (st_ok st_success) with true. cbn [negb orb].
  destruct (IH (fun i => env (S i)) Hc (fun i => Henv (S i))) as [-> ?]. done.
Qed.

Lemma serves_app now m c fs1 fs2 rs m' c' : serves now m c (fs1 ++ fs2) rs m' c' ->
  exists m1 c1 rs1 rs2, rs = rs1 ++ rs2 /\ serves now m c fs1 rs1 m1 c1 /\ serves now m1 c1 fs2 rs2 m' c'.
Proof.
  revert m c rs. induction fs1 as [|f fs1 IH]; intros m c rs Hs.
  - exists m, c, [], rs. split_and!; [done|constructor|done].
  - inversion Hs as [|? ? ? ? response ca ma rs' ? ? Hf Hfit Hc Hs' E1 E2]; subst.
    destruct (IH ma ca rs' Hs') as (m1 & c1 & rs1 & rs2 & -> & S1 & S2).
    exists m1, c1, (response :: rs1), rs2. split_and!; [done|by econstructor|done].
Qed.

(** Whatever the chunks, the frames are answered in order. *)
Lemma serves_run now chunks :
  20 <= lim_max_frame_bytes limits <= i64_max ->
  Forall (fun x => x.1 <> [] /\ zlen x.1 <= lim_max_frame_bytes limits /\ forall i, x.2 i = mkFrameEnv now true) chunks ->
  forall m c fs rs m' c' b, serves now m c fs rs m' c' -> cn_close_connection c = false ->
  Forall (sendable (lim_max_frame_bytes limits)) fs -> incomplete b fs ->
  b ++ concat (map fst chunks) = concat (map frame_bytes fs) ->
  conn_run m (conn_with_decoder c (mkDecoder (lim_max_frame_bytes limits) b false)) chunks =
  (true, map frame_bytes rs, conn_with_decoder c' (mkDecoder (lim_max_frame_bytes limits) [] false), m').
Proof.
  intros Hmax. set (max := lim_max_frame_bytes limits) in *.
  induction 1 as [|[received env] chunks (Hne & Hlen & Henv) Hcs IH]; intros m c fs rs m' c' b Hs Hc Hfs Hi Hst.
  - cbn [map concat] in Hst. rewrite app_nil_r in Hst. destruct fs as [|f fs].
    + cbn in Hst. subst b. by inversion Hs; subst.
    + exfalso. cbn [incomplete] in Hi. rewrite Hst in Hi. cbn [map concat] in Hi. rewrite zlen_app in Hi.
      pose proof (zlen_nonneg (concat (map frame_bytes fs))). lia.
  - cbn [map concat fst] in Hst. rewrite app_assoc in Hst. cbn [fst snd] in *.
    assert (zlen b < max) as Hb.
    { destruct fs as [|f fs]; cbn [incomplete] in Hi; [subst b; rewrite zlen_nil; lia|].
      inversion Hfs as [|? ? (_ & _ & Hm)]; subst. pose proof (frame_bytes_length f). lia. }
    destruct (decode_loop_prefix max fs Hfs (b ++ received) (concat (map fst chunks)) (S (length (b ++ received))))
      as (fs1 & fs2 & n & -> & Hd & Hn & Hi'); [done|lia|].
    destruct (serves_app _ _ _ _ _ _ _ _ Hs) as (m1 & c1 & rs1 & rs2 & -> & S1 & S2).
    cbn [conn_run]. unfold conn_receive. cbn [cn_decoder conn_with_decoder].
    erewrite decoder_append_ok by done. change (st_ok st_success) with true. cbn [negb app from_option id].
    destruct (serves_frames now m c fs1 rs1 m1 c1 (mkDecoder max (drop n (b ++ received)) false) env S1 Hc Henv) as [Hsf Hc1].
    match goal with |- context [serve_frames m ?x fs1 env] =>
      change x with (conn_with_decoder c (mkDecoder max (drop n (b ++ received)) false)) end.
    rewrite Hsf. change (cn_close_connection (conn_with_decoder c1 ?d)) with (cn_close_connection c1).
    rewrite Hc1. cbn [negb]. apply Forall_app in Hfs as [_ Hfs2].
    rewrite (IH m1 c1 fs2 rs2 m' c' _ S2 Hc1 Hfs2 Hi' Hn). by rewrite map_app.
Qed.

Lemma serves_requests now m c fs :
  cn_handshake_complete c = true -> cn_close_connection c = false ->
  Forall (fun f => rr_close_connection (route core f now) = false /\ fits (rr_response (route core f now))) fs ->
  serves now m c fs (map (fun f => rr_response (route core f now)) fs) m c.
Proof.
  intros Hh Hc. induction 1 as [|f fs [Hr Hf] Hfs IH]; [constructor|].
  cbn [map]. eapply serves_cons; [|exact Hf| |exact IH]; [|done]. unfold serve_frame. rewrite Hh, Hr.
  f_equal. f_equal. rewrite <- Hc. by destruct c.
Qed.

(** ** Theorems *)

(** C18: Nothing is served before the handshake.  Whatever a peer sends, in
    whatever chunks and with whatever failures of the writes: until the
    handshake is complete the peer has been sent nothing but error frames and
    the session manager is untouched; once it is complete, the connection holds
    exactly one session, new, active and under the peer's identity, and no other
    session has changed. *)
Theorem conn_admission m fd peer chunks :
  sm_wf m ->
  let '(_, out, c, m') := conn_run m (conn_open fd peer limits) chunks in
  (cn_handshake_complete c = false -> cn_session_id c = None /\ m' = m /\ Forall error_bytes out) /\
  (cn_handshake_complete c = true -> exists id, cn_session_id c = Some id /\ sessions_ m !! id = None /\
     sessions_ m' = <[id := mkSession id SS_Active peer counters_zero]> (sessions_ m)).
Proof.
  intros Hwf. pose proof (conn_run_admission m chunks Hwf m (conn_open fd peer limits) []) as Hr.
  destruct (conn_run m (conn_open fd peer limits) chunks) as [[[go_on out] c] m'].
  destruct Hr as (R1 & _ & R3); [by apply not_admitted|]. destruct R3 as [K1 K2 K3|K1 K2 K3 K4]; (split; [intros E|intros E]); try congruence.
  - done.
  - eexists. split; [exact K2|]. split; [done|]. by rewrite R1.
Qed.

(** C19: A stream is answered frame by frame.  Take a client that sends an
    acceptable hello and then requests that the router does not refuse (after a
    refusal the cut does matter, see [refusal_overwritten]).  However the bytes
    are cut into chunks of at most the maximum frame size, as long as every
    response fits a frame and every write succeeds, the daemon writes the encoded hello response
    followed by the encoded answers of the router to the requests, in order,
    keeps the connection open with an empty buffer, and has admitted one
    session. *)
Theorem conn_stream_answered now m fd peer f0 hello requests chunks :
  sm_wf m -> has_capacity m -> hello_acceptable f0 peer hello ->
  20 <= lim_max_frame_bytes limits <= i64_max ->
  Forall (sendable (lim_max_frame_bytes limits)) (f0 :: requests) ->
  let r0 := hs_response (fst (handle m f0 (sv_snapshot_ core) limits peer)) in
  fits r0 ->
  Forall (fun f => rr_close_connection (route core f now) = false /\ fits (rr_response (route core f now))) requests ->
  Forall (fun x => x.1 <> [] /\ zlen x.1 <= lim_max_frame_bytes limits /\ forall i, x.2 i = mkFrameEnv now true) chunks ->
  concat (map fst chunks) = concat (map frame_bytes (f0 :: requests)) ->
  conn_run m (conn_open fd peer limits) chunks =
  (true, map frame_bytes (r0 :: map (fun f => rr_response (route core f now)) requests),
   mkConnection fd peer (decoder_init (lim_max_frame_bytes limits)) true false (Some (next_session_id_ m)),
   admitted m peer).
Proof.
  intros Hwf Hcap Hhello Hmax Hsend r0 Hfit Hreq Hchunks Hstream.
  set (c1 := mkConnection fd peer (decoder_init (lim_max_frame_bytes limits)) true false (Some (next_session_id_ m))).
  assert (serves now m (conn_open fd peer limits) (f0 :: requests)
    (r0 :: map (fun f => rr_response (route core f now)) requests) (admitted m peer) c1) as Hs.
  { eapply (serves_cons _ _ _ _ _ r0 c1 (admitted m peer)); [|done|done|by apply serves_requests].
    unfold serve_frame, r0. cbn [cn_handshake_complete conn_open cn_peer].
    destruct (handle_cases m f0 (sv_snapshot_ core) limits peer Hwf) as [(h & _ & _ & ->)|(Hn & _)]; [done|].
    destruct Hn. split; [by exists hello|done]. }
  by apply (serves_run now chunks Hmax Hchunks _ _ _ _ _ _ [] Hs).
Qed.

(** The frames of one chunk are all served: whether the connection closes is
    decided by the last of them, so a refused request does not end a connection
    when another request follows it in the same chunk. *)
Theorem refusal_overwritten now m c f1 f2 :
  cn_handshake_complete c = true -> fits (rr_response (route core f1 now)) -> fits (rr_response (route core f2 now)) ->
  rr_close_connection (route core f1 now) = true -> rr_close_connection (route core f2 now) = false ->
  let env := fun _ => mkFrameEnv now true in
  (let '(out, c', _) := serve_frames m c [f1; f2] env in
   cn_close_connection c' = false /\ out = map frame_bytes [rr_response (route core f1 now); rr_response (route core f2 now)]) /\
  (let '(_, c', _) := serve_frames m c [f1] env in cn_close_connection c' = true).
Proof.
  intros Hh (A1 & A2 & A3) (B1 & B2 & B3) Hr1 Hr2. destruct c as [fd peer d hs cl sid]. cbn in Hh. subst hs.
  cbv zeta. cbn [serve_frames]. unfold serve_frame, conn_with_close.
  cbn [fe_now fe_written cn_handshake_complete cn_fd cn_peer cn_decoder cn_session_id].
  rewrite !encodeFrame_bytes by done. change (st_ok st_success) with true. cbn [negb orb]. rewrite Hr1, Hr2. done.
Qed.
End Connection.

(** ** Witnesses *)

Definition sample_list_frame : Frame :=
  mkFrame kProtocolMajor kProtocolMinor kEntityListRequest 0 2
    (SerializeAsString (Message := pb_EntityListRequest (LocalProtocol := sample_protocol)) (mkEntityListRequest ENTITY_KIND_DEVICE)).
Definition sample_stream : list Z := frame_bytes sample_hello_frame ++ frame_bytes sample_list_frame.
Definition sample_chunks : list (list Z * (nat -> frame_env)) :=
  [(take 5 sample_stream, fun _ => mkFrameEnv 7 true); (drop 5 sample_stream, fun _ => mkFrameEnv 7 true)].
Definition sample_peer : PeerIdentity := mkPeer 1000 1000 4242.
Lemma sample_sessions_wf : sm_wf (sm_init limits_default).
Proof. apply sm_init_wf. by repeat split. Qed.
Lemma sample_hello_acceptable : hello_acceptable (H := sample_protocol) sample_hello_frame sample_peer sample_hello.
Proof.
  split; [done|vm_compute; discriminate|by vm_compute|split; reflexivity| | |split; [vm_compute; discriminate|constructor]|right; reflexivity];
    vm_compute; split; discriminate.
Qed.
Lemma sample_frames_sendable : Forall (sendable (lim_max_frame_bytes limits_default)) [sample_hello_frame; sample_list_frame].
Proof. repeat constructor; vm_compute; discriminate. Qed.

Lemma conn_admission_witness :
  let '(_, out, c, m') := conn_run (LP := sample_protocol) sample_ready limits_default (sm_init limits_default)
    (conn_open 9 sample_peer limits_default) sample_chunks in
  cn_handshake_complete c = true /\ sessions_ m' !! 1 = Some (mkSession 1 SS_Active sample_peer counters_zero).
Proof.
  pose proof (conn_admission (LP := sample_protocol) sample_ready limits_default (sm_init limits_default) 9 sample_peer
    sample_chunks sample_sessions_wf) as Ht.
  assert (cn_handshake_complete (snd (fst (conn_run (LP := sample_protocol) sample_ready limits_default
    (sm_init limits_default) (conn_open 9 sample_peer limits_default) sample_chunks))) = true /\
    cn_session_id (snd (fst (conn_run (LP := sample_protocol) sample_ready limits_default
    (sm_init limits_default) (conn_open 9 sample_peer limits_default) sample_chunks))) = Some 1) as [Hc Hi]
    by (split; vm_compute; reflexivity).
  destruct (conn_run _ _ _ _ _) as [[[go_on out] c] m']. cbn [fst snd] in Hc, Hi. destruct Ht as [_ Ht].
  destruct (Ht Hc) as (id & T1 & _ & T2). split; [exact Hc|]. rewrite T2. rewrite Hi in T1. injection T1 as <-. reflexivity.
Defined.

Lemma conn_stream_answered_witness :
  exists out, conn_run (LP := sample_protocol) sample_ready limits_default (sm_init limits_default)
    (conn_open 9 sample_peer limits_default) sample_chunks =
  (true, out, mkConnection 9 sample_peer (decoder_init (lim_max_frame_bytes limits_default)) true false (Some 1),
   admitted (sm_init limits_default) sample_peer) /\ length out = 2%nat.
Proof.
  eexists. split.
  - apply (conn_stream_answered (LP := sample_protocol) sample_ready limits_default 7 (sm_init limits_default) 9
      sample_peer sample_hello_frame sample_hello [sample_list_frame] sample_chunks sample_sessions_wf).
    + split; [reflexivity|split; [vm_compute; reflexivity|discriminate]].
    + exact sample_hello_acceptable.
    + unfold i64_max. vm_compute. split; discriminate.
    + exact sample_frames_sendable.
    + split_and!; vm_compute; discriminate.
    + constructor; [|constructor]. split; [vm_compute; reflexivity|]. split_and!; vm_compute; discriminate.
    + constructor; [|constructor; [|constructor]]; (split; [vm_compute; discriminate|split; [vm_compute; discriminate|done]]).
    + vm_compute. reflexivity.
  - reflexivity.
Defined.
