(* ===== verification/Socket.v ===== *)
(** The client's and the server's socket functions
    (src/product/src/ipc/unix_socket.hpp and .cpp) over an interface to the
    operating system.

    The system calls are the class [Kernel], state-passing functions on a world
    [W]; what the code relies on of them is the class [KernelLaws]: a call takes
    some time, [poll] returns soon after its timeout at the latest, the steady
    clock reads the time with its granularity (so two readings may be equal),
    [send] accepts a prefix of the bytes it is given, [recv] returns at most the
    bytes asked for, and every other call leaves the two byte streams alone.  The
    loops that wait have no bound of their own but the deadline, so they run on
    fuel, and [None] means that they are still waiting; [write_loop_total] and
    [read_loop_total] show that the time left until the deadline is fuel enough,
    and [write_loop_bound] and [read_loop_bound] when they are back. *)
From S2P Require Import Prelude Containers Common Provider Session Catalog Frame EventStore DataStore HealthStore ProcessorGraph Metrics Service Protocol.
Local Open Scope string_scope.
Local Open Scope list_scope.
Open Scope Z_scope.
Open Scope pdcm_scope.

(** ** The operating system *)

Inductive errno :=
  | EACCES | EPERM | EADDRINUSE | ETIMEDOUT | ENOENT | ECONNREFUSED | ECONNRESET | ENOTCONN | EPIPE
  | EINTR | EAGAIN | EINPROGRESS | E_other (code : Z).

(** [sizeof(sockaddr_un::sun_path)], [offsetof(sockaddr_un, sun_path)]. *)
Definition sun_path_size : Z := 108.
Definition sun_path_offset : Z := 2.

(** [endpoint.empty() || endpoint.front() != '/' || endpoint.size() >= ...] *)
Definition endpoint_invalid (endpoint : string) : bool :=
  match endpoint with
  | EmptyString => true
  | String front _ => negb (ascii_code front =? 47) || (sun_path_size <=? str_size endpoint)
  end.

Definition POLLIN : Z := 1.
Definition POLLOUT : Z := 4.
Definition POLLERR : Z := 8.
Definition POLLHUP : Z := 16.
Definition POLLNVAL : Z := 32.

(** [(revents & mask) != 0] *)
Definition has_bits (revents mask : Z) : bool := negb (Z.land revents mask =? 0).

Inductive poll_result := PollError (e : errno) | PollTimeout | PollReady (revents : Z).

Class Kernel (W : Type) := {
  k_now : W -> Z * W;
  k_poll : W -> Z -> Z -> Z -> poll_result * W;
  k_send : W -> Z -> list Z -> (errno + Z) * W;
  k_recv : W -> Z -> Z -> (errno + list Z) * W;
  k_peek : W -> Z -> (errno + list Z) * W;
  k_socket : W -> (errno + Z) * W;
  k_connect : W -> Z -> string -> option errno * W;
  k_so_error : W -> Z -> (errno + option errno) * W;
  k_close : W -> Z -> W }.

Definition socketError (error : errno) (operation : string) : Status :=
  match error with
  | EACCES | EPERM => mkStatus PDCM_STATUS_PERMISSION_DENIED operation
  | ETIMEDOUT => mkStatus PDCM_STATUS_TIMEOUT operation
  | ENOENT | ECONNREFUSED | ECONNRESET | ENOTCONN | EPIPE => mkStatus PDCM_STATUS_UNAVAILABLE operation
  | _ => mkStatus PDCM_STATUS_INTERNAL operation
  end.

(** An error after which [send] and [recv] are tried again. *)
Definition try_again (e : errno) : bool := match e with EINTR | EAGAIN => true | _ => false end.

Inductive WaitDirection := WD_Read | WD_Write.

Definition validateEndpoint (endpoint : string) : Status :=
  if endpoint_invalid endpoint then invalid_argument "Unix socket endpoint is invalid" else st_success.

(** [UniqueFd]: a descriptor or -1. *)
Notation UniqueFd := Z (only parsing).
Definition fd_none : UniqueFd := -1.
Definition fd_valid (fd : UniqueFd) : bool := 0 <=? fd.

Section Socket.
Context {W : Type} `{K : Kernel W}.

Definition fd_reset (w : W) (old new : UniqueFd) : UniqueFd * W := (new, if 0 <=? old then k_close w old else w).

(** [now] rounds the time left down to milliseconds, but to at least one. *)
Definition timeoutMilliseconds (w : W) (deadline : Z) : Z * W :=
  let '(now, w1) := k_now w in
  if deadline <=? now then (0, w1)
  else
  let remaining := (deadline - now) / 1000000 in
  if INT_MAX <=? remaining then (INT_MAX, w1) else (Z.max 1 remaining, w1).

Fixpoint waitFor (fuel : nat) (w : W) (fd : Z) (direction : WaitDirection) (deadline : Z) : option (Status * W) :=
  match fuel with
  | O => None
  | S fuel' =>
      let '(now, w1) := k_now w in
      if deadline <=? now then Some (mkStatus PDCM_STATUS_TIMEOUT "local IPC deadline expired", w1)
      else
      let events := match direction with WD_Read => POLLIN | WD_Write => POLLOUT end in
      let '(timeout, w2) := timeoutMilliseconds w1 deadline in
      let '(result, w3) := k_poll w2 fd events timeout in
      match result with
      | PollTimeout => Some (mkStatus PDCM_STATUS_TIMEOUT "local IPC deadline expired", w3)
      | PollError EINTR => waitFor fuel' w3 fd direction deadline
      | PollError e => Some (socketError e "local IPC poll failed", w3)
      | PollReady revents =>
          if has_bits revents POLLNVAL then Some (mkStatus PDCM_STATUS_INTERNAL "local IPC descriptor is invalid", w3)
          else if has_bits revents (Z.lor POLLERR POLLHUP) && negb (has_bits revents events)
          then Some (mkStatus PDCM_STATUS_UNAVAILABLE "local IPC peer disconnected", w3)
          else if has_bits revents events then Some (st_success, w3)
          else waitFor fuel' w3 fd direction deadline
      end
  end.

(** On success the descriptor is moved to the caller's; otherwise the candidate
    is closed and the caller's stays. *)
Definition connectUnixSocket (fuel : nat) (w : W) (endpoint : string) (deadline : Z) (socket : option UniqueFd)
    : option (Status * option UniqueFd * W) :=
  match socket with
  | None => Some (invalid_argument "socket output must be empty", None, w)
  | Some old =>
      if fd_valid old then Some (invalid_argument "socket output must be empty", socket, w)
      else
      let endpoint_status := validateEndpoint endpoint in
      if negb (st_ok endpoint_status) then Some (endpoint_status, socket, w)
      else
      let '(created, w1) := k_socket w in
      match created with
      | inl e => Some (socketError e "Unix socket creation failed", socket, w1)
      | inr fd =>
          let failed status w := Some (status, socket, k_close w fd) in
          if u32_max <? sun_path_offset + str_size endpoint + 1
          then failed (invalid_argument "Unix socket endpoint length is invalid") w1
          else
          let '(connected, w2) := k_connect w1 fd endpoint in
          match connected with
          | None => Some (st_success, Some fd, w2)
          | Some EINPROGRESS =>
              match waitFor fuel w2 fd WD_Write deadline with
              | None => None
              | Some (writable, w3) =>
                  if negb (st_ok writable) then failed writable w3
                  else
                  let '(so_error, w4) := k_so_error w3 fd in
                  match so_error with
                  | inl e => failed (socketError e "Unix socket status check failed") w4
                  | inr (Some e) => failed (socketError e "Unix socket connection failed") w4
                  | inr None => Some (st_success, Some fd, w4)
                  end
              end
          | Some e => failed (socketError e "Unix socket connection failed") w2
          end
      end
  end.

Definition checkUnixSocketConnected (w : W) (fd : Z) : Status * W :=
  if fd <? 0 then (invalid_argument "invalid local IPC descriptor", w)
  else
  let '(result, w1) := k_poll w fd POLLIN 0 in
  match result with
  | PollError e => (socketError e "local IPC status check failed", w1)
  | PollTimeout => (st_success, w1)
  | PollReady revents =>
      if has_bits revents (Z.lor POLLERR (Z.lor POLLHUP POLLNVAL))
      then (mkStatus PDCM_STATUS_UNAVAILABLE "local IPC peer disconnected", w1)
      else if has_bits revents POLLIN
      then
        let '(peeked, w2) := k_peek w1 fd in
        match peeked with
        | inr [] => (mkStatus PDCM_STATUS_UNAVAILABLE "local IPC peer closed the connection", w2)
        | inr _ => (st_success, w2)
        | inl e => if try_again e then (st_success, w2) else (socketError e "local IPC status check failed", w2)
        end
      else (st_success, w1)
  end.

(** The loop of [writeAll], with the bytes not yet written. *)
Fixpoint write_loop (fuel : nat) (w : W) (fd : Z) (rest : list Z) (deadline : Z) : option (Status * W) :=
  match rest with
  | [] => Some (st_success, w)
  | _ =>
  match fuel with
  | O => None
  | S fuel' =>
      match waitFor fuel w fd WD_Write deadline with
      | None => None
      | Some (writable, w1) =>
          if negb (st_ok writable) then Some (writable, w1)
          else
          let '(result, w2) := k_send w1 fd rest in
          match result with
          | inl e => if try_again e then write_loop fuel' w2 fd rest deadline
                     else Some (socketError e "local IPC write failed", w2)
          | inr n =>
              if n =? 0 then Some (mkStatus PDCM_STATUS_UNAVAILABLE "local IPC peer stopped accepting data", w2)
              else write_loop fuel' w2 fd (drop (Z.to_nat n) rest) deadline
          end
      end
  end
  end.

(** [data = None] is a null pointer with a non-zero size. *)
Definition writeAll (fuel : nat) (w : W) (fd : Z) (data : option (list Z)) (deadline : Z) : option (Status * W) :=
  match data with
  | None => Some (invalid_argument "invalid local IPC write arguments", w)
  | Some bytes =>
      if fd <? 0 then Some (invalid_argument "invalid local IPC write arguments", w)
      else write_loop fuel w fd bytes deadline
  end.

Fixpoint read_loop (fuel : nat) (w : W) (fd : Z) (decoder : FrameDecoder) (deadline : Z)
    : option (Status * option Frame * W) :=
  match fuel with
  | O => None
  | S fuel' =>
      match waitFor fuel w fd WD_Read deadline with
      | None => None
      | Some (readable, w1) =>
          if negb (st_ok readable) then Some (readable, None, w1)
          else
          let '(received, w2) := k_recv w1 fd 4096 in
          match received with
          | inl e => if try_again e then read_loop fuel' w2 fd decoder deadline
                     else Some (socketError e "local IPC read failed", None, w2)
          | inr [] => Some (mkStatus PDCM_STATUS_UNAVAILABLE "local IPC peer closed the connection", None, w2)
          | inr bytes =>
              let '(decoded, decoder', frames) := decoder_append decoder (Some bytes) (Some []) in
              if negb (st_ok decoded) then Some (decoded, None, w2)
              else
              match default [] frames with
              | [] => read_loop fuel' w2 fd decoder' deadline
              | [frame] => Some (st_success, Some frame, w2)
              | _ => Some (invalid_argument "unexpected coalesced response frames", None, w2)
              end
          end
      end
  end.

(** [frame = false] is a null output; the frame read is the second component. *)
Definition readOneFrame (fuel : nat) (w : W) (fd : Z) (frame : bool) (max_frame_bytes deadline : Z)
    : option (Status * option Frame * W) :=
  if (fd <? 0) || negb frame then Some (invalid_argument "invalid local IPC read arguments", None, w)
  else read_loop fuel w fd (decoder_init max_frame_bytes) deadline.
End Socket.

(** ** What the code relies on *)

(** [k_time] is the time, in ticks of which [k_grain] make a nanosecond of the
    steady clock; a reading is the whole nanoseconds, so readings do not
    decrease, but need not increase.  A call takes at least a tick, and at most
    [k_latency] ticks besides the timeout of a [poll].  [k_sent] and
    [k_received] are the bytes that have passed through a descriptor in each
    direction. *)
Class KernelLaws (W : Type) `{K : Kernel W} := {
  k_time : W -> Z;
  k_grain : Z;
  k_latency : Z;
  k_sent : W -> Z -> list Z;
  k_received : W -> Z -> list Z;
  kl_grain : 1 <= k_grain;
  kl_now : forall w, let '(t, w') := k_now w in
    t = k_time w / k_grain /\ k_time w < k_time w' <= k_time w + k_latency /\ k_sent w' = k_sent w /\ k_received w' = k_received w;
  kl_poll : forall w fd events timeout, 0 <= timeout -> let '(_, w') := k_poll w fd events timeout in
    k_time w < k_time w' <= k_time w + timeout * 1000000 * k_grain + k_latency /\ k_sent w' = k_sent w /\ k_received w' = k_received w;
  kl_send : forall w fd data, let '(r, w') := k_send w fd data in
    k_time w < k_time w' <= k_time w + k_latency /\ k_received w' = k_received w /\
    match r with
    | inl _ => k_sent w' = k_sent w
    | inr n => 0 <= n <= zlen data /\ k_sent w' fd = k_sent w fd ++ take (Z.to_nat n) data
    end;
  kl_recv : forall w fd n, let '(r, w') := k_recv w fd n in
    k_time w < k_time w' <= k_time w + k_latency /\ k_sent w' = k_sent w /\
    match r with
    | inl _ => k_received w' = k_received w
    | inr bytes => zlen bytes <= n /\ k_received w' fd = k_received w fd ++ bytes
    end }.

Section Laws.
Context {W : Type} `{K : Kernel W} `{L : !KernelLaws W}.

(** The time at which the clock reads a deadline, and the latest time at which
    a [poll] that was begun before it is over: the timeout is rounded up to one
    millisecond. *)
Definition due (deadline : Z) : Z := deadline * k_grain.
Definition poll_over (deadline : Z) : Z := due deadline + 1000000 * k_grain + 3 * k_latency.

(** The two streams are where they were, later. *)
Definition quiet (w w' : W) : Prop := k_time w < k_time w' /\ k_sent w' = k_sent w /\ k_received w' = k_received w.

Lemma quiet_trans w1 w2 w3 : quiet w1 w2 -> quiet w2 w3 -> quiet w1 w3.
Proof. intros (A1 & A2 & A3) (B1 & B2 & B3). split_and!; [lia|congruence|congruence]. Qed.

Lemma clock_before w deadline : k_time w / k_grain < deadline <-> k_time w < due deadline.
Proof.
  assert (0 < k_grain) as Hg by (pose proof kl_grain; lia). unfold due. split; intros Ht.
  - pose proof (Z.mul_succ_div_gt (k_time w) k_grain Hg). nia.
  - apply Z.div_lt_upper_bound; lia.
Qed.

(** The timeout of a [poll], and when that [poll] is over. *)
Lemma timeoutMilliseconds_bound w deadline : k_time w <= due deadline + k_latency ->
  let '(timeout, w') := timeoutMilliseconds w deadline in
  quiet w w' /\ 0 <= timeout /\ k_time w' + timeout * 1000000 * k_grain + k_latency <= poll_over deadline.
Proof.
  intros Ht. assert (0 < k_grain) as Hg by (pose proof kl_grain; lia). unfold timeoutMilliseconds, poll_over. pose proof (kl_now w) as Hn. destruct (k_now w) as [now w1].
  destruct Hn as (-> & [N1 N2] & N3 & N4). guard as G; bprop in G; [split_and!; [by split_and!|lia|nia]|]. cbv zeta.
  set (now := k_time w / k_grain) in *. pose proof (Z.mul_succ_div_gt (k_time w) k_grain Hg) as Hs. fold now in Hs.
  pose proof (Z.mul_div_le (deadline - now) 1000000 ltac:(lia)) as Hr. pose proof (Z.div_pos (deadline - now) 1000000 ltac:(lia) ltac:(lia)) as Hp.
  set (r := (deadline - now) / 1000000) in *. unfold due in *. unfold INT_MAX.
  assert (forall t, 0 <= t <= Z.max 1 r -> k_time w1 + t * 1000000 * k_grain + k_latency <= deadline * k_grain + 1000000 * k_grain + 3 * k_latency)
    as Hb by (intros t Hb; destruct (Z.max_spec 1 r) as [[H1 E]|[H1 E]]; rewrite E in Hb; nia).
  guard as G2; bprop in G2; (split; [by split_and!|]); (split; [lia|apply Hb; lia]).
Qed.

(** Waiting moves no byte; it ends right after the deadline at the latest, and
    the [poll] that finds the descriptor ready was begun before the deadline. *)
Lemma waitFor_quiet fuel w fd dir deadline : forall st w', waitFor fuel w fd dir deadline = Some (st, w') ->
  quiet w w' /\ k_time w' <= Z.max (k_time w) (poll_over deadline) + k_latency /\
  (st_ok st = true -> k_time w < due deadline /\ k_time w' <= poll_over deadline).
Proof.
  revert w. induction fuel as [|fuel IH]; intros w st w'; [done|]. cbn [waitFor].
  pose proof (kl_now w) as Hn. destruct (k_now w) as [now w1]. destruct Hn as (-> & [N1 N2] & N3 & N4).
  guard as G; bprop in G. { intros [= <- <-]. split; [by split_and!|]. split; [lia|done]. }
  apply clock_before in G.
  pose proof (timeoutMilliseconds_bound w1 deadline ltac:(lia)) as Ht. destruct (timeoutMilliseconds w1 deadline) as [timeout w2].
  destruct Ht as ((T1 & T2 & T3) & T4 & T5).
  pose proof (kl_poll w2 fd (match dir with WD_Read => POLLIN | WD_Write => POLLOUT end) timeout T4) as Hp.
  destruct (k_poll w2 fd _ timeout) as [result w3]. destruct Hp as ([P1 P2] & P3 & P4).
  assert (quiet w w3 /\ k_time w3 <= poll_over deadline) as [Hq Hlt].
  { split; [|lia]. split_and!; [lia|congruence|congruence]. }
  assert (forall st0, Some (st0, w3) = Some (st, w') -> quiet w w' /\ k_time w' <= Z.max (k_time w) (poll_over deadline) + k_latency /\
    (st_ok st = true -> k_time w < due deadline /\ k_time w' <= poll_over deadline))
    as Hret by (intros st0 [= <- <-]; split_and!; [done|lia|done]).
  assert (waitFor fuel w3 fd dir deadline = Some (st, w') -> quiet w w' /\ k_time w' <= Z.max (k_time w) (poll_over deadline) + k_latency /\
    (st_ok st = true -> k_time w < due deadline /\ k_time w' <= poll_over deadline)) as Hrec.
  { intros Hw. destruct (IH _ _ _ Hw) as (I1 & I2 & I3). split_and!; [by eapply quiet_trans|lia|intros Hok; by destruct (I3 Hok)]. }
  destruct result as [e| |revents]; [destruct e; by eauto|by eauto|]. repeat (guard as Gx; [by eauto|]; clear Gx). by eauto.
Qed.

Lemma waitFor_total fuel w fd dir deadline : due deadline - k_time w < Z.of_nat fuel -> (0 < fuel)%nat ->
  exists st w', waitFor fuel w fd dir deadline = Some (st, w').
Proof.
  revert w. induction fuel as [|fuel IH]; intros w Hf Hpos; [lia|]. cbn [waitFor].
  pose proof (kl_now w) as Hn. destruct (k_now w) as [now w1]. destruct Hn as (-> & [N1 N2] & N3 & N4).
  guard as G; bprop in G; [by eauto|]. apply clock_before in G.
  pose proof (timeoutMilliseconds_bound w1 deadline ltac:(lia)) as Ht. destruct (timeoutMilliseconds w1 deadline) as [timeout w2].
  destruct Ht as ((T1 & _ & _) & T4 & _).
  pose proof (kl_poll w2 fd (match dir with WD_Read => POLLIN | WD_Write => POLLOUT end) timeout T4) as Hp.
  destruct (k_poll w2 fd _ timeout) as [result w3]. destruct Hp as ([P1 _] & _).
  assert (exists st w', waitFor fuel w3 fd dir deadline = Some (st, w')) as Hrec by (apply IH; lia).
  destruct result as [e| |revents]; [destruct e; by eauto|by eauto|]. repeat (guard as Gx; [by eauto|]; clear Gx). done.
Qed.

(** ** Writing *)

Lemma write_loop_sent fuel w fd rest deadline : forall st w', write_loop fuel w fd rest deadline = Some (st, w') ->
  k_received w' = k_received w /\
  exists sent, k_sent w' fd = k_sent w fd ++ sent /\ sent `prefix_of` rest /\ (st_ok st = true -> sent = rest).
Proof.
  revert w rest. induction fuel as [|fuel IH]; intros w rest st w'.
  { destruct rest; [|done]. cbn. intros [= <- <-]. split; [done|]. exists []. by rewrite app_nil_r. }
  destruct rest as [|b rest]. { cbn. intros [= <- <-]. split; [done|]. exists []. by rewrite app_nil_r. }
  cbn [write_loop]. destruct (waitFor (S fuel) w fd WD_Write deadline) as [[writable w1]|] eqn:Ew; [|done].
  destruct (waitFor_quiet _ _ _ _ _ _ _ Ew) as ((Q1 & Q2 & Q3) & _). set (data := b :: rest) in *.
  assert (forall st0 w0, st_ok st0 = false -> k_received w0 = k_received w -> k_sent w0 fd = k_sent w fd ->
    Some (st0, w0) = Some (st, w') -> k_received w' = k_received w /\
    exists sent, k_sent w' fd = k_sent w fd ++ sent /\ sent `prefix_of` data /\ (st_ok st = true -> sent = data)) as Hstop.
  { intros st0 w0 Hst Hr Hs [= <- <-]. split; [done|]. exists []. rewrite app_nil_r. split_and!; [done|apply prefix_nil|congruence]. }
  guard as G; [apply negb_true_iff in G; apply Hstop; congruence|].
  pose proof (kl_send w1 fd data) as Hs. destruct (k_send w1 fd data) as [[e|n] w2]; destruct Hs as (S1 & S2 & S3).
  - guard as G2; [|apply Hstop; [by destruct e|congruence|congruence]]. intros Hl.
    destruct (IH _ _ _ _ Hl) as (I1 & sent & I2 & I3 & I4). split; [congruence|]. exists sent. by rewrite I2, S3, Q2.
  - destruct S3 as [Hn S3]. guard as G2; bprop in G2.
    { subst n. apply Hstop; [done|congruence|]. rewrite S3, Q2. apply app_nil_r. }
    intros Hl. destruct (IH _ _ _ _ Hl) as (I1 & sent & I2 & I3 & I4). split; [congruence|].
    exists (take (Z.to_nat n) data ++ sent). rewrite I2, S3, Q2, app_assoc. split_and!; [done| |].
    + rewrite <- (take_drop (Z.to_nat n) data) at 2. by apply prefix_app.
    + intros Hok. by rewrite (I4 Hok), take_drop.
Qed.

(** When the loop is over. *)
Definition over (w : W) (deadline : Z) : Z := Z.max (k_time w) (poll_over deadline + k_latency) + k_latency.

Lemma write_loop_bound fuel w fd rest deadline : forall st w', write_loop fuel w fd rest deadline = Some (st, w') -> k_time w' <= over w deadline.
Proof.
  unfold over. pose proof (kl_now w) as Hlat. assert (0 <= k_latency) as Hl by (destruct (k_now w); lia). clear Hlat.
  revert w rest. induction fuel as [|fuel IH]; intros w rest st w'.
  { destruct rest; [|done]. cbn. intros [= <- <-]. lia. }
  destruct rest as [|b rest]; [cbn; intros [= <- <-]; lia|].
  cbn [write_loop]. destruct (waitFor (S fuel) w fd WD_Write deadline) as [[writable w1]|] eqn:Ew; [|done].
  destruct (waitFor_quiet _ _ _ _ _ _ _ Ew) as (_ & Q2 & Q3). guard as G; [intros [= <- <-]; lia|].
  apply negb_false_iff in G. destruct (Q3 G) as [_ Q4]. pose proof (kl_send w1 fd (b :: rest)) as Hs.
  destruct (k_send w1 fd _) as [[e|n] w2]; destruct Hs as ([_ S1] & _); (guard as G2; [|]);
    first [intros Hw; apply IH in Hw; lia|intros [= <- <-]; lia].
Qed.

Lemma write_loop_total fuel w fd rest deadline : due deadline - k_time w < Z.of_nat fuel -> (0 < fuel)%nat ->
  exists st w', write_loop fuel w fd rest deadline = Some (st, w').
Proof.
  revert w rest. induction fuel as [|fuel IH]; intros w rest Hf Hpos; [lia|]. destruct rest as [|b rest]; [cbn; by eauto|].
  cbn [write_loop]. destruct (waitFor_total (S fuel) w fd WD_Write deadline Hf Hpos) as (writable & w1 & Ew). rewrite Ew.
  destruct (waitFor_quiet _ _ _ _ _ _ _ Ew) as ((Q2 & _) & _ & Q3). guard as G; [by eauto|]. apply negb_false_iff in G.
  destruct (Q3 G) as [Q4 _]. pose proof (kl_send w1 fd (b :: rest)) as Hs. destruct (k_send w1 fd _) as [[e|n] w2]; destruct Hs as ([S1 _] & _).
  - guard as G2; [apply IH; lia|by eauto].
  - guard as G2; [by eauto|apply IH; lia].
Qed.

(** ** Reading *)

Lemma read_loop_bound fuel w fd d deadline : forall st fr w', read_loop fuel w fd d deadline = Some (st, fr, w') -> k_time w' <= over w deadline.
Proof.
  unfold over. pose proof (kl_now w) as Hlat. assert (0 <= k_latency) as Hl by (destruct (k_now w); lia). clear Hlat.
  revert w d. induction fuel as [|fuel IH]; intros w d st fr w'; [done|].
  cbn [read_loop]. destruct (waitFor (S fuel) w fd WD_Read deadline) as [[readable w1]|] eqn:Ew; [|done].
  destruct (waitFor_quiet _ _ _ _ _ _ _ Ew) as (_ & Q2 & Q3). guard as G; [intros [= <- <- <-]; lia|].
  apply negb_false_iff in G. destruct (Q3 G) as [_ Q4]. pose proof (kl_recv w1 fd 4096) as Hs.
  destruct (k_recv w1 fd 4096) as [[e|bytes] w2]; destruct Hs as ([_ S1] & _).
  - guard as G2; [intros Hw; apply IH in Hw; lia|intros [= <- <- <-]; lia].
  - destruct bytes as [|b bytes]; [intros [= <- <- <-]; lia|]. destruct (decoder_append _ _ _) as [[decoded d'] frames].
    guard as G2; [intros [= <- <- <-]; lia|].
    destruct (default [] frames) as [|f [|]]; [intros Hw; apply IH in Hw; lia|intros [= <- <- <-]; lia..].
Qed.

Lemma read_loop_total fuel w fd d deadline : due deadline - k_time w < Z.of_nat fuel -> (0 < fuel)%nat ->
  exists st fr w', read_loop fuel w fd d deadline = Some (st, fr, w').
Proof.
  revert w d. induction fuel as [|fuel IH]; intros w d Hf Hpos; [lia|].
  cbn [read_loop]. destruct (waitFor_total (S fuel) w fd WD_Read deadline Hf Hpos) as (readable & w1 & Ew). rewrite Ew.
  destruct (waitFor_quiet _ _ _ _ _ _ _ Ew) as ((Q2 & _) & _ & Q3). guard as G; [by eauto|]. apply negb_false_iff in G.
  destruct (Q3 G) as [Q4 _]. pose proof (kl_recv w1 fd 4096) as Hs. destruct (k_recv w1 fd 4096) as [[e|bytes] w2]; destruct Hs as ([S1 _] & _).
  - guard as G2; [apply IH; lia|by eauto].
  - destruct bytes as [|b bytes]; [by eauto|]. destruct (decoder_append _ _ _) as [[decoded d'] frames].
    guard as G2; [by eauto|]. destruct (default [] frames) as [|f [|]]; [apply IH; lia|by eauto|by eauto].
Qed.

(** A chunk of one frame. *)
Lemma append_one_frame max f b bs q : 20 <= max <= i64_max -> sendable max f -> zlen b < zlen (frame_bytes f) -> bs <> [] ->
  zlen bs <= max -> b ++ bs ++ q = frame_bytes f ->
  decoder_append (mkDecoder max b false) (Some bs) (Some []) =
  if bool_decide (q = []) then (st_success, mkDecoder max [] false, Some [f])
  else (st_success, mkDecoder max (b ++ bs) false, Some []).
Proof.
  intros Hmax Hf Hb Hne Hlen Hst. assert (zlen b < max) by (destruct Hf as (_ & _ & ?); pose proof (frame_bytes_length f); lia).
  destruct (decode_loop_prefix max [f] ltac:(by constructor) (b ++ bs) q (S (length (b ++ bs)))) as (fs1 & fs2 & n & E & Hd & Hn & Hi);
    [cbn [map concat]; by rewrite app_nil_r, <- app_assoc|lia|].
  rewrite (decoder_append_ok max b [] bs n fs1) by done. destruct fs1 as [|f' fs1].
  - destruct fs2 as [|? [|]]; try done. injection E as <-. cbn [map concat incomplete] in Hn, Hi. rewrite app_nil_r in Hn.
    rewrite bool_decide_false by (intros ->; rewrite app_nil_r in *; rewrite Hn in Hi; lia).
    assert (drop n (b ++ bs) = b ++ bs) as ->; [|done].
    rewrite <- Hst, app_assoc in Hn. by eapply app_inv_tail.
  - destruct fs1; [|done]. destruct fs2; [|done]. injection E as <-. cbn [map concat incomplete] in Hn, Hi.
    apply app_nil in Hn as [-> ->]. by rewrite bool_decide_true.
Qed.

(** What is read is the frame that was sent, however it was cut. *)
Definition reads_frame (f : Frame) (b r q : list Z) (st : Status) (fr : option Frame) : Prop :=
  b ++ r ++ q = frame_bytes f -> (st_ok st = true <-> b ++ r = frame_bytes f) /\ (st_ok st = true -> fr = Some f).

Lemma read_loop_frame max f q : 20 <= max <= i64_max -> 4096 <= max -> sendable max f ->
  forall fuel w fd d deadline st fr w', read_loop fuel w fd d deadline = Some (st, fr, w') ->
  exists r, k_received w' fd = k_received w fd ++ r /\
  forall b, d = mkDecoder max b false -> zlen b < zlen (frame_bytes f) -> reads_frame f b r q st fr.
Proof.
  intros Hmax H4 Hf. induction fuel as [|fuel IH]; intros w fd d deadline st fr w'; [done|]. cbn [read_loop].
  destruct (waitFor (S fuel) w fd WD_Read deadline) as [[readable w1]|] eqn:Ew; [|done].
  destruct (waitFor_quiet _ _ _ _ _ _ _ Ew) as ((Q1 & Q2 & Q3) & _).
  assert (forall st0 w0, st_ok st0 = false -> k_received w0 fd = k_received w fd -> Some (st0, None, w0) = Some (st, fr, w') ->
    exists r, k_received w' fd = k_received w fd ++ r /\
    forall b, d = mkDecoder max b false -> zlen b < zlen (frame_bytes f) -> reads_frame f b r q st fr) as Hstop.
  { intros st0 w0 Hst Hr [= <- <- <-]. exists []. rewrite !app_nil_r. split; [done|]. intros b _ Hb _. rewrite app_nil_r, Hst.
    split; [|done]. split; [done|]. intros ->. lia. }
  guard as G; [apply negb_true_iff in G; apply Hstop; congruence|].
  pose proof (kl_recv w1 fd 4096) as Hs. destruct (k_recv w1 fd 4096) as [[e|bytes] w2]; destruct Hs as (S1 & _ & S3).
  { guard as G2; [|apply Hstop; [by destruct e|congruence]]. intros Hl. destruct (IH _ _ _ _ _ _ _ Hl) as (r & I1 & I2).
    exists r. split; [congruence|done]. }
  destruct S3 as [S3 S4]. destruct bytes as [|x bytes]. { apply Hstop; [done|]. by rewrite S4, app_nil_r, Q3. }
  set (bs := x :: bytes) in *. rewrite Q3 in S4. destruct (decoder_append d (Some bs) (Some [])) as [[decoded d'] frames] eqn:Ed.
  assert (forall b q', d = mkDecoder max b false -> zlen b < zlen (frame_bytes f) -> b ++ bs ++ q' = frame_bytes f ->
    (decoded, d', frames) = if bool_decide (q' = []) then (st_success, mkDecoder max [] false, Some [f])
      else (st_success, mkDecoder max (b ++ bs) false, Some [])) as Hdec.
  { intros b q' -> Hb Hq. rewrite <- Ed. apply append_one_frame; try done. lia. }
  clearbody bs. guard as G2.
  { intros [= <- <- <-]. exists bs. split; [done|]. intros b Hd Hb Hq. specialize (Hdec b q Hd Hb Hq). by destruct (bool_decide _); simplify_eq. }
  destruct (default [] frames) as [|fr0 [|]] eqn:Ef.
  - intros Hl. destruct (IH _ _ _ _ _ _ _ Hl) as (r & I1 & I2). exists (bs ++ r). split; [by rewrite I1, S4, app_assoc|].
    intros b Hd Hb Hq. rewrite <- app_assoc in Hq. specialize (Hdec b (r ++ q) Hd Hb Hq).
    destruct (bool_decide (r ++ q = [])) eqn:Eq; [simplify_eq|]. injection Hdec as -> -> ->. bprop in Eq.
    unfold reads_frame in I2. rewrite app_assoc. apply (I2 (b ++ bs) eq_refl); [|by rewrite <- app_assoc].
    rewrite <- Hq, app_assoc, (zlen_app (b ++ bs)). destruct (r ++ q); [done|]. rewrite zlen_cons.
    match goal with |- context [zlen ?l] => pose proof (zlen_nonneg l) end. pose proof (zlen_nonneg l). lia.
  - intros [= <- <- <-]. exists bs. split; [done|]. intros b Hd Hb Hq. specialize (Hdec b q Hd Hb Hq).
    destruct (bool_decide (q = [])) eqn:Eq; simplify_eq/=. bprop in Eq. subst q. rewrite app_nil_r in Hq. done.
  - intros [= <- <- <-]. exists bs. split; [done|]. intros b Hd Hb Hq. specialize (Hdec b q Hd Hb Hq).
    by destruct (bool_decide (q = [])); simplify_eq.
Qed.

(** ** Theorems *)

(** C23: [writeAll] is back by its deadline and writes exactly its data.  Whatever
    the descriptor does (partial writes, interruptions, errors), the call
    returns, and no later than one millisecond and five call latencies after its
    deadline, or after its beginning when the deadline has passed; the bytes
    that have gone out are then the first ones of the data, in order and without
    repetition, all of them when it reports success; and nothing has been
    read. *)
Theorem writeAll_exact fuel w fd bytes deadline :
  Z.max 0 (due deadline - k_time w) < Z.of_nat fuel ->
  exists st w', writeAll fuel w fd (Some bytes) deadline = Some (st, w') /\
  k_time w' <= Z.max (k_time w) (due deadline) + 1000000 * k_grain + 5 * k_latency /\ k_received w' = k_received w /\
  exists sent, k_sent w' fd = k_sent w fd ++ sent /\ sent `prefix_of` bytes /\ (st_ok st = true -> sent = bytes).
Proof.
  intros Hf. pose proof (kl_now w) as Hlat. assert (0 <= k_latency) as Hl by (destruct (k_now w); lia). pose proof kl_grain. clear Hlat.
  unfold writeAll. guard as G.
  - eexists _, _. split; [done|]. split; [lia|]. split; [done|]. exists []. rewrite app_nil_r. split_and!; [done|apply prefix_nil|done].
  - destruct (write_loop_total fuel w fd bytes deadline) as (st & w' & Hw); [lia|lia|]. exists st, w'. split; [done|].
    split; [apply write_loop_bound in Hw; unfold over, poll_over in Hw; lia|]. by apply (write_loop_sent fuel w fd bytes deadline).
Qed.

(** [readOneFrame] is back by its deadline, as [writeAll] is, and reads the frame
    that is sent: as long as what it has received is the
    beginning of the encoding of a frame, in whatever pieces, it succeeds
    exactly when the encoding is complete, and then with that frame. *)
Theorem readOneFrame_exact fuel w fd max f deadline :
  4096 <= max <= i64_max -> sendable max f -> Z.max 0 (due deadline - k_time w) < Z.of_nat fuel ->
  exists st fr w' r, readOneFrame fuel w fd true max deadline = Some (st, fr, w') /\
  k_time w' <= Z.max (k_time w) (due deadline) + 1000000 * k_grain + 5 * k_latency /\
  k_received w' fd = k_received w fd ++ r /\
  (r `prefix_of` frame_bytes f ->
     (st_ok st = true <-> 0 <= fd /\ r = frame_bytes f) /\ (st_ok st = true -> fr = Some f)).
Proof.
  intros Hmax Hf Hfuel. pose proof (frame_bytes_length f) as Hlen. pose proof (zlen_nonneg (payload f)).
  pose proof (kl_now w) as Hlat. assert (0 <= k_latency) as Hl by (destruct (k_now w); lia). pose proof kl_grain. clear Hlat.
  unfold readOneFrame. cbn [negb]. rewrite orb_false_r. guard as G; bprop in G.
  { eexists _, None, w, []. split; [done|]. split; [lia|]. split; [by rewrite app_nil_r|]. intros _. split; [|done]. split; [done|lia]. }
  destruct (read_loop_total fuel w fd (decoder_init max) deadline) as (st & fr & w' & Hr); [lia|lia|].
  exists st, fr, w'. destruct (read_loop_frame max f [] ltac:(lia) ltac:(lia) Hf _ _ _ _ _ _ _ _ Hr) as (r0 & I1 & _).
  exists r0. split; [done|]. split; [apply read_loop_bound in Hr; unfold over, poll_over in Hr; lia|]. split; [done|]. intros [q Hq].
  destruct (read_loop_frame max f q ltac:(lia) ltac:(lia) Hf _ _ _ _ _ _ _ _ Hr) as (r & I2 & I3).
  assert (r = r0) as -> by (rewrite I1 in I2; by apply app_inv_head in I2).
  destruct (I3 [] eq_refl) as [T1 T2]; [rewrite zlen_nil; lia|by rewrite Hq|]. cbn in T1. split; [|done]. rewrite T1.
  split; [intros ->; split; [lia|done]|by intros [_ ->]].
Qed.
End Laws.

(** ** Witnesses *)

(** A kernel that delivers what is incoming in pieces and accepts at most three
    bytes at a time; a call takes half a nanosecond. *)
Record pipe := mkPipe { pp_time : Z; pp_incoming : list Z; pp_sent : list Z; pp_received : list Z }.
Definition pipe_recv (p : pipe) (n : Z) : list Z := take (Z.to_nat (Z.min n 16)) (pp_incoming p).
Definition tick (p : pipe) : pipe := mkPipe (pp_time p + 1) (pp_incoming p) (pp_sent p) (pp_received p).

#[export] Instance sample_kernel : Kernel pipe := {|
  k_now := fun p => (pp_time p / 2, tick p);
  k_poll := fun p _ events _ => (PollReady events, tick p);
  k_send := fun p _ data =>
    let n := Z.min 3 (zlen data) in
    (inr n, mkPipe (pp_time p + 1) (pp_incoming p) (pp_sent p ++ take (Z.to_nat n) data) (pp_received p));
  k_recv := fun p _ n =>
    if n <? 0 then (inl EAGAIN, tick p)
    else (inr (pipe_recv p n),
          mkPipe (pp_time p + 1) (drop (length (pipe_recv p n)) (pp_incoming p)) (pp_sent p) (pp_received p ++ pipe_recv p n));
  k_peek := fun p _ => (inr (take 1 (pp_incoming p)), p);
  k_socket := fun p => (inr 3, p);
  k_connect := fun p _ _ => (None, p);
  k_so_error := fun p _ => (inr None, p);
  k_close := fun p _ => p |}.

#[export, refine] Instance sample_kernel_laws : KernelLaws pipe := {|
  k_time := pp_time; k_grain := 2; k_latency := 1; k_sent := fun p _ => pp_sent p; k_received := fun p _ => pp_received p |}.
Proof.
  - lia.
  - intros p. cbn. split_and!; done || lia.
  - intros p fd events timeout Ht. cbn. split_and!; done || lia.
  - intros p fd data. cbn. pose proof (zlen_nonneg data). split_and!; done || lia.
  - intros p fd n. cbn. destruct (n <? 0) eqn:E; bprop in E; cbn; [split_and!; done || lia|]. split_and!; try done; try lia.
    unfold pipe_recv, zlen. rewrite length_take. lia.
Defined.

Lemma writeAll_exact_witness :
  exists st w', writeAll 80 (mkPipe 0 [] [] []) 3 (Some [1; 2; 3; 4; 5; 6; 7]) 30 = Some (st, w') /\ pp_time w' <= 2000065 /\
    pp_received w' = [] /\ exists sent, pp_sent w' = sent /\ sent `prefix_of` [1; 2; 3; 4; 5; 6; 7].
Proof.
  destruct (writeAll_exact 80 (mkPipe 0 [] [] []) 3 [1; 2; 3; 4; 5; 6; 7] 30) as (st & w' & T1 & T0 & T2 & sent & T3 & T4 & _);
    [vm_compute; reflexivity|].
  exists st, w'. split; [exact T1|]. split; [exact T0|]. split; [exact (f_equal (fun g => g 3) T2)|]. exists sent. split; [exact T3|exact T4].
Defined.

Lemma readOneFrame_exact_witness :
  exists st fr w' r, readOneFrame 80 (mkPipe 0 (frame_bytes sample_frame1) [] []) 3 true 4096 30 = Some (st, fr, w') /\
    pp_received w' = r /\ (r `prefix_of` frame_bytes sample_frame1 -> st_ok st = true -> fr = Some sample_frame1).
Proof.
  destruct (readOneFrame_exact 80 (mkPipe 0 (frame_bytes sample_frame1) [] []) 3 4096 sample_frame1 30)
    as (st & fr & w' & r & T1 & _ & T2 & T3);
    [unfold i64_max; lia|split_and!; [split| |]; vm_compute; first [discriminate|split; discriminate]|vm_compute; reflexivity|].
  exists st, fr, w', r. split; [exact T1|]. split; [exact T2|]. intros Hp. exact (proj2 (T3 Hp)).
Defined.
