(* ===== verification/Server.v ===== *)
(** The local API server (src/product/src/ipc/local_api_server.hpp and .cpp):
    its start and stop, the accept loop with its workers, and the life of the
    connections, of which Connection.v models the serving loop.

    The accept thread, the workers and the owner of the server share the state
    of this file.  An operation is what one of them does between two points
    where another may run: each is a function, [thread_step] is what the accept
    thread and the workers can do, and [server_step] adds the owner.  Both loops
    have a head, where the code tests [running_], and a phase in which they are
    inside [poll] (which returns at the latest after its 100 ms) and what
    follows it.  The results of the system calls are arguments; [accept4]
    returns a descriptor that is not open. *)
From S2P Require Import Prelude Containers Common Provider Session Catalog Frame EventStore DataStore HealthStore ProcessorGraph Metrics Service Protocol Codec Handshake Router Connection Socket.
Local Open Scope string_scope.
Local Open Scope list_scope.
Open Scope Z_scope.
Open Scope pdcm_scope.

(** ** Errors *)

Definition serverSocketError (error : errno) (operation : string) : Status :=
  match error with
  | EACCES | EPERM => mkStatus PDCM_STATUS_PERMISSION_DENIED operation
  | EADDRINUSE => mkStatus PDCM_STATUS_RESOURCE_EXHAUSTED operation
  | _ => mkStatus PDCM_STATUS_INTERNAL operation
  end.

(** ** State *)

(** A worker thread: not yet in [handleConnection], at the head of its serving
    loop, polling its connection, out of the loop, returned, after
    [active_connections_.fetch_sub(1)], and after [done->store(true)]. *)
Inductive worker_phase :=
  | WP_Spawned (fd : Z)
  | WP_Serving (c : Connection)
  | WP_Polling (c : Connection)
  | WP_Left (c : Connection)
  | WP_Returned
  | WP_Released
  | WP_Done.

(** The accept thread: not running (not yet, or no more), at the head of its
    loop, polling the listening socket. *)
Inductive accept_phase := AP_Exited | AP_Head | AP_Polling.

(** Where the owner is in [stop]: not in it, after [running_.store(false)] and
    the shutdown of the listening socket, after the shutdown of the
    connections. *)
Inductive stop_phase := SP_Idle | SP_Begun | SP_Shut.

Record LocalApiServer := mkServer {
  srv_endpoint_ : string;
  srv_limits_ : ResourceLimits;
  srv_sessions_ : SessionManager;
  srv_listening_ : bool;
  srv_bound_ : bool;
  srv_started_once_ : bool;
  srv_running_ : bool;
  srv_accept_ : accept_phase;
  srv_active_connections_ : Z;
  srv_completed_connections_ : Z;
  srv_connection_fds_ : gset Z;
  srv_workers_ : list worker_phase;
  srv_stop_ : stop_phase;
  srv_listener_shut_ : bool;
  srv_shut_fds_ : gset Z }.

(** [accept_thread_.joinable()] and not ended. *)
Definition srv_accepting_ (s : LocalApiServer) : bool :=
  match srv_accept_ s with AP_Exited => false | _ => true end.

Definition activeSessions (s : LocalApiServer) : Z := sm_size (srv_sessions_ s).
Definition completedConnections (s : LocalApiServer) : Z := srv_completed_connections_ s.

Definition srv_with_workers (s : LocalApiServer) (ws : list worker_phase) : LocalApiServer :=
  mkServer (srv_endpoint_ s) (srv_limits_ s) (srv_sessions_ s) (srv_listening_ s) (srv_bound_ s) (srv_started_once_ s)
    (srv_running_ s) (srv_accept_ s) (srv_active_connections_ s) (srv_completed_connections_ s) (srv_connection_fds_ s) ws
    (srv_stop_ s) (srv_listener_shut_ s) (srv_shut_fds_ s).
Definition srv_with_active (s : LocalApiServer) (n : Z) : LocalApiServer :=
  mkServer (srv_endpoint_ s) (srv_limits_ s) (srv_sessions_ s) (srv_listening_ s) (srv_bound_ s) (srv_started_once_ s)
    (srv_running_ s) (srv_accept_ s) n (srv_completed_connections_ s) (srv_connection_fds_ s) (srv_workers_ s)
    (srv_stop_ s) (srv_listener_shut_ s) (srv_shut_fds_ s).
Definition srv_with_sessions (s : LocalApiServer) (m : SessionManager) : LocalApiServer :=
  mkServer (srv_endpoint_ s) (srv_limits_ s) m (srv_listening_ s) (srv_bound_ s) (srv_started_once_ s)
    (srv_running_ s) (srv_accept_ s) (srv_active_connections_ s) (srv_completed_connections_ s) (srv_connection_fds_ s)
    (srv_workers_ s) (srv_stop_ s) (srv_listener_shut_ s) (srv_shut_fds_ s).
Definition srv_with_connections (s : LocalApiServer) (fds : gset Z) (completed : Z) : LocalApiServer :=
  mkServer (srv_endpoint_ s) (srv_limits_ s) (srv_sessions_ s) (srv_listening_ s) (srv_bound_ s) (srv_started_once_ s)
    (srv_running_ s) (srv_accept_ s) (srv_active_connections_ s) completed fds (srv_workers_ s)
    (srv_stop_ s) (srv_listener_shut_ s) (srv_shut_fds_ s).
Definition srv_with_accept (s : LocalApiServer) (a : accept_phase) : LocalApiServer :=
  mkServer (srv_endpoint_ s) (srv_limits_ s) (srv_sessions_ s) (srv_listening_ s) (srv_bound_ s) (srv_started_once_ s)
    (srv_running_ s) a (srv_active_connections_ s) (srv_completed_connections_ s) (srv_connection_fds_ s) (srv_workers_ s)
    (srv_stop_ s) (srv_listener_shut_ s) (srv_shut_fds_ s).
(** The members that start and stop change. *)
Definition srv_with_state (s : LocalApiServer) (listening bound once running : bool) (accept : accept_phase) : LocalApiServer :=
  mkServer (srv_endpoint_ s) (srv_limits_ s) (srv_sessions_ s) listening bound once running accept
    (srv_active_connections_ s) (srv_completed_connections_ s) (srv_connection_fds_ s) (srv_workers_ s)
    (srv_stop_ s) (srv_listener_shut_ s) (srv_shut_fds_ s).
(** Where [stop] is, and what it has shut down. *)
Definition srv_with_stop (s : LocalApiServer) (phase : stop_phase) (listener : bool) (fds : gset Z) : LocalApiServer :=
  mkServer (srv_endpoint_ s) (srv_limits_ s) (srv_sessions_ s) (srv_listening_ s) (srv_bound_ s) (srv_started_once_ s)
    (srv_running_ s) (srv_accept_ s) (srv_active_connections_ s) (srv_completed_connections_ s) (srv_connection_fds_ s)
    (srv_workers_ s) phase listener fds.

(** The constructor; [RequestRouter] throws without a core. *)
Definition srv_construct (endpoint : string) (core : bool) (limits : ResourceLimits) : string + LocalApiServer :=
  if negb core then inl "RequestRouter requires service core"
  else inr (mkServer endpoint limits (sm_init limits) false false false false AP_Exited 0 0 ∅ [] SP_Idle false ∅).

(** ** Start and stop *)

(** The results of the system calls of [start], [None] for success, and whether
    the worker vector and the accept thread can be allocated. *)
Record start_env := mkStartEnv {
  se_socket : option errno; se_bind : option errno; se_chmod : option errno; se_listen : option errno;
  se_capacity : bool; se_thread : bool }.

Definition srv_start (s : LocalApiServer) (core : option CoreState) (env : start_env) : Status * LocalApiServer :=
  if srv_started_once_ s || srv_running_ s || srv_listening_ s
  then (mkStatus PDCM_STATUS_NOT_INITIALIZED "local API server can only be started once", s)
  else
  match core with
  | None => (invalid_argument "local API server configuration is invalid", s)
  | Some core_state =>
  if (max_sessions (srv_limits_ s) =? 0) || (lim_max_frame_bytes (srv_limits_ s) <? kFrameHeaderBytes)
  then (invalid_argument "local API server configuration is invalid", s)
  else if (core_state !=? CS_Ready) && (core_state !=? CS_Degraded)
  then (mkStatus PDCM_STATUS_NOT_INITIALIZED "core must be ready or degraded before binding IPC", s)
  else if endpoint_invalid (srv_endpoint_ s)
  then (invalid_argument "Unix socket endpoint is invalid", s)
  else
  match se_socket env with
  | Some e => (serverSocketError e "Unix socket creation failed", s)
  | None =>
  if u32_max <? sun_path_offset + str_size (srv_endpoint_ s) + 1
  then (invalid_argument "Unix socket endpoint length is invalid", s)
  else
  match se_bind env with
  | Some e => (serverSocketError e "Unix socket bind failed", s)
  | None =>
  (* bound_ = true; a later failure unlinks the endpoint and clears it *)
  let unbound := srv_with_state s (srv_listening_ s) false (srv_started_once_ s) (srv_running_ s) (srv_accept_ s) in
  match se_chmod env, se_listen env with
  | Some e, _ => (serverSocketError e "Unix socket permission setup failed", unbound)
  | None, Some e => (serverSocketError e "Unix socket listen failed", unbound)
  | None, None =>
      if negb (se_capacity env)
      then (mkStatus PDCM_STATUS_RESOURCE_EXHAUSTED "local API worker capacity allocation failed", unbound)
      else if negb (se_thread env)
      then (mkStatus PDCM_STATUS_RESOURCE_EXHAUSTED "local API accept thread creation failed",
            srv_with_state s false false (srv_started_once_ s) false (srv_accept_ s))
      else (st_success, srv_with_state s true true true true AP_Head)
  end end end end.

Definition is_done (w : worker_phase) : bool := match w with WP_Done => true | _ => false end.

(** [reapWorkers]; a join waits for a thread, so that [reapWorkers(true)] runs
    only once every worker is done. *)
Definition reapWorkers (s : LocalApiServer) (join_all : bool) : LocalApiServer :=
  srv_with_workers s (filter (fun w => negb (join_all || is_done w) = true) (srv_workers_ s)).

(** [stop] up to its first unlock: no loop goes on, and the listening socket is
    shut down. *)
Definition srv_stop_begin (s : LocalApiServer) : LocalApiServer :=
  if negb (srv_listening_ s) && negb (srv_bound_ s) then s
  else srv_with_stop (srv_with_state s (srv_listening_ s) (srv_bound_ s) (srv_started_once_ s) false (srv_accept_ s))
         SP_Begun (srv_listening_ s) (srv_shut_fds_ s).

(** The loop of [stop] that shuts down every registered connection. *)
Definition srv_stop_connections (s : LocalApiServer) : LocalApiServer :=
  srv_with_stop s SP_Shut (srv_listener_shut_ s) (srv_shut_fds_ s ∪ srv_connection_fds_ s).

(** [stop] after the accept thread and the workers have ended. *)
Definition srv_stop_end (s : LocalApiServer) : Status * LocalApiServer :=
  if negb (srv_listening_ s) && negb (srv_bound_ s) then (st_success, s)
  else
  let s1 := reapWorkers s true in
  let m := closeAll (snd (sm_beginDraining (srv_sessions_ s1))) in
  (st_success,
   srv_with_stop (srv_with_state (srv_with_sessions s1 m) false false (srv_started_once_ s1) (srv_running_ s1) (srv_accept_ s1))
     SP_Idle false (srv_shut_fds_ s1)).

(** ** The accept loop *)

(** The compare-and-swap loop, at its last access to the counter. *)
Definition reserveConnection (s : LocalApiServer) : bool * LocalApiServer :=
  if srv_active_connections_ s <? max_sessions (srv_limits_ s)
  then (true, srv_with_active s (srv_active_connections_ s + 1))
  else (false, s).

(** An accepted client; [thread] tells whether its thread can be created. *)
Definition srv_accept (s : LocalApiServer) (client : Z) (thread : bool) : LocalApiServer :=
  let s1 := reapWorkers s false in
  if max_sessions (srv_limits_ s1) <=? zlen (srv_workers_ s1) then s1
  else
  let '(reserved, s2) := reserveConnection s1 in
  if negb reserved then s2
  else
  let s3 := if thread then srv_with_workers s2 (srv_workers_ s2 ++ [WP_Spawned client])
            else srv_with_active s2 (srv_active_connections_ s2 - 1) in
  reapWorkers s3 false.

(** The end of [acceptLoop]. *)
Definition srv_accept_exit (s : LocalApiServer) : LocalApiServer := srv_with_accept (reapWorkers s false) AP_Exited.

(** The condition of the loop. *)
Definition accept_head (s : LocalApiServer) : LocalApiServer :=
  if srv_running_ s then srv_with_accept s AP_Polling else srv_accept_exit s.

(** How a turn of the loop ends after [poll]: the time is up, a call is to be
    tried again, [poll] has failed for good, or there is a client.  The tests
    of [running_] before some of the [continue]s come to the same as the test of
    the head. *)
Inductive accept_result :=
  | AR_Timeout
  | AR_Retry
  | AR_Broken
  | AR_Client (client : Z) (thread : bool).

Definition accept_turn (s : LocalApiServer) (r : accept_result) : LocalApiServer :=
  match r with
  | AR_Timeout => srv_with_accept (reapWorkers s false) AP_Head
  | AR_Retry => srv_with_accept s AP_Head
  | AR_Broken => srv_accept_exit s
  | AR_Client client thread => srv_with_accept (srv_accept s client thread) AP_Head
  end.

(** ** The workers *)

Definition srv_set_worker (s : LocalApiServer) (i : nat) (w : worker_phase) : LocalApiServer :=
  srv_with_workers s (<[i := w]> (srv_workers_ s)).

(** The beginning of [handleConnection]; [None] when the peer's credentials
    cannot be read. *)
Definition worker_begin (s : LocalApiServer) (i : nat) (fd : Z) (peer : option PeerIdentity) : LocalApiServer :=
  match peer with
  | None => srv_set_worker (srv_with_connections s (srv_connection_fds_ s) (srv_completed_connections_ s + 1)) i WP_Returned
  | Some p =>
      srv_set_worker (srv_with_connections s ({[fd]} ∪ srv_connection_fds_ s) (srv_completed_connections_ s)) i
        (WP_Serving (conn_open fd p (srv_limits_ s)))
  end.

(** The head of the serving loop; [expired] tells whether the handshake deadline
    has passed. *)
Definition worker_head (s : LocalApiServer) (i : nat) (c : Connection) (expired : bool) : LocalApiServer :=
  if srv_running_ s && negb (cn_close_connection c)
  then if negb (cn_handshake_complete c) && expired then srv_set_worker s i (WP_Left c) else srv_set_worker s i (WP_Polling c)
  else srv_set_worker s i (WP_Left c).

(** A turn without bytes: nothing to read yet ([true]), or an error, a hangup or
    the end of the stream. *)
Definition worker_quiet (s : LocalApiServer) (i : nat) (c : Connection) (again : bool) : LocalApiServer :=
  srv_set_worker s i (if again then WP_Serving c else WP_Left c).

(** A turn that has received a chunk. *)
Definition worker_chunk {P} `{LP : LocalProtocol} (s : LocalApiServer) (i : nat) (c : Connection)
    (core : ServiceCore (P := P)) (received : list Z) (env : nat -> frame_env) : list (list Z) * LocalApiServer :=
  let '(go_on, out, c', m') := conn_receive core (srv_limits_ s) (srv_sessions_ s) c received env in
  (out, srv_set_worker (srv_with_sessions s m') i (if go_on then WP_Serving c' else WP_Left c')).

(** What [handleConnection] does after its loop; its return closes the
    descriptor. *)
Definition worker_finish (s : LocalApiServer) (i : nat) (c : Connection) : LocalApiServer :=
  let m := match cn_session_id c with
           | Some id => snd (sm_close (srv_sessions_ s) id)
           | None => srv_sessions_ s
           end in
  srv_with_stop
    (srv_set_worker
       (srv_with_connections (srv_with_sessions s m) (srv_connection_fds_ s ∖ {[cn_fd c]}) (srv_completed_connections_ s + 1))
       i WP_Returned)
    (srv_stop_ s) (srv_listener_shut_ s) (srv_shut_fds_ s ∖ {[cn_fd c]}).

(** [active_connections_.fetch_sub(1)] *)
Definition worker_release (s : LocalApiServer) (i : nat) : LocalApiServer :=
  srv_set_worker (srv_with_active s (srv_active_connections_ s - 1)) i WP_Released.

(** ** Interleavings *)

(** The descriptors of the connections that the server has open. *)
Definition worker_fd (w : worker_phase) : option Z :=
  match w with WP_Spawned fd => Some fd | WP_Serving c | WP_Polling c | WP_Left c => Some (cn_fd c) | _ => None end.
Definition open_fds (s : LocalApiServer) : list Z := omap worker_fd (srv_workers_ s).

(** What the accept thread and the workers can do. *)
Inductive thread_step {P} `{LP : LocalProtocol} (s : LocalApiServer) : LocalApiServer -> Prop :=
  | step_accept_head : srv_accept_ s = AP_Head -> thread_step s (accept_head s)
  | step_accept_turn r :
      srv_accept_ s = AP_Polling -> (forall client thread, r = AR_Client client thread -> client ∉ open_fds s) ->
      thread_step s (accept_turn s r)
  | step_begin i fd peer :
      srv_workers_ s !! i = Some (WP_Spawned fd) -> thread_step s (worker_begin s i fd peer)
  | step_head i c expired :
      srv_workers_ s !! i = Some (WP_Serving c) -> thread_step s (worker_head s i c expired)
  | step_quiet i c again :
      srv_workers_ s !! i = Some (WP_Polling c) -> thread_step s (worker_quiet s i c again)
  | step_chunk i c (core : ServiceCore (P := P)) received env :
      srv_workers_ s !! i = Some (WP_Polling c) -> thread_step s (snd (worker_chunk s i c core received env))
  | step_finish i c :
      srv_workers_ s !! i = Some (WP_Left c) -> thread_step s (worker_finish s i c)
  | step_release i :
      srv_workers_ s !! i = Some WP_Returned -> thread_step s (worker_release s i)
  | step_done i :
      srv_workers_ s !! i = Some WP_Released -> thread_step s (srv_set_worker s i WP_Done).

(** With the owner, who starts and stops; [stop] joins the threads before its
    last part. *)
Inductive server_step {P} `{LP : LocalProtocol} (s : LocalApiServer) : LocalApiServer -> Prop :=
  | step_thread s' : thread_step (P := P) s s' -> server_step s s'
  | step_start core env : srv_stop_ s = SP_Idle -> server_step s (snd (srv_start s core env))
  | step_stop_begin : srv_stop_ s = SP_Idle -> server_step s (srv_stop_begin s)
  | step_stop_connections : srv_stop_ s = SP_Begun -> server_step s (srv_stop_connections s)
  | step_stop_end :
      srv_stop_ s = SP_Shut -> srv_accepting_ s = false -> Forall (fun w => w = WP_Done) (srv_workers_ s) ->
      server_step s (snd (srv_stop_end s)).

(** ** Invariant *)

(** The session that a worker holds, and the descriptor it has registered. *)
Definition owned (w : worker_phase) : option SessionSnapshot :=
  match w with
  | WP_Serving c | WP_Polling c | WP_Left c =>
      match cn_session_id c with
      | Some id => Some (mkSession id SS_Active (cn_peer c) counters_zero)
      | None => None
      end
  | _ => None
  end.
Definition registered (w : worker_phase) : option Z :=
  match w with WP_Serving c | WP_Polling c | WP_Left c => Some (cn_fd c) | _ => None end.
Definition is_active (w : worker_phase) : Prop := w <> WP_Released /\ w <> WP_Done.
#[export] Instance is_active_dec w : Decision (is_active w).
Proof. destruct w; (left; split; discriminate) || (right; intros []; congruence). Defined.

Definition by_id (l : list SessionSnapshot) : gmap Z SessionSnapshot := list_to_map ((fun x => (ss_id x, x)) <$> l).

Definition conn_consistent (w : worker_phase) : Prop :=
  match w with
  | WP_Serving c | WP_Polling c | WP_Left c => cn_handshake_complete c = true <-> cn_session_id c <> None
  | _ => True
  end.

(** The workers account for the sessions, the active connections and the
    registered descriptors. *)
Record workers_ok (m : SessionManager) (active : Z) (fds : gset Z) (ws : list worker_phase) : Prop := {
  wo_owned : sessions_ m = by_id (omap owned ws);
  wo_distinct : NoDup (ss_id <$> omap owned ws);
  wo_active : active = zlen (filter is_active ws);
  wo_fds : fds = list_to_set (omap registered ws);
  wo_open : NoDup (omap worker_fd ws);
  wo_conn : Forall conn_consistent ws }.

Record srv_wf (s : LocalApiServer) : Prop := {
  vw_limits : sm_limits_ (srv_sessions_ s) = srv_limits_ s;
  vw_sessions : sm_wf (srv_sessions_ s);
  vw_workers : workers_ok (srv_sessions_ s) (srv_active_connections_ s) (srv_connection_fds_ s) (srv_workers_ s);
  vw_bound : zlen (srv_workers_ s) <= max_sessions (srv_limits_ s);
  vw_drain : draining_ (srv_sessions_ s) = true -> srv_workers_ s = [] /\ srv_accepting_ s = false /\ srv_started_once_ s = true;
  vw_once : srv_started_once_ s = false ->
    srv_workers_ s = [] /\ srv_accepting_ s = false /\ srv_running_ s = false /\ srv_listening_ s = false /\ srv_bound_ s = false;
  vw_running : srv_running_ s = true -> srv_listening_ s = true }.

Lemma omap_cons_eq {A B} (f : A -> option B) x (l : list A) :
  omap f (x :: l) = match f x with Some y => y :: omap f l | None => omap f l end.
Proof. done. Qed.
Lemma omap_perm {A B} (f : A -> option B) (l l' : list A) : l ≡ₚ l' -> omap f l ≡ₚ omap f l'.
Proof.
  induction 1; csimpl; repeat case_match; try done; [by constructor|by constructor|by etrans].
Qed.

Lemma workers_ok_perm m active fds ws ws' : ws ≡ₚ ws' -> workers_ok m active fds ws -> workers_ok m active fds ws'.
Proof.
  intros Hp [K1 K2 K3 K4 K5 K6]. split.
  - rewrite K1. apply list_to_map_proper; [|by rewrite (omap_perm owned _ _ Hp)].
    rewrite <- list_fmap_compose. exact K2.
  - by rewrite <- (omap_perm owned _ _ Hp).
  - rewrite K3. unfold zlen. by rewrite Hp.
  - rewrite K4. apply leibniz_equiv. by rewrite (omap_perm registered _ _ Hp).
  - by rewrite <- (omap_perm worker_fd _ _ Hp).
  - by rewrite <- Hp.
Qed.

Lemma worker_split (ws : list worker_phase) i w : ws !! i = Some w ->
  exists rest, ws ≡ₚ w :: rest /\ forall w', <[i := w']> ws ≡ₚ w' :: rest.
Proof.
  intros Hi. exists (take i ws ++ drop (S i) ws). pose proof (lookup_lt_Some _ _ _ Hi) as Hlt. split.
  - rewrite <- (take_drop_middle ws i w Hi) at 1. by rewrite Permutation_middle.
  - intros w'. rewrite insert_take_drop by done. by rewrite Permutation_middle.
Qed.

(** Removing finished workers changes nothing. *)
Section Reap.
Context (keep : worker_phase -> Prop) `{!forall w, Decision (keep w)} (Hkeep : forall w, ~ keep w -> w = WP_Done).

Lemma omap_reap {B} (f : worker_phase -> option B) (ws : list worker_phase) : f WP_Done = None -> omap f (filter keep ws) = omap f ws.
Proof.
  intros Hd. induction ws as [|w ws IH]; [done|]. rewrite filter_cons. destruct (decide (keep w)) as [Hy|Hn]; csimpl.
  - by rewrite IH.
  - by rewrite IH, (Hkeep w Hn), Hd.
Qed.
Lemma active_reap (ws : list worker_phase) : filter is_active (filter keep ws) = filter is_active ws.
Proof.
  induction ws as [|w ws IH]; [done|]. rewrite !filter_cons. destruct (decide (keep w)) as [Hy|Hn].
  - rewrite filter_cons. by rewrite IH.
  - rewrite (Hkeep w Hn), decide_False; [done|]. by intros [].
Qed.
Lemma reap_ok m active fds ws : workers_ok m active fds ws -> workers_ok m active fds (filter keep ws).
Proof.
  intros [K1 K2 K3 K4 K5 K6]. split; rewrite ?omap_reap, ?active_reap by done; try done.
  apply Forall_forall. intros w [_ Hw]%list_elem_of_filter. rewrite Forall_forall in K6. by apply K6.
Qed.
End Reap.

(** One worker changes; the order of the workers is irrelevant. *)
Lemma workers_ok_set m active fds ws i w m' active' fds' w' :
  ws !! i = Some w -> workers_ok m active fds ws ->
  (forall rest, workers_ok m active fds (w :: rest) -> workers_ok m' active' fds' (w' :: rest)) ->
  workers_ok m' active' fds' (<[i := w']> ws).
Proof.
  intros Hi Hok Hset. destruct (worker_split ws i w Hi) as (rest & P1 & P2).
  apply (workers_ok_perm _ _ _ _ _ (symmetry (P2 w'))), Hset. by apply (workers_ok_perm _ _ _ _ _ P1).
Qed.

Lemma active_cons w ws : zlen (filter is_active (w :: ws)) = (if decide (is_active w) then 1 else 0) + zlen (filter is_active ws).
Proof. rewrite filter_cons. destruct (decide (is_active w)); [apply zlen_cons|done]. Qed.

Lemma by_id_cons x l : by_id (x :: l) = <[ss_id x := x]> (by_id l).
Proof. done. Qed.
Lemma by_id_None l id : by_id l !! id = None <-> id ∉ (ss_id <$> l).
Proof. unfold by_id. rewrite <- not_elem_of_list_to_map, <- list_fmap_compose. done. Qed.

Local Ltac workers_split K := destruct K as [K1 K2 K3 K4 K5 K6];
  rewrite omap_cons_eq in K1; rewrite omap_cons_eq in K2; rewrite omap_cons_eq in K4; rewrite omap_cons_eq in K5;
  rewrite active_cons in K3; apply Forall_cons in K6 as [K6 K7]; split; rewrite ?omap_cons_eq, ?active_cons.

(** A worker changes its phase without its session or its descriptor. *)
Lemma phase_ok m active fds ws i w w' :
  ws !! i = Some w -> owned w' = owned w -> registered w' = registered w -> worker_fd w' = worker_fd w ->
  (is_active w' <-> is_active w) -> (conn_consistent w -> conn_consistent w') ->
  workers_ok m active fds ws -> workers_ok m active fds (<[i := w']> ws).
Proof.
  intros Hi E1 E2 E3 E4 E5 Hok. apply (workers_ok_set _ _ _ _ _ _ _ _ _ w' Hi Hok). intros rest K.
  workers_split K; rewrite ?E1, ?E2, ?E3; try done.
  - rewrite K3. destruct (decide (is_active w)), (decide (is_active w')); tauto || done.
  - constructor; [tauto|done].
Qed.

Lemma begin_ok m active fds ws i fd peer limits :
  ws !! i = Some (WP_Spawned fd) -> workers_ok m active fds ws ->
  workers_ok m active ({[fd]} ∪ fds) (<[i := WP_Serving (conn_open fd peer limits)]> ws) /\
  workers_ok m active fds (<[i := WP_Returned]> ws).
Proof.
  intros Hi Hok. split; (eapply workers_ok_set; [done|exact Hok|]); intros rest K; workers_split K; cbn [owned conn_open cn_session_id registered worker_fd cn_fd] in *; try done.
  - rewrite K4. set_solver.
  - constructor; [|done]. cbn. split; done.
  - by apply NoDup_cons in K5 as [_ ?].
  - by constructor.
Qed.

(** A new session is recorded with the worker that holds it. *)
Lemma admitted_ok m active fds ws i c c' (w' : worker_phase) :
  ws !! i = Some (WP_Polling c) -> cn_session_id c = None -> cn_session_id c' = Some (next_session_id_ m) ->
  cn_peer c' = cn_peer c -> cn_fd c' = cn_fd c -> cn_handshake_complete c' = true ->
  sessions_ m !! next_session_id_ m = None -> w' = WP_Serving c' \/ w' = WP_Left c' ->
  workers_ok m active fds ws -> workers_ok (admitted m (cn_peer c)) active fds (<[i := w']> ws).
Proof.
  intros Hi N1 N2 N3 N4 N5 Hnone Hw Hok. apply (workers_ok_set _ _ _ _ _ _ _ _ _ w' Hi Hok). intros rest K.
  assert (owned w' = Some (mkSession (next_session_id_ m) SS_Active (cn_peer c) counters_zero)) as E1
    by (destruct Hw as [-> | ->]; cbn; by rewrite N2, N3).
  assert (registered w' = Some (cn_fd c) /\ worker_fd w' = Some (cn_fd c) /\ is_active w' /\ conn_consistent w') as (E2 & E3 & E4 & E5)
    by (destruct Hw as [-> | ->]; cbn; rewrite N4, N5, N2; done).
  workers_split K; rewrite ?E1, ?E2, ?E3; cbn [owned registered worker_fd] in *; rewrite ?N1 in *; try done.
  - rewrite by_id_cons. cbn [admitted sessions_ ss_id]. by rewrite K1.
  - cbn [fmap list_fmap ss_id]. constructor; [|done]. rewrite K1 in Hnone. by apply by_id_None.
  - rewrite K3. by rewrite !decide_True.
  - by constructor.
Qed.

(** The session and the descriptor of a worker are given up together. *)
Lemma finish_ok m active fds ws i c :
  ws !! i = Some (WP_Left c) -> workers_ok m active fds ws ->
  workers_ok (match cn_session_id c with Some id => snd (sm_close m id) | None => m end) active (fds ∖ {[cn_fd c]})
    (<[i := WP_Returned]> ws).
Proof.
  intros Hi Hok. apply (workers_ok_set _ _ _ _ _ _ _ _ _ WP_Returned Hi Hok). intros rest K.
  workers_split K; cbn [owned registered worker_fd] in *; try done.
  - destruct (cn_session_id c) as [id|]; [|done]. rewrite by_id_cons in K1. cbn [ss_id] in K1.
    cbn [fmap list_fmap ss_id] in K2. apply NoDup_cons in K2 as [K2 _]. apply by_id_None in K2.
    unfold sm_close. rewrite K1, lookup_insert_eq. cbn [snd sm_with_sessions sessions_]. by rewrite delete_insert_eq, delete_id.
  - destruct (cn_session_id c) as [id|]; [|done]. cbn [fmap list_fmap] in K2. by apply NoDup_cons in K2 as [_ ?].
  - apply NoDup_cons in K5 as [K5 _]. rewrite K4.
    assert (cn_fd c ∉ omap registered rest).
    { intros Hin. apply K5. apply list_elem_of_omap in Hin as (w & Hw & Hr). apply list_elem_of_omap. exists w. split; [done|].
      by destruct w. }
    set_solver.
  - by apply NoDup_cons in K5 as [_ ?].
  - by constructor.
Qed.

Lemma release_ok m active fds ws i : ws !! i = Some WP_Returned -> workers_ok m active fds ws ->
  workers_ok m (active - 1) fds (<[i := WP_Released]> ws).
Proof.
  intros Hi Hok. apply (workers_ok_set _ _ _ _ _ _ _ _ _ WP_Released Hi Hok). intros rest K.
  workers_split K; cbn [owned registered worker_fd] in *; try done; [|by constructor].
  rewrite K3, decide_True, decide_False by (split; done) || (by intros []). lia.
Qed.

Lemma spawn_ok m active fds ws fd : fd ∉ omap worker_fd ws -> workers_ok m active fds ws ->
  workers_ok m (active + 1) fds (ws ++ [WP_Spawned fd]).
Proof.
  intros Hfd [K1 K2 K3 K4 K5 K6]. apply (workers_ok_perm _ _ _ (WP_Spawned fd :: ws)); [by rewrite Permutation_cons_append|].
  split; rewrite ?omap_cons_eq, ?active_cons; cbn [owned registered worker_fd]; try done.
  - rewrite K3, decide_True by done. lia.
  - by constructor.
  - by constructor.
Qed.

(** A chunk is received. *)
Lemma chunk_ok {P} `{LP : LocalProtocol} (core : ServiceCore (P := P)) limits m active fds ws i c received env :
  sm_wf m -> ws !! i = Some (WP_Polling c) -> workers_ok m active fds ws ->
  let '(go_on, _, c', m') := conn_receive core limits m c received env in
  workers_ok m' active fds (<[i := if go_on then WP_Serving c' else WP_Left c']> ws) /\
  sm_wf m' /\ sm_limits_ m' = sm_limits_ m /\ draining_ m' = draining_ m.
Proof.
  intros Hwf Hi Hok. assert (conn_consistent (WP_Polling c)) as Hcc by (by eapply Forall_lookup_1; [apply (wo_conn _ _ _ _ Hok)|]).
  cbn in Hcc. destruct (cn_handshake_complete c) eqn:Eh.
  - pose proof (conn_receive_complete core limits m c received env Eh) as Hr.
    destruct (conn_receive _ _ _ _ _ _) as [[[go_on out] c'] m']. destruct Hr as (-> & S1 & S2 & S3 & S4).
    split; [|done]. eapply phase_ok; [exact Hi|..]; [| | | | |exact Hok]; destruct go_on; cbn; rewrite ?S1, ?S2, ?S3, ?S4; done.
  - assert (cn_session_id c = None) as En by (destruct (cn_session_id c); [|done]; by discriminate (proj2 Hcc)).
    pose proof (conn_receive_admission core limits m m c [] received env Hwf ltac:(by apply not_admitted)) as Hr.
    destruct (conn_receive _ _ _ _ _ _) as [[[go_on out] c'] m']. destruct Hr as (R1 & R2 & R3).
    destruct R3 as [K1 K2 _|K1 K2 K3 K4].
    + split; [|done]. eapply phase_ok; [exact Hi|..]; [| | | | |exact Hok]; destruct go_on; cbn; rewrite ?R1, ?R2, ?K1, ?K2, ?En; done.
    + rewrite R1. split; [|split; [by apply admitted_wf|split; [done|by destruct K3 as [-> _]]]].
      eapply admitted_ok; try done. by destruct go_on; [left|right].
Qed.

Section Steps.
Context {P : Type} `{LP : LocalProtocol}.

Lemma start_wf s core env : srv_wf s -> srv_wf (snd (srv_start s core env)).
Proof.
  intros Hwf. pose proof Hwf as [V1 V2 V3 V4 V5 V6 V7]. unfold srv_start. guard as G; [done|].
  apply orb_false_iff in G as [[G1 G2]%orb_false_iff G3]. destruct (V6 G1) as (W1 & W2 & W3 & W4 & W5).
  assert (srv_wf (srv_with_state s (srv_listening_ s) false (srv_started_once_ s) (srv_running_ s) (srv_accept_ s))) as Hu
    by (split; cbn; try done).
  destruct core; [|done]. repeat (guard as Gx; [done|]; clear Gx).
  destruct (se_socket env); [done|]. guard as Gx; [done|]. destruct (se_bind env); [done|]. cbv zeta.
  destruct (se_chmod env); [done|]. destruct (se_listen env); [done|]. guard as Gy; [done|].
  guard as Gz; [split; cbn; try done|]. split; cbn; try done. intros Hd. destruct (V5 Hd) as (? & ? & ?). congruence.
Qed.

Lemma reap_wf s : srv_wf s -> srv_wf (reapWorkers s false).
Proof.
  intros [V1 V2 V3 V4 V5 V6 V7]. split; cbn; try done.
  - apply reap_ok; [|done]. intros w Hw. destruct w; cbn in Hw; done.
  - pose proof (length_filter (fun w => negb (is_done w) = true) (srv_workers_ s)). unfold zlen in *. cbn. lia.
  - intros Hd. destruct (V5 Hd) as (-> & ? & ?). done.
  - intros Ho. destruct (V6 Ho) as (-> & ?). done.
Qed.

Lemma accept_wf s client thread :
  srv_wf s -> srv_accepting_ s = true -> client ∉ open_fds s -> srv_wf (srv_accept s client thread).
Proof.
  intros Hwf Ha Hc. unfold srv_accept. apply reap_wf in Hwf. set (s1 := reapWorkers s false) in *.
  assert (client ∉ open_fds s1) as Hc1.
  { unfold open_fds, s1. cbn. rewrite omap_reap; [done| |done]. intros w Hw. by destruct w. }
  assert (srv_accepting_ s1 = true) as Ha1 by done. clearbody s1. cbv zeta. guard as G1; [done|]. bprop in G1.
  unfold reserveConnection. guard as G2; bprop in G2; cbn [negb]; [|done]. apply reap_wf.
  pose proof Hwf as [V1 V2 V3 V4 V5 V6 V7]. destruct thread.
  - split; cbn; try done; [by apply spawn_ok|rewrite zlen_app; change (zlen [WP_Spawned client]) with 1; lia| |].
    + intros Hd. destruct (V5 Hd) as (_ & ? & _). congruence.
    + intros Ho. destruct (V6 Ho) as (_ & ? & _). congruence.
  - split; cbn; try done. replace (srv_active_connections_ s1 + 1 - 1) with (srv_active_connections_ s1) by lia. done.
Qed.

Lemma set_worker_wf s i w m active fds completed w' :
  srv_wf s -> srv_workers_ s !! i = Some w ->
  workers_ok m active fds (<[i := w']> (srv_workers_ s)) ->
  sm_wf m -> sm_limits_ m = sm_limits_ (srv_sessions_ s) -> draining_ m = draining_ (srv_sessions_ s) ->
  srv_wf (srv_set_worker (srv_with_active (srv_with_connections (srv_with_sessions s m) fds completed) active) i w').
Proof.
  intros [V1 V2 V3 V4 V5 V6 V7] Hi Hok Hm Hl Hd. split; cbn; try done; [congruence| | |].
  - unfold zlen in *. by rewrite length_insert.
  - rewrite Hd. intros E. destruct (V5 E) as (E1 & _). rewrite E1 in Hi. done.
  - intros E. destruct (V6 E) as (E1 & _). rewrite E1 in Hi. done.
Qed.

(** The invariant does not depend on where [stop] is, nor on where a running
    accept loop is. *)
Lemma stop_phase_wf s phase listener fds : srv_wf s -> srv_wf (srv_with_stop s phase listener fds).
Proof. intros [V1 V2 V3 V4 V5 V6 V7]. by split. Qed.

Lemma accept_phase_wf s a : srv_wf s -> srv_accepting_ s = true -> srv_wf (srv_with_accept s a).
Proof.
  intros [V1 V2 V3 V4 V5 V6 V7] Ha. split; cbn; try done.
  - intros E. destruct (V5 E) as (_ & ? & _). congruence.
  - intros E. destruct (V6 E) as (_ & ? & _). congruence.
Qed.

Lemma stop_begin_wf s : srv_wf s -> srv_wf (srv_stop_begin s).
Proof.
  intros [V1 V2 V3 V4 V5 V6 V7]. unfold srv_stop_begin. guard as G; [done|]. apply stop_phase_wf. split; cbn; try done.
  intros E. destruct (V6 E) as (? & ? & ? & ? & ?). done.
Qed.

Lemma all_done_omap {B} (f : worker_phase -> option B) ws :
  f WP_Done = None -> Forall (fun w => w = WP_Done) ws -> omap f ws = [].
Proof. intros Hf. induction 1 as [|w ws -> _ IH]; [done|]. by rewrite omap_cons_eq, Hf. Qed.

Lemma all_done_inactive ws : Forall (fun w => w = WP_Done) ws -> zlen (filter is_active ws) = 0.
Proof. induction 1 as [|w ws -> _ IH]; [done|]. rewrite active_cons, IH, decide_False; [done|]. by intros []. Qed.

Lemma stop_end_wf s : srv_wf s -> srv_running_ s = false -> srv_accepting_ s = false -> Forall (fun w => w = WP_Done) (srv_workers_ s) ->
  srv_wf (snd (srv_stop_end s)).
Proof.
  intros Hwf Hr Ha Hdone. pose proof Hwf as [V1 V2 V3 V4 V5 V6 V7]. unfold srv_stop_end. guard as G; [done|]. cbn [snd].
  assert (srv_started_once_ s = true) as Ho.
  { destruct (srv_started_once_ s); [done|]. destruct (V6 eq_refl) as (_ & _ & _ & E1 & E2). by rewrite E1, E2 in G. }
  assert (filter (fun w => negb (true || is_done w) = true) (srv_workers_ s) = []) as Hnil
    by (clear; induction (srv_workers_ s) as [|w ws IH]; [done|by rewrite filter_cons]).
  unfold reapWorkers. rewrite Hnil. apply stop_phase_wf. split; cbn; try done.
  - by apply (session_step_wf _ SCloseAll), (session_step_wf _ SDrain).
  - destruct V3 as [K1 K2 K3 K4 K5 K6]. split; [done|constructor|by rewrite K3, all_done_inactive|by rewrite K4, all_done_omap|constructor|constructor].
  - rewrite zlen_nil, <- V1. apply (mw_limits _ V2).
  - intros E. congruence.
Qed.

Lemma accept_loop_wf s r :
  srv_wf s -> srv_accepting_ s = true -> (forall client thread, r = AR_Client client thread -> client ∉ open_fds s) ->
  srv_wf (accept_head s) /\ srv_wf (accept_turn s r).
Proof.
  intros Hwf Ha Hc. pose proof (reap_wf s Hwf) as Hr. split.
  - unfold accept_head. destruct (srv_running_ s); by apply accept_phase_wf.
  - destruct r as [| | |client thread]; try (by apply accept_phase_wf).
    specialize (Hc client thread eq_refl). apply accept_phase_wf; [by apply accept_wf|].
    unfold srv_accept, reserveConnection. cbv zeta. guard as G1; [done|]. guard as G2; [|done]. by destruct thread.
Qed.

(** Every step keeps the invariant. *)
Lemma thread_step_wf s s' : srv_wf s -> thread_step (P := P) s s' -> srv_wf s'.
Proof.
  intros Hwf Hs. pose proof Hwf as [V1 V2 V3 V4 V5 V6 V7].
  assert (forall i w w', srv_workers_ s !! i = Some w -> owned w' = owned w -> registered w' = registered w ->
    worker_fd w' = worker_fd w -> (is_active w' <-> is_active w) -> (conn_consistent w -> conn_consistent w') ->
    srv_wf (srv_set_worker s i w')) as Hphase.
  { intros i w w' Hi E1 E2 E3 E4 E5.
    apply (set_worker_wf s i w (srv_sessions_ s) (srv_active_connections_ s) (srv_connection_fds_ s)
      (srv_completed_connections_ s) w'); try done. by eapply phase_ok. }
  destruct Hs as [Ha|r Ha Hc|i fd peer Hi|i c expired Hi|i c again Hi|i c core received env Hi|i c Hi|i Hi|i Hi].
  - apply (accept_loop_wf s AR_Retry); [done|unfold srv_accepting_; by rewrite Ha|done].
  - apply accept_loop_wf; [done|unfold srv_accepting_; by rewrite Ha|done].
  - destruct (begin_ok _ _ _ _ _ _ (default sample_peer peer) (srv_limits_ s) Hi V3) as [B1 B2].
    destruct peer as [p|]; by apply (set_worker_wf s i (WP_Spawned fd) (srv_sessions_ s)).
  - unfold worker_head. destruct (_ && _); [destruct (_ && _)|]; by eapply Hphase.
  - unfold worker_quiet. destruct again; by eapply Hphase.
  - unfold worker_chunk. pose proof (chunk_ok core (srv_limits_ s) _ _ _ _ i c received env V2 Hi V3) as Hk.
    destruct (conn_receive _ _ _ _ _ _) as [[[go_on out] c'] m']. destruct Hk as (C1 & C2 & C3 & C4).
    by apply (set_worker_wf s i (WP_Polling c) m' (srv_active_connections_ s) (srv_connection_fds_ s) (srv_completed_connections_ s)).
  - pose proof (finish_ok _ _ _ _ _ _ Hi V3) as Hf.
    unfold worker_finish. apply stop_phase_wf.
    apply (set_worker_wf s i (WP_Left c) _ (srv_active_connections_ s) (srv_connection_fds_ s ∖ {[cn_fd c]})
      (srv_completed_connections_ s + 1) WP_Returned Hwf Hi Hf); (destruct (cn_session_id c) as [id|]; [|done]).
    + by apply (session_step_wf _ (SClose id)).
    + unfold sm_close. by destruct (sessions_ _ !! id).
    + unfold sm_close. by destruct (sessions_ _ !! id).
  - by apply (set_worker_wf s i WP_Returned (srv_sessions_ s) (srv_active_connections_ s - 1) (srv_connection_fds_ s)
      (srv_completed_connections_ s) WP_Released Hwf Hi (release_ok _ _ _ _ _ Hi V3)).
  - eapply Hphase; try done. split; by intros [].
Qed.

(** What [stop] has done so far: the loops see that they are to end, the
    listening socket is shut down, and once the connections have been shut down
    none that is being polled was left out.  Only registered descriptors are
    shut down. *)
Record stop_ok (s : LocalApiServer) : Prop := {
  so_running : srv_stop_ s <> SP_Idle -> srv_running_ s = false /\ srv_listener_shut_ s = srv_listening_ s;
  so_polling : srv_stop_ s = SP_Shut -> forall c, WP_Polling c ∈ srv_workers_ s -> cn_fd c ∈ srv_shut_fds_ s;
  so_registered : srv_shut_fds_ s ⊆ srv_connection_fds_ s }.

(** The members that the threads leave alone. *)
Definition same_owner (s s' : LocalApiServer) : Prop :=
  srv_running_ s' = srv_running_ s /\ srv_listening_ s' = srv_listening_ s /\ srv_bound_ s' = srv_bound_ s /\
  srv_started_once_ s' = srv_started_once_ s /\ srv_stop_ s' = srv_stop_ s /\ srv_listener_shut_ s' = srv_listener_shut_ s.

Lemma accept_same s client thread : same_owner s (srv_accept s client thread) /\
  srv_shut_fds_ (srv_accept s client thread) = srv_shut_fds_ s /\
  srv_connection_fds_ (srv_accept s client thread) = srv_connection_fds_ s /\
  forall c, WP_Polling c ∈ srv_workers_ (srv_accept s client thread) -> WP_Polling c ∈ srv_workers_ s.
Proof.
  unfold srv_accept, reserveConnection, same_owner. cbv zeta.
  assert (forall c ws, WP_Polling c ∈ filter (fun w => negb (false || is_done w) = true) ws -> WP_Polling c ∈ ws) as Hf
    by (intros c ws [_ ?]%list_elem_of_filter; done).
  guard as G1; [cbn; split_and!; try done; intros c; apply Hf|]. guard as G2; [|cbn; split_and!; try done; intros c; apply Hf].
  destruct thread; cbn; split_and!; try done; intros c Hc%Hf; [|by apply Hf].
  apply elem_of_app in Hc as [Hc|Hc%list_elem_of_singleton]; [by apply Hf|done].
Qed.

Lemma thread_step_same s s' : thread_step (P := P) s s' -> same_owner s s'.
Proof.
  intros Hs. unfold same_owner.
  destruct Hs as [Ha|r Ha Hc|i fd peer Hi|i c expired Hi|i c again Hi|i c core received env Hi|i c Hi|i Hi|i Hi]; try done.
  - unfold accept_head. by destruct (srv_running_ s) eqn:E; rewrite <- ?E.
  - destruct r as [| | |client thread]; try done. cbn. apply accept_same.
  - by destruct peer.
  - unfold worker_head. by repeat case_match.
  - unfold worker_chunk. by destruct (conn_receive _ _ _ _ _ _) as [[[go_on out] c'] m'].
Qed.

(** Open descriptors are distinct. *)
Lemma open_distinct s i j c c' : srv_wf s ->
  srv_workers_ s !! i = Some (WP_Left c) -> srv_workers_ s !! j = Some (WP_Polling c') -> cn_fd c' = cn_fd c -> i = j.
Proof.
  intros Hwf Hi Hj Heq. pose proof (wo_open _ _ _ _ (vw_workers s Hwf)) as Hnd.
  destruct (decide (i = j)) as [|Hne]; [done|]. exfalso. destruct (worker_split _ _ _ Hi) as (rest & P1 & P2).
  assert (WP_Polling c' ∈ rest) as Hin.
  { assert (WP_Polling c' ∈ <[i := WP_Done]> (srv_workers_ s)) as Hx
      by (eapply list_elem_of_lookup_2; rewrite list_lookup_insert_ne by done; exact Hj).
    rewrite (P2 WP_Done) in Hx. by apply elem_of_cons in Hx as [|]. }
  rewrite (omap_perm worker_fd _ _ P1), omap_cons_eq in Hnd. cbn [worker_fd] in Hnd. apply NoDup_cons in Hnd as [Hn _].
  apply Hn, list_elem_of_omap. exists (WP_Polling c'). split; [done|]. cbn. by rewrite Heq.
Qed.

Lemma start_stop s core env : srv_stop_ (snd (srv_start s core env)) = srv_stop_ s.
Proof. unfold srv_start. by repeat case_match. Qed.
Lemma start_fds s core env : srv_shut_fds_ (snd (srv_start s core env)) = srv_shut_fds_ s /\
  srv_connection_fds_ (snd (srv_start s core env)) = srv_connection_fds_ s.
Proof. unfold srv_start. by repeat case_match. Qed.

(** Setting one worker: who polls afterwards. *)
Lemma polling_set (ws : list worker_phase) i w c : WP_Polling c ∈ <[i := w]> ws -> w = WP_Polling c \/ WP_Polling c ∈ ws.
Proof.
  intros [j Hj]%list_elem_of_lookup. destruct (decide (i = j)) as [->|Hne].
  - apply list_lookup_insert_Some in Hj as [(_ & -> & _)|[? _]]; [by left|done].
  - rewrite list_lookup_insert_ne in Hj by done. right. by eapply list_elem_of_lookup_2.
Qed.

Lemma thread_step_stop s s' : srv_wf s -> stop_ok s -> thread_step (P := P) s s' -> stop_ok s'.
Proof.
  intros Hwf [S1 S2 S3] Hs. pose proof (thread_step_same s s' Hs) as (E1 & E2 & _ & _ & E5 & E6).
  split; rewrite ?E1, ?E2, ?E5, ?E6; [done| |].
  - intros Hp. specialize (S2 Hp). destruct (S1 ltac:(by rewrite Hp)) as [Hrun _].
    destruct Hs as [Ha|r Ha Hc|i fd peer Hi|i c0 expired Hi|i c0 again Hi|i c0 core received env Hi|i c0 Hi|i Hi|i Hi].
    + unfold accept_head. rewrite Hrun. cbn. intros c [_ Hc]%list_elem_of_filter. by apply S2.
    + destruct r as [| | |client thread]; cbn; try (intros c [_ Hin]%list_elem_of_filter; by apply S2); try done.
      intros c. destruct (accept_same s client thread) as (_ & -> & _ & Hin). intros ?%Hin. by apply S2.
    + destruct peer; cbn; intros c [|Hc]%polling_set; try done; by apply S2.
    + unfold worker_head. rewrite Hrun. cbn. intros c [|Hc]%polling_set; [done|by apply S2].
    + unfold worker_quiet. cbn. intros c [Hq|Hc]%polling_set; [by destruct again|by apply S2].
    + unfold worker_chunk. destruct (conn_receive _ _ _ _ _ _) as [[[go_on out] c'] m']. cbn.
      intros c [Hq|Hc]%polling_set; [by destruct go_on|by apply S2].
    + cbn. intros c Hc. apply list_elem_of_lookup in Hc as [j Hj]. destruct (decide (i = j)) as [->|Hne].
      { apply list_lookup_insert_Some in Hj as [(_ & ? & _)|[? _]]; done. }
      rewrite list_lookup_insert_ne in Hj by done. apply elem_of_difference. split; [apply S2; by eapply list_elem_of_lookup_2|].
      rewrite elem_of_singleton. intros Heq. apply Hne. by eapply (open_distinct s).
    + cbn. intros c [|Hc]%polling_set; [done|by apply S2].
    + cbn. intros c [|Hc]%polling_set; [done|by apply S2].
  - destruct Hs as [Ha|r Ha Hc|i fd peer Hi|i c0 expired Hi|i c0 again Hi|i c0 core received env Hi|i c0 Hi|i Hi|i Hi]; try done.
    + unfold accept_head. by destruct (srv_running_ s).
    + destruct r as [| | |client thread]; try done. cbn. by destruct (accept_same s client thread) as (_ & -> & -> & _).
    + destruct peer; cbn; set_solver.
    + unfold worker_head. by repeat case_match.
    + unfold worker_chunk. by destruct (conn_receive _ _ _ _ _ _) as [[[go_on out] c'] m'].
    + cbn. set_solver.
Qed.

Lemma server_step_wf s s' : srv_wf s /\ stop_ok s -> server_step (P := P) s s' -> srv_wf s' /\ stop_ok s'.
Proof.
  intros [Hwf Hso] Hs. pose proof Hso as [S1 S2 S3]. destruct Hs as [s' Ht|core env Hp|Hp|Hp|Hp Ha Hd].
  - split; [by eapply thread_step_wf|by eapply thread_step_stop].
  - split; [by apply start_wf|]. destruct (start_fds s core env) as [F1 F2].
    split; rewrite ?start_stop, ?F1, ?F2, ?Hp; done.
  - split; [by apply stop_begin_wf|]. unfold srv_stop_begin. guard as G; [done|]. by split.
  - destruct (S1 ltac:(by rewrite Hp)) as [R1 R2]. split; [by apply stop_phase_wf|]. split; cbn; [done| |set_solver].
    intros _ c Hc. apply elem_of_union. right. rewrite (wo_fds _ _ _ _ (vw_workers s Hwf)).
    apply elem_of_list_to_set, list_elem_of_omap. by exists (WP_Polling c).
  - destruct (S1 ltac:(by rewrite Hp)) as [R1 R2]. split; [by apply stop_end_wf|]. unfold srv_stop_end. guard as G; [done|].
    split; cbn; done.
Qed.

Definition reachable (endpoint : string) (limits : ResourceLimits) (s : LocalApiServer) : Prop :=
  exists s0, srv_construct endpoint true limits = inr s0 /\ rtc (server_step (P := P)) s0 s.

Lemma reachable_ok endpoint limits s : limits_wf limits -> reachable endpoint limits s -> srv_wf s /\ stop_ok s.
Proof.
  intros Hl (s0 & [= <-] & Hr).
  assert (srv_wf (mkServer endpoint limits (sm_init limits) false false false false AP_Exited 0 0 ∅ [] SP_Idle false ∅)) as H0.
  { split; cbn; try done; [by apply sm_init_wf| |apply Hl]. split; try done; constructor. }
  assert (stop_ok (mkServer endpoint limits (sm_init limits) false false false false AP_Exited 0 0 ∅ [] SP_Idle false ∅)) as H1
    by by split.
  pose proof (conj H0 H1) as H. clear H0 H1. revert H. induction Hr as [s|s1 s2 s3 Hs Hr IH]; [done|]. intros Hw.
  by eapply IH, server_step_wf.
Qed.

Lemma reachable_wf endpoint limits s : limits_wf limits -> reachable endpoint limits s -> srv_wf s.
Proof. intros Hl Hr. by destruct (reachable_ok endpoint limits s Hl Hr). Qed.

(** ** Accounting *)

Lemma owned_active w x : owned w = Some x -> is_active w.
Proof. destruct w; done. Qed.

Lemma owners_active ws : zlen (omap owned ws) <= zlen (filter is_active ws).
Proof.
  induction ws as [|w ws IH]; [done|]. rewrite omap_cons_eq, active_cons. destruct (owned w) as [x|] eqn:E.
  - rewrite zlen_cons, decide_True by (by eapply owned_active). lia.
  - destruct (decide _); lia.
Qed.

Lemma active_length ws : zlen (filter is_active ws) <= zlen ws.
Proof. unfold zlen. pose proof (length_filter is_active ws). lia. Qed.

Lemma by_id_size l : NoDup (ss_id <$> l) -> size (by_id l) = length l.
Proof.
  intros Hn. unfold by_id. rewrite map_size_list_to_map by (by rewrite <- list_fmap_compose). by rewrite length_fmap.
Qed.

Lemma by_id_lookup l id x : NoDup (ss_id <$> l) -> by_id l !! id = Some x <-> x ∈ l /\ ss_id x = id.
Proof.
  intros Hn. unfold by_id. rewrite <- elem_of_list_to_map by (by rewrite <- list_fmap_compose).
  rewrite list_elem_of_fmap. split; [intros (y & [= -> ->] & Hy); done|]. intros [Hx <-]. by exists x.
Qed.

Lemma sessions_size m active fds ws : workers_ok m active fds ws -> sm_size m = zlen (omap owned ws).
Proof. intros [K1 K2 _ _ _ _]. unfold sm_size, zlen. by rewrite K1, by_id_size. Qed.

(** A connection that waits for its handshake has room for a session. *)
Lemma waiting_capacity s i c : srv_wf s -> srv_workers_ s !! i = Some (WP_Polling c) -> cn_handshake_complete c = false ->
  next_session_id_ (srv_sessions_ s) <> 0 -> has_capacity (srv_sessions_ s).
Proof.
  intros [V1 V2 V3 V4 V5 V6 V7] Hi Hh Hn. split_and!; [| |done].
  - destruct (draining_ (srv_sessions_ s)) eqn:E; [|done]. destruct (V5 eq_refl) as (E1 & _). by rewrite E1 in Hi.
  - rewrite (sessions_size _ _ _ _ V3), V1. destruct (worker_split _ _ _ Hi) as (rest & P1 & _).
    destruct (workers_ok_perm _ _ _ _ _ P1 V3) as [K1 K2 K3 K4 K5 K6]. apply Forall_cons in K6 as [K6 _]. cbn in K6.
    assert (cn_session_id c = None) as En by (destruct (cn_session_id c); [|done]; rewrite Hh in K6; by discriminate (proj2 K6)).
    assert (zlen (omap owned (srv_workers_ s)) = zlen (omap owned rest)) as ->.
    { unfold zlen. rewrite (omap_perm owned _ _ P1). rewrite omap_cons_eq. cbn [owned]. by rewrite En. }
    pose proof (owners_active rest). pose proof (active_length rest). assert (zlen (srv_workers_ s) = 1 + zlen rest) by (unfold zlen; rewrite P1; cbn [length]; lia).
    lia.
Qed.

(** ** Theorems *)

(** C16: The server accounts for its sessions.  In every reachable state of the
    server, however the accept loop, the workers, the peers and the owner
    interleave: the sessions are exactly those of the connections that are being
    served or wound up, each active and with its peer's identity, so that none
    is leaked and none is lost; there are at most [max_sessions] of them, no more
    than active connections, which are no more than workers; and the registered
    descriptors, which [stop] shuts down, are exactly those of these
    connections. *)
Theorem server_accounting endpoint limits s :
  limits_wf limits -> reachable endpoint limits s ->
  (forall id x, sessions_ (srv_sessions_ s) !! id = Some x <->
     exists w, w ∈ srv_workers_ s /\ owned w = Some x /\ ss_id x = id) /\
  NoDup (ss_id <$> omap owned (srv_workers_ s)) /\
  activeSessions s <= srv_active_connections_ s <= zlen (srv_workers_ s) /\
  zlen (srv_workers_ s) <= max_sessions (srv_limits_ s) /\
  (forall fd, fd ∈ srv_connection_fds_ s <-> exists w, w ∈ srv_workers_ s /\ registered w = Some fd).
Proof.
  intros Hl Hr. destruct (reachable_wf _ _ _ Hl Hr) as [V1 V2 V3 V4 _ _ _]. pose proof V3 as [K1 K2 K3 K4 K5 K6].
  split_and!; try done.
  - intros id x. rewrite K1, by_id_lookup, list_elem_of_omap by done.
    split; [intros [(w & Hw & Ho) Hid]|intros (w & Hw & Ho & Hid); split; [|done]]; by exists w.
  - unfold activeSessions. rewrite (sessions_size _ _ _ _ V3), K3. apply owners_active.
  - rewrite K3. apply active_length.
  - intros fd. rewrite K4, elem_of_list_to_set, list_elem_of_omap. done.
Qed.

(** An accepted client is admitted.  The limit on connections guarantees
    the capacity of the session manager: in every reachable state of the
    server, a connection that is still waiting for its handshake and receives
    the bytes that complete an acceptable hello is given a session, unless the
    64-bit identifiers are exhausted; the peer is sent the hello response and
    the connection goes on. *)
Theorem accepted_client_admitted endpoint limits s i c core received env d f0 hello :
  limits_wf limits -> reachable endpoint limits s -> srv_workers_ s !! i = Some (WP_Polling c) ->
  cn_handshake_complete c = false -> next_session_id_ (srv_sessions_ s) <> 0 ->
  decoder_append (cn_decoder c) (Some received) (Some []) = (st_success, d, Some [f0]) ->
  hello_acceptable f0 (cn_peer c) hello ->
  let r0 := hs_response (fst (handle (srv_sessions_ s) f0 (sv_snapshot_ core) (srv_limits_ s) (cn_peer c))) in
  fits (srv_limits_ s) r0 -> fe_written (env 0%nat) = true ->
  let id := next_session_id_ (srv_sessions_ s) in
  let '(out, s') := worker_chunk (P := P) s i c core received env in
  out = [frame_bytes r0] /\ message_type r0 = kHelloResponse /\
  srv_workers_ s' !! i = Some (WP_Serving (mkConnection (cn_fd c) (cn_peer c) d true false (Some id))) /\
  sessions_ (srv_sessions_ s') !! id = Some (mkSession id SS_Active (cn_peer c) counters_zero).
Proof.
  intros Hl Hr Hi Hh Hn Hd Ha. cbv zeta. intros (F1 & F2 & F3) Hw. pose proof (reachable_wf _ _ _ Hl Hr) as Hwf.
  pose proof (waiting_capacity s i c Hwf Hi Hh Hn) as Hcap. pose proof (vw_sessions s Hwf) as Hsm.
  unfold worker_chunk, conn_receive. rewrite Hd. change (st_ok st_success) with true. cbn [negb orb from_option id serve_frames].
  unfold serve_frame. cbn [conn_with_decoder cn_handshake_complete cn_peer cn_fd cn_decoder]. rewrite Hh.
  destruct (handle_cases (srv_sessions_ s) f0 (sv_snapshot_ core) (srv_limits_ s) (cn_peer c) Hsm) as
    [(h & _ & _ & E)|(Hno & _)]; [|destruct Hno; split; [by exists hello|done]].
  rewrite E in F2, F3 |- *. cbv zeta in F2, F3 |- *. cbn [fst snd hs_response hs_session_id hs_status hs_close_connection] in F2, F3 |- *.
  change (st_ok st_success) with true. cbn [andb]. rewrite encodeFrame_bytes by done. change (st_ok st_success) with true.
  rewrite Hw. cbn [negb orb serve_frames from_option id cn_close_connection]. split_and!; [done|done| |].
  - cbn. by rewrite list_lookup_insert_eq by (by eapply lookup_lt_Some).
  - cbn. by rewrite lookup_insert_eq.
Qed.

(** ** Stopping *)

(** How many steps a thread can still take once [running_] is false. *)
Definition worker_work (w : worker_phase) : nat :=
  match w with
  | WP_Spawned _ | WP_Polling _ => 5
  | WP_Serving _ => 4
  | WP_Left _ => 3
  | WP_Returned => 2
  | WP_Released => 1
  | WP_Done => 0
  end.
Definition accept_work (a : accept_phase) : nat := match a with AP_Polling => 7 | AP_Head => 1 | AP_Exited => 0 end.
Definition workers_work (ws : list worker_phase) : nat := foldr (fun w n => (worker_work w + n)%nat) 0%nat ws.
Lemma workers_work_cons w ws : workers_work (w :: ws) = (worker_work w + workers_work ws)%nat.
Proof. done. Qed.
Local Arguments workers_work : simpl never.
Definition thread_work (s : LocalApiServer) : nat := (accept_work (srv_accept_ s) + workers_work (srv_workers_ s))%nat.

Lemma workers_work_insert ws i w w' : ws !! i = Some w -> (worker_work w' < worker_work w)%nat ->
  (workers_work (<[i := w']> ws) < workers_work ws)%nat.
Proof.
  intros Hi Hlt. revert i Hi. induction ws as [|x ws IH]; intros [|i] Hi; [done|done| |].
  - injection Hi as ->. change (<[0%nat := w']> (w :: ws)) with (w' :: ws). rewrite !workers_work_cons. lia.
  - specialize (IH i Hi). change (<[S i := w']> (x :: ws)) with (x :: <[i := w']> ws). rewrite !workers_work_cons. lia.
Qed.

Lemma workers_work_app ws w : workers_work (ws ++ [w]) = (workers_work ws + worker_work w)%nat.
Proof. induction ws as [|x ws IH]; cbn [app]; rewrite !workers_work_cons; [cbn; lia|]. rewrite IH. lia. Qed.

(** Only finished workers are reaped. *)
Lemma reap_work ws : workers_work (filter (fun w => negb (false || is_done w) = true) ws) = workers_work ws.
Proof.
  induction ws as [|w ws IH]; [done|]. rewrite filter_cons. destruct (decide _) as [Hd|Hd]; rewrite !workers_work_cons, IH; [done|].
  by destruct w.
Qed.

Lemma accept_work_le s client thread :
  (workers_work (srv_workers_ (srv_accept s client thread)) <= workers_work (srv_workers_ s) + 5)%nat.
Proof.
  unfold srv_accept, reserveConnection. cbv zeta.
  guard as G1; [cbn; rewrite reap_work; lia|]. guard as G2; [|cbn; rewrite reap_work; lia].
  destruct thread; cbn; rewrite !reap_work, ?workers_work_app, ?reap_work; cbn; lia.
Qed.

(** Once [running_] is false every step brings the threads closer to their
    ends. *)
Lemma thread_step_work s s' : srv_running_ s = false -> thread_step (P := P) s s' -> (thread_work s' < thread_work s)%nat.
Proof.
  intros Hrun Hs. unfold thread_work.
  destruct Hs as [Ha|r Ha Hc|i fd peer Hi|i c expired Hi|i c again Hi|i c core received env Hi|i c Hi|i Hi|i Hi].
  - unfold accept_head. rewrite Hrun, Ha. cbn. rewrite reap_work. lia.
  - rewrite Ha. destruct r as [| | |client thread]; cbn; rewrite ?reap_work; try lia.
    pose proof (accept_work_le s client thread). lia.
  - destruct peer; cbn; apply Nat.add_lt_mono_l; eapply workers_work_insert; [done|cbn; lia|done|cbn; lia].
  - unfold worker_head. rewrite Hrun. cbn. apply Nat.add_lt_mono_l. eapply workers_work_insert; [done|cbn; lia].
  - cbn. apply Nat.add_lt_mono_l. eapply workers_work_insert; [done|]. destruct again; cbn; lia.
  - unfold worker_chunk. destruct (conn_receive _ _ _ _ _ _) as [[[go_on out] c'] m']. cbn.
    apply Nat.add_lt_mono_l. eapply workers_work_insert; [done|]. destruct go_on; cbn; lia.
  - cbn. apply Nat.add_lt_mono_l. eapply workers_work_insert; [done|cbn; lia].
  - cbn. apply Nat.add_lt_mono_l. eapply workers_work_insert; [done|cbn; lia].
  - cbn. apply Nat.add_lt_mono_l. eapply workers_work_insert; [done|cbn; lia].
Qed.

Lemma thread_run_work n s s' : srv_running_ s = false -> nsteps (thread_step (P := P)) n s s' ->
  (n + thread_work s' <= thread_work s)%nat.
Proof.
  intros Hrun Hn. induction Hn as [s|n s1 s2 s3 Hs Hn IH]; [lia|].
  pose proof (thread_step_work s1 s2 Hrun Hs). destruct (thread_step_same s1 s2 Hs) as (E & _).
  rewrite E in IH. specialize (IH Hrun). lia.
Qed.

Lemma workers_work_bound ws : (workers_work ws <= 5 * length ws)%nat.
Proof. induction ws as [|w ws IH]; [unfold workers_work; cbn; lia|]. rewrite workers_work_cons. cbn [length]. destruct w; cbn [worker_work]; lia. Qed.

(** A thread that has not ended can take a step. *)
Lemma thread_progress s :
  (exists s', thread_step (P := P) s s') \/ srv_accepting_ s = false /\ Forall (fun w => w = WP_Done) (srv_workers_ s).
Proof.
  destruct (srv_accept_ s) eqn:Ea.
  - destruct (decide (Forall (fun w => is_done w = true) (srv_workers_ s))) as [Hd|Hd].
    + right. split; [unfold srv_accepting_; by rewrite Ea|]. eapply Forall_impl; [exact Hd|]. by intros [].
    + left. apply not_Forall_Exists in Hd; [|apply _]. apply Exists_exists in Hd as (w & Hw & Hnd).
      apply list_elem_of_lookup in Hw as [i Hi]. destruct w as [fd|c|c|c| | |].
      * exists (worker_begin s i fd None). by apply step_begin.
      * exists (worker_head s i c false). by apply step_head.
      * exists (worker_quiet s i c true). by apply step_quiet.
      * exists (worker_finish s i c). by apply step_finish.
      * exists (worker_release s i). by apply step_release.
      * exists (srv_set_worker s i WP_Done). by apply step_done.
      * by destruct Hnd.
  - left. exists (accept_head s). by apply step_accept_head.
  - left. exists (accept_turn s AR_Timeout). by apply step_accept_turn.
Qed.

(** Nothing moves in a server that has been stopped. *)
Lemma stopped_still s s' : srv_workers_ s = [] -> srv_accepting_ s = false -> srv_started_once_ s = true ->
  srv_listening_ s = false -> srv_bound_ s = false -> srv_stop_ s = SP_Idle -> rtc (server_step (P := P)) s s' -> s' = s.
Proof.
  intros Hnil Ha Ho Hl Hb Hp Hr. induction Hr as [s|s s2 s3 Hs Hr IH]; [done|].
  assert (s2 = s) as ->; [|by apply IH]. unfold srv_accepting_ in Ha.
  destruct Hs as [s' Ht|core env _|_|Hp'|Hp' _ _]; [|unfold srv_start; by rewrite Ho|unfold srv_stop_begin; by rewrite Hl, Hb|congruence..].
  destruct Ht as [Ha'|r Ha' Hc|i fd peer Hi|i c expired Hi|i c again Hi|i c core received env Hi|i c Hi|i Hi|i Hi];
    try (rewrite Hnil in Hi; done); by rewrite Ha' in Ha.
Qed.

(** C17: Stopping completes and is final.  Once [stop] has cleared [running_],
    in whatever state the accept loop and the workers are, and whatever the
    peers and the system calls do, the threads take at most seven steps and five
    per worker; and as long as a thread has not ended it can take a step, so
    that every run reaches the state in which [stop] joins all of them.  When
    [stop] has passed its two shutdowns, the listening socket is shut down and
    so is the descriptor of every connection that a worker is still polling;
    nothing but registered descriptors is shut down.  And when [stop] ends, no
    session, worker or registered connection is left, the endpoint is unbound,
    and nothing can change the server any more. *)
Theorem server_stop_final endpoint limits s :
  limits_wf limits -> reachable endpoint limits s -> srv_running_ s = false -> srv_listening_ s = true ->
  (forall n s1, nsteps (thread_step (P := P)) n s s1 ->
     (n <= 7 + 5 * length (srv_workers_ s))%nat /\
     ((exists s2, thread_step (P := P) s1 s2) \/
      srv_accepting_ s1 = false /\ Forall (fun w => w = WP_Done) (srv_workers_ s1))) /\
  (srv_stop_ s = SP_Shut -> srv_listener_shut_ s = true /\
     (forall c, WP_Polling c ∈ srv_workers_ s -> cn_fd c ∈ srv_shut_fds_ s)) /\
  srv_shut_fds_ s ⊆ srv_connection_fds_ s /\
  (srv_stop_ s = SP_Shut -> srv_accepting_ s = false -> Forall (fun w => w = WP_Done) (srv_workers_ s) ->
   let s1 := snd (srv_stop_end s) in
   activeSessions s1 = 0 /\ srv_workers_ s1 = [] /\ srv_active_connections_ s1 = 0 /\ srv_connection_fds_ s1 = ∅ /\
   srv_bound_ s1 = false /\ forall s2, rtc (server_step (P := P)) s1 s2 -> s2 = s1).
Proof.
  intros Hl Hr Hrun Hlis. destruct (reachable_ok _ _ _ Hl Hr) as [Hwf [S1 S2 S3]]. split_and!.
  - intros n s1 Hn. split; [|apply thread_progress]. pose proof (thread_run_work n s s1 Hrun Hn) as Hw.
    pose proof (workers_work_bound (srv_workers_ s)). unfold thread_work at 2 in Hw. destruct (srv_accept_ s); cbn in Hw; lia.
  - intros Hp. destruct (S1 ltac:(by rewrite Hp)) as [_ ->]. split; [done|by apply S2].
  - done.
  - intros Hp Ha Hd. cbv zeta. pose proof (stop_end_wf s Hwf Hrun Ha Hd) as Hwf1. revert Hwf1. unfold srv_stop_end. rewrite Hlis.
    cbn [negb andb snd]. set (s1 := srv_with_stop _ _ _ _). intros Hwf1.
    assert (srv_workers_ s1 = []) as Hnil
      by (cbn; clear; induction (srv_workers_ s) as [|w ws IH]; [done|by rewrite filter_cons]).
    assert (srv_started_once_ s1 = true) as Ho by apply (vw_drain s1 Hwf1 eq_refl).
    destruct (vw_workers s1 Hwf1) as [_ _ K3 K4 _ _]. rewrite Hnil in K3, K4.
    split_and!; try done. intros s2. by apply stopped_still.
Qed.
End Steps.

(** ** Witnesses *)

Definition sample_start_env : start_env := mkStartEnv None None None None true true.
Definition sample_server0 : LocalApiServer :=
  mkServer "/run/pdcm/pdcm.sock" limits_default (sm_init limits_default) false false false false AP_Exited 0 0 ∅ [] SP_Idle false ∅.
Definition sample_server1 : LocalApiServer := snd (srv_start sample_server0 (Some CS_Ready) sample_start_env).
Definition sample_server2 : LocalApiServer := accept_turn (accept_head sample_server1) (AR_Client 9 true).
Definition sample_server3 : LocalApiServer := worker_head (worker_begin sample_server2 0 9 (Some sample_peer)) 0
  (conn_open 9 sample_peer limits_default) false.
Definition sample_server4 : LocalApiServer := srv_stop_connections (srv_stop_begin sample_server3).

Notation sample_reachable := (reachable (P := ProviderState) (LP := sample_protocol) "/run/pdcm/pdcm.sock" limits_default).

Lemma sample_server3_reachable : sample_reachable sample_server3.
Proof.
  exists sample_server0. split; [done|].
  eapply rtc_l; [by apply (step_start sample_server0 (Some CS_Ready) sample_start_env)|]. fold sample_server1.
  eapply rtc_l; [by apply step_thread, (step_accept_head sample_server1)|].
  eapply rtc_l; [apply step_thread, (step_accept_turn (accept_head sample_server1) (AR_Client 9 true)); [done|]|].
  { intros client thread _. apply not_elem_of_nil. }
  fold sample_server2.
  eapply rtc_l; [apply step_thread, (step_begin sample_server2 0 9 (Some sample_peer)); by vm_compute|].
  eapply rtc_l; [apply step_thread, (step_head (worker_begin sample_server2 0 9 (Some sample_peer)) 0
    (conn_open 9 sample_peer limits_default) false); by vm_compute|]. by apply rtc_refl.
Qed.
Lemma sample_server4_reachable : sample_reachable sample_server4.
Proof.
  destruct sample_server3_reachable as (s0 & Hs & Hr). exists s0. split; [done|]. eapply rtc_r; [|by apply step_stop_connections].
  eapply rtc_r; [exact Hr|by apply step_stop_begin].
Qed.
Lemma limits_default_wf : limits_wf limits_default.
Proof. by repeat split. Qed.

Lemma server_accounting_witness :
  activeSessions sample_server3 <= srv_active_connections_ sample_server3 /\
  9 ∈ srv_connection_fds_ sample_server3.
Proof.
  destruct (server_accounting (P := ProviderState) (LP := sample_protocol) "/run/pdcm/pdcm.sock" limits_default sample_server3
    limits_default_wf sample_server3_reachable) as (_ & _ & (T1 & _) & _ & T2).
  split; [exact T1|]. apply T2. eexists. split; [left|reflexivity].
Defined.

Lemma accepted_client_admitted_witness :
  let '(out, s') := worker_chunk (LP := sample_protocol) sample_server3 0
    (conn_open 9 sample_peer limits_default) sample_ready (frame_bytes sample_hello_frame) (fun _ => mkFrameEnv 7 true) in
  length out = 1%nat /\ sessions_ (srv_sessions_ s') !! 1 = Some (mkSession 1 SS_Active sample_peer counters_zero).
Proof.
  pose proof (accepted_client_admitted (P := ProviderState) (LP := sample_protocol) "/run/pdcm/pdcm.sock" limits_default sample_server3 0
    (conn_open 9 sample_peer limits_default) sample_ready (frame_bytes sample_hello_frame) (fun _ => mkFrameEnv 7 true)
    (decoder_init (lim_max_frame_bytes limits_default)) sample_hello_frame sample_hello limits_default_wf sample_server3_reachable) as Ht.
  cbv zeta in Ht. destruct (worker_chunk _ _ _ _ _ _) as [out s'].
  destruct Ht as (-> & _ & _ & T4); [vm_compute; reflexivity|reflexivity|discriminate|vm_compute; reflexivity
    |exact sample_hello_acceptable|split_and!; vm_compute; discriminate|reflexivity|]. split; [reflexivity|exact T4].
Defined.

(** The worker is in [poll] when [stop] comes; its descriptor has been shut down. *)
Lemma server_stop_final_witness :
  (forall n s1, nsteps (thread_step (P := ProviderState) (LP := sample_protocol)) n sample_server4 s1 -> (n <= 12)%nat) /\
  9 ∈ srv_shut_fds_ sample_server4.
Proof.
  destruct (server_stop_final (P := ProviderState) (LP := sample_protocol) "/run/pdcm/pdcm.sock" limits_default sample_server4
    limits_default_wf sample_server4_reachable) as (T1 & T2 & _); [reflexivity|reflexivity|]. split.
  - intros n s1 Hn. exact (proj1 (T1 n s1 Hn)).
  - apply (proj2 (T2 eq_refl) (conn_open 9 sample_peer limits_default)). vm_compute. left.
Defined.
