(* ===== verification/ClientView.v ===== *)
(** How the standalone client reads the daemon's messages (the conversions and
    the validation of src/product/src/client/standalone_backend.cpp, and the
    part of its [entities], [capabilities], [health] and [start] that follows
    the exchange), with the round trip through the messages of Router.v. *)
From S2P Require Import Prelude Containers Common Provider Session Catalog Frame EventStore DataStore HealthStore ProcessorGraph Metrics Service Protocol Codec Handshake Router.
Local Open Scope string_scope.
Local Open Scope list_scope.
Open Scope Z_scope.
Open Scope pdcm_scope.

(** ** Conversions *)

Definition fromProtocolCoreState (s : Z) : CoreState :=
  if s =? 1 then CS_Created else if s =? 2 then CS_Starting else if s =? 3 then CS_Ready else if s =? 4 then CS_Degraded
  else if s =? 5 then CS_Failed else if s =? 6 then CS_Stopping else if s =? 7 then CS_Stopped else CS_Created.
Definition fromProtocolProviderState (s : Z) : ProviderState :=
  if s =? 1 then PS_Uninitialized else if s =? 2 then PS_Ready else if s =? 3 then PS_Unavailable
  else if s =? 4 then PS_Shutdown else PS_Uninitialized.
Definition fromProtocolPhase (p : Z) : ProviderFailurePhase :=
  if p =? 0 then PF_None else if p =? 1 then PF_Load else if p =? 2 then PF_Entry else if p =? 3 then PF_Abi
  else if p =? 4 then PF_NativeInitialize else if p =? 5 then PF_Discovery else PF_None.
Definition fromProtocolEntityState (s : Z) : EntityState :=
  if s =? 1 then ES_Ready else if s =? 2 then ES_Error else ES_Unknown.
Definition fromProtocolStatus (s : Z) : ObservationStatus :=
  if s =? 1 then OS_Valid else if s =? 2 then OS_Stale else if s =? 3 then OS_NotAvailable
  else if s =? 4 then OS_Unsupported else OS_Error.
Definition fromProtocolCapabilityKind (k : Z) : CapabilityKind :=
  if k =? 1 then CAP_MetricsCatalog else if k =? 2 then CAP_Metric else if k =? 3 then CAP_Health else CAP_Metric.
Definition fromProtocolReason (r : Z) : CapabilityReason :=
  if r =? 1 then CR_Supported else if r =? 2 then CR_CatalogBlockedExternal else if r =? 3 then CR_ProviderUnsupported
  else if r =? 4 then CR_DependencyMissing else if r =? 5 then CR_TemporarilyUnavailable
  else if r =? 6 then CR_PermissionHidden else if r =? 7 then CR_PostP0Disabled
  else if r =? 8 then CR_TopologyUnsupported else CR_ProviderUnsupported.
Definition fromProtocolHealthState (s : Z) : HealthState :=
  if s =? 1 then HS_Healthy else if s =? 2 then HS_Unknown else if s =? 3 then HS_Warning
  else if s =? 4 then HS_Error else HS_Unknown.

(** [static_cast] of a number within the enumeration. *)
Definition status_of_value (v : Z) : pdcm_status_t :=
  if v =? 0 then PDCM_STATUS_SUCCESS else if v =? 1 then PDCM_STATUS_PARTIAL_RESULT
  else if v =? 2 then PDCM_STATUS_INVALID_ARGUMENT else if v =? 3 then PDCM_STATUS_UNSUPPORTED
  else if v =? 4 then PDCM_STATUS_NOT_INITIALIZED else if v =? 5 then PDCM_STATUS_UNAVAILABLE
  else if v =? 6 then PDCM_STATUS_PERMISSION_DENIED else if v =? 7 then PDCM_STATUS_TIMEOUT
  else if v =? 8 then PDCM_STATUS_RESOURCE_EXHAUSTED else if v =? 9 then PDCM_STATUS_BUFFER_TOO_SMALL
  else if v =? 10 then PDCM_STATUS_NOT_FOUND else if v =? 11 then PDCM_STATUS_STALE_GENERATION
  else if v =? 12 then PDCM_STATUS_INTERNAL else PDCM_STATUS_PROTOCOL_INCOMPATIBLE.
Definition health_code_of_value (v : Z) : StableHealthCode :=
  if v =? 0 then HC_HeartbeatOk else if v =? 1 then HC_HeartbeatWarning else if v =? 2 then HC_HeartbeatFault
  else if v =? 3 then HC_HeartbeatMissing else if v =? 4 then HC_HeartbeatStale else if v =? 5 then HC_HeartbeatTimeout
  else if v =? 6 then HC_HeartbeatReadError else if v =? 7 then HC_HeartbeatUnsupported
  else if v =? 8 then HC_ProviderUnavailable else HC_ProcessorError.

Definition validProtocolStatus (status : Z) : bool := (0 <=? status) && (status <=? 13).
Definition protocolStatus (raw_status : Z) (message : string) : Status :=
  if (raw_status <? 0) || (13 <? raw_status) then mkStatus PDCM_STATUS_INTERNAL "invalid status from local daemon"
  else mkStatus (status_of_value raw_status) message.

Definition fromProtocolEntity (e : PbEntityRef) : EntityRef :=
  mkEntityRef (fromProtocolEntityKind (wen_kind e)) (wen_pdcm_id e) (wen_generation e).

(** ** Validation *)

Definition validEntityRef (e : PbEntityRef) : bool :=
  EntityKind_IsValid (wen_kind e) && (wen_kind e =? ENTITY_KIND_DEVICE) && negb (wen_generation e =? 0).

Definition validEntityInfo (e : EntityInfo) : bool :=
  match wei_entity e with
  | None => false
  | Some r =>
      validEntityRef r && EntityState_IsValid (wei_state e) && ObservationStatus_IsValid (wei_native_id_status e)
      && ObservationStatus_IsValid (wei_pci_bdf_status e) && ObservationStatus_IsValid (wei_pdrv_version_status e)
      && negb (wei_native_id_status e =? 0) && negb (wei_pci_bdf_status e =? 0) && negb (wei_pdrv_version_status e =? 0)
      && validProtocolStatus (wei_item_status e)
      && (str_size (wei_native_id e) <? 64) && (str_size (wei_pci_bdf e) <? 32) && (str_size (wei_pdrv_version e) <? 64)
  end.

Definition validCapabilityItem (i : PbCapabilityItem) : bool :=
  CapabilityKind_IsValid (wci_kind i) && negb (wci_kind i =? 0) && CapabilityReason_IsValid (wci_reason i)
  && negb (wci_reason i =? 0) && negb (wci_semantic_version i =? 0) && negb (wci_catalog_generation i =? 0).

Definition PDCM_HEALTH_SOURCE_CAPACITY : Z := 64.
Definition PDCM_HEALTH_LIMITATION_CAPACITY : Z := 160.

Definition validHealthResponse (r : HealthQueryResponse) : bool :=
  match wht_entity r with
  | None => false
  | Some e =>
      validEntityRef e && negb (wht_subsystem_id r =? 0) && HealthState_IsValid (wht_state r) && negb (wht_state r =? 0)
      && validProtocolStatus (wht_item_status r) && (wht_code r <=? health_code_value HC_ProcessorError)
      && negb (wht_catalog_generation r =? 0) && (str_size (wht_source r) <? PDCM_HEALTH_SOURCE_CAPACITY)
      && forallb (fun s => str_size s <? PDCM_HEALTH_LIMITATION_CAPACITY) (wht_limitations r)
  end.

(** ** Responses *)

Definition internal (message : string) : Status := mkStatus PDCM_STATUS_INTERNAL message.

Definition list_failed (status : Status) : EntityListResult := mkEntityList status 0 0 [].

(** An accepted [EntityInfo]. *)
Definition entity_record (e : EntityInfo) (r : PbEntityRef) : EntityRecord :=
  mkEntityRecord (fromProtocolEntity r) (fromProtocolEntityState (wei_state e))
    (mkAttribute (fromProtocolStatus (wei_native_id_status e)) (wei_native_id e))
    (mkAttribute (fromProtocolStatus (wei_pci_bdf_status e)) (wei_pci_bdf e))
    (mkAttribute (fromProtocolStatus (wei_pdrv_version_status e)) (wei_pdrv_version e))
    "" TK_Unknown (status_of_value (wei_item_status e)).

(** The loop over the entities of a response; [None] at an invalid one. *)
Fixpoint entity_records (es : list EntityInfo) : option (list EntityRecord) :=
  match es with
  | [] => Some []
  | e :: es' =>
      match wei_entity e with
      | Some r => if validEntityInfo e then match entity_records es' with Some l => Some (entity_record e r :: l) | None => None end
                  else None
      | None => None
      end
  end.

Definition capability_item (i : PbCapabilityItem) : CapabilityItem :=
  mkCapabilityItem (fromProtocolCapabilityKind (wci_kind i)) (wci_id i) (wci_supported i) (fromProtocolReason (wci_reason i))
    (wci_semantic_version i) (wci_catalog_generation i).

Section Read.
Context `{LP : LocalProtocol}.

Definition read_entities (payload : list Z) : EntityListResult :=
  if INT_MAX <? zlen payload then list_failed (internal "entity response payload is too large")
  else
  match ParseFromArray (M := EntityListResponse) payload with
  | None => list_failed (internal "local daemon returned malformed entities")
  | Some r =>
      if negb (validProtocolStatus (wlr_status r)) then list_failed (internal "local daemon returned malformed entities")
      else
      let status := protocolStatus (wlr_status r) "entity list result" in
      let result status entities := mkEntityList status (wlr_detected_device_count r) (wlr_catalog_generation r) entities in
      if negb (accepted_code (st_code status))
      then result (if is_nil (wlr_entities r) then status else internal "failed entity response contains records") []
      else
      match entity_records (wlr_entities r) with
      | None => result (internal "local daemon returned invalid entity") []
      | Some l => result status l
      end
  end.

Definition read_capabilities (payload : list Z) : Status * option CapabilitySet :=
  if INT_MAX <? zlen payload then (internal "capability response payload is too large", None)
  else
  match ParseFromArray (M := CapabilityQueryResponse) payload with
  | None => (internal "local daemon returned malformed capabilities", None)
  | Some r =>
      if negb (validProtocolStatus (wcr_status r)) then (internal "local daemon returned malformed capabilities", None)
      else
      let result_status := protocolStatus (wcr_status r) "capability query result" in
      if negb (st_ok result_status)
      then
        match wcr_entity r with
        | Some _ => (internal "failed capability response contains a result", None)
        | None => if negb (is_nil (wcr_items r)) || negb (wcr_catalog_generation r =? 0)
                  then (internal "failed capability response contains a result", None)
                  else (result_status, None)
        end
      else
      match wcr_entity r with
      | None => (internal "capability response identity is invalid", None)
      | Some e =>
          if negb (validEntityRef e) || (wcr_catalog_generation r =? 0)
          then (internal "capability response identity is invalid", None)
          else if forallb (fun i => validCapabilityItem i && (wci_catalog_generation i =? wcr_catalog_generation r)) (wcr_items r)
          then (st_success, Some (mkCapabilitySet (fromProtocolEntity e) (wcr_catalog_generation r)
                                    (map capability_item (wcr_items r))))
          else (internal "local daemon returned invalid capability item", None)
      end
  end.

Definition health_failed (status : Status) : HealthQueryResult := mkHealthQuery status None None.

Definition health_result (r : HealthQueryResponse) (e : PbEntityRef) : HealthResult :=
  mkHealthResult (fromProtocolEntity e) (wht_subsystem_id r) (fromProtocolHealthState (wht_state r))
    (fromProtocolStatus (wht_item_status r)) (wht_catalog_generation r) (wht_evaluated_monotonic_time_ns r)
    (wht_evidence_age_ns r)
    (if wht_evidence_id r =? 0 then []
     else [mkEvidenceRef (wht_evidence_id r) (wht_sequence_or_token r) None
             (wht_evaluated_monotonic_time_ns r - wht_evidence_age_ns r) (mkSource (wht_source r) "")])
    (map (fun detail => mkLimitation HL_EvidenceMissing detail) (wht_limitations r)) (health_code_of_value (wht_code r)).

Definition read_health (payload : list Z) : HealthQueryResult :=
  if INT_MAX <? zlen payload then health_failed (internal "health response payload is too large")
  else
  match ParseFromArray (M := HealthQueryResponse) payload with
  | None => health_failed (internal "local daemon returned malformed health")
  | Some r =>
      if negb (validProtocolStatus (wht_status r)) then health_failed (internal "local daemon returned malformed health")
      else
      let result_status := protocolStatus (wht_status r) "health query result" in
      if negb (accepted_code (st_code result_status))
      then
        match wht_entity r with
        | Some _ => health_failed (internal "failed health response contains a result")
        | None => health_failed result_status
        end
      else
      match wht_entity r with
      | Some e => if validHealthResponse r then mkHealthQuery result_status (Some (health_result r e)) None
                  else health_failed (internal "local daemon returned invalid health result")
      | None => health_failed (internal "local daemon returned invalid health result")
      end
  end.
End Read.

(** ** Round trips *)

Lemma core_state_roundtrip s : fromProtocolCoreState (toProtocolCoreState s) = s /\ CoreState_IsValid (toProtocolCoreState s) = true.
Proof. by destruct s. Qed.
Lemma provider_state_roundtrip s :
  fromProtocolProviderState (toProtocolProviderState s) = s /\ ProviderState_IsValid (toProtocolProviderState s) = true.
Proof. by destruct s. Qed.
Lemma entity_state_roundtrip s :
  fromProtocolEntityState (toProtocolEntityState s) = s /\ EntityState_IsValid (toProtocolEntityState s) = true.
Proof. by destruct s. Qed.
Lemma status_roundtrip s : fromProtocolStatus (toProtocolStatus s) = s /\ ObservationStatus_IsValid (toProtocolStatus s) = true /\
  (toProtocolStatus s =? 0) = false /\ validProtocolStatus (toProtocolStatus s) = true.
Proof. by destruct s. Qed.
Lemma health_state_roundtrip s : fromProtocolHealthState (toProtocolHealthState s) = s /\
  HealthState_IsValid (toProtocolHealthState s) = true /\ (toProtocolHealthState s =? 0) = false.
Proof. by destruct s. Qed.
Lemma capability_kind_roundtrip k : fromProtocolCapabilityKind (toProtocolCapabilityKind k) = k /\
  CapabilityKind_IsValid (toProtocolCapabilityKind k) = true /\ (toProtocolCapabilityKind k =? 0) = false.
Proof. by destruct k. Qed.
Lemma reason_roundtrip r : fromProtocolReason (toProtocolReason r) = r /\
  CapabilityReason_IsValid (toProtocolReason r) = true /\ (toProtocolReason r =? 0) = false.
Proof. by destruct r. Qed.
Lemma entity_kind_roundtrip k : fromProtocolEntityKind (toProtocolEntityKind k) = k /\ EntityKind_IsValid (toProtocolEntityKind k) = true.
Proof. by destruct k. Qed.
Lemma status_value_roundtrip s : status_of_value (status_value s) = s /\ validProtocolStatus (status_value s) = true.
Proof. by destruct s. Qed.
Lemma protocolStatus_value s message : protocolStatus (status_value s) message = mkStatus s message.
Proof. by destruct s. Qed.
Lemma health_code_roundtrip c : health_code_of_value (health_code_value c) = c /\
  (health_code_value c <=? health_code_value HC_ProcessorError) = true.
Proof. by destruct c. Qed.

Section RoundTrip.
Context `{LP : LocalProtocol} `{L : !LocalProtocolLaws}.

(** What a client sees of an entity: the provider's version and the target are
    not part of the protocol. *)
Definition entity_view (e : EntityRecord) : EntityRecord :=
  mkEntityRecord (ent_ref e) (ent_state e) (ent_native_id e) (ent_pci_bdf e) (ent_pdrv_version e) "" TK_Unknown (ent_item_status e).

(** A reference to a device that the protocol can carry. *)
Definition ref_presentable (r : EntityRef) : Prop := er_kind r = EK_Device /\ u64 (er_id r) /\ 1 <= er_generation r <= u64_max.

Record entity_presentable (e : EntityRecord) : Prop := {
  ep_ref : ref_presentable (ent_ref e);
  ep_native : utf8 (sa_value (ent_native_id e)) /\ str_size (sa_value (ent_native_id e)) < 64;
  ep_bdf : utf8 (sa_value (ent_pci_bdf e)) /\ str_size (sa_value (ent_pci_bdf e)) < 32;
  ep_pdrv : utf8 (sa_value (ent_pdrv_version e)) /\ str_size (sa_value (ent_pdrv_version e)) < 64 }.

Record list_presentable (r : EntityListResult) : Prop := {
  lp_count : u32 (elr_detected_device_count r);
  lp_generation : u64 (elr_catalog_generation r);
  lp_entities : Forall entity_presentable (elr_entities r);
  lp_failed : accepted_code (st_code (elr_status r)) = false -> elr_entities r = [];
  lp_size : zlen (SerializeAsString (entity_list_message r)) <= INT_MAX }.

Lemma ref_roundtrip r : ref_presentable r ->
  fromProtocolEntity (fillEntityRef r) = r /\ validEntityRef (fillEntityRef r) = true /\ entity_ok (fillEntityRef r).
Proof.
  intros (K1 & K2 & K3). destruct r as [k id g]. cbn in K1, K2, K3. subst k. split_and!; [done| |].
  - unfold validEntityRef. cbn. by rewrite (proj2 (Z.eqb_neq g 0)) by lia.
  - split_and!; cbn; [by vm_compute|done|unfold u64; lia].
Qed.

Lemma status_i32 s : i32 (toProtocolStatus s).
Proof. by destruct s. Qed.

Lemma entity_info_roundtrip e : entity_presentable e ->
  entity_info_ok (entity_info e) /\ validEntityInfo (entity_info e) = true /\
  wei_entity (entity_info e) = Some (fillEntityRef (ent_ref e)) /\
  entity_record (entity_info e) (fillEntityRef (ent_ref e)) = entity_view e.
Proof.
  intros [K1 [K2 K3] [K4 K5] [K6 K7]]. destruct (ref_roundtrip _ K1) as (R1 & R2 & R3). split_and!; [|..].
  - split_and!; cbn; try done; [by destruct (ent_state e)|apply status_value_i32|apply status_i32..].
  - unfold validEntityInfo. cbn [wei_entity entity_info wei_state wei_native_id_status wei_pci_bdf_status wei_pdrv_version_status
      wei_item_status wei_native_id wei_pci_bdf wei_pdrv_version].
    destruct (entity_state_roundtrip (ent_state e)) as [_ ->], (status_roundtrip (sa_status (ent_native_id e))) as (_ & -> & -> & _),
      (status_roundtrip (sa_status (ent_pci_bdf e))) as (_ & -> & -> & _),
      (status_roundtrip (sa_status (ent_pdrv_version e))) as (_ & -> & -> & _), (status_value_roundtrip (ent_item_status e)) as [_ ->].
    rewrite R2, !(proj2 (Z.ltb_lt _ _)) by done. done.
  - done.
  - unfold entity_record, entity_view. cbn. rewrite R1, (proj1 (entity_state_roundtrip _)), (proj1 (status_value_roundtrip _)),
      !(proj1 (status_roundtrip _)). by destruct (ent_native_id e), (ent_pci_bdf e), (ent_pdrv_version e).
Qed.

Lemma entity_records_roundtrip es : Forall entity_presentable es ->
  entity_records (map entity_info es) = Some (map entity_view es) /\ Forall entity_info_ok (map entity_info es).
Proof.
  induction 1 as [|e es He Hes [IH1 IH2]]; [done|]. destruct (entity_info_roundtrip e He) as (I1 & I2 & I3 & I4).
  cbn [map entity_records]. rewrite I3, I2, IH1, I4. split; [done|by constructor].
Qed.

Lemma entities_roundtrip r : list_presentable r ->
  read_entities (SerializeAsString (entity_list_message r)) =
  mkEntityList (mkStatus (st_code (elr_status r)) "entity list result") (elr_detected_device_count r)
    (elr_catalog_generation r) (map entity_view (elr_entities r)).
Proof.
  intros [K1 K2 K3 K4 K5]. destruct (entity_records_roundtrip _ K3) as [E1 E2].
  assert (list_response_ok (entity_list_message r)) as Hok by (split_and!; cbn; [apply status_value_i32|done..]).
  unfold read_entities. rewrite (proj2 (Z.ltb_ge _ _)) by done. rewrite (proj2 (pl_list_response _ Hok)).
  cbn [entity_list_message wlr_status wlr_entities wlr_detected_device_count wlr_catalog_generation].
  rewrite (proj2 (status_value_roundtrip _)), protocolStatus_value, E1. cbn [negb st_code].
  destruct (accepted_code (st_code (elr_status r))) eqn:Ea; cbn [negb]; [done|]. by rewrite (K4 eq_refl).
Qed.

(** ** Capabilities *)

Record item_presentable (generation : Z) (i : CapabilityItem) : Prop := {
  ip_id : u32 (cap_id i);
  ip_version : 1 <= cap_semantic_version i <= u32_max;
  ip_generation : cap_catalog_generation i = generation }.

(** A successful answer has a set, any other has none. *)
Record capabilities_presentable (r : Status * option CapabilitySet) : Prop := {
  cp_status : match snd r with Some _ => fst r = st_success | None => st_ok (fst r) = false end;
  cp_set : forall set, snd r = Some set ->
    ref_presentable (cs_entity set) /\ 1 <= cs_catalog_generation set <= u64_max /\
    Forall (item_presentable (cs_catalog_generation set)) (cs_items set);
  cp_size : zlen (SerializeAsString (capability_message r)) <= INT_MAX }.

Lemma item_roundtrip g i : 1 <= g <= u64_max -> item_presentable g i ->
  capability_ok (capability_item_message i) /\ capability_item (capability_item_message i) = i /\
  validCapabilityItem (capability_item_message i) && (wci_catalog_generation (capability_item_message i) =? g) = true.
Proof.
  intros Hg [K1 K2 K3]. split_and!.
  - split_and!; cbn; [by destruct (cap_kind i)|done|by destruct (cap_reason i)|unfold u32; lia|rewrite K3; unfold u64; lia].
  - unfold capability_item. cbn. rewrite (proj1 (capability_kind_roundtrip _)), (proj1 (reason_roundtrip _)). by destruct i.
  - unfold validCapabilityItem. cbn [capability_item_message wci_kind wci_reason wci_semantic_version wci_catalog_generation].
    destruct (capability_kind_roundtrip (cap_kind i)) as (_ & -> & ->), (reason_roundtrip (cap_reason i)) as (_ & -> & ->).
    rewrite K3, Z.eqb_refl, !(proj2 (Z.eqb_neq _ 0)) by lia. done.
Qed.

Lemma items_roundtrip g items : 1 <= g <= u64_max -> Forall (item_presentable g) items ->
  Forall capability_ok (map capability_item_message items) /\
  map capability_item (map capability_item_message items) = items /\
  forallb (fun i => validCapabilityItem i && (wci_catalog_generation i =? g)) (map capability_item_message items) = true.
Proof.
  intros Hg. induction 1 as [|i items Hi Hitems (IH1 & IH2 & IH3)]; [done|]. destruct (item_roundtrip g i Hg Hi) as (I1 & I2 & I3).
  cbn [map forallb]. rewrite I2, I3, IH2, IH3. split_and!; [by constructor|done|done].
Qed.

Lemma capabilities_roundtrip r : capabilities_presentable r ->
  read_capabilities (SerializeAsString (capability_message r)) =
  (mkStatus (st_code (fst r)) (if st_ok (fst r) then "" else "capability query result"), snd r).
Proof.
  intros [K1 K2 K3]. unfold read_capabilities. rewrite (proj2 (Z.ltb_ge _ _)) by done. clear K3. destruct r as [st [set|]]; cbn [fst snd] in *.
  - destruct (K2 set eq_refl) as (S1 & S2 & S3). destruct (ref_roundtrip _ S1) as (R1 & R2 & R3).
    destruct (items_roundtrip _ _ S2 S3) as (I1 & I2 & I3).
    assert (capability_response_ok (capability_message (st, Some set))) as Hok
      by (split_and!; cbn; [apply status_value_i32|done|unfold u64; lia|done]).
    rewrite (proj2 (pl_capability_response _ Hok)). subst st.
    cbn [capability_message fst snd wcr_status wcr_entity wcr_items wcr_catalog_generation].
    rewrite (proj2 (status_value_roundtrip _)), protocolStatus_value. cbn [negb]. change (st_ok (mkStatus (st_code st_success) _)) with true.
    cbn [negb]. rewrite R2, (proj2 (Z.eqb_neq _ 0)) by lia. cbn [negb orb]. rewrite I3, I2, R1. by destruct set.
  - assert (capability_response_ok (capability_message (st, None))) as Hok
      by (split_and!; cbn; [apply status_value_i32|done|by vm_compute|done]).
    rewrite (proj2 (pl_capability_response _ Hok)).
    cbn [capability_message fst snd wcr_status wcr_entity wcr_items wcr_catalog_generation].
    rewrite (proj2 (status_value_roundtrip _)), protocolStatus_value. cbn [negb].
    change (st_ok (mkStatus (st_code st) "capability query result")) with (st_ok st). by rewrite K1.
Qed.

(** ** Health *)

(** What a client sees of a health result: its first evidence, observed as long
    ago as the result says, and the texts of its limitations. *)
Definition health_view (item : HealthResult) : HealthResult :=
  mkHealthResult (hr_entity item) (hr_subsystem_id item) (hr_state item) (hr_item_status item) (hr_catalog_generation item)
    (hr_evaluated_monotonic_time_ns item) (hr_evidence_age_ns item)
    (match hr_evidence item with
     | [] => []
     | e :: _ => if evr_evidence_id e =? 0 then []
                 else [mkEvidenceRef (evr_evidence_id e) (evr_sequence_or_token e) None
                         (hr_evaluated_monotonic_time_ns item - hr_evidence_age_ns item) (mkSource (src_provider (evr_source e)) "")]
     end)
    (map (fun l => mkLimitation HL_EvidenceMissing (lim_detail l)) (hr_limitations item)) (hr_code item).

Record health_presentable (item : HealthResult) : Prop := {
  hp_ref : ref_presentable (hr_entity item);
  hp_subsystem : 1 <= hr_subsystem_id item <= u32_max;
  hp_generation : 1 <= hr_catalog_generation item <= u64_max;
  hp_times : i64 (hr_evaluated_monotonic_time_ns item) /\ i64 (hr_evidence_age_ns item);
  hp_evidence : forall e, head (hr_evidence item) = Some e ->
    u64 (evr_evidence_id e) /\ u64 (evr_sequence_or_token e) /\ utf8 (src_provider (evr_source e)) /\
    str_size (src_provider (evr_source e)) < PDCM_HEALTH_SOURCE_CAPACITY;
  hp_limitations : Forall (fun l => utf8 (lim_detail l) /\ str_size (lim_detail l) < PDCM_HEALTH_LIMITATION_CAPACITY)
    (hr_limitations item) }.

Record health_query_presentable (q : HealthQueryResult) : Prop := {
  hqp_status : accepted_code (st_code (hqr_status q)) = match hqr_item q with Some _ => true | None => false end;
  hqp_item : forall item, hqr_item q = Some item -> health_presentable item;
  hqp_size : zlen (SerializeAsString (health_message q)) <= INT_MAX }.

Lemma empty_utf8 : utf8 "".
Proof. by apply pl_ascii. Qed.

Lemma health_message_roundtrip st item agg : health_presentable item ->
  let r := health_message (mkHealthQuery st (Some item) agg) in
  health_response_ok r /\ validHealthResponse r = true /\ wht_entity r = Some (fillEntityRef (hr_entity item)) /\
  wht_status r = status_value (st_code st) /\ health_result r (fillEntityRef (hr_entity item)) = health_view item.
Proof.
  intros [K1 K2 K3 [K4 K5] K6 K7]. destruct (ref_roundtrip _ K1) as (R1 & R2 & R3). cbv zeta. unfold health_message.
  cbn [hqr_item hqr_status].
  destruct (match hr_evidence item with [] => (0, 0, "") | front :: _ => _ end) as [[ev tok] src] eqn:Ee.
  assert (u64 ev /\ u64 tok /\ utf8 src /\ str_size src < PDCM_HEALTH_SOURCE_CAPACITY) as (E1 & E2 & E3 & E4).
  { destruct (hr_evidence item) as [|e es]; injection Ee as <- <- <-; [|by apply K6].
    split_and!; [by vm_compute|by vm_compute|apply empty_utf8|by vm_compute]. }
  assert (Forall utf8 (map lim_detail (hr_limitations item)) /\
    forallb (fun s => str_size s <? PDCM_HEALTH_LIMITATION_CAPACITY) (map lim_detail (hr_limitations item)) = true) as [L1 L2].
  { clear -K7. induction K7 as [|l ls [H1 H2] _ [IH1 IH2]]; [done|]. cbn [map forallb]. rewrite IH2, (proj2 (Z.ltb_lt _ _)) by done.
    split; [by constructor|done]. }
  split_and!; [|..|done|done|].
  - split_and!; cbn; try done; [apply status_value_i32|unfold u32; lia|by destruct (hr_state item)|apply status_i32
      |by destruct (hr_code item)|unfold u64; lia].
  - unfold validHealthResponse. cbn [wht_entity wht_subsystem_id wht_state wht_item_status wht_code wht_catalog_generation wht_source wht_limitations].
    destruct (health_state_roundtrip (hr_state item)) as (_ & -> & ->), (status_roundtrip (hr_item_status item)) as (_ & _ & _ & ->),
      (health_code_roundtrip (hr_code item)) as [_ ->].
    rewrite R2, L2, (proj2 (Z.ltb_lt _ _)), !(proj2 (Z.eqb_neq _ 0)) by (done || lia). done.
  - unfold health_result, health_view. cbn. rewrite R1, (proj1 (health_state_roundtrip _)), (proj1 (status_roundtrip _)),
      (proj1 (health_code_roundtrip _)), map_map. f_equal. by destruct (hr_evidence item) as [|e es]; injection Ee as <- <- <-.
Qed.

Lemma health_roundtrip q : health_query_presentable q ->
  read_health (SerializeAsString (health_message q)) =
  mkHealthQuery (mkStatus (st_code (hqr_status q)) "health query result") (health_view <$> hqr_item q) None.
Proof.
  intros [K1 K2 K3]. unfold read_health. rewrite (proj2 (Z.ltb_ge INT_MAX _)) by done. clear K3. destruct q as [st [item|] agg]; cbn [hqr_item hqr_status] in *.
  - destruct (health_message_roundtrip st item agg (K2 item eq_refl)) as (H1 & H2 & H3 & H4 & H5). set (r := health_message _) in *.
    rewrite (proj2 (pl_health_response _ H1)), H4, (proj2 (status_value_roundtrip _)), protocolStatus_value.
    cbn [negb st_code]. by rewrite K1, H3, H2, H5.
  - assert (health_response_ok (health_message (mkHealthQuery st None agg))) as Hok.
    { split_and!; cbn; [apply status_value_i32|done|by vm_compute..|apply empty_utf8|done]. }
    rewrite (proj2 (pl_health_response _ Hok)). cbn [health_message hqr_item hqr_status wht_status wht_entity].
    rewrite (proj2 (status_value_roundtrip _)), protocolStatus_value. cbn [negb st_code]. by rewrite K1.
Qed.
End RoundTrip.
