(* ===== verification/Standalone.v ===== *)
(** The standalone backend (src/product/src/client/standalone_backend.hpp and
    .cpp, and the data of client/backend.hpp): the client's end of a connection
    to the daemon.

    Its methods hold the mutex throughout, so each is one function of the state;
    they work over any [Kernel].  The process identifier and the random nonce
    are arguments.  The results come back as [None] only while a call still waits
    (Socket.v). *)
From S2P Require Import Prelude Containers Common Provider Session Catalog Frame EventStore DataStore HealthStore ProcessorGraph Metrics Service Protocol Codec Handshake Router Socket ClientView.
Local Open Scope string_scope.
Local Open Scope list_scope.
Open Scope Z_scope.
Open Scope pdcm_scope.

(** ** Data *)

Inductive BackendMode := BM_Standalone | BM_Embedded.
#[export] Instance BackendMode_eq_dec : EqDecision BackendMode.
Proof. solve_decision. Defined.

Record BackendVersion := mkVersion {
  bv_daemon_version : string;
  bv_mode : BackendMode;
  bv_target : TargetKind;
  bv_core : CoreSnapshot;
  bv_provider_failure_phase : ProviderFailurePhase;
  bv_provider_load_attempted : bool;
  bv_provider_loaded : bool;
  bv_provider_abi_compatible : bool;
  bv_protocol_major : Z;
  bv_protocol_minor : Z;
  bv_session_id : Z }.
Definition version_default : BackendVersion :=
  mkVersion "" BM_Standalone TK_Unknown core_snapshot_default PF_None false false false 0 0 0.

Record StandaloneBackend := mkStandalone {
  sb_endpoint_ : string;
  sb_deadline_ : Z;
  sb_max_frame_bytes_ : Z;
  sb_socket_ : UniqueFd;
  sb_next_request_id_ : Z;
  sb_version_ : BackendVersion;
  sb_started_ : bool;
  sb_closed_ : bool }.
Definition sb_construct (endpoint : string) (deadline max_frame_bytes : Z) : StandaloneBackend :=
  mkStandalone endpoint deadline max_frame_bytes fd_none 2 version_default false false.
Definition sb_with_socket (b : StandaloneBackend) (fd : UniqueFd) : StandaloneBackend :=
  mkStandalone (sb_endpoint_ b) (sb_deadline_ b) (sb_max_frame_bytes_ b) fd (sb_next_request_id_ b) (sb_version_ b)
    (sb_started_ b) (sb_closed_ b).
Definition sb_with_next (b : StandaloneBackend) (next : Z) : StandaloneBackend :=
  mkStandalone (sb_endpoint_ b) (sb_deadline_ b) (sb_max_frame_bytes_ b) (sb_socket_ b) next (sb_version_ b)
    (sb_started_ b) (sb_closed_ b).

(** The bytes of a [std::string] up to the first null. *)
Fixpoint c_str (s : string) : string :=
  match s with
  | EmptyString => EmptyString
  | String c s' => if ascii_code c =? 0 then EmptyString else String c (c_str s')
  end.

Definition disconnected : Status := mkStatus PDCM_STATUS_UNAVAILABLE "standalone backend is disconnected".
Definition sb_connected (b : StandaloneBackend) : bool := sb_started_ b && negb (sb_closed_ b) && fd_valid (sb_socket_ b).

(** The tests of [start] on a parsed hello response. *)
Definition negotiation_invalid (f : Frame) (r : HelloResponse) : bool :=
  negb (whr_protocol_major r =? kProtocolMajor) || (kProtocolMinor <? whr_protocol_minor r)
  || negb (protocol_major f =? whr_protocol_major r) || negb (protocol_minor f =? whr_protocol_minor r)
  || (whr_session_id r =? 0) || (whr_core_state r =? 0) || (whr_provider_state r =? 0)
  || negb (CoreState_IsValid (whr_core_state r)) || negb (ProviderState_IsValid (whr_provider_state r))
  || negb (ProviderFailurePhase_IsValid (whr_provider_failure_phase r)).

(** The version that [start] records; the degraded reason is not transmitted. *)
Definition negotiated_version (r : HelloResponse) : BackendVersion :=
  mkVersion (whr_daemon_version r) BM_Standalone TK_Unknown
    (mkCoreSnapshot (fromProtocolCoreState (whr_core_state r)) (fromProtocolProviderState (whr_provider_state r)) DR_None
       (st_code (protocolStatus (whr_detail_status r) "daemon detail status")) (whr_detected_device_count r)
       (whr_catalog_generation r))
    (fromProtocolPhase (whr_provider_failure_phase r))
    (negb (whr_provider_state r =? PROVIDER_STATE_UNINITIALIZED)) (whr_provider_state r =? PROVIDER_STATE_READY)
    (whr_provider_state r =? PROVIDER_STATE_READY) (whr_protocol_major r mod 65536) (whr_protocol_minor r mod 65536)
    (whr_session_id r).

Section Standalone.
Context {W : Type} `{K : Kernel W} `{LP : LocalProtocol}.

Definition deadlineAfter (w : W) (timeout_ms : Z) : Z * W :=
  let '(now, w1) := k_now w in (ms_after now timeout_ms, w1).

(** An error response read as a status. *)
Definition read_error (payload : list Z) (in_start : bool) : Status :=
  if INT_MAX <? zlen payload then internal "local daemon error payload is too large"
  else
  match ParseFromArray (M := ErrorResponse) payload with
  | None => internal "local daemon returned malformed error"
  | Some error =>
      if in_start && bool_decide (wer_stable_reason error = "INCOMPATIBLE_PROTOCOL_MAJOR")
      then mkStatus PDCM_STATUS_PROTOCOL_INCOMPATIBLE "local daemon protocol major is incompatible"
      else
      let error_status := protocolStatus (wer_status error) (c_str (wer_stable_reason error)) in
      if st_ok error_status then internal "local daemon returned a success error response" else error_status
  end.

Definition client_hello (pid : Z) (nonce : string) : HelloRequest :=
  mkHello kProtocolMajor kProtocolMinor "0.1.0" pid nonce [].
Definition hello_frame (pid : Z) (nonce : string) : Frame :=
  mkFrame kProtocolMajor kProtocolMinor kHelloRequest 0 1 (SerializeAsString (client_hello pid nonce)).

(** [start] once the response to the hello has been read: a status, or the
    negotiated version. *)
Definition accept_hello (response : Frame) : Status + BackendVersion :=
  if negb (request_id response =? 1) then inl (internal "local daemon response request ID mismatch")
  else if message_type response =? kErrorResponse then inl (read_error (payload response) true)
  else if negb (message_type response =? kHelloResponse) || (INT_MAX <? zlen (payload response))
  then inl (internal "local daemon returned invalid handshake response")
  else
  match ParseFromArray (M := HelloResponse) (payload response) with
  | None => inl (internal "local daemon returned malformed handshake")
  | Some r =>
      if negotiation_invalid response r
      then inl (mkStatus PDCM_STATUS_PROTOCOL_INCOMPATIBLE "local daemon negotiated an invalid protocol")
      else inr (negotiated_version r)
  end.

Definition sb_start (fuel : nat) (w : W) (b : StandaloneBackend) (pid : Z) (nonce : string)
    : option (Status * StandaloneBackend * W) :=
  if sb_closed_ b then Some (mkStatus PDCM_STATUS_NOT_INITIALIZED "standalone backend is already closed", b, w)
  else if sb_started_ b then Some (mkStatus PDCM_STATUS_NOT_INITIALIZED "standalone backend is already started", b, w)
  else
  let '(deadline, w1) := deadlineAfter w (sb_deadline_ b) in
  match connectUnixSocket fuel w1 (sb_endpoint_ b) deadline (Some (sb_socket_ b)) with
  | None => None
  | Some (connected, socket, w2) =>
  let fd := default fd_none socket in
  let b1 := sb_with_socket b fd in
  if negb (st_ok connected) then Some (connected, b1, w2)
  else
  let failed status w :=
    let '(none, w') := fd_reset w fd fd_none in Some (status, sb_with_socket b1 none, w') in
  let '(encoded, bytes) := encodeFrame (hello_frame pid nonce) (sb_max_frame_bytes_ b) (Some []) in
  if negb (st_ok encoded) then failed encoded w2
  else
  match writeAll fuel w2 fd bytes deadline with
  | None => None
  | Some (written, w3) =>
  if negb (st_ok written) then failed written w3
  else
  match readOneFrame fuel w3 fd true (sb_max_frame_bytes_ b) deadline with
  | None => None
  | Some (read, frame, w4) =>
  if negb (st_ok read) then failed read w4
  else
  match accept_hello (default frame_default frame) with
  | inl status => failed status w4
  | inr version =>
      Some (st_success, mkStandalone (sb_endpoint_ b1) (sb_deadline_ b1) (sb_max_frame_bytes_ b1) fd (sb_next_request_id_ b1)
                          version true (sb_closed_ b1), w4)
  end end end end.

(** The request that [exchangeLocked] builds. *)
Definition request_frame (b : StandaloneBackend) (request_type : Z) (request_payload : list Z) : Frame :=
  mkFrame (bv_protocol_major (sb_version_ b)) (bv_protocol_minor (sb_version_ b)) request_type 0 (sb_next_request_id_ b)
    request_payload.

(** [exchangeLocked] once the response has been read. *)
Definition accept_response (b : StandaloneBackend) (request response : Frame) (expected_response_type : Z) : Status :=
  if negb (request_id response =? request_id request)
     || negb (protocol_major response =? bv_protocol_major (sb_version_ b))
     || negb (protocol_minor response =? bv_protocol_minor (sb_version_ b))
  then internal "local daemon response envelope mismatch"
  else if message_type response =? kErrorResponse then read_error (payload response) false
  else if negb (message_type response =? expected_response_type)
  then internal "local daemon returned unexpected response type"
  else st_success.

Definition exchangeLocked (fuel : nat) (w : W) (b : StandaloneBackend) (request_type : Z) (request_payload : list Z)
    (expected_response_type : Z) : option (Status * Frame * StandaloneBackend * W) :=
  if negb (sb_connected b) then Some (disconnected, frame_default, b, w)
  else if sb_next_request_id_ b =? 0
  then Some (mkStatus PDCM_STATUS_RESOURCE_EXHAUSTED "standalone request ID space is exhausted", frame_default, b, w)
  else
  let request := request_frame b request_type request_payload in
  let b1 := sb_with_next b (wrap64 (sb_next_request_id_ b + 1)) in
  let '(encoded, bytes) := encodeFrame request (sb_max_frame_bytes_ b) (Some []) in
  if negb (st_ok encoded) then Some (encoded, frame_default, b1, w)
  else
  let '(deadline, w1) := deadlineAfter w (sb_deadline_ b) in
  match writeAll fuel w1 (sb_socket_ b) bytes deadline with
  | None => None
  | Some (written, w2) =>
  if negb (st_ok written) then Some (written, frame_default, b1, w2)
  else
  match readOneFrame fuel w2 (sb_socket_ b) true (sb_max_frame_bytes_ b) deadline with
  | None => None
  | Some (read, frame, w3) =>
  let response := default frame_default frame in
  if negb (st_ok read) then Some (read, response, b1, w3)
  else Some (accept_response b request response expected_response_type, response, b1, w3)
  end end.

Definition sb_version (w : W) (b : StandaloneBackend) : Status * option BackendVersion * W :=
  if negb (sb_connected b) then (disconnected, None, w)
  else
  let '(connected, w1) := checkUnixSocketConnected w (sb_socket_ b) in
  if negb (st_ok connected) then (connected, None, w1) else (st_success, Some (sb_version_ b), w1).

Definition sb_entities (fuel : nat) (w : W) (b : StandaloneBackend) (kind : EntityKind)
    : option (EntityListResult * StandaloneBackend * W) :=
  let request := mkEntityListRequest (toProtocolEntityKind kind) in
  match exchangeLocked fuel w b kEntityListRequest (SerializeAsString request) kEntityListResponse with
  | None => None
  | Some (exchanged, response, b1, w1) =>
      Some (if negb (st_ok exchanged) then list_failed exchanged else read_entities (payload response), b1, w1)
  end.

Definition sb_capabilities (fuel : nat) (w : W) (b : StandaloneBackend) (entity : EntityRef)
    : option (Status * option CapabilitySet * StandaloneBackend * W) :=
  let request := mkCapabilityRequest (Some (fillEntityRef entity)) in
  match exchangeLocked fuel w b kCapabilityQueryRequest (SerializeAsString request) kCapabilityQueryResponse with
  | None => None
  | Some (exchanged, response, b1, w1) =>
      Some (if negb (st_ok exchanged) then (exchanged, None) else read_capabilities (payload response), b1, w1)
  end.

Definition sb_health (fuel : nat) (w : W) (b : StandaloneBackend) (request : HealthRequest)
    : option (HealthQueryResult * StandaloneBackend * W) :=
  let message := mkHealthQueryRequest (Some (fillEntityRef (hq_entity request))) (hq_subsystem_id request)
                   (hq_catalog_generation request) (hq_max_age_ns request) in
  match exchangeLocked fuel w b kHealthQueryRequest (SerializeAsString message) kHealthQueryResponse with
  | None => None
  | Some (exchanged, response, b1, w1) =>
      Some (if negb (st_ok exchanged) then health_failed exchanged else read_health (payload response), b1, w1)
  end.

Definition sb_close (w : W) (b : StandaloneBackend) : Status * StandaloneBackend * W :=
  if sb_closed_ b then (st_success, b, w)
  else
  let '(none, w1) := fd_reset w (sb_socket_ b) fd_none in
  (st_success, mkStandalone (sb_endpoint_ b) (sb_deadline_ b) (sb_max_frame_bytes_ b) none (sb_next_request_id_ b)
                 (sb_version_ b) false true, w1).
End Standalone.
