(* ===== verification/Loopback.v ===== *)
(** The client and the daemon together: the standalone backend of Standalone.v
    talking to a connection of the server of Connection.v.

    The kernel between them ([world]) hands the client's bytes to the connection
    in pieces of at most 4096 bytes, as [recv] does, keeps what the connection
    writes until the client reads it, and refuses to write to a connection that
    has left its loop.  [core_now] is the time at which the core evaluates
    health. *)
From S2P Require Import Prelude Containers Common Provider Session Catalog Frame EventStore DataStore HealthStore ProcessorGraph Metrics Service Protocol Codec Handshake Router Connection Socket ClientView Standalone.
Local Open Scope string_scope.
Local Open Scope list_scope.
Open Scope Z_scope.
Open Scope pdcm_scope.

(** The size of the buffer of [handleConnection]. *)
Definition recv_bytes : nat := Z.to_nat 4096.
Lemma recv_bytes_eq : Z.of_nat recv_bytes = 4096.
Proof. done. Qed.
Lemma recv_bytes_def : Z.to_nat 4096 = recv_bytes.
Proof. done. Qed.
#[local] Opaque recv_bytes.

Record world := mkWorld {
  wd_time : Z;
  wd_sessions : SessionManager;
  wd_conn : Connection;
  wd_serving : bool;
  wd_inbox : list Z }.

Section Loopback.
Context {P : Type} `{LP : LocalProtocol} `{LL : !LocalProtocolLaws}.
Variable core : ServiceCore (P := P).
Variable limits : ResourceLimits.
Variable core_now : Z.

Definition wd_env : nat -> frame_env := fun _ => mkFrameEnv core_now true.

Definition wd_send (w : world) (data : list Z) : (errno + Z) * world :=
  if negb (wd_serving w) then (inl EPIPE, w)
  else
  let chunk := take recv_bytes data in
  let '(go_on, out, c, m) := conn_receive core limits (wd_sessions w) (wd_conn w) chunk wd_env in
  (inr (zlen chunk), mkWorld (wd_time w) m c go_on (wd_inbox w ++ concat out)).
Definition wd_recv (w : world) (n : Z) : (errno + list Z) * world :=
  match wd_inbox w with
  | [] => (if wd_serving w then inl EAGAIN else inr [], w)
  | inbox => (inr (take (Z.to_nat n) inbox),
              mkWorld (wd_time w) (wd_sessions w) (wd_conn w) (wd_serving w) (drop (Z.to_nat n) inbox))
  end.
Definition wd_poll (w : world) (events : Z) : poll_result :=
  if events =? POLLOUT then PollReady POLLOUT
  else if negb (is_nil (wd_inbox w)) || negb (wd_serving w) then PollReady POLLIN else PollTimeout.
Definition wd_tick (w : world) : world :=
  mkWorld (wd_time w + 1) (wd_sessions w) (wd_conn w) (wd_serving w) (wd_inbox w).

#[local] Instance world_kernel : Kernel world := {|
  k_now := fun w => (wd_time w, wd_tick w);
  k_poll := fun w _ events _ => (wd_poll w events, w);
  k_send := fun w _ data => wd_send w data;
  k_recv := fun w _ n => wd_recv w n;
  k_peek := fun w _ => (match wd_inbox w with [] => if wd_serving w then inl EAGAIN else inr [] | l => inr (take 1 l) end, w);
  k_socket := fun w => (inr 3, w);
  k_connect := fun w _ _ => (None, w);
  k_so_error := fun w _ => (inr None, w);
  k_close := fun w _ => mkWorld (wd_time w) (wd_sessions w) (wd_conn w) false [] |}.

(** ** One message each way *)

Lemma timeout_ticks w deadline : snd (timeoutMilliseconds w deadline) = wd_tick w.
Proof. unfold timeoutMilliseconds. cbn. destruct (_ <=? _); [done|]. by destruct (_ <=? _). Qed.

Definition wait_events (dir : WaitDirection) : Z := match dir with WD_Read => POLLIN | WD_Write => POLLOUT end.

Lemma wait_ready fuel w fd dir deadline : wd_time w < deadline -> wd_poll w (wait_events dir) = PollReady (wait_events dir) ->
  waitFor (S fuel) w fd dir deadline = Some (st_success, wd_tick (wd_tick w)).
Proof.
  intros Hd Hp. cbn [waitFor]. cbn [k_now world_kernel]. rewrite (proj2 (Z.leb_gt _ _)) by done.
  pose proof (timeout_ticks (wd_tick w) deadline) as Ht. destruct (timeoutMilliseconds (wd_tick w) deadline) as [t w2].
  cbn [snd] in Ht. subst w2. cbn [k_poll world_kernel]. change (wd_poll (wd_tick (wd_tick w)) ?e) with (wd_poll w e).
  fold (wait_events dir). rewrite Hp. by destruct dir.
Qed.

(** The pieces in which data reaches the connection. *)
Fixpoint pieces (k : nat) (data : list Z) : list (list Z * (nat -> frame_env)) :=
  match k, data with
  | S k', _ :: _ => (take recv_bytes data, wd_env) :: pieces k' (drop recv_bytes data)
  | _, _ => []
  end.

Lemma pieces_concat k data : (length data <= k)%nat -> concat (map fst (pieces k data)) = data.
Proof.
  revert data. induction k as [|k IH]; intros data Hk; [by destruct data; [|cbn in Hk; lia]|].
  destruct data as [|b data]; [done|]. cbn [pieces map concat fst]. pose proof recv_bytes_eq.
  rewrite IH by (rewrite length_drop; cbn in *; lia).
  apply take_drop.
Qed.

Lemma pieces_ok k data max : 4096 <= max ->
  Forall (fun x => x.1 <> [] /\ zlen x.1 <= max /\ forall i, x.2 i = mkFrameEnv core_now true) (pieces k data).
Proof.
  intros Hm. revert data. induction k as [|k IH]; intros data; [constructor|]. destruct data as [|b data]; [constructor|].
  cbn [pieces]. constructor; [|apply IH]. cbn [fst snd]. pose proof recv_bytes_eq. split_and!; [| |done].
  - intros E. apply (f_equal length) in E. rewrite length_take in E. cbn in E. lia.
  - unfold zlen. rewrite length_take. lia.
Qed.

Lemma loopback_write k data : forall fuel w fd deadline out c m,
  (length data <= k)%nat -> (k < fuel)%nat -> wd_time w + 2 * Z.of_nat k < deadline -> wd_serving w = true ->
  conn_run core limits (wd_sessions w) (wd_conn w) (pieces k data) = (true, out, c, m) ->
  exists t, write_loop fuel w fd data deadline = Some (st_success, mkWorld t m c true (wd_inbox w ++ concat out)) /\
    wd_time w <= t <= wd_time w + 2 * Z.of_nat k.
Proof.
  revert data. induction k as [|k IH]; intros data fuel w fd deadline out c m Hk Hf Hd Hs Hr.
  - destruct data; [|cbn in Hk; lia]. cbn in Hr. injection Hr as <- <- <-. exists (wd_time w). split; [|lia].
    destruct w; cbn in *; subst. rewrite app_nil_r. by destruct fuel.
  - destruct data as [|b data].
    { cbn in Hr. injection Hr as <- <- <-. exists (wd_time w). split; [|lia]. destruct w; cbn in *; subst. rewrite app_nil_r. by destruct fuel. }
    destruct fuel as [|fuel]; [lia|]. cbn [write_loop]. rewrite wait_ready by (done || lia). change (st_ok st_success) with true. cbn [negb].
    cbn [k_send world_kernel]. unfold wd_send. cbn [wd_tick wd_serving wd_sessions wd_conn wd_time wd_inbox]. rewrite Hs. cbn [negb].
    cbn [pieces conn_run] in Hr. set (chunk := take recv_bytes (b :: data)) in *.
    destruct (conn_receive core limits (wd_sessions w) (wd_conn w) chunk wd_env) as [[[go_on out1] c1] m1].
    destruct go_on; cbn [negb] in Hr; [|done].
    destruct (conn_run core limits m1 c1 (pieces k (drop recv_bytes (b :: data)))) as [[[go_on2 out2] c2] m2] eqn:E2.
    injection Hr as -> <- <- <-. pose proof recv_bytes_eq.
    assert (zlen chunk =? 0 = false) as -> by (apply Z.eqb_neq; unfold zlen, chunk; rewrite length_take; cbn; lia).
    assert (drop (Z.to_nat (zlen chunk)) (b :: data) = drop recv_bytes (b :: data)) as ->.
    { unfold zlen, chunk. rewrite Nat2Z.id, length_take. destruct (Nat.le_gt_cases recv_bytes (length (b :: data))) as [Hle|Hgt].
      - by rewrite Nat.min_l.
      - rewrite Nat.min_r by lia. rewrite !drop_ge by lia. done. }
    destruct (IH (drop recv_bytes (b :: data)) fuel (mkWorld (wd_time w + 1 + 1) m1 c1 true (wd_inbox w ++ concat out1)) fd deadline out2 c2 m2)
      as (t & T1 & T2); [rewrite length_drop; cbn in *; lia|lia|cbn; lia|done|done|].
    exists t. cbn [wd_inbox wd_time] in T1, T2. rewrite T1. split; [by rewrite concat_app, app_assoc|lia].
Qed.

Lemma loopback_read max f fd deadline : 4096 <= max <= i64_max -> sendable max f ->
  forall k fuel w b, b ++ wd_inbox w = frame_bytes f -> zlen b < zlen (frame_bytes f) -> (length (wd_inbox w) <= k)%nat ->
  (k < fuel)%nat -> wd_time w + 2 * Z.of_nat k < deadline ->
  exists t, read_loop fuel w fd (mkDecoder max b false) deadline =
    Some (st_success, Some f, mkWorld t (wd_sessions w) (wd_conn w) (wd_serving w) []) /\
    wd_time w <= t <= wd_time w + 2 * Z.of_nat k.
Proof.
  intros Hmax Hf. induction k as [|k IH]; intros fuel w b Hst Hb Hk Hfuel Hd.
  { exfalso. destruct (wd_inbox w); [|cbn in Hk; lia]. rewrite app_nil_r in Hst. subst b. lia. }
  destruct fuel as [|fuel]; [lia|]. destruct (wd_inbox w) as [|x inbox] eqn:Ei.
  { exfalso. rewrite app_nil_r in Hst. subst b. lia. }
  cbn [read_loop]. rewrite wait_ready; [|lia|unfold wd_poll; by rewrite Ei]. change (st_ok st_success) with true. cbn [negb].
  cbn [k_recv world_kernel]. unfold wd_recv. cbn [wd_tick wd_inbox wd_time wd_sessions wd_conn wd_serving]. rewrite Ei.
  rewrite recv_bytes_def. pose proof recv_bytes_eq as Hrb. set (l := x :: inbox) in *.
  assert (take recv_bytes l <> []) as Hne.
  { intros E. apply (f_equal length) in E. rewrite length_take in E. cbn in E. lia. }
  destruct (take recv_bytes l) as [|y bs] eqn:Et; [done|]. rewrite <- Et in *.
  assert (b ++ take recv_bytes l ++ drop recv_bytes l = frame_bytes f) as Hst' by (by rewrite take_drop).
  rewrite (append_one_frame max f b (take recv_bytes l) (drop recv_bytes l));
    [|lia|done|done|done|unfold zlen; rewrite length_take; lia|done].
  destruct (bool_decide (drop recv_bytes l = [])) eqn:Eq; bprop in Eq; change (st_ok st_success) with true; cbn [negb from_option id].
  - rewrite Eq. exists (wd_time w + 1 + 1). split; [done|lia].
  - destruct (IH fuel (mkWorld (wd_time w + 1 + 1) (wd_sessions w) (wd_conn w) (wd_serving w) (drop recv_bytes l)) (b ++ take recv_bytes l))
      as (t & T1 & T2); cbn [wd_inbox wd_time].
    + by rewrite <- app_assoc.
    + rewrite <- Hst', app_assoc, (zlen_app (b ++ _)). unfold zlen at 3. destruct (drop recv_bytes l); [done|]. cbn [length]. lia.
    + rewrite length_drop. cbn in *. lia.
    + lia.
    + lia.
    + exists t. cbn [wd_time wd_sessions wd_conn wd_serving] in T1, T2. rewrite T1. split; [done|lia].
Qed.

(** ** A connected pair *)

(** The client's connection is the one that the world serves. *)
Record linked (b : StandaloneBackend) (w : world) : Prop := {
  lk_client : sb_connected b = true;
  lk_version : bv_protocol_major (sb_version_ b) = kProtocolMajor /\ bv_protocol_minor (sb_version_ b) = kProtocolMinor;
  lk_max : sb_max_frame_bytes_ b = lim_max_frame_bytes limits;
  lk_next : 1 <= sb_next_request_id_ b <= u64_max;
  lk_conn : cn_handshake_complete (wd_conn w) = true /\ cn_close_connection (wd_conn w) = false;
  lk_decoder : cn_decoder (wd_conn w) = decoder_init (lim_max_frame_bytes limits);
  lk_serving : wd_serving w = true;
  lk_inbox : wd_inbox w = [] }.

(** The limits under which both ends work; the deadline leaves time for the
    pieces of two frames of maximal size. *)
Record comfortable (b : StandaloneBackend) (fuel : nat) : Prop := {
  cf_max : 4096 <= lim_max_frame_bytes limits <= INT_MAX;
  cf_fuel : lim_max_frame_bytes limits < Z.of_nat fuel;
  cf_deadline : 4 * lim_max_frame_bytes limits + 4 < sb_deadline_ b * 1000000 }.

Lemma sendable_length max f : sendable max f -> zlen (frame_bytes f) <= max.
Proof. intros (_ & _ & Hm). by rewrite frame_bytes_length. Qed.

(** A request that the router answers comes back with its answer. *)
Lemma loopback_exchange fuel w b type payload q :
  linked b w -> comfortable b fuel ->
  let request := request_frame b type payload in
  sendable (lim_max_frame_bytes limits) request -> carries request q ->
  let response := responseFrame request (response_type q) (answer core core_now q) in
  sendable (lim_max_frame_bytes limits) response ->
  exists w', exchangeLocked fuel w b type payload (response_type q) =
    Some (st_success, response, sb_with_next b (wrap64 (sb_next_request_id_ b + 1)), w') /\
    wd_sessions w' = wd_sessions w /\ wd_conn w' = wd_conn w /\ wd_serving w' = true /\ wd_inbox w' = [].
Proof.
  intros [L1 [L2 L3] L4 L5 [L6 L7] L8 L9 L10] [C1 C2 C3]. cbv zeta. intros Hreq Hq Hresp. unfold INT_MAX in C1.
  set (request := request_frame b type payload) in *. set (response := responseFrame request (response_type q) (answer core core_now q)) in *.
  assert (20 <= lim_max_frame_bytes limits <= i64_max /\ 4096 <= lim_max_frame_bytes limits) as [Hm1 Hm2] by (unfold i64_max; lia).
  set (max := lim_max_frame_bytes limits) in *.
  assert (envelope request) as He.
  { destruct Hreq as (_ & _ & Hz2). unfold request in *. split; cbn in *; try done; [lia|lia|unfold INT_MAX; lia]. }
  pose proof (route_answers core request core_now q He Hq) as Hroute.
  unfold exchangeLocked. rewrite L1, (proj2 (Z.eqb_neq _ 0)) by lia. cbn [negb]. fold request. rewrite L4. fold max.
  pose proof Hreq as (Q1 & Q2 & Q3). rewrite encodeFrame_bytes by (done || lia). change (st_ok st_success) with true. cbn [negb].
  unfold deadlineAfter. cbn [k_now world_kernel]. unfold writeAll, readOneFrame.
  assert (sb_socket_ b <? 0 = false) as ->
    by (unfold sb_connected, fd_valid in L1; apply andb_true_iff in L1 as [_ ?]; bprop; bprop in *; lia).
  cbn [negb orb]. set (deadline := ms_after (wd_time w) (sb_deadline_ b)). unfold ms_after in deadline.
  pose proof (sendable_length _ _ Hreq) as Hl1. pose proof (sendable_length _ _ Hresp) as Hl2. unfold zlen in Hl1, Hl2.
  destruct (loopback_write (length (frame_bytes request)) (frame_bytes request) fuel (wd_tick w) (sb_socket_ b) deadline
    [frame_bytes response] (wd_conn w) (wd_sessions w)) as (t & T1 & T2); cbn [wd_tick wd_time wd_serving wd_sessions wd_conn].
  { done. } { lia. } { unfold deadline. lia. } { done. }
  { assert (wd_conn w = conn_with_decoder (wd_conn w) (mkDecoder max [] false)) as Ec by (change (mkDecoder max [] false) with (decoder_init max); rewrite <- L8; by destruct (wd_conn w)).
    rewrite Ec at 1. rewrite (serves_run core limits core_now _ Hm1 (pieces_ok _ _ _ Hm2) (wd_sessions w) (wd_conn w) [request] [response]
      (wd_sessions w) (wd_conn w) []); [by rewrite Ec at 2| |done|by constructor| |].
    - replace [response] with (map (fun f => rr_response (route core f core_now)) [request]) by (cbn [map]; by rewrite Hroute).
      apply serves_requests; [done|done|]. constructor; [|constructor]. rewrite Hroute. split; [done|].
      destruct Hresp as (_ & ? & ?). split_and!; fold max; done || lia.
    - cbn [incomplete]. rewrite frame_bytes_length, zlen_nil. pose proof (zlen_nonneg (Frame.payload request)). lia.
    - rewrite pieces_concat by done. cbn [map concat app]. by rewrite app_nil_r. }
  rewrite T1. change (st_ok st_success) with true. cbn [negb]. cbn [wd_tick wd_inbox]. rewrite L10. cbn [app concat].
  destruct (loopback_read max response (sb_socket_ b) deadline ltac:(unfold i64_max; lia) Hresp (length (frame_bytes response)) fuel
    (mkWorld t (wd_sessions w) (wd_conn w) true (frame_bytes response ++ [])) []) as (t2 & T3 & T4); cbn [wd_inbox wd_time] in *.
  { by rewrite app_nil_r. } { rewrite zlen_nil, frame_bytes_length. pose proof (zlen_nonneg (Frame.payload response)). lia. }
  { by rewrite app_nil_r. } { lia. } { cbn [wd_tick wd_time] in T2. unfold deadline. lia. }
  cbn [wd_sessions wd_conn wd_serving] in T3. unfold decoder_init. rewrite T3. change (st_ok st_success) with true.
  cbn [negb from_option id]. exists (mkWorld t2 (wd_sessions w) (wd_conn w) true []). split; [|done].
  assert (accept_response b request response (response_type q) = st_success) as ->; [|done].
  unfold accept_response. cbn [response responseFrame request_id protocol_major protocol_minor message_type].
  rewrite L2, L3. change (protocol_minor request) with (bv_protocol_minor (sb_version_ b)). rewrite L3, !Z.eqb_refl.
  cbn [negb orb]. by destruct q.
Qed.

Lemma small_sendable major minor type id payload :
  0 <= major <= u16_max -> 0 <= minor <= u16_max -> 0 <= type <= u16_max -> 0 <= id <= u64_max ->
  lim_max_frame_bytes limits <= INT_MAX -> 20 + zlen payload <= lim_max_frame_bytes limits ->
  sendable (lim_max_frame_bytes limits) (mkFrame major minor type 0 id payload).
Proof. intros. unfold INT_MAX in *. split_and!; [split; cbn; (done || unfold u16_max; lia)|cbn; unfold u32_max; lia|done]. Qed.

(** The whole exchange of a query. *)
Lemma loopback_query fuel w b type payload q :
  linked b w -> comfortable b fuel -> sb_next_request_id_ b < u64_max ->
  0 <= type <= u16_max -> 20 + zlen payload <= lim_max_frame_bytes limits ->
  20 + zlen (answer core core_now q) <= lim_max_frame_bytes limits ->
  carries (request_frame b type payload) q ->
  let b' := sb_with_next b (sb_next_request_id_ b + 1) in
  exists response w', exchangeLocked fuel w b type payload (response_type q) = Some (st_success, response, b', w') /\
    Frame.payload response = answer core core_now q /\ linked b' w'.
Proof.
  intros Hl Hc Hn Ht Hp Ha Hq. pose proof Hl as [L1 [L2 L3] L4 L5 L6 L8 L9 L10]. pose proof Hc as [C1 C2 C3].
  assert (sendable (lim_max_frame_bytes limits) (request_frame b type payload)) as S1.
  { unfold request_frame. rewrite L2, L3. apply small_sendable; [by vm_compute|by vm_compute|done|lia|lia|done]. }
  assert (sendable (lim_max_frame_bytes limits) (responseFrame (request_frame b type payload) (response_type q) (answer core core_now q))) as S2.
  { unfold responseFrame. cbn [protocol_minor request_frame request_id]. rewrite L3. apply small_sendable; [by vm_compute|by vm_compute| |lia|lia|done].
    destruct q; by vm_compute. }
  destruct (loopback_exchange fuel w b type payload q Hl Hc S1 Hq S2) as (w' & E1 & E2 & E3 & E4 & E5).
  cbv zeta. rewrite wrap64_small in E1 by lia. eexists _, w'. split; [exact E1|]. split; [done|].
  split; cbn; try done; rewrite ?E3; try done. lia.
Qed.

Lemma carries_list b kind : carries (request_frame b kEntityListRequest (SerializeAsString (mkEntityListRequest (toProtocolEntityKind kind))))
  (QEntities kind).
Proof.
  rewrite <- (proj1 (entity_kind_roundtrip kind)) at 2.
  apply (carries_entities _ (mkEntityListRequest (toProtocolEntityKind kind))); [done| |by destruct kind].
  apply (proj2 (pl_list (mkEntityListRequest (toProtocolEntityKind kind)) ltac:(by destruct kind))).
Qed.

Lemma device_ref_fill e : ref_presentable e -> device_ref (fillEntityRef e) e.
Proof. intros (K1 & K2 & K3). destruct e as [k id g]. cbn in *. subst k. split_and!; [done|cbn; lia|done]. Qed.

Lemma carries_capability b e : ref_presentable e ->
  carries (request_frame b kCapabilityQueryRequest (SerializeAsString (mkCapabilityRequest (Some (fillEntityRef e))))) (QCapabilities e).
Proof.
  intros He. apply (carries_capabilities _ (fillEntityRef e)); [done| |by apply device_ref_fill].
  apply (proj2 (pl_capability (mkCapabilityRequest (Some (fillEntityRef e))) (proj2 (proj2 (ref_roundtrip e He))))).
Qed.

(** A health request that the protocol carries. *)
Definition request_presentable (r : HealthRequest) : Prop :=
  ref_presentable (hq_entity r) /\ 1 <= hq_subsystem_id r <= u32_max /\ u64 (hq_catalog_generation r) /\ u64 (hq_max_age_ns r).
Definition health_request_message (r : HealthRequest) : HealthQueryRequest :=
  mkHealthQueryRequest (Some (fillEntityRef (hq_entity r))) (hq_subsystem_id r) (hq_catalog_generation r) (hq_max_age_ns r).

Lemma carries_health_request b r : request_presentable r ->
  carries (request_frame b kHealthQueryRequest (SerializeAsString (health_request_message r))) (QHealth r).
Proof.
  intros (He & Hs & Hg & Ha). destruct r as [e s g a]. cbn in *.
  apply (carries_health _ (fillEntityRef e)); [done| |by apply device_ref_fill|lia].
  apply (proj2 (pl_health (health_request_message (mkHealthRequest e s g a)) ltac:(split_and!; cbn; [apply (ref_roundtrip e He)|unfold u32; lia|done|done]))).
Qed.

(** ** Connecting *)

Definition snapshot_presentable (s : CoreSnapshot) : Prop :=
  u64 (core_catalog_generation s) /\ u32 (core_detected_device_count s).

(** What a client learns of the core: everything but the degraded reason. *)
Definition snapshot_view (s : CoreSnapshot) : CoreSnapshot :=
  mkCoreSnapshot (core_state s) (core_provider_state s) DR_None (core_detail_status s) (core_detected_device_count s)
    (core_catalog_generation s).

Lemma narrow_ok v : 0 <= v -> u32 (narrowLimit v).
Proof. unfold u32, narrowLimit. unfold u32_max. lia. Qed.

Lemma limits_ok_narrow : limits_wf limits -> 0 <= lim_max_frame_bytes limits ->
  limits_ok (mkPbLimits (narrowLimit (max_outstanding_requests_per_session limits)) (narrowLimit (max_watches_per_session limits))
    (narrowLimit (max_subscriptions_per_session limits)) (narrowLimit (lim_max_frame_bytes limits))).
Proof. intros (_ & ? & ? & ?) ?. split_and!; cbn; by apply narrow_ok. Qed.

Definition negotiated_response (pid : Z) (nonce : string) (id : Z) : HelloResponse :=
  hello_response (hello_frame pid nonce) (client_hello pid nonce) (sv_snapshot_ core) limits id.
Definition negotiated_frame (pid : Z) (nonce : string) (id : Z) : Frame :=
  mkFrame kProtocolMajor kProtocolMinor kHelloResponse 0 1 (SerializeAsString (negotiated_response pid nonce id)).

Lemma negotiated_ok pid nonce id : limits_wf limits -> 0 <= lim_max_frame_bytes limits -> 1 <= id <= u64_max ->
  snapshot_presentable (sv_snapshot_ core) -> hello_response_ok (negotiated_response pid nonce id).
Proof.
  intros Hl Hm Hid [S1 S2]. unfold hello_response_ok, negotiated_response, hello_response.
  cbn [whr_protocol_major whr_protocol_minor whr_session_id whr_daemon_version whr_core_state whr_provider_state
    whr_provider_failure_phase whr_catalog_generation whr_detected_device_count whr_detail_status whr_limits from_option].
  split_and!; [by vm_compute|by vm_compute|unfold u64; lia|by apply pl_ascii|by destruct (core_state _)|by destruct (core_provider_state _)
    |by destruct (core_degraded_reason _)|done|done|apply status_value_i32|by apply limits_ok_narrow].
Qed.

(** The client accepts what the handshake answers. *)
Lemma accept_negotiated pid nonce id : limits_wf limits -> 0 <= lim_max_frame_bytes limits -> 1 <= id <= u64_max ->
  snapshot_presentable (sv_snapshot_ core) -> zlen (SerializeAsString (negotiated_response pid nonce id)) <= INT_MAX ->
  accept_hello (negotiated_frame pid nonce id) = inr (negotiated_version (negotiated_response pid nonce id)).
Proof.
  intros Hl Hm Hid Hs Hz. unfold accept_hello. cbn [negotiated_frame request_id message_type Frame.payload negb].
  change (negb (1 =? 1)) with false. change (kHelloResponse =? kErrorResponse) with false. rewrite Z.eqb_refl, (proj2 (Z.ltb_ge _ _)) by done.
  cbn [negb orb]. rewrite (proj2 (pl_hello_response _ (negotiated_ok pid nonce id Hl Hm Hid Hs))).
  assert (negotiation_invalid (negotiated_frame pid nonce id) (negotiated_response pid nonce id) = false) as ->; [|done].
  unfold negotiation_invalid, negotiated_response, hello_response.
  cbn [whr_protocol_major whr_protocol_minor whr_session_id whr_core_state whr_provider_state whr_provider_failure_phase
    negotiated_frame protocol_major protocol_minor hello_frame client_hello whq_protocol_minor].
  rewrite (proj2 (Z.eqb_neq id 0)) by lia.
  destruct (core_state _), (core_provider_state _), (core_degraded_reason _); reflexivity.
Qed.

Lemma negotiated_version_view pid nonce id :
  let v := negotiated_version (negotiated_response pid nonce id) in
  bv_core v = snapshot_view (sv_snapshot_ core) /\ bv_session_id v = id /\ bv_daemon_version v = "0.1.0" /\
  bv_protocol_major v = kProtocolMajor /\ bv_protocol_minor v = kProtocolMinor /\
  (bv_provider_loaded v = true <-> core_provider_state (sv_snapshot_ core) = PS_Ready).
Proof.
  cbv zeta. unfold negotiated_version, negotiated_response, hello_response.
  cbn [whr_protocol_major whr_protocol_minor whr_session_id whr_daemon_version whr_core_state whr_provider_state
    whr_provider_failure_phase whr_catalog_generation whr_detected_device_count whr_detail_status bv_core bv_session_id
    bv_daemon_version bv_protocol_major bv_protocol_minor bv_provider_loaded].
  rewrite protocolStatus_value, (proj1 (core_state_roundtrip _)), (proj1 (provider_state_roundtrip _)).
  split_and!; try done. by destruct (core_provider_state _).
Qed.

Lemma hello_frame_acceptable pid nonce peer :
  u64 pid -> process_id peer = 0 \/ pid = process_id peer -> 16 <= str_size nonce <= 64 ->
  zlen (SerializeAsString (client_hello pid nonce)) <= INT_MAX ->
  hello_acceptable (hello_frame pid nonce) peer (client_hello pid nonce).
Proof.
  intros Hp Hpeer Hn Hz. split; cbn; try done.
  - apply (proj2 (pl_hello (client_hello pid nonce) ltac:(split_and!; cbn; [by vm_compute|by vm_compute|by apply pl_ascii|done|constructor]))).
Qed.

(** The handshake's answer to the client's hello. *)
Lemma handle_client_hello m pid nonce peer : sm_wf m -> has_capacity m ->
  hello_acceptable (hello_frame pid nonce) peer (client_hello pid nonce) ->
  handle m (hello_frame pid nonce) (sv_snapshot_ core) limits peer =
  (mkHandshake st_success (negotiated_frame pid nonce (next_session_id_ m)) (Some (next_session_id_ m)) false, admitted m peer).
Proof.
  intros Hwf Hc Ha. destruct (handle_cases m (hello_frame pid nonce) (sv_snapshot_ core) limits peer Hwf) as
    [(h & Hh & _ & ->)|(Hno & _)]; [|destruct Hno; split; [by eexists|done]].
  assert (h = client_hello pid nonce) as -> by (destruct Ha, Hh; congruence). done.
Qed.

(** The first exchange of a connection, at the level of the frames. *)
Lemma loopback_hello fuel t m fd peer pid nonce sock deadline :
  4096 <= lim_max_frame_bytes limits <= INT_MAX -> lim_max_frame_bytes limits < Z.of_nat fuel ->
  t + 4 * lim_max_frame_bytes limits < deadline -> 0 <= sock ->
  sm_wf m -> has_capacity m -> hello_acceptable (hello_frame pid nonce) peer (client_hello pid nonce) ->
  let f := hello_frame pid nonce in
  let r := negotiated_frame pid nonce (next_session_id_ m) in
  sendable (lim_max_frame_bytes limits) f -> sendable (lim_max_frame_bytes limits) r ->
  exists w3 w4, writeAll fuel (mkWorld t m (conn_open fd peer limits) true []) sock (Some (frame_bytes f)) deadline = Some (st_success, w3) /\
    readOneFrame fuel w3 sock true (lim_max_frame_bytes limits) deadline = Some (st_success, Some r, w4) /\
    wd_sessions w4 = admitted m peer /\ wd_serving w4 = true /\ wd_inbox w4 = [] /\
    wd_conn w4 = mkConnection fd peer (decoder_init (lim_max_frame_bytes limits)) true false (Some (next_session_id_ m)).
Proof.
  intros Hmax Hfuel Hd Hsock Hwf Hcap Ha f r Hf Hr. unfold INT_MAX in Hmax. set (max := lim_max_frame_bytes limits) in *.
  assert (20 <= lim_max_frame_bytes limits <= i64_max /\ 4096 <= lim_max_frame_bytes limits) as [Hm1 Hm2] by (unfold i64_max; fold max; lia).
  pose proof (sendable_length _ _ Hf) as Hl1. pose proof (sendable_length _ _ Hr) as Hl2. unfold zlen in Hl1, Hl2.
  set (c1 := mkConnection fd peer (decoder_init max) true false (Some (next_session_id_ m))).
  unfold writeAll, readOneFrame. rewrite (proj2 (Z.ltb_ge sock 0)) by done. cbn [negb orb].
  destruct (loopback_write (length (frame_bytes f)) (frame_bytes f) fuel (mkWorld t m (conn_open fd peer limits) true []) sock deadline
    [frame_bytes r] c1 (admitted m peer)) as (t2 & T1 & T2); cbn [wd_time wd_serving wd_sessions wd_conn] in *.
  { done. } { lia. } { lia. } { done. }
  { change (conn_open fd peer limits) with (conn_with_decoder (conn_open fd peer limits) (mkDecoder max [] false)).
    apply (serves_run core limits core_now _ Hm1 (pieces_ok _ _ _ Hm2) m (conn_open fd peer limits) [f] [r] (admitted m peer) c1 []).
    - eapply (serves_cons core limits core_now _ _ f [] r c1 (admitted m peer) []); [| |done|constructor].
      + unfold serve_frame. cbn [cn_handshake_complete conn_open cn_peer]. unfold f. by rewrite handle_client_hello.
      + destruct Hr as (_ & ? & ?). split_and!; fold max; done || lia.
    - done.
    - by constructor.
    - cbn [incomplete]. rewrite frame_bytes_length, zlen_nil. pose proof (zlen_nonneg (Frame.payload f)). lia.
    - rewrite pieces_concat by done. cbn [map concat app]. by rewrite app_nil_r. }
  cbn [wd_inbox app concat] in T1. rewrite app_nil_r in T1.
  destruct (loopback_read max r sock deadline ltac:(unfold i64_max; lia) Hr (length (frame_bytes r)) fuel
    (mkWorld t2 (admitted m peer) c1 true (frame_bytes r)) []) as (t3 & T3 & T4); cbn [wd_inbox wd_time] in *.
  { done. } { rewrite zlen_nil, frame_bytes_length. pose proof (zlen_nonneg (Frame.payload r)). lia. } { done. } { lia. } { lia. }
  cbn [wd_sessions wd_conn wd_serving] in T3. eexists _, (mkWorld t3 (admitted m peer) c1 true []).
  split; [exact T1|]. split; [exact T3|]. done.
Qed.

(** ** Theorems *)

Lemma loopback_connects fuel t m fd peer endpoint ms pid nonce :
  let b0 := sb_construct endpoint ms (lim_max_frame_bytes limits) in
  let w0 := mkWorld t m (conn_open fd peer limits) true [] in
  let id := next_session_id_ m in
  comfortable b0 fuel -> limits_wf limits -> sm_wf m -> has_capacity m -> snapshot_presentable (sv_snapshot_ core) ->
  endpoint_invalid endpoint = false -> u64 pid -> process_id peer = 0 \/ pid = process_id peer -> 16 <= str_size nonce <= 64 ->
  20 + zlen (SerializeAsString (client_hello pid nonce)) <= lim_max_frame_bytes limits ->
  20 + zlen (SerializeAsString (negotiated_response pid nonce id)) <= lim_max_frame_bytes limits ->
  exists b w, sb_start fuel w0 b0 pid nonce = Some (st_success, b, w) /\ linked b w /\ comfortable b fuel /\
    wd_sessions w = admitted m peer /\ bv_session_id (sb_version_ b) = id /\
    bv_core (sb_version_ b) = snapshot_view (sv_snapshot_ core) /\ sb_next_request_id_ b = 2.
Proof.
  cbv zeta. intros [C1 C2 C3] Hl Hwf Hcap Hs He Hp Hpeer Hn Hz1 Hz2. cbn in C3. set (sid := next_session_id_ m) in *.
  assert (1 <= sid <= u64_max) as Hid by (destruct (mw_next m Hwf), Hcap as (_ & _ & ?); unfold sid; lia).
  assert (hello_acceptable (hello_frame pid nonce) peer (client_hello pid nonce)) as Hacc by (apply hello_frame_acceptable; try done; lia).
  assert (str_size endpoint < 108) as Hep.
  { unfold endpoint_invalid in He. destruct endpoint; [done|]. apply orb_false_iff in He as [_ He]. bprop in He. unfold sun_path_size in He. lia. }
  unfold sb_start. cbn [sb_construct sb_closed_ sb_started_ sb_deadline_ sb_endpoint_ sb_socket_ sb_max_frame_bytes_].
  unfold deadlineAfter. cbn [k_now world_kernel wd_time]. unfold connectUnixSocket, validateEndpoint. rewrite He.
  change (fd_valid fd_none) with false. change (negb (st_ok st_success)) with false. cbv iota.
  cbn [k_socket k_connect world_kernel]. rewrite (proj2 (Z.ltb_ge u32_max _)) by (unfold sun_path_offset, u32_max; lia).
  change (negb (st_ok st_success)) with false. cbv iota. cbn [from_option id].
  unfold hello_frame at 1. fold (hello_frame pid nonce). rewrite encodeFrame_bytes by (cbn [hello_frame Frame.payload]; unfold INT_MAX, u32_max in *; lia).
  change (negb (st_ok st_success)) with false. cbv iota.
  destruct (loopback_hello fuel (t + 1) m fd peer pid nonce 3 (ms_after t ms) C1 C2) as (w3 & w4 & H1 & H2 & H3 & H4 & H5 & H6);
    [unfold ms_after; lia|done|done|done|done|apply small_sendable; [by vm_compute..|lia|done]
    |apply small_sendable; [by vm_compute..|lia|done]|].
  unfold wd_tick. cbn [wd_time wd_sessions wd_conn wd_serving wd_inbox]. rewrite H1. change (negb (st_ok st_success)) with false. cbv iota.
  rewrite H2. change (negb (st_ok st_success)) with false. cbv iota. cbn [from_option id]. fold sid.
  rewrite accept_negotiated by (done || lia). destruct (negotiated_version_view pid nonce sid) as (V1 & V2 & V3 & V4 & V5 & V6).
  eexists _, w4. split; [reflexivity|]. split; [|done]. by split; cbn; rewrite ?H6.
Qed.

(** A client connects to the daemon.  A standalone backend that is started
    against a connection of the daemon's server, with room for a session and a
    peer identity that does not contradict the client's process, succeeds: the
    daemon has admitted one session, the client holds its identifier and the
    core's state, provider state, detail status, device count and catalog
    generation, and the two ends are linked for further queries. *)
Theorem standalone_connects fuel t m fd peer endpoint ms pid nonce :
  let b0 := sb_construct endpoint ms (lim_max_frame_bytes limits) in
  let w0 := mkWorld t m (conn_open fd peer limits) true [] in
  let id := next_session_id_ m in
  comfortable b0 fuel -> limits_wf limits -> sm_wf m -> has_capacity m -> snapshot_presentable (sv_snapshot_ core) ->
  endpoint_invalid endpoint = false -> u64 pid -> process_id peer = 0 \/ pid = process_id peer -> 16 <= str_size nonce <= 64 ->
  20 + zlen (SerializeAsString (client_hello pid nonce)) <= lim_max_frame_bytes limits ->
  20 + zlen (SerializeAsString (negotiated_response pid nonce id)) <= lim_max_frame_bytes limits ->
  exists b w, sb_start fuel w0 b0 pid nonce = Some (st_success, b, w) /\ linked b w /\ comfortable b fuel /\
    wd_sessions w = admitted m peer /\ bv_session_id (sb_version_ b) = id /\
    bv_core (sb_version_ b) = snapshot_view (sv_snapshot_ core) /\ sb_next_request_id_ b = 2.
Proof. apply loopback_connects. Qed.

Lemma loopback_entities fuel w b kind :
  linked b w -> comfortable b fuel -> sb_next_request_id_ b < u64_max -> list_presentable (core_entities core kind) ->
  20 + zlen (SerializeAsString (mkEntityListRequest (toProtocolEntityKind kind))) <= lim_max_frame_bytes limits ->
  20 + zlen (answer core core_now (QEntities kind)) <= lim_max_frame_bytes limits ->
  let r := core_entities core kind in
  let b' := sb_with_next b (sb_next_request_id_ b + 1) in
  exists w', sb_entities fuel w b kind =
    Some (mkEntityList (mkStatus (st_code (elr_status r)) "entity list result") (elr_detected_device_count r)
            (elr_catalog_generation r) (map entity_view (elr_entities r)), b', w') /\ linked b' w'.
Proof.
  intros Hl Hc Hn Hp Hz1 Hz2. cbv zeta.
  destruct (loopback_query fuel w b kEntityListRequest _ (QEntities kind) Hl Hc Hn ltac:(by vm_compute) Hz1 Hz2 (carries_list b kind))
    as (response & w' & E1 & E2 & E3). cbn [response_type] in E1. exists w'. split; [|done]. unfold sb_entities. rewrite E1.
  change (negb (st_ok st_success)) with false. cbv iota. rewrite E2. cbn [answer]. by rewrite entities_roundtrip.
Qed.

(** C4: A remote client sees what the core says, in the ideal environment of
    [world_kernel].  Over a linked connection every query of a standalone backend returns, and returns the core's own answer: for
    the entities the core's status code, count, generation and records, but for
    the provider's version and the target, which are not transmitted; for the
    capabilities the very same set; and for health the status code and the item,
    with its first evidence.  The connection stays linked, so that this holds for
    any sequence of queries.  The answers have to be within what the client
    accepts ([list_presentable] and the like) and fit a frame. *)
Theorem standalone_agrees_with_core fuel w b :
  linked b w -> comfortable b fuel -> sb_next_request_id_ b < u64_max ->
  (forall kind, list_presentable (core_entities core kind) ->
     20 + zlen (SerializeAsString (mkEntityListRequest (toProtocolEntityKind kind))) <= lim_max_frame_bytes limits ->
     20 + zlen (answer core core_now (QEntities kind)) <= lim_max_frame_bytes limits ->
     let r := core_entities core kind in
     exists b' w', sb_entities fuel w b kind =
       Some (mkEntityList (mkStatus (st_code (elr_status r)) "entity list result") (elr_detected_device_count r)
               (elr_catalog_generation r) (map entity_view (elr_entities r)), b', w') /\ linked b' w') /\
  (forall entity, ref_presentable entity -> capabilities_presentable (core_capabilities core entity) ->
     20 + zlen (SerializeAsString (mkCapabilityRequest (Some (fillEntityRef entity)))) <= lim_max_frame_bytes limits ->
     20 + zlen (answer core core_now (QCapabilities entity)) <= lim_max_frame_bytes limits ->
     exists status b' w', sb_capabilities fuel w b entity = Some (status, snd (core_capabilities core entity), b', w') /\
       st_code status = st_code (fst (core_capabilities core entity)) /\ linked b' w') /\
  (forall request, request_presentable request -> health_query_presentable (core_health core request core_now) ->
     20 + zlen (SerializeAsString (health_request_message request)) <= lim_max_frame_bytes limits ->
     20 + zlen (answer core core_now (QHealth request)) <= lim_max_frame_bytes limits ->
     let q := core_health core request core_now in
     exists b' w', sb_health fuel w b request =
       Some (mkHealthQuery (mkStatus (st_code (hqr_status q)) "health query result") (health_view <$> hqr_item q) None, b', w') /\
       linked b' w').
Proof.
  intros Hl Hc Hn. split_and!.
  - intros kind Hp Hz1 Hz2. cbv zeta. destruct (loopback_entities fuel w b kind Hl Hc Hn Hp Hz1 Hz2) as (w' & E1 & E2). by eexists _, w'.
  - intros entity He Hp Hz1 Hz2.
    destruct (loopback_query fuel w b kCapabilityQueryRequest _ (QCapabilities entity) Hl Hc Hn ltac:(by vm_compute) Hz1 Hz2
      (carries_capability b entity He)) as (response & w' & E1 & E2 & E3). cbn [response_type] in E1.
    eexists _, _, w'. split; [|split; [|exact E3]].
    + unfold sb_capabilities. rewrite E1. change (negb (st_ok st_success)) with false. cbv iota. rewrite E2. cbn [answer].
      by rewrite capabilities_roundtrip.
    + done.
  - intros request He Hp Hz1 Hz2. cbv zeta.
    destruct (loopback_query fuel w b kHealthQueryRequest _ (QHealth request) Hl Hc Hn ltac:(by vm_compute) Hz1 Hz2
      (carries_health_request b request He)) as (response & w' & E1 & E2 & E3). cbn [response_type] in E1.
    eexists _, w'. split; [|done]. unfold sb_health. fold (health_request_message request). rewrite E1.
    change (negb (st_ok st_success)) with false. cbv iota. rewrite E2. cbn [answer]. by rewrite health_roundtrip.
Qed.
End Loopback.

(** ** Witnesses *)

Definition sample_small_limits : ResourceLimits := mkLimits 64 32 64 32 8192.
Definition sample_fuel : nat := Z.to_nat 10000.
Definition sample_nonce : string := "0123456789abcdef".
Definition sample_linked_backend : StandaloneBackend :=
  mkStandalone "/run/pdcm/pdcm.sock" 1000 8192 3 2
    (mkVersion "0.1.0" BM_Standalone TK_Unknown core_snapshot_default PF_None true true true 1 0 1) true false.
Definition sample_linked_world : world :=
  mkWorld 0 (admitted (sm_init sample_small_limits) sample_peer)
    (mkConnection 9 sample_peer (decoder_init 8192) true false (Some 1)) true [].

Lemma sample_comfortable b : sb_deadline_ b = 1000 -> comfortable sample_small_limits b sample_fuel.
Proof. intros Hd. split; [by vm_compute|unfold sample_fuel; rewrite Z2Nat.id; by vm_compute|rewrite Hd; by vm_compute]. Qed.

Lemma standalone_connects_witness :
  let LP := sample_protocol in
  exists b w, sb_start (K := world_kernel sample_ready sample_small_limits 7) sample_fuel
      (mkWorld 0 (sm_init sample_small_limits) (conn_open 9 sample_peer sample_small_limits) true [])
      (sb_construct "/run/pdcm/pdcm.sock" 1000 8192) 4242 sample_nonce = Some (st_success, b, w) /\
    linked sample_small_limits b w /\ bv_session_id (sb_version_ b) = 1.
Proof.
  cbv zeta.
  destruct (@standalone_connects _ sample_protocol sample_protocol_laws sample_ready sample_small_limits 7 sample_fuel 0
    (sm_init sample_small_limits) 9 sample_peer "/run/pdcm/pdcm.sock" 1000 4242 sample_nonce) as (b & w & T1 & T2 & _ & _ & T3 & _).
  - apply sample_comfortable. reflexivity.
  - repeat split; vm_compute; discriminate.
  - apply sm_init_wf. repeat split; vm_compute; discriminate.
  - split; [reflexivity|split; [vm_compute; reflexivity|discriminate]].
  - split; vm_compute; split; discriminate.
  - vm_compute. reflexivity.
  - vm_compute. split; discriminate.
  - right. reflexivity.
  - vm_compute. split; discriminate.
  - vm_compute. discriminate.
  - vm_compute. discriminate.
  - exists b, w. split; [exact T1|]. split; [exact T2|exact T3].
Defined.

Lemma standalone_agrees_with_core_witness :
  let LP := sample_protocol in
  exists r b' w', sb_entities (K := world_kernel sample_ready sample_small_limits 7) sample_fuel sample_linked_world sample_linked_backend
      EK_Device = Some (r, b', w') /\ map ent_ref (elr_entities r) = [mkEntityRef EK_Device 0 1] /\ linked sample_small_limits b' w'.
Proof.
  cbv zeta.
  destruct (@standalone_agrees_with_core _ sample_protocol sample_protocol_laws sample_ready sample_small_limits 7 sample_fuel
    sample_linked_world sample_linked_backend) as (Ht & _).
  - split; vm_compute; repeat split; discriminate.
  - apply sample_comfortable. reflexivity.
  - vm_compute. reflexivity.
  - destruct (Ht EK_Device) as (b' & w' & T1 & T2).
    + split; [vm_compute; split; discriminate|vm_compute; split; discriminate| |vm_compute; discriminate|vm_compute; discriminate].
      change (elr_entities (core_entities sample_ready EK_Device)) with (cv_entities_ (snapshot_ (sv_semantic_catalog_ sample_ready))).
      constructor; [|constructor]. split; vm_compute; repeat split; discriminate.
    + vm_compute. discriminate.
    + vm_compute. discriminate.
    + eexists _, b', w'. split; [exact T1|]. split; [vm_compute; reflexivity|exact T2].
Defined.
