(* ===== verification/Embedded.v ===== *)
(** The embedded backend (src/product/src/client/embedded_backend.hpp and
    .cpp): a service core inside the client's process, with one session of its
    own.  The methods hold the mutex throughout; the times of the clock's
    readings are arguments. *)
From S2P Require Import Prelude Containers Common Provider Session Catalog Frame EventStore DataStore HealthStore ProcessorGraph Metrics Service Protocol Handshake Socket ClientView Standalone.
Local Open Scope string_scope.
Local Open Scope list_scope.
Open Scope Z_scope.
Open Scope pdcm_scope.

Section Embedded.
Context {P : Type} `{Pr : Provider P} `{Ly : Layout}.

Record EmbeddedBackend := mkEmbedded {
  eb_config_ : RuntimeConfig;
  eb_core_ : ServiceCore (P := P);
  eb_sessions_ : SessionManager;
  eb_session_id_ : Z;
  eb_started_ : bool;
  eb_closed_ : bool }.

Definition eb_construct (config : RuntimeConfig) (provider : option P) (clock : bool) : string + EmbeddedBackend :=
  match core_construct_default config provider clock with
  | inl msg => inl msg
  | inr core => inr (mkEmbedded config core (sm_init (rc_limits config)) 0 false false)
  end.

Definition eb_with (e : EmbeddedBackend) (core : ServiceCore (P := P)) (sessions : SessionManager) : EmbeddedBackend :=
  mkEmbedded (eb_config_ e) core sessions (eb_session_id_ e) (eb_started_ e) (eb_closed_ e).

Definition peer_none : PeerIdentity := mkPeer 0 0 0.

Definition eb_start (e : EmbeddedBackend) (t_init t_discover t_health : Z) : Status * EmbeddedBackend :=
  if eb_closed_ e then (mkStatus PDCM_STATUS_NOT_INITIALIZED "embedded backend is already closed", e)
  else if eb_started_ e then (mkStatus PDCM_STATUS_NOT_INITIALIZED "embedded backend is already started", e)
  else
  let '(core_status, c1) := core_start (eb_core_ e) t_init t_discover t_health in
  if negb (st_ok core_status) then (core_status, eb_with e c1 (eb_sessions_ e))
  else
  let '(created, id, m1) := beginHandshake (eb_sessions_ e) peer_none in
  if negb (st_ok created) then (created, eb_with e (snd (core_stop c1)) m1)
  else
  let '(active, m2) := activate m1 id in
  if negb (st_ok active) then (active, eb_with e (snd (core_stop c1)) (snd (sm_close m2 id)))
  else (st_success, mkEmbedded (eb_config_ e) c1 m2 id true (eb_closed_ e)).

Definition eb_inactive (e : EmbeddedBackend) : bool := negb (eb_started_ e) || eb_closed_ e.
Definition not_active : Status := mkStatus PDCM_STATUS_NOT_INITIALIZED "embedded backend is not active".

Definition eb_version (e : EmbeddedBackend) : Status * option BackendVersion :=
  if eb_inactive e then (not_active, None)
  else
  let core := sv_snapshot_ (eb_core_ e) in
  let loaded := core_provider_state core ==? PS_Ready in
  (st_success,
   Some (mkVersion "embedded" BM_Embedded (rc_target (eb_config_ e)) core
           (if core_degraded_reason core ==? DR_DiscoveryFailed then PF_Discovery else PF_None)
           false loaded loaded kProtocolMajor kProtocolMinor (eb_session_id_ e))).

Definition eb_entities (e : EmbeddedBackend) (kind : EntityKind) : EntityListResult :=
  if eb_inactive e then list_failed not_active else core_entities (eb_core_ e) kind.
Definition eb_capabilities (e : EmbeddedBackend) (entity : EntityRef) : Status * option CapabilitySet :=
  if eb_inactive e then (not_active, None) else core_capabilities (eb_core_ e) entity.
Definition eb_health (e : EmbeddedBackend) (request : HealthRequest) (now : Z) : HealthQueryResult :=
  if eb_inactive e then health_failed not_active else core_health (eb_core_ e) request now.

Definition eb_close (e : EmbeddedBackend) : Status * EmbeddedBackend :=
  if eb_closed_ e then (st_success, e)
  else
  let m1 := snd (sm_beginDraining (eb_sessions_ e)) in
  let '(id, m2) := if negb (eb_session_id_ e =? 0) then (0, snd (sm_close m1 (eb_session_id_ e))) else (eb_session_id_ e, m1) in
  let m3 := closeAll m2 in
  let '(core_status, c1) := core_stop (eb_core_ e) in
  (core_status, mkEmbedded (eb_config_ e) c1 m3 id false true).

(** ** The life of a backend *)

Inductive eb_op := EbStart (t_init t_discover t_health : Z) | EbClose.
#[export] Instance eb_op_eq_dec : EqDecision eb_op.
Proof. solve_decision. Defined.
Definition eb_step (e : EmbeddedBackend) (op : eb_op) : EmbeddedBackend :=
  match op with
  | EbStart t1 t2 t3 => snd (eb_start e t1 t2 t3)
  | EbClose => snd (eb_close e)
  end.

(** The states of a backend that can be told apart from outside: not serving,
    serving with one session, and closed with the core stopped. *)
Record eb_ok (e : EmbeddedBackend) : Prop := {
  eo_sessions : sm_wf (eb_sessions_ e) /\ sm_limits_ (eb_sessions_ e) = rc_limits (eb_config_ e);
  eo_idle : eb_started_ e = false -> sessions_ (eb_sessions_ e) = ∅ /\ eb_session_id_ e = 0 /\
    (eb_closed_ e = false -> next_session_id_ (eb_sessions_ e) = 1 /\ draining_ (eb_sessions_ e) = false);
  eo_started : eb_started_ e = true -> eb_closed_ e = false /\ eb_session_id_ e = 1 /\
    sessions_ (eb_sessions_ e) = {[1 := mkSession 1 SS_Active peer_none counters_zero]} /\
    not_serving (core_state (sv_snapshot_ (eb_core_ e))) = false;
  eo_closed : eb_closed_ e = true -> eb_started_ e = false /\ core_state (sv_snapshot_ (eb_core_ e)) = CS_Stopped /\
    pm_state_ (sv_provider_manager_ (eb_core_ e)) = PS_Shutdown }.

Lemma core_start_validated (c : ServiceCore (P := P)) t1 t2 t3 :
  st_ok (fst (core_start c t1 t2 t3)) = true -> st_ok (rc_validate (sv_config_ c)) = true.
Proof.
  unfold core_start. guard as G1; [done|]. cbv zeta. cbn [core_enter sv_with_snapshot sv_config_]. guard as G2.
  - cbn [fst]. apply negb_true_iff in G2. congruence.
  - by apply negb_false_iff in G2.
Qed.

Lemma validated_sessions config : st_ok (rc_validate config) = true -> limits_wf (rc_limits config) -> 1 <= max_sessions (rc_limits config).
Proof.
  intros Hv (Hm & _). unfold rc_validate in Hv. destruct (_ ==? _); [done|]. destruct (max_sessions (rc_limits config) =? 0) eqn:E; [done|].
  bprop in E. lia.
Qed.

(** The core of a backend has been through starts and stops since it was built. *)
Definition eb_life (config : RuntimeConfig) (c0 : ServiceCore (P := P)) (e : EmbeddedBackend) : Prop :=
  eb_config_ e = config /\ exists cops, life_ok c0 (eb_core_ e) cops.

Lemma start_serving config p clock target c0 c cops t1 t2 t3 :
  core_construct config p clock target = inr c0 -> life_ok c0 c cops ->
  st_ok (fst (core_start c t1 t2 t3)) = true ->
  st_ok (rc_validate config) = true /\ not_serving (core_state (sv_snapshot_ (snd (core_start c t1 t2 t3)))) = false.
Proof.
  intros Hc Hl Hok. destruct (decide (core_state (sv_snapshot_ c) = CS_Created)) as [Ec|Ec].
  - destruct (lf_created _ _ _ Hl) as [L1 _]. rewrite (lf_start _ _ _ Hl (L1 Ec)) in Hok |- *.
    destruct (core_construct_inv _ _ _ _ _ Hc) as (C1 & _). split; [rewrite <- C1; by eapply core_start_validated|].
    destruct (core_start_started _ _ _ _ _ t1 t2 t3 Hc) as (S1 & S2 & _). cbv zeta in S1, S2.
    apply S2 in Hok. apply list_elem_of_In in S1. destruct S1 as [<-|[<-|[S1|[]]]]; done.
  - unfold core_start in Hok. rewrite bool_decide_false in Hok by done. done.
Qed.

(** A backend that is not started has room for its session. *)
Lemma idle_session m : sm_wf m -> sessions_ m = ∅ -> next_session_id_ m = 1 -> draining_ m = false -> 1 <= max_sessions (sm_limits_ m) ->
  let '(created, id, m1) := beginHandshake m peer_none in
  created = st_success /\ id = 1 /\
  activate m1 id = (st_success, mkSessionManager (sm_limits_ m) {[1 := mkSession 1 SS_Active peer_none counters_zero]} 2 false).
Proof.
  intros Hwf He Hn Hd Hm. assert (has_capacity m) as Hc.
  { split_and!; [done| |lia]. unfold sm_size. rewrite He, map_size_empty. lia. }
  destruct (begin_activate m peer_none Hwf Hc) as (B1 & _ & B3). cbv zeta in *.
  destruct (beginHandshake m peer_none) as [[created id] m1]. cbn [fst snd] in *. injection B1 as -> ->. split_and!; [done|done|].
  rewrite B3, Hn, He. done.
Qed.

Lemma eb_start_ok config p clock target c0 e t1 t2 t3 :
  core_construct config p clock target = inr c0 -> limits_wf (rc_limits config) ->
  eb_ok e -> eb_life config c0 e ->
  eb_ok (snd (eb_start e t1 t2 t3)) /\ eb_life config c0 (snd (eb_start e t1 t2 t3)) /\
  (st_ok (fst (eb_start e t1 t2 t3)) = true <-> eb_started_ e = false /\ eb_started_ (snd (eb_start e t1 t2 t3)) = true).
Proof.
  intros Hc Hl Hok [Hcfg [cops Hlife]]. pose proof Hok as [[O1 O2] O3 O4 O5]. unfold eb_start.
  destruct (eb_closed_ e) eqn:Ecl. { destruct (O5 eq_refl) as [E _]. cbn [fst snd]. rewrite E. split_and!; [done|split; [done|by exists cops]|split; [done|by intros []]]. }
  destruct (eb_started_ e) eqn:Est. { cbn [fst snd]. split_and!; [done|split; [done|by exists cops]|split; [done|by intros []]]. }
  destruct (O3 eq_refl) as (I1 & I2 & I3). destruct (I3 eq_refl) as [I4 I5].
  pose proof (start_serving _ _ _ _ _ _ _ t1 t2 t3 Hc Hlife) as Hs.
  pose proof (core_step_life _ _ _ _ _ _ _ (OpStart t1 t2 t3) Hc Hlife) as Hlife1. cbn [core_step] in Hlife1.
  destruct (core_start (eb_core_ e) t1 t2 t3) as [cs c1]. cbn [fst snd] in Hs, Hlife1.
  guard as G; cbn [fst snd].
  { apply negb_true_iff in G. rewrite G. split_and!; [|split; [done|by eexists]|].
    - split; cbn; try done; rewrite ?Est, ?Ecl; done.
    - cbn. rewrite Est. split; [done|by intros []]. }
  apply negb_false_iff in G. destruct (Hs G) as [Hv Hns]. pose proof (validated_sessions config Hv Hl) as Hm.
  pose proof (idle_session (eb_sessions_ e) O1 I1 I4 I5 ltac:(rewrite O2, Hcfg; done)) as Hi.
  destruct (beginHandshake (eb_sessions_ e) peer_none) as [[created id] m1] eqn:Eb. destruct Hi as (-> & -> & Ha).
  change (negb (st_ok st_success)) with false. cbv iota. rewrite Ha. change (negb (st_ok st_success)) with false. cbv iota. cbn [fst snd].
  split_and!; [|split; [done|by eexists]|done].
  assert (sm_wf (snd (activate m1 1))) as Hwf2.
  { pose proof (session_step_wf _ (SActivate 1) (session_step_wf _ (SBegin peer_none) O1)) as Hw. cbn [session_step] in Hw. by rewrite Eb in Hw. }
  rewrite Ha in Hwf2. split; cbn; try done; rewrite ?Ecl; try done.
Qed.

Lemma eb_close_ok config p clock target c0 e :
  core_construct config p clock target = inr c0 -> eb_ok e -> eb_life config c0 e ->
  eb_ok (snd (eb_close e)) /\ eb_life config c0 (snd (eb_close e)) /\ eb_closed_ (snd (eb_close e)) = true.
Proof.
  intros Hc Hok [Hcfg [cops Hlife]]. pose proof Hok as [[O1 O2] O3 O4 O5]. unfold eb_close.
  destruct (eb_closed_ e) eqn:Ecl. { split_and!; [done|split; [done|by exists cops]|done]. }
  pose proof (core_step_life _ _ _ _ _ _ _ OpStop Hc Hlife) as Hl1. cbn [core_step] in Hl1.
  assert (core_state (sv_snapshot_ (snd (core_stop (eb_core_ e)))) = CS_Stopped) as Hst
    by (apply (lf_stopped _ _ _ Hl1), elem_of_app; right; by apply list_elem_of_singleton).
  destruct (lf_shutdown _ _ _ Hl1 Hst) as [Hsh _].
  set (m2 := if negb (eb_session_id_ e =? 0) then _ else _).
  assert (sm_wf (snd m2) /\ sm_limits_ (snd m2) = rc_limits (eb_config_ e) /\ fst m2 = 0) as (W1 & W2 & W3).
  { pose proof (session_step_wf _ SDrain O1) as Hd. cbn [session_step] in Hd.
    unfold m2. guard as G; bprop in G; [|split_and!; [exact Hd|exact O2|exact G]].
    split_and!; [exact (session_step_wf _ (SClose (eb_session_id_ e)) Hd)| |done].
    cbn [snd]. unfold sm_close. by destruct (sessions_ _ !! _). }
  destruct m2 as [id m2]. cbn [fst snd] in *. subst id.
  destruct (core_stop (eb_core_ e)) as [cs c1]. cbn [fst snd] in *. split_and!; [|split; [done|by eexists]|done].
  split; cbn; try done. split; [exact (session_step_wf _ SCloseAll W1)|exact W2].
Qed.

Lemma eb_construct_inv config p clock e0 : eb_construct config p clock = inr e0 -> limits_wf (rc_limits config) ->
  exists c0, core_construct_default config p clock = inr c0 /\ eb_core_ e0 = c0 /\ eb_closed_ e0 = false /\ eb_ok e0 /\
    eb_life config c0 e0 /\ life_ok c0 c0 [].
Proof.
  unfold eb_construct. intros He Hl. destruct (core_construct_default config p clock) as [|c0] eqn:Hc; [done|].
  injection He as <-. destruct (core_construct_inv _ _ _ _ _ Hc) as (_ & _ & C3 & _).
  assert (life_ok c0 c0 []) as Hlife by (split; rewrite ?C3; try done; by intros ?%elem_of_nil).
  exists c0. split_and!; try done; [|split; [done|by exists []]].
  split; cbn; try done. split; [by apply sm_init_wf|done].
Qed.

Lemma core_stop_left (c : ServiceCore (P := P)) : core_state (sv_snapshot_ c) <> CS_Created -> core_state (sv_snapshot_ (snd (core_stop c))) <> CS_Created.
Proof. unfold core_stop. by guard as G; bprop in G. Qed.

(** A backend whose core has left its first state, or which is started or
    closed, is not changed by a start. *)
Definition spent (e : EmbeddedBackend) : Prop :=
  eb_closed_ e = true \/ eb_started_ e = true \/ core_state (sv_snapshot_ (eb_core_ e)) <> CS_Created.

Lemma eb_start_spent e t1 t2 t3 : spent e -> snd (eb_start e t1 t2 t3) = e /\ st_ok (fst (eb_start e t1 t2 t3)) = false.
Proof.
  intros Hs. unfold eb_start. destruct (eb_closed_ e) eqn:E1; [done|]. destruct (eb_started_ e) eqn:E2; [done|].
  destruct Hs as [?|[?|Hs]]; [congruence..|]. unfold core_start. rewrite bool_decide_false by done.
  cbn. split; [by destruct e; cbn in *; subst|done].
Qed.

Lemma first_start_spent config p clock c0 e0 t1 t2 t3 :
  core_construct_default config p clock = inr c0 -> eb_core_ e0 = c0 -> life_ok c0 c0 [] -> spent (snd (eb_start e0 t1 t2 t3)).
Proof.
  intros Hc <- Hl0. pose proof (core_step_life _ _ _ _ _ _ _ (OpStart t1 t2 t3) Hc Hl0) as Hl1. cbn [core_step app] in Hl1.
  assert (core_state (sv_snapshot_ (snd (core_start (eb_core_ e0) t1 t2 t3))) <> CS_Created) as Hne
    by (intros Hx%(lf_created _ _ _ Hl1); done).
  unfold spent, eb_start. destruct (eb_closed_ e0) eqn:E1; [by left|]. destruct (eb_started_ e0) eqn:E2; [by right; left|].
  destruct (core_start (eb_core_ e0) t1 t2 t3) as [cs c1]. cbn [snd] in Hne. guard as G; [by right; right|].
  destruct (beginHandshake (eb_sessions_ e0) peer_none) as [[created id] m1]. guard as G2.
  - right; right. cbn. by apply core_stop_left.
  - destruct (activate m1 id) as [active m2]. guard as G3; [right; right; cbn; by apply core_stop_left|by right; left].
Qed.

Lemma eb_run_spent e rest : spent e -> foldl eb_step e rest = if bool_decide (EbClose ∈ rest) then snd (eb_close e) else e.
Proof.
  assert (forall e rest, eb_closed_ e = true -> foldl eb_step e rest = e) as Hclosed.
  { clear. intros e rest He. induction rest as [|[|] rest IH]; [done| |].
    - cbn [foldl eb_step]. rewrite (proj1 (eb_start_spent e _ _ _ (or_introl He))). exact IH.
    - cbn [foldl eb_step]. replace (snd (eb_close e)) with e by (unfold eb_close; by rewrite He). exact IH. }
  intros Hs. induction rest as [|[t1 t2 t3|] rest IH]; [done| |].
  - cbn [foldl eb_step]. rewrite (proj1 (eb_start_spent e _ _ _ Hs)), IH.
    rewrite (bool_decide_ext (EbClose ∈ EbStart t1 t2 t3 :: rest) (EbClose ∈ rest)); [done|].
    rewrite elem_of_cons. split; [by intros [|]|by right].
  - cbn [foldl eb_step]. rewrite bool_decide_true by set_solver. apply Hclosed.
    unfold eb_close. destruct (eb_closed_ e) eqn:E; [done|]. destruct (negb _), (core_stop _); done.
Qed.

(** C11: An embedded backend lives once.  Whatever starts and closes are made in
    whatever order, the state is that of the first of them, closed if a close
    is among the rest: a start after the first operation is refused and changes
    nothing.  A started backend holds exactly one active session, number 1, its
    core serves and every query is the core's own; a closed one holds none, has
    stopped its core and shut its provider down, and refuses every query as not
    initialised. *)
Theorem embedded_lifecycle config p clock e0 op rest :
  eb_construct config p clock = inr e0 -> limits_wf (rc_limits config) ->
  let e := foldl eb_step e0 (op :: rest) in
  let closed := EbClose ∈ op :: rest in
  e = (if bool_decide (EbClose ∈ rest) then snd (eb_close (eb_step e0 op)) else eb_step e0 op) /\
  (forall t1 t2 t3, snd (eb_start e t1 t2 t3) = e /\ st_ok (fst (eb_start e t1 t2 t3)) = false) /\
  (eb_started_ e = true -> ~ closed /\ eb_session_id_ e = 1 /\
     sessions_ (eb_sessions_ e) = {[1 := mkSession 1 SS_Active peer_none counters_zero]} /\
     not_serving (core_state (sv_snapshot_ (eb_core_ e))) = false /\
     forall kind entity request now, eb_entities e kind = core_entities (eb_core_ e) kind /\
       eb_capabilities e entity = core_capabilities (eb_core_ e) entity /\ eb_health e request now = core_health (eb_core_ e) request now) /\
  (closed -> eb_closed_ e = true /\ sessions_ (eb_sessions_ e) = ∅ /\ core_state (sv_snapshot_ (eb_core_ e)) = CS_Stopped /\
     pm_state_ (sv_provider_manager_ (eb_core_ e)) = PS_Shutdown /\
     forall kind entity request now, elr_status (eb_entities e kind) = not_active /\
       eb_capabilities e entity = (not_active, None) /\ hqr_status (eb_health e request now) = not_active /\ eb_version e = (not_active, None)).
Proof.
  intros He Hl. cbv zeta. destruct (eb_construct_inv _ _ _ _ He Hl) as (c0 & Hc & E1 & E2 & Hok0 & Hlf0 & Hl0).
  assert (eb_ok (eb_step e0 op) /\ eb_life config c0 (eb_step e0 op) /\ spent (eb_step e0 op) /\
    (op = EbClose -> eb_closed_ (eb_step e0 op) = true)) as (Hok1 & Hlf1 & Hsp & Hcl).
  { destruct op as [t1 t2 t3|]; cbn [eb_step].
    - destruct (eb_start_ok _ _ _ _ _ _ t1 t2 t3 Hc Hl Hok0 Hlf0) as (S1 & S2 & _). split_and!; [done..|by apply first_start_spent with config p clock c0|done].
    - destruct (eb_close_ok _ _ _ _ _ _ Hc Hok0 Hlf0) as (S1 & S2 & S3). split_and!; [done..|by left|done]. }
  cbn [foldl]. rewrite (eb_run_spent _ _ Hsp).
  set (e1 := eb_step e0 op) in *. destruct (eb_close_ok _ _ _ _ _ _ Hc Hok1 Hlf1) as (K1 & K2 & K3).
  set (e := if bool_decide (EbClose ∈ rest) then _ else _). 
  assert (eb_ok e /\ spent e /\ (EbClose ∈ op :: rest -> eb_closed_ e = true)) as (Hok & Hse & Hce).
  { unfold e. case_bool_decide as Hd; [split_and!; [done|by left|done]|]. split_and!; [done|done|].
    intros [<-|?]%elem_of_cons; [by apply Hcl|done]. }
  destruct Hok as [O1 O2 O3 O4]. split_and!; [done|intros *; by apply eb_start_spent| |].
  - intros Hst. destruct (O3 Hst) as (P1 & P2 & P3 & P4). split_and!; try done; [intros Hx; rewrite (Hce Hx) in P1; done|].
    intros *. unfold eb_entities, eb_capabilities, eb_health, eb_inactive. by rewrite Hst, P1.
  - intros Hx%Hce. destruct (O4 Hx) as (P1 & P2 & P3). destruct (O2 P1) as (Q1 & _). split_and!; try done.
    intros *. unfold eb_entities, eb_capabilities, eb_health, eb_version, eb_inactive. by rewrite Hx, orb_true_r.
Qed.
End Embedded.

(** ** Witness *)

Definition sample_embedded : EmbeddedBackend (P := ProviderState) :=
  match eb_construct sample_config (Some PS_Uninitialized) true with
  | inr e => e
  | inl _ => mkEmbedded sample_config sample_core (sm_init limits_default) 0 false false
  end.

Lemma embedded_lifecycle_witness :
  let e := foldl (eb_step (Ly := sample_layout)) sample_embedded [EbStart 1 2 3; EbStart 4 5 6] in
  eb_started_ e = true /\ eb_session_id_ e = 1 /\
  eb_closed_ (foldl (eb_step (Ly := sample_layout)) sample_embedded [EbStart 1 2 3; EbClose; EbStart 4 5 6]) = true.
Proof.
  assert (eb_construct sample_config (Some PS_Uninitialized) true = inr sample_embedded) as Hc by reflexivity.
  assert (limits_wf (rc_limits sample_config)) as Hl by (by repeat split).
  cbv zeta. set (e := foldl (eb_step (Ly := sample_layout)) sample_embedded [EbStart 1 2 3; EbStart 4 5 6]).
  assert (eb_started_ e = true) as Hs by (vm_compute; reflexivity).
  destruct (embedded_lifecycle (Ly := sample_layout) _ _ _ _ (EbStart 1 2 3) [EbStart 4 5 6] Hc Hl) as (_ & _ & Hr & _).
  destruct (embedded_lifecycle (Ly := sample_layout) _ _ _ _ (EbStart 1 2 3) [EbClose; EbStart 4 5 6] Hc Hl) as (_ & _ & _ & Hx).
  destruct (Hr Hs) as (_ & H1 & _). destruct Hx as (X1 & _); [right; left|]. split_and!; [exact Hs|exact H1|exact X1].
Defined.
