(* ===== verification/PublicApi.v ===== *)
(** The data side of the C interface (src/product/include/pdcm/pdcm.h, types.h,
    base.h and the first half of src/product/src/client/pdcm_api.cpp): the
    public structures, the reading of the open options, the conversions to the
    public structures and the two-call buffer protocols of the queries.

    A structure is a record; the sizes are those of the LP64 layout.  A pointer
    argument is an [option], [None] for [nullptr]; a structure the function
    writes through a pointer comes back in the result.  A character array is the
    list of its characters.  A C string is a [string] whose end is the
    terminator, so a null character inside it also ends it. *)
From S2P Require Import Prelude Containers Common Provider Session Catalog Frame EventStore DataStore HealthStore ProcessorGraph Metrics Service Protocol Handshake Socket ClientView Standalone.
Local Open Scope string_scope.
Local Open Scope list_scope.
Open Scope Z_scope.
Open Scope pdcm_scope.

(** ** Structures *)

Record pdcm_struct_header_t := mkHeader { hd_struct_size : Z; hd_version : Z }.
Definition PDCM_STRUCT_VERSION_1 : Z := 1.
Definition PDCM_ABI_VERSION_MAJOR : Z := 0.
Definition PDCM_ABI_VERSION_MINOR : Z := 1.

Definition PDCM_MODE_STANDALONE : Z := 1.
Definition PDCM_MODE_EMBEDDED : Z := 2.
Definition PDCM_MODE_AUTO : Z := 3.
Definition PDCM_TARGET_UNKNOWN : Z := 0.
Definition PDCM_TARGET_FPGA : Z := 1.
Definition PDCM_TARGET_EMU : Z := 2.
Definition PDCM_OPEN_ALLOW_EMBEDDED_FALLBACK : Z := 1.

Record pdcm_open_options_t := mkOpenOptions {
  oo_header : pdcm_struct_header_t;
  oo_mode : Z;
  oo_flags : Z;
  oo_endpoint : option string;
  oo_deadline_ns : Z;
  oo_required_protocol_major : Z;
  oo_required_protocol_minor : Z;
  oo_target : Z;
  oo_reserved : Z }.
Definition sizeof_open_options : Z := 48.

Notation chars := (list Ascii.ascii) (only parsing).
Definition nul : Ascii.ascii := Ascii.zero.

Record pdcm_version_info_t := mkVersionInfo {
  vi_header : pdcm_struct_header_t;
  vi_library_version : chars;
  vi_daemon_version : chars;
  vi_public_abi_major : Z;
  vi_public_abi_minor : Z;
  vi_local_protocol_major : Z;
  vi_local_protocol_minor : Z;
  vi_negotiated_protocol_major : Z;
  vi_negotiated_protocol_minor : Z;
  vi_mode : Z;
  vi_target : Z;
  vi_core_state : Z;
  vi_provider_state : Z;
  vi_provider_load_state : Z;
  vi_provider_compatibility : Z;
  vi_provider_failure_phase : Z;
  vi_detail_status : Z;
  vi_detected_device_count : Z;
  vi_reserved : Z;
  vi_session_id : Z;
  vi_catalog_generation : Z }.
Definition sizeof_version_info : Z := 152.

Record pdcm_entity_ref_t := mkPublicRef {
  pr_header : pdcm_struct_header_t; pr_kind : Z; pr_reserved : Z; pr_pdcm_id : Z; pr_generation : Z }.
Definition sizeof_entity_ref : Z := 32.

Record pdcm_entity_filter_t := mkFilter { ef_header : pdcm_struct_header_t; ef_kind : Z; ef_reserved : Z }.
Definition sizeof_entity_filter : Z := 16.

Record pdcm_entity_info_t := mkEntityInfo {
  ei_header : pdcm_struct_header_t;
  ei_entity : pdcm_entity_ref_t;
  ei_state : Z;
  ei_item_status : Z;
  ei_native_id_status : Z;
  ei_pci_bdf_status : Z;
  ei_pdrv_version_status : Z;
  ei_reserved : Z;
  ei_native_id : chars;
  ei_pci_bdf : chars;
  ei_pdrv_version : chars }.
Definition sizeof_entity_info : Z := 224.

Record pdcm_capability_item_t := mkPublicCapability {
  ci_header : pdcm_struct_header_t;
  ci_kind : Z;
  ci_id : Z;
  ci_supported : Z;
  ci_reason : Z;
  ci_semantic_version : Z;
  ci_reserved : Z;
  ci_catalog_generation : Z }.
Definition sizeof_capability_item : Z := 40.

Record pdcm_capability_set_t := mkPublicSet {
  ps_header : pdcm_struct_header_t;
  ps_entity : pdcm_entity_ref_t;
  ps_items : option (list pdcm_capability_item_t);
  ps_item_capacity : Z;
  ps_item_count : Z;
  ps_catalog_generation : Z }.
Definition sizeof_capability_set : Z := 72.

Record pdcm_health_request_t := mkPublicHealthRequest {
  ph_header : pdcm_struct_header_t;
  ph_entity : pdcm_entity_ref_t;
  ph_subsystem_id : Z;
  ph_reserved : Z;
  ph_catalog_generation : Z;
  ph_max_age_ns : Z }.
Definition sizeof_health_request : Z := 64.

Record pdcm_health_result_t := mkPublicHealth {
  pq_header : pdcm_struct_header_t;
  pq_entity : pdcm_entity_ref_t;
  pq_subsystem_id : Z;
  pq_state : Z;
  pq_item_status : Z;
  pq_code : Z;
  pq_catalog_generation : Z;
  pq_evaluated_monotonic_time_ns : Z;
  pq_evidence_age_ns : Z;
  pq_evidence_id : Z;
  pq_sequence_or_token : Z;
  pq_source : chars;
  pq_limitation : chars }.
Definition sizeof_health_result : Z := 320.

(** A structure assigned [{}]. *)
Definition header_zero : pdcm_struct_header_t := mkHeader 0 0.
Definition chars_zero (n : Z) : chars := replicate (Z.to_nat n) nul.
Definition header_of (size : Z) : pdcm_struct_header_t := mkHeader size PDCM_STRUCT_VERSION_1.

(** The initialisers of the headers. *)
Definition PDCM_OPEN_OPTIONS_INIT : pdcm_open_options_t :=
  mkOpenOptions (header_of sizeof_open_options) PDCM_MODE_STANDALONE 0 None 0 1 0 PDCM_TARGET_UNKNOWN 0.
Definition PDCM_VERSION_INFO_INIT : pdcm_version_info_t :=
  mkVersionInfo (header_of sizeof_version_info) (chars_zero 32) (chars_zero 32) 0 0 0 0 0 0 0 0 0 0 0 0 0 0 0 0 0 0.
Definition PDCM_ENTITY_REF_INIT : pdcm_entity_ref_t := mkPublicRef (header_of sizeof_entity_ref) 0 0 0 0.
Definition PDCM_ENTITY_INFO_INIT : pdcm_entity_info_t :=
  mkEntityInfo (header_of sizeof_entity_info) PDCM_ENTITY_REF_INIT 0 0 2 2 2 0 (chars_zero 64) (chars_zero 32) (chars_zero 64).
Definition PDCM_CAPABILITY_SET_INIT : pdcm_capability_set_t :=
  mkPublicSet (header_of sizeof_capability_set) PDCM_ENTITY_REF_INIT None 0 0 0.
Definition PDCM_HEALTH_REQUEST_INIT : pdcm_health_request_t :=
  mkPublicHealthRequest (header_of sizeof_health_request) PDCM_ENTITY_REF_INIT 1 0 0 0.
Definition PDCM_HEALTH_RESULT_INIT : pdcm_health_result_t :=
  mkPublicHealth (header_of sizeof_health_result) PDCM_ENTITY_REF_INIT 0 0 2 3 0 0 0 0 0 (chars_zero 64) (chars_zero 160).

(** ** The open options *)

Definition header_invalid (h : pdcm_struct_header_t) (required_size : Z) : bool :=
  negb (hd_version h =? PDCM_STRUCT_VERSION_1) || (hd_struct_size h <? required_size).
Definition validateOutputHeader (h : pdcm_struct_header_t) (required_size : Z) : pdcm_status_t :=
  if header_invalid h required_size then PDCM_STATUS_INVALID_ARGUMENT else PDCM_STATUS_SUCCESS.

Definition kDefaultEndpoint : string := "/run/pdcm/pdcm.sock".
Definition kMaxEndpointBytes : Z := 107.
Definition kKnownOpenFlags : Z := PDCM_OPEN_ALLOW_EMBEDDED_FALLBACK.

Record EffectiveOptions := mkEffective {
  eff_mode : Z; eff_flags : Z; eff_endpoint : string; eff_deadline : Z; eff_target : Z }.
Definition effective_default : EffectiveOptions :=
  mkEffective PDCM_MODE_STANDALONE 0 kDefaultEndpoint 1000 PDCM_TARGET_UNKNOWN.

(** The loop that measures the endpoint; [left] is what remains of
    [kMaxEndpointBytes + 1] steps. *)
Fixpoint endpoint_scan (left : nat) (s : string) : Z :=
  match left, s with
  | S left', String c s' => if ascii_code c =? 0 then 0 else 1 + endpoint_scan left' s'
  | _, _ => 0
  end.

Definition known_mode (mode : Z) : bool :=
  (mode =? PDCM_MODE_STANDALONE) || (mode =? PDCM_MODE_EMBEDDED) || (mode =? PDCM_MODE_AUTO).
Definition known_target (target : Z) : bool :=
  (target =? PDCM_TARGET_UNKNOWN) || (target =? PDCM_TARGET_FPGA) || (target =? PDCM_TARGET_EMU).

(** [duration_cast] to milliseconds, at least one. *)
Definition deadline_of (deadline_ns : Z) : Z :=
  let ms := deadline_ns / 1000000 in if ms <=? 0 then 1 else ms.

Definition starts_with_slash (s : string) : bool :=
  match s with String c _ => ascii_code c =? 47 | EmptyString => false end.

Definition parseOptions (options : option pdcm_open_options_t) : pdcm_status_t + EffectiveOptions :=
  match options with
  | None => inr effective_default
  | Some o =>
      if negb (validateOutputHeader (oo_header o) sizeof_open_options ==? PDCM_STATUS_SUCCESS) then inl PDCM_STATUS_INVALID_ARGUMENT
      else if negb (Z.land (oo_flags o) (u32_max - kKnownOpenFlags) =? 0) || negb (oo_reserved o =? 0) then inl PDCM_STATUS_INVALID_ARGUMENT
      else if negb (oo_required_protocol_major o =? kProtocolMajor) || (kProtocolMinor <? oo_required_protocol_minor o)
      then inl PDCM_STATUS_PROTOCOL_INCOMPATIBLE
      else if negb (known_mode (oo_mode o)) then inl PDCM_STATUS_INVALID_ARGUMENT
      else if negb (known_target (oo_target o)) then inl PDCM_STATUS_INVALID_ARGUMENT
      else if negb (oo_deadline_ns o =? 0) && (i64_max <? oo_deadline_ns o) then inl PDCM_STATUS_INVALID_ARGUMENT
      else
      let deadline := if oo_deadline_ns o =? 0 then eff_deadline effective_default else deadline_of (oo_deadline_ns o) in
      let finish endpoint := inr (mkEffective (oo_mode o) (oo_flags o) endpoint deadline (oo_target o)) in
      if oo_mode o =? PDCM_MODE_EMBEDDED
      then match oo_endpoint o with Some _ => inl PDCM_STATUS_INVALID_ARGUMENT | None => finish kDefaultEndpoint end
      else
      match oo_endpoint o with
      | None => finish kDefaultEndpoint
      | Some endpoint =>
          let length := endpoint_scan (Z.to_nat (kMaxEndpointBytes + 1)) endpoint in
          if (length =? 0) || (kMaxEndpointBytes <? length) || negb (starts_with_slash endpoint)
          then inl PDCM_STATUS_INVALID_ARGUMENT
          else finish (String.substring 0 (Z.to_nat length) endpoint)
      end
  end.

Definition toInternalTarget (target : Z) : TargetKind :=
  if target =? PDCM_TARGET_FPGA then TK_Fpga else if target =? PDCM_TARGET_EMU then TK_Emu else TK_Unknown.

(** ** Conversions *)

Definition toPublicCoreState (s : CoreState) : Z :=
  match s with
  | CS_Created => 1 | CS_Starting => 2 | CS_Ready => 3 | CS_Degraded => 4 | CS_Failed => 5 | CS_Stopping => 6 | CS_Stopped => 7
  end.
Definition toPublicProviderState (s : ProviderState) : Z :=
  match s with PS_Uninitialized => 1 | PS_Ready => 2 | PS_Unavailable => 3 | PS_Shutdown => 4 end.
Definition toPublicFailurePhase (p : ProviderFailurePhase) : Z :=
  match p with
  | PF_None => 0 | PF_Load => 1 | PF_Entry => 2 | PF_Abi => 3 | PF_NativeInitialize => 4 | PF_Discovery => 5
  end.
Definition toPublicEntityState (s : EntityState) : Z := match s with ES_Ready => 1 | ES_Error => 2 | ES_Unknown => 0 end.
Definition toPublicObservationStatus (s : ObservationStatus) : Z :=
  match s with OS_Valid => 0 | OS_Stale => 1 | OS_NotAvailable => 2 | OS_Unsupported => 3 | OS_Error => 4 end.
Definition toPublicCapabilityKind (k : CapabilityKind) : Z :=
  match k with CAP_MetricsCatalog => 1 | CAP_Metric => 2 | CAP_Health => 3 end.
Definition toPublicCapabilityReason (r : CapabilityReason) : Z :=
  match r with
  | CR_Supported => 0 | CR_CatalogBlockedExternal => 1 | CR_ProviderUnsupported => 2 | CR_DependencyMissing => 3
  | CR_TemporarilyUnavailable => 4 | CR_PermissionHidden => 5 | CR_PostP0Disabled => 6 | CR_TopologyUnsupported => 7
  end.
Definition toPublicHealthState (s : HealthState) : Z :=
  match s with HS_Healthy => 1 | HS_Unknown => 0 | HS_Warning => 2 | HS_Error => 3 end.

(** [memcpy] of a prefix and the terminator into the array. *)
Definition copyVersionString (source : string) (destination : chars) (capacity : Z) : chars :=
  if capacity =? 0 then destination
  else
  let count := Z.min (str_size source) (capacity - 1) in
  take (Z.to_nat count) (String.list_ascii_of_string source) ++ [nul] ++ drop (Z.to_nat (count + 1)) destination.
Definition into_array (source : string) (capacity : Z) : chars := copyVersionString source (chars_zero capacity) capacity.

Definition fillLocalVersion : pdcm_version_info_t :=
  mkVersionInfo (header_of sizeof_version_info) (into_array "0.1.0" 32) (chars_zero 32)
    PDCM_ABI_VERSION_MAJOR PDCM_ABI_VERSION_MINOR kProtocolMajor kProtocolMinor 0 0 0 0 0 0 0 0 0
    (status_value PDCM_STATUS_SUCCESS) 0 0 0 0.

Definition target_value (t : TargetKind) : Z := match t with TK_Unknown => 0 | TK_Fpga => 1 | TK_Emu => 2 end.

(** The part of [pdcm_version_get] that writes the backend's version over the
    local one. *)
Definition fillBackendVersion (v : pdcm_version_info_t) (b : BackendVersion) : pdcm_version_info_t :=
  mkVersionInfo (vi_header v) (vi_library_version v) (copyVersionString (bv_daemon_version b) (vi_daemon_version v) 32)
    (vi_public_abi_major v) (vi_public_abi_minor v) (vi_local_protocol_major v) (vi_local_protocol_minor v)
    (bv_protocol_major b) (bv_protocol_minor b)
    (if bv_mode b ==? BM_Embedded then PDCM_MODE_EMBEDDED else PDCM_MODE_STANDALONE)
    (target_value (bv_target b)) (toPublicCoreState (core_state (bv_core b)))
    (toPublicProviderState (core_provider_state (bv_core b)))
    (if bv_provider_loaded b then 1 else if bv_provider_load_attempted b then 2 else 0)
    (if bv_provider_abi_compatible b then 1 else 0)
    (toPublicFailurePhase (bv_provider_failure_phase b)) (status_value (core_detail_status (bv_core b)))
    (core_detected_device_count (bv_core b)) (vi_reserved v) (bv_session_id b) (core_catalog_generation (bv_core b)).

Definition toInternalEntityKind (kind : Z) : EntityKind :=
  if kind =? 1 then EK_Device else if kind =? 2 then EK_Node else EK_Unknown.
Definition validPublicEntityKind (kind : Z) : bool := (kind =? 0) || (kind =? 1) || (kind =? 2).

Definition toInternalEntityRef (source : option pdcm_entity_ref_t) : pdcm_status_t + EntityRef :=
  match source with
  | None => inl PDCM_STATUS_INVALID_ARGUMENT
  | Some r =>
      if negb (validateOutputHeader (pr_header r) sizeof_entity_ref ==? PDCM_STATUS_SUCCESS)
         || negb (pr_reserved r =? 0) || negb (pr_kind r =? 1) || (pr_generation r =? 0)
      then inl PDCM_STATUS_INVALID_ARGUMENT
      else inr (mkEntityRef EK_Device (pr_pdcm_id r) (pr_generation r))
  end.

Definition fillPublicEntityRef (e : EntityRef) : pdcm_entity_ref_t :=
  mkPublicRef (header_of sizeof_entity_ref) (entity_kind_value (er_kind e)) 0 (er_id e) (er_generation e).

Definition fillEntityInfo (e : EntityRecord) : pdcm_entity_info_t :=
  mkEntityInfo (header_of sizeof_entity_info) (fillPublicEntityRef (ent_ref e)) (toPublicEntityState (ent_state e))
    (status_value (ent_item_status e)) (toPublicObservationStatus (sa_status (ent_native_id e)))
    (toPublicObservationStatus (sa_status (ent_pci_bdf e))) (toPublicObservationStatus (sa_status (ent_pdrv_version e))) 0
    (into_array (sa_value (ent_native_id e)) 64) (into_array (sa_value (ent_pci_bdf e)) 32)
    (into_array (sa_value (ent_pdrv_version e)) 64).

Definition fillCapabilityItem (i : CapabilityItem) : pdcm_capability_item_t :=
  mkPublicCapability (header_of sizeof_capability_item) (toPublicCapabilityKind (cap_kind i)) (cap_id i)
    (if cap_supported i then 1 else 0) (toPublicCapabilityReason (cap_reason i)) (cap_semantic_version i) 0
    (cap_catalog_generation i).

Definition fillHealthResult (h : HealthResult) : pdcm_health_result_t :=
  let '(evidence_id, token, source) :=
    match hr_evidence h with
    | [] => (0, 0, chars_zero PDCM_HEALTH_SOURCE_CAPACITY)
    | front :: _ => (evr_evidence_id front, evr_sequence_or_token front,
                     into_array (src_provider (evr_source front)) PDCM_HEALTH_SOURCE_CAPACITY)
    end in
  let limitation :=
    match hr_limitations h with
    | [] => chars_zero PDCM_HEALTH_LIMITATION_CAPACITY
    | front :: _ => into_array (lim_detail front) PDCM_HEALTH_LIMITATION_CAPACITY
    end in
  mkPublicHealth (header_of sizeof_health_result) (fillPublicEntityRef (hr_entity h)) (hr_subsystem_id h)
    (toPublicHealthState (hr_state h)) (toPublicObservationStatus (hr_item_status h)) (health_code_value (hr_code h))
    (hr_catalog_generation h) (hr_evaluated_monotonic_time_ns h) (hr_evidence_age_ns h) evidence_id token source limitation.

(** ** The queries around the backend

    What each query does before it takes the handle, and what it does with the
    backend's answer. *)

Definition entity_filter_kind (filter : option pdcm_entity_filter_t) : pdcm_status_t + EntityKind :=
  match filter with
  | None => inr EK_Unknown
  | Some f =>
      if negb (validateOutputHeader (ef_header f) sizeof_entity_filter ==? PDCM_STATUS_SUCCESS)
         || negb (ef_reserved f =? 0) || negb (validPublicEntityKind (ef_kind f))
      then inl PDCM_STATUS_INVALID_ARGUMENT
      else inr (toInternalEntityKind (ef_kind f))
  end.

(** [*inout_count], the entities and the status; [capacity] is the count on
    entry, and the caller's array holds at least that many entities. *)
Definition entity_list_answer (result : EntityListResult) (entities : option (list pdcm_entity_info_t)) (capacity : Z)
    : pdcm_status_t * Z * option (list pdcm_entity_info_t) :=
  let status := st_code (elr_status result) in
  if status ==? PDCM_STATUS_UNSUPPORTED then (status, elr_detected_device_count result, entities)
  else if (status !=? PDCM_STATUS_SUCCESS) && (status !=? PDCM_STATUS_PARTIAL_RESULT) then (status, 0, entities)
  else
  let count := zlen (elr_entities result) in
  match entities with
  | None => (status, count, entities)
  | Some buffer =>
      if capacity <? count then (PDCM_STATUS_BUFFER_TOO_SMALL, count, entities)
      else if existsb (fun e => negb (validateOutputHeader (ei_header e) sizeof_entity_info ==? PDCM_STATUS_SUCCESS)
                                || negb (ei_reserved e =? 0)) (take (length (elr_entities result)) buffer)
      then (PDCM_STATUS_INVALID_ARGUMENT, count, entities)
      else (status, count, Some (map fillEntityInfo (elr_entities result) ++ drop (length (elr_entities result)) buffer))
  end.

Definition capability_set_bad (s : pdcm_capability_set_t) : bool :=
  negb (validateOutputHeader (ps_header s) sizeof_capability_set ==? PDCM_STATUS_SUCCESS)
  || (negb (has_value (ps_items s)) && negb (ps_item_capacity s =? 0)).

Definition capability_answer (result : Status * option CapabilitySet) (out : pdcm_capability_set_t)
    : pdcm_status_t * pdcm_capability_set_t :=
  let '(status, capabilities) := result in
  match capabilities with
  | Some source =>
      if negb (st_ok status)
      then (st_code status, mkPublicSet (ps_header out) (ps_entity out) (ps_items out) (ps_item_capacity out) 0 (ps_catalog_generation out))
      else
      let count := zlen (cs_items source) in
      let out1 items := mkPublicSet (ps_header out) (fillPublicEntityRef (cs_entity source)) items (ps_item_capacity out) count
                          (cs_catalog_generation source) in
      if (ps_item_capacity out <? count) || (negb (count =? 0) && negb (has_value (ps_items out)))
      then (PDCM_STATUS_BUFFER_TOO_SMALL, out1 (ps_items out))
      else
      let buffer := default [] (ps_items out) in
      if existsb (fun i => negb (validateOutputHeader (ci_header i) sizeof_capability_item ==? PDCM_STATUS_SUCCESS)
                           || negb (ci_reserved i =? 0)) (take (length (cs_items source)) buffer)
      then (PDCM_STATUS_INVALID_ARGUMENT, out1 (ps_items out))
      else
      (PDCM_STATUS_SUCCESS,
       out1 ((fun b => map fillCapabilityItem (cs_items source) ++ drop (length (cs_items source)) b) <$> ps_items out))
  | None => (st_code status, mkPublicSet (ps_header out) (ps_entity out) (ps_items out) (ps_item_capacity out) 0 (ps_catalog_generation out))
  end.

Definition health_request_bad (request : option pdcm_health_request_t) (out : option pdcm_health_result_t) : bool :=
  match request, out with
  | Some r, Some o =>
      negb (validateOutputHeader (ph_header r) sizeof_health_request ==? PDCM_STATUS_SUCCESS)
      || negb (validateOutputHeader (pq_header o) sizeof_health_result ==? PDCM_STATUS_SUCCESS)
      || negb (ph_reserved r =? 0) || (ph_subsystem_id r =? 0)
  | _, _ => true
  end.

Definition health_answer (result : HealthQueryResult) (out : pdcm_health_result_t) : pdcm_status_t * pdcm_health_result_t :=
  let status := st_code (hqr_status result) in
  if (status !=? PDCM_STATUS_SUCCESS) && (status !=? PDCM_STATUS_PARTIAL_RESULT) then (status, out)
  else
  match hqr_item result with
  | None => (PDCM_STATUS_INTERNAL, out)
  | Some item => (status, fillHealthResult item)
  end.

(** ** Strings in arrays *)

(** A character array read as a C string. *)
Fixpoint c_string (a : chars) : string :=
  match a with
  | [] => EmptyString
  | c :: a' => if ascii_code c =? 0 then EmptyString else String c (c_string a')
  end.

Lemma c_string_str s : c_string (String.list_ascii_of_string s) = c_str s.
Proof. induction s as [|c s IH]; [done|]. cbn. by rewrite IH. Qed.
Lemma c_string_app a b : c_string (a ++ nul :: b) = c_string a.
Proof. induction a as [|c a IH]; [done|]. cbn. by rewrite IH. Qed.
Lemma length_chars s : Z.of_nat (length (String.list_ascii_of_string s)) = str_size s.
Proof. unfold str_size. f_equal. induction s as [|c s IH]; [done|]. cbn. by rewrite IH. Qed.

(** A copied string fills the array, ends inside it, and reads back as the
    part of the source that fits. *)
Lemma into_array_spec s capacity : 0 < capacity ->
  zlen (into_array s capacity) = capacity /\ nul ∈ into_array s capacity /\
  c_string (into_array s capacity) = c_string (take (Z.to_nat (capacity - 1)) (String.list_ascii_of_string s)).
Proof.
  intros Hc. unfold into_array, copyVersionString. rewrite (proj2 (Z.eqb_neq _ _)) by lia. cbv zeta.
  pose proof (length_chars s) as Hl. split_and!; [| |].
  - unfold zlen, chars_zero. rewrite !length_app, length_take, length_drop, length_replicate. cbn [length]. lia.
  - apply elem_of_app. right. left.
  - cbn [app]. rewrite c_string_app. destruct (Z.le_ge_cases (str_size s) (capacity - 1)).
    + rewrite Z.min_l, !take_ge by lia. done.
    + by rewrite Z.min_r by lia.
Qed.

Lemma into_array_fits s capacity : str_size s < capacity -> c_string (into_array s capacity) = c_str s.
Proof.
  intros Hs. pose proof (length_chars s). unfold str_size in *.
  rewrite (proj2 (proj2 (into_array_spec s capacity ltac:(lia)))), take_ge by lia. apply c_string_str.
Qed.

Lemma endpoint_scan_spec n s :
  endpoint_scan n s = Z.min (Z.of_nat n) (str_size (c_str s)) /\
  (endpoint_scan n s < Z.of_nat n -> String.substring 0 (Z.to_nat (endpoint_scan n s)) s = c_str s).
Proof.
  revert s. induction n as [|n IH]; intros s; [split; [cbn; unfold str_size; lia|cbn; lia]|].
  destruct s as [|c s]; [done|]. cbn [endpoint_scan c_str]. destruct (ascii_code c =? 0); [by destruct s|].
  destruct (IH s) as [I1 I2]. unfold str_size in *. cbn [String.length].
  assert (0 <= endpoint_scan n s) as H0 by (rewrite I1; lia). split; [lia|]. intros Hlt.
  replace (Z.to_nat (1 + endpoint_scan n s)) with (S (Z.to_nat (endpoint_scan n s))) by lia.
  cbn [String.substring]. rewrite I2 by lia. done.
Qed.

(** ** The accepted options *)

Lemma flags_known f : u32 f -> Z.land f (u32_max - kKnownOpenFlags) = 0 <-> f = 0 \/ f = 1.
Proof.
  intros [H0 H1]. split; [|by intros [->| ->]]. intros Hl. destruct (decide (f <= 1)) as [|Hf]; [lia|]. exfalso.
  assert (1 <= Z.log2 f < 32) as [L1 L2].
  { split; [apply (Z.log2_le_pow2 f 1); lia|]. apply (Z.log2_lt_pow2 f 32); [lia|unfold u32_max in H1; lia]. }
  assert (Z.testbit (Z.land f (u32_max - kKnownOpenFlags)) (Z.log2 f) = true) as Hb.
  { rewrite Z.land_spec, Z.bit_log2 by lia. cbn [andb]. change (u32_max - kKnownOpenFlags) with (Z.shiftl (Z.ones 31) 1).
    rewrite Z.shiftl_spec by lia. apply Z.ones_spec_low. lia. }
  rewrite Hl, Z.bits_0 in Hb. done.
Qed.

(** The endpoint as the caller wrote it: a path of at most 107 characters. *)
Definition path_ok (endpoint : string) : Prop :=
  starts_with_slash (c_str endpoint) = true /\ str_size (c_str endpoint) <= kMaxEndpointBytes.

Record envelope_ok (o : pdcm_open_options_t) : Prop := {
  ev_version : hd_version (oo_header o) = PDCM_STRUCT_VERSION_1;
  ev_size : sizeof_open_options <= hd_struct_size (oo_header o);
  ev_flags : oo_flags o = 0 \/ oo_flags o = PDCM_OPEN_ALLOW_EMBEDDED_FALLBACK;
  ev_reserved : oo_reserved o = 0 }.
Definition protocol_ok (o : pdcm_open_options_t) : Prop :=
  oo_required_protocol_major o = kProtocolMajor /\ oo_required_protocol_minor o <= kProtocolMinor.
Record options_ok (o : pdcm_open_options_t) : Prop := {
  ok_envelope : envelope_ok o;
  ok_protocol : protocol_ok o;
  ok_mode : known_mode (oo_mode o) = true;
  ok_target : known_target (oo_target o) = true;
  ok_deadline : oo_deadline_ns o <= i64_max;
  ok_endpoint : forall endpoint, oo_endpoint o = Some endpoint -> oo_mode o <> PDCM_MODE_EMBEDDED /\ path_ok endpoint }.

(** What accepted options mean. *)
Definition effective_of (o : pdcm_open_options_t) : EffectiveOptions :=
  mkEffective (oo_mode o) (oo_flags o) (from_option c_str kDefaultEndpoint (oo_endpoint o))
    (if oo_deadline_ns o =? 0 then 1000 else Z.max 1 (oo_deadline_ns o / 1000000)) (oo_target o).

Lemma header_valid h size : negb (validateOutputHeader h size ==? PDCM_STATUS_SUCCESS) = false <->
  hd_version h = PDCM_STRUCT_VERSION_1 /\ size <= hd_struct_size h.
Proof. unfold validateOutputHeader, header_invalid. guard as G; cbn; bprop in G; split; try done; lia. Qed.

Lemma deadline_of_max ns : deadline_of ns = Z.max 1 (ns / 1000000).
Proof. unfold deadline_of. cbv zeta. guard as G; bprop in G; lia. Qed.

Lemma slash_c_str s : starts_with_slash (c_str s) = starts_with_slash s.
Proof.
  destruct s as [|c s]; [done|]. cbn. destruct (ascii_code c =? 0) eqn:E; [|done]. cbn. bprop in E. by rewrite E.
Qed.

(** The test of the endpoint in [parseOptions]. *)
Lemma endpoint_test s :
  let length := endpoint_scan (Z.to_nat (kMaxEndpointBytes + 1)) s in
  let bad := (length =? 0) || (kMaxEndpointBytes <? length) || negb (starts_with_slash s) in
  (bad = false <-> path_ok s) /\ (bad = false -> String.substring 0 (Z.to_nat length) s = c_str s).
Proof.
  cbv zeta. destruct (endpoint_scan_spec (Z.to_nat (kMaxEndpointBytes + 1)) s) as [E1 E2].
  rewrite Z2Nat.id in E1, E2 by done. unfold path_ok. rewrite slash_c_str.
  destruct (starts_with_slash s) eqn:Es; cbn [negb]; [|rewrite !orb_true_r; split; [split; [done|by intros []]|done]].
  assert (1 <= str_size (c_str s)) as H1.
  { rewrite <- slash_c_str in Es. destruct (c_str s); [done|]. unfold str_size. cbn. lia. }
  rewrite orb_false_r. split.
  - rewrite orb_false_iff, Z.eqb_neq, Z.ltb_ge, E1. unfold kMaxEndpointBytes in *. split; [intros []; split; [done|lia]|intros []; lia].
  - rewrite orb_false_iff, Z.ltb_ge. intros [_ Hle]. apply E2. lia.
Qed.

Lemma parse_options_spec o : u32 (oo_flags o) -> 0 <= oo_deadline_ns o ->
  match parseOptions (Some o) with
  | inr e => options_ok o /\ e = effective_of o
  | inl status =>
      if status ==? PDCM_STATUS_PROTOCOL_INCOMPATIBLE then envelope_ok o /\ ~ protocol_ok o
      else status = PDCM_STATUS_INVALID_ARGUMENT /\ ~ options_ok o /\ (envelope_ok o -> protocol_ok o)
  end.
Proof.
  intros Hf Hd. unfold parseOptions. guard as G1.
  { cbn. split_and!; [done| |]; [intros [[? ?] _]|intros [? ?]]; by rewrite (proj2 (header_valid _ _)) in G1. }
  apply header_valid in G1 as [H1 H2]. guard as G2.
  { cbn. apply orb_true_iff in G2. rewrite !negb_true_iff, !Z.eqb_neq, (flags_known _ Hf) in G2.
    split_and!; [done| |]; [intros [[_ _ E1 E2] _]|intros [_ _ E1 E2]]; unfold PDCM_OPEN_ALLOW_EMBEDDED_FALLBACK in *; tauto. }
  apply orb_false_iff in G2. rewrite !negb_false_iff, !Z.eqb_eq, (flags_known _ Hf) in G2. destruct G2 as [H3 H4].
  assert (envelope_ok o) as He by (split; done). guard as G3.
  { cbn. split; [done|]. intros [P1 P2]. rewrite P1 in G3. cbn in G3. apply Z.ltb_lt in G3. lia. }
  assert (protocol_ok o) as Hp by (bprop in G3; split; lia).
  guard as G4. { cbn. split_and!; [done| |done]. intros [_ _ Hm]. by rewrite Hm in G4. }
  guard as G5. { cbn. split_and!; [done| |done]. intros [_ _ _ Ht]. by rewrite Ht in G5. }
  guard as G6. { cbn. bprop in G6. split_and!; [done| |done]. intros [_ _ _ _ Hdl]. lia. }
  apply negb_false_iff in G4, G5. assert (oo_deadline_ns o <= i64_max) as Hdl.
  { apply andb_false_iff in G6 as [G6|G6]; bprop in G6; [rewrite G6; by vm_compute|lia]. }
  cbv zeta. unfold effective_of. rewrite deadline_of_max. cbn [eff_deadline effective_default].
  guard as G7; destruct (oo_endpoint o) as [s|] eqn:Es; cbn [from_option].
  - cbn. apply Z.eqb_eq in G7. split_and!; [done| |done]. intros [_ _ _ _ _ Hx]. by destruct (Hx _ Es).
  - split; [|done]. split; try done. by rewrite Es.
  - destruct (endpoint_test s) as [T1 T2]. apply Z.eqb_neq in G7. guard as G8.
    + cbn. split_and!; [done| |done]. intros [_ _ _ _ _ Hx]. destruct (Hx _ Es) as [_ Hx']. by apply T1 in Hx'.
    + rewrite (T2 eq_refl). split; [|done]. split; try done. intros s' Hs'. rewrite Es in Hs'. injection Hs' as <-. split; [done|by apply T1].
  - split; [|done]. split; try done. by rewrite Es.
Qed.

(** C10: Exact reading of the open options: they are accepted exactly when they
    are well formed, with the effective options they mean; a protocol that is
    not the library's is told apart from every other error.  Accepted options
    name an endpoint that the socket layer accepts, a deadline of at least one
    millisecond, and, with a target, a configuration the core accepts. *)
Theorem parse_options_exact o : u32 (oo_flags o) -> 0 <= oo_deadline_ns o ->
  match parseOptions (Some o) with
  | inr e => options_ok o /\ e = effective_of o /\
      validateEndpoint (eff_endpoint e) = st_success /\ 1 <= eff_deadline e /\
      (rc_validate (mkRuntimeConfig (toInternalTarget (eff_target e)) limits_default (eff_deadline e) 5000) = st_success
       <-> eff_target e <> PDCM_TARGET_UNKNOWN)
  | inl status =>
      if status ==? PDCM_STATUS_PROTOCOL_INCOMPATIBLE then envelope_ok o /\ ~ protocol_ok o
      else status = PDCM_STATUS_INVALID_ARGUMENT /\ ~ options_ok o /\ (envelope_ok o -> protocol_ok o)
  end.
Proof.
  intros Hf Hd. pose proof (parse_options_spec o Hf Hd) as Hp. destruct (parseOptions (Some o)) as [status|e]; [done|].
  destruct Hp as [Hok ->]. pose proof Hok as [_ _ _ K1 _ K2]. unfold effective_of.
  cbn [eff_endpoint eff_deadline eff_target].
  set (deadline := if oo_deadline_ns o =? 0 then 1000 else Z.max 1 (oo_deadline_ns o / 1000000)).
  assert (1 <= deadline) as Hd1 by (unfold deadline; guard as G; lia). split_and!; try done.
  - unfold validateEndpoint. destruct (oo_endpoint o) as [s|]; [|done]. destruct (K2 s eq_refl) as [_ [P1 P2]].
    cbn [from_option]. unfold endpoint_invalid. destruct (c_str s) as [|c s']; [done|]. cbn in P1. rewrite P1. cbn [negb orb].
    rewrite (proj2 (Z.leb_gt _ _)); [done|]. unfold sun_path_size, kMaxEndpointBytes in *. lia.
  - unfold known_target in K1. unfold rc_validate, toInternalTarget. cbn [rc_target rc_limits rc_provider_call_timeout rc_shutdown_grace].
    rewrite (proj2 (Z.leb_gt deadline 0)) by lia. apply orb_true_iff in K1 as [K1%orb_true_iff|K1]; [destruct K1 as [K1|K1]|];
      apply Z.eqb_eq in K1; rewrite K1; split; try done; by intros [].
Qed.

(** An accepted deadline may be too far away for a 64-bit clock: with it, the
    addition in [deadlineAfter] leaves the range of the nanosecond count. *)
Lemma accepted_deadline_overflows now : 1000000000 <= now ->
  exists o e, parseOptions (Some o) = inr e /\ i64_max < ms_after now (eff_deadline e).
Proof.
  intros Hn. exists (mkOpenOptions (header_of sizeof_open_options) PDCM_MODE_STANDALONE 0 None i64_max 1 0 PDCM_TARGET_UNKNOWN 0).
  exists (mkEffective PDCM_MODE_STANDALONE 0 kDefaultEndpoint 9223372036854 PDCM_TARGET_UNKNOWN).
  split; [reflexivity|]. cbn [eff_deadline]. unfold ms_after, i64_max. lia.
Qed.

(** ** Reading the public structures back *)

Definition observation_status_of (v : Z) : ObservationStatus :=
  if v =? 0 then OS_Valid else if v =? 1 then OS_Stale else if v =? 2 then OS_NotAvailable
  else if v =? 3 then OS_Unsupported else OS_Error.
Definition entity_state_of (v : Z) : EntityState := if v =? 1 then ES_Ready else if v =? 2 then ES_Error else ES_Unknown.
Definition capability_kind_of (v : Z) : CapabilityKind := if v =? 1 then CAP_MetricsCatalog else if v =? 2 then CAP_Metric else CAP_Health.
Definition capability_reason_of (v : Z) : CapabilityReason :=
  if v =? 0 then CR_Supported else if v =? 1 then CR_CatalogBlockedExternal else if v =? 2 then CR_ProviderUnsupported
  else if v =? 3 then CR_DependencyMissing else if v =? 4 then CR_TemporarilyUnavailable else if v =? 5 then CR_PermissionHidden
  else if v =? 6 then CR_PostP0Disabled else CR_TopologyUnsupported.
Definition health_state_of (v : Z) : HealthState :=
  if v =? 1 then HS_Healthy else if v =? 2 then HS_Warning else if v =? 3 then HS_Error else HS_Unknown.

Definition ref_of_public (r : pdcm_entity_ref_t) : EntityRef :=
  mkEntityRef (toInternalEntityKind (pr_kind r)) (pr_pdcm_id r) (pr_generation r).
Definition entity_of_info (i : pdcm_entity_info_t) : EntityRecord :=
  mkEntityRecord (ref_of_public (ei_entity i)) (entity_state_of (ei_state i))
    (mkAttribute (observation_status_of (ei_native_id_status i)) (c_string (ei_native_id i)))
    (mkAttribute (observation_status_of (ei_pci_bdf_status i)) (c_string (ei_pci_bdf i)))
    (mkAttribute (observation_status_of (ei_pdrv_version_status i)) (c_string (ei_pdrv_version i)))
    "" TK_Unknown (status_of_value (ei_item_status i)).
Definition capability_of_public (i : pdcm_capability_item_t) : CapabilityItem :=
  mkCapabilityItem (capability_kind_of (ci_kind i)) (ci_id i) (negb (ci_supported i =? 0)) (capability_reason_of (ci_reason i))
    (ci_semantic_version i) (ci_catalog_generation i).

(** A text that an array of the capacity holds. *)
Definition text_fits (s : string) (capacity : Z) : Prop := c_str s = s /\ str_size s < capacity.
Definition entity_fits (e : EntityRecord) : Prop :=
  text_fits (sa_value (ent_native_id e)) 64 /\ text_fits (sa_value (ent_pci_bdf e)) 32 /\ text_fits (sa_value (ent_pdrv_version e)) 64.

Lemma text_fits_read s capacity : text_fits s capacity -> c_string (into_array s capacity) = s.
Proof. intros [H1 H2]. by rewrite into_array_fits. Qed.

Lemma observation_status_back s : observation_status_of (toPublicObservationStatus s) = s.
Proof. by destruct s. Qed.
Lemma ref_back e : ref_of_public (fillPublicEntityRef e) = e.
Proof. by destruct e as [[] ? ?]. Qed.

Lemma attribute_back a capacity : text_fits (sa_value a) capacity ->
  mkAttribute (observation_status_of (toPublicObservationStatus (sa_status a))) (c_string (into_array (sa_value a) capacity)) = a.
Proof. intros F. rewrite (text_fits_read _ _ F), observation_status_back. by destruct a. Qed.

Lemma entity_info_back e : entity_fits e -> entity_of_info (fillEntityInfo e) = entity_view e.
Proof.
  intros (F1 & F2 & F3). unfold entity_of_info, entity_view. f_equal.
  - apply ref_back.
  - unfold fillEntityInfo. cbn [ei_state]. by destruct (ent_state e).
  - exact (attribute_back _ 64 F1).
  - exact (attribute_back _ 32 F2).
  - exact (attribute_back _ 64 F3).
  - apply status_value_roundtrip.
Qed.

Lemma capability_back i : capability_of_public (fillCapabilityItem i) = i.
Proof. by destruct i as [[] ? [] [] ? ?]. Qed.

Lemma ref_usable e : er_kind e = EK_Device -> er_generation e <> 0 -> toInternalEntityRef (Some (fillPublicEntityRef e)) = inr e.
Proof.
  intros Hk Hg. destruct e as [k i g]. cbn in Hk, Hg. subst k. unfold toInternalEntityRef. cbn.
  by rewrite (proj2 (Z.eqb_neq g 0)) by done.
Qed.

(** A structure the caller has initialised. *)
Definition info_ready (e : pdcm_entity_info_t) : Prop :=
  (hd_version (ei_header e) = PDCM_STRUCT_VERSION_1 /\ sizeof_entity_info <= hd_struct_size (ei_header e)) /\ ei_reserved e = 0.
Definition item_ready (i : pdcm_capability_item_t) : Prop :=
  (hd_version (ci_header i) = PDCM_STRUCT_VERSION_1 /\ sizeof_capability_item <= hd_struct_size (ci_header i)) /\ ci_reserved i = 0.

Lemma ready_test {A} (head : A -> pdcm_struct_header_t) (reserved : A -> Z) size l :
  existsb (fun x => negb (validateOutputHeader (head x) size ==? PDCM_STATUS_SUCCESS) || negb (reserved x =? 0)) l = false <->
  Forall (fun x => (hd_version (head x) = PDCM_STRUCT_VERSION_1 /\ size <= hd_struct_size (head x)) /\ reserved x = 0) l.
Proof.
  induction l as [|x l IH]; [done|]. cbn [existsb]. rewrite !orb_false_iff, header_valid, IH, negb_false_iff, Z.eqb_eq.
  split; [intros []; by constructor|intros Hc; by inversion Hc].
Qed.

(** A written array: the filled structures, then what was there. *)
Lemma written_lookup {A B} (f : A -> B) l (buffer : list B) : (length l <= length buffer)%nat ->
  let buffer' := map f l ++ drop (length l) buffer in
  length buffer' = length buffer /\ (forall i x, l !! i = Some x -> buffer' !! i = Some (f x)) /\
  (forall i, (length l <= i)%nat -> buffer' !! i = buffer !! i).
Proof.
  intros Hle. cbv zeta. split_and!.
  - rewrite length_app, length_map, length_drop. lia.
  - intros i x Hx. rewrite lookup_app_l by (rewrite length_map; by eapply lookup_lt_Some). by rewrite list_lookup_fmap, Hx.
  - intros i Hi. rewrite lookup_app_r by (by rewrite length_map). rewrite lookup_drop, length_map. f_equal. lia.
Qed.

Definition health_of_public (r : pdcm_health_result_t) : HealthResult :=
  mkHealthResult (ref_of_public (pq_entity r)) (pq_subsystem_id r) (health_state_of (pq_state r))
    (observation_status_of (pq_item_status r)) (pq_catalog_generation r) (pq_evaluated_monotonic_time_ns r) (pq_evidence_age_ns r)
    (if pq_evidence_id r =? 0 then []
     else [mkEvidenceRef (pq_evidence_id r) (pq_sequence_or_token r) None
             (pq_evaluated_monotonic_time_ns r - pq_evidence_age_ns r) (mkSource (c_string (pq_source r)) "")])
    (if str_empty (c_string (pq_limitation r)) then [] else [mkLimitation HL_EvidenceMissing (c_string (pq_limitation r))])
    (health_code_of_value (pq_code r)).

(** The public structure has room for one limitation. *)
Definition first_limitation (h : HealthResult) : HealthResult :=
  mkHealthResult (hr_entity h) (hr_subsystem_id h) (hr_state h) (hr_item_status h) (hr_catalog_generation h)
    (hr_evaluated_monotonic_time_ns h) (hr_evidence_age_ns h) (hr_evidence h) (take 1 (hr_limitations h)) (hr_code h).

Definition health_fits (h : HealthResult) : Prop :=
  (forall e, head (hr_evidence h) = Some e -> text_fits (src_provider (evr_source e)) PDCM_HEALTH_SOURCE_CAPACITY) /\
  (forall l, head (hr_limitations h) = Some l -> text_fits (lim_detail l) PDCM_HEALTH_LIMITATION_CAPACITY /\ lim_detail l <> "").

Lemma health_back h : health_fits h -> health_of_public (fillHealthResult h) = health_view (first_limitation h).
Proof.
  intros [F1 F2]. unfold health_of_public, health_view, first_limitation, fillHealthResult.
  cbn [hr_entity hr_subsystem_id hr_state hr_item_status hr_catalog_generation hr_evaluated_monotonic_time_ns hr_evidence_age_ns
    hr_evidence hr_limitations hr_code].
  destruct (hr_evidence h) as [|e es]; destruct (hr_limitations h) as [|l ls];
    cbn [pq_entity pq_subsystem_id pq_state pq_item_status pq_code pq_catalog_generation pq_evaluated_monotonic_time_ns
      pq_evidence_age_ns pq_evidence_id pq_sequence_or_token pq_source pq_limitation take map];
    rewrite ?(text_fits_read _ _ (F1 _ eq_refl)), ?(text_fits_read _ _ (proj1 (F2 _ eq_refl))), ref_back, observation_status_back,
      (proj1 (health_code_roundtrip _)); f_equal; try (by destruct (hr_state h));
    (destruct (lim_detail l) eqn:El; [by destruct (F2 _ eq_refl)|done]).
Qed.

(** ** The buffer protocols *)

Definition accepted (s : Status) : Prop := st_code s = PDCM_STATUS_SUCCESS \/ st_code s = PDCM_STATUS_PARTIAL_RESULT.

(** The first places of the array hold the entities, as the caller can read and
    use them; the places after them are as they were. *)
Record delivered (es : list EntityRecord) (buffer buffer' : list pdcm_entity_info_t) : Prop := {
  dl_length : length buffer' = length buffer;
  dl_rest : forall i, (length es <= i)%nat -> buffer' !! i = buffer !! i;
  dl_entity : forall i e, es !! i = Some e -> entity_fits e ->
    exists info, buffer' !! i = Some info /\ info_ready info /\ entity_of_info info = entity_view e /\
      (er_kind (ent_ref e) = EK_Device -> er_generation (ent_ref e) <> 0 ->
       toInternalEntityRef (Some (ei_entity info)) = inr (ent_ref e)) }.

Lemma accepted_codes s : accepted s ->
  (st_code s ==? PDCM_STATUS_UNSUPPORTED) = false /\ (st_code s !=? PDCM_STATUS_SUCCESS) && (st_code s !=? PDCM_STATUS_PARTIAL_RESULT) = false.
Proof. by intros [-> | ->]. Qed.

Lemma entity_list_protocol r buffer capacity : accepted (elr_status r) -> capacity <= zlen buffer ->
  let code := st_code (elr_status r) in
  let n := zlen (elr_entities r) in
  entity_list_answer r None capacity = (code, n, None) /\
  (capacity < n -> entity_list_answer r (Some buffer) capacity = (PDCM_STATUS_BUFFER_TOO_SMALL, n, Some buffer)) /\
  (n <= capacity -> ~ Forall info_ready (take (length (elr_entities r)) buffer) ->
   entity_list_answer r (Some buffer) capacity = (PDCM_STATUS_INVALID_ARGUMENT, n, Some buffer)) /\
  (n <= capacity -> Forall info_ready (take (length (elr_entities r)) buffer) ->
   exists buffer', entity_list_answer r (Some buffer) capacity = (code, n, Some buffer') /\ delivered (elr_entities r) buffer buffer').
Proof.
  intros Ha Hc. cbv zeta. unfold entity_list_answer. destruct (accepted_codes _ Ha) as [-> ->]. cbv iota zeta.
  pose proof (ready_test ei_header ei_reserved sizeof_entity_info (take (length (elr_entities r)) buffer)) as Hr.
  split_and!; [done|intros Hlt; by rewrite (proj2 (Z.ltb_lt _ _))|intros Hle Hn|intros Hle Hy];
    rewrite (proj2 (Z.ltb_ge _ _)) by lia.
  - destruct (existsb _ _) eqn:E; [done|]. by destruct Hn; apply Hr.
  - rewrite (proj2 Hr) by done. eexists. split; [done|]. unfold zlen in *.
    destruct (written_lookup fillEntityInfo (elr_entities r) buffer ltac:(lia)) as (W1 & W2 & W3).
    split; [done|done|]. intros i e He Hf. exists (fillEntityInfo e). split_and!; [by apply W2|done| |].
    + by apply entity_info_back.
    + apply ref_usable.
Qed.

(** With a smaller array the code writes no entity at all. *)
Lemma short_array_untouched r buffer capacity : accepted (elr_status r) -> capacity <= zlen buffer ->
  capacity < zlen (elr_entities r) ->
  entity_list_answer r (Some buffer) capacity = (PDCM_STATUS_BUFFER_TOO_SMALL, zlen (elr_entities r), Some buffer).
Proof. intros Ha Hc. by destruct (entity_list_protocol r buffer capacity Ha Hc) as (_ & P & _). Qed.

Record delivered_items (items : list CapabilityItem) (buffer buffer' : list pdcm_capability_item_t) : Prop := {
  di_length : length buffer' = length buffer;
  di_rest : forall i, (length items <= i)%nat -> buffer' !! i = buffer !! i;
  di_item : forall i item, items !! i = Some item ->
    exists out, buffer' !! i = Some out /\ item_ready out /\ capability_of_public out = item }.

Definition set_written (out : pdcm_capability_set_t) (source : CapabilitySet) (items : option (list pdcm_capability_item_t)) : pdcm_capability_set_t :=
  mkPublicSet (ps_header out) (fillPublicEntityRef (cs_entity source)) items (ps_item_capacity out) (zlen (cs_items source))
    (cs_catalog_generation source).

Lemma capability_protocol source out : capability_set_bad out = false ->
  (forall b, ps_items out = Some b -> ps_item_capacity out <= zlen b) -> 0 <= ps_item_capacity out ->
  let n := zlen (cs_items source) in
  let ready := Forall item_ready (take (length (cs_items source)) (default [] (ps_items out))) in
  let answer := capability_answer (st_success, Some source) out in
  (ps_item_capacity out < n -> answer = (PDCM_STATUS_BUFFER_TOO_SMALL, set_written out source (ps_items out))) /\
  (n <= ps_item_capacity out -> ~ ready -> answer = (PDCM_STATUS_INVALID_ARGUMENT, set_written out source (ps_items out))) /\
  (n <= ps_item_capacity out -> ready -> exists items', answer = (PDCM_STATUS_SUCCESS, set_written out source items') /\
     delivered_items (cs_items source) (default [] (ps_items out)) (default [] items')).
Proof.
  intros Hb Hcap H0. cbv zeta. unfold capability_answer, set_written. change (negb (st_ok st_success)) with false. cbv iota zeta.
  pose proof (ready_test ci_header ci_reserved sizeof_capability_item
    (take (length (cs_items source)) (default [] (ps_items out)))) as Hr.
  split; [intros Hlt; by rewrite (proj2 (Z.ltb_lt _ _))|].
  assert (zlen (cs_items source) <= ps_item_capacity out -> (ps_item_capacity out <? zlen (cs_items source))
    || negb (zlen (cs_items source) =? 0) && negb (has_value (ps_items out)) = false /\
    zlen (cs_items source) <= zlen (default [] (ps_items out))) as Hfit.
  { intros Hle. rewrite (proj2 (Z.ltb_ge _ _)) by lia. cbn [orb]. unfold capability_set_bad in Hb. apply orb_false_iff in Hb as [_ Hb].
    destruct (ps_items out) as [b|]; cbn [has_value default negb] in *.
    - rewrite andb_false_r. split; [done|]. specialize (Hcap b eq_refl). cbn. lia.
    - cbn [andb] in Hb. bprop in Hb. unfold zlen in *. cbn. rewrite (proj2 (Z.eqb_eq _ 0)) by lia. split; [done|lia]. }
  split; intros Hle Hx; destruct (Hfit Hle) as [-> Hl].
  - destruct (existsb _ _) eqn:E; [done|]. by destruct Hx; apply Hr.
  - rewrite (proj2 Hr) by done. eexists. split; [done|]. unfold zlen in Hl.
    destruct (written_lookup fillCapabilityItem (cs_items source) (default [] (ps_items out)) ltac:(lia)) as (W1 & W2 & W3).
    destruct (ps_items out) as [b|]; cbn [default fmap option_fmap option_map] in *.
    + split; [done|done|]. intros i item Hi. exists (fillCapabilityItem item). split_and!; [by apply W2|done|apply capability_back].
    + cbn in Hl. destruct (cs_items source); [|cbn in Hl; lia]. by split.
Qed.

(** ** Witness *)

Definition sample_options : pdcm_open_options_t :=
  mkOpenOptions (header_of sizeof_open_options) PDCM_MODE_AUTO 1 (Some "/tmp/pdcm.sock") 2500000 1 0 PDCM_TARGET_EMU 0.

Lemma parse_options_exact_witness :
  match parseOptions (Some sample_options) with
  | inr e => options_ok sample_options /\ eff_endpoint e = "/tmp/pdcm.sock" /\ eff_deadline e = 2 /\
      validateEndpoint (eff_endpoint e) = st_success
  | inl _ => False
  end.
Proof.
  assert (u32 (oo_flags sample_options)) as Hf by (split; vm_compute; discriminate).
  assert (0 <= oo_deadline_ns sample_options) as Hd by (vm_compute; discriminate).
  pose proof (parse_options_exact sample_options Hf Hd) as H.
  destruct (parseOptions (Some sample_options)) as [st|e] eqn:E; [vm_compute in E; discriminate|].
  destruct H as (H1 & H2 & H3 & _). split; [exact H1|]. rewrite H2 in H3 |- *. split; [reflexivity|]. split; [reflexivity|exact H3].
Defined.
