(* ===== verification/Handle.v ===== *)
(** Handles and calls (second half of src/product/src/client/pdcm_api.cpp, and
    the interface [ClientBackend] of client/backend.hpp): the handle of the C
    interface, the calls in progress on it, the queries and [pdcm_close].

    The handles live in a heap of the process; using a handle that has been
    deleted is [Undefined].  A result is [Waits] while a wait of the code does
    not end.  A query is an acquire, the backend's work and a release, each
    under a mutex; [pdcm_close] is a beginning, the end of its wait and the
    deletion.  The functions compose these as one thread does, and [api_step]
    interleaves them between threads; since the mutex is a member of the handle,
    a thread that has been given a pointer and waits for the mutex is a state of
    its own there. *)
From S2P Require Import Prelude Containers Common Provider Session Catalog Frame EventStore DataStore HealthStore ProcessorGraph Metrics Service Protocol Handshake Socket ClientView Standalone PublicApi.
Local Open Scope string_scope.
Local Open Scope list_scope.
Open Scope Z_scope.
Open Scope pdcm_scope.

(** ** Outcomes *)

Inductive outcome (A : Type) := Done (a : A) | Waits | Undefined.
Arguments Done {A} _.
Arguments Waits {A}.
Arguments Undefined {A}.

Definition obind {A B} (m : outcome A) (f : A -> outcome B) : outcome B :=
  match m with Done a => f a | Waits => Waits | Undefined => Undefined end.
Notation "'let!' x ':=' m 'in' k" := (obind m (fun x => k))
  (at level 200, x pattern, m at level 100, k at level 200) : pdcm_scope.
Definition or_waits {A} (o : option A) : outcome A := match o with Some a => Done a | None => Waits end.
Definition or_undefined {A} (o : option A) : outcome A := match o with Some a => Done a | None => Undefined end.

(** The outcome satisfies [Q], waits only where it may, and is never undefined. *)
Definition ends {A} (may_wait : Prop) (Q : A -> Prop) (o : outcome A) : Prop :=
  match o with Done a => Q a | Waits => may_wait | Undefined => False end.
Lemma ends_bind {A B} (may_wait : Prop) (Q : A -> Prop) (R : B -> Prop) m f :
  ends may_wait Q m -> (forall a, Q a -> ends may_wait R (f a)) -> ends may_wait R (obind m f).
Proof. destruct m; cbn; auto. Qed.

(** ** The backend interface

    [ClientBackend]: a method works on the backend and on the world [W] it talks
    to, and may wait. *)
Class ClientBackend (W B : Type) := {
  cb_version : W -> B -> option (Status * option BackendVersion * B * W);
  cb_entities : W -> B -> EntityKind -> option (EntityListResult * B * W);
  cb_capabilities : W -> B -> EntityRef -> option (Status * option CapabilitySet * B * W);
  cb_health : W -> B -> HealthRequest -> option (HealthQueryResult * B * W);
  cb_close : W -> B -> Status * B * W }.

Definition kHandleMagic : Z := 5783821820654537777.
Definition kHandleType : Z := 1.
Definition kHandleAbiVersion : Z := 1.

Inductive HandleState := HN_Open | HN_Closing | HN_Closed.
#[export] Instance HandleState_eq_dec : EqDecision HandleState.
Proof. solve_decision. Defined.

(** A pointer to a handle; 0 is [nullptr]. *)
Notation ptr := Z (only parsing).

Section Handle.
Context {W B : Type} `{CB : ClientBackend W B}.

Record pdcm_handle := mkHandle {
  h_magic : Z;
  h_type : Z;
  h_abi_version : Z;
  h_state : HandleState;
  h_active_calls : Z;
  h_backend : option B }.
Definition handle_new (backend : B) : pdcm_handle := mkHandle kHandleMagic kHandleType kHandleAbiVersion HN_Open 0 (Some backend).
Definition h_with_calls (h : pdcm_handle) (n : Z) : pdcm_handle :=
  mkHandle (h_magic h) (h_type h) (h_abi_version h) (h_state h) n (h_backend h).
Definition h_with_state (h : pdcm_handle) (s : HandleState) : pdcm_handle :=
  mkHandle (h_magic h) (h_type h) (h_abi_version h) s (h_active_calls h) (h_backend h).
Definition h_with_backend (h : pdcm_handle) (b : B) : pdcm_handle :=
  mkHandle (h_magic h) (h_type h) (h_abi_version h) (h_state h) (h_active_calls h) (Some b).

(** The process: the world of the backends and the handles on the heap. *)
Record Client := mkClient { cl_world : W; cl_handles : gmap Z pdcm_handle }.
Definition cl_set (c : Client) (p : ptr) (h : pdcm_handle) : Client := mkClient (cl_world c) (<[p := h]> (cl_handles c)).

Definition handle_usable (h : pdcm_handle) : bool :=
  (h_magic h =? kHandleMagic) && (h_type h =? kHandleType) && (h_abi_version h =? kHandleAbiVersion)
  && (h_state h ==? HN_Open) && has_value (h_backend h).

(** ** Calls *)

(** [ActiveCall::acquire], from the moment the mutex is taken; between threads
    the wait for it is a step before this one. *)
Definition acquire (c : Client) (p : ptr) : outcome (pdcm_status_t * Client) :=
  if p =? 0 then Done (PDCM_STATUS_INVALID_ARGUMENT, c)
  else
  let! h := or_undefined (cl_handles c !! p) in
  if negb (handle_usable h) then Done (PDCM_STATUS_INVALID_ARGUMENT, c)
  else Done (PDCM_STATUS_SUCCESS, cl_set c p (h_with_calls h (h_active_calls h + 1))).

(** [ActiveCall::release]; the notification wakes the waiting close, whose step
    tests the count. *)
Definition call_release (c : Client) (p : ptr) : outcome Client :=
  let! h := or_undefined (cl_handles c !! p) in
  Done (cl_set c p (h_with_calls h (h_active_calls h - 1))).

(** A method of the backend that the call got from the handle. *)
Definition on_backend {A} (c : Client) (p : ptr) (method : W -> B -> option (A * B * W)) : outcome (A * Client) :=
  let! h := or_undefined (cl_handles c !! p) in
  let! b := or_undefined (h_backend h) in
  let! (a, b1, w1) := or_waits (method (cl_world c) b) in
  Done (a, mkClient w1 (<[p := h_with_backend h b1]> (cl_handles c))).

(** A whole call: refused, or the method's result. *)
Definition with_call {A} (c : Client) (p : ptr) (method : W -> B -> option (A * B * W)) : outcome ((pdcm_status_t + A) * Client) :=
  let! (acquired, c1) := acquire c p in
  if acquired !=? PDCM_STATUS_SUCCESS then Done (inl acquired, c1)
  else
  let! (a, c2) := on_backend c1 p method in
  let! c3 := call_release c2 p in
  Done (inr a, c3).

Definition pdcm_version_get (c : Client) (handle : ptr) (out_version : option pdcm_version_info_t)
    : outcome (pdcm_status_t * option pdcm_version_info_t * Client) :=
  match out_version with
  | None => Done (PDCM_STATUS_INVALID_ARGUMENT, None, c)
  | Some out =>
      if validateOutputHeader (vi_header out) sizeof_version_info !=? PDCM_STATUS_SUCCESS
      then Done (PDCM_STATUS_INVALID_ARGUMENT, Some out, c)
      else if handle =? 0 then Done (PDCM_STATUS_SUCCESS, Some fillLocalVersion, c)
      else
      let! (called, c1) := with_call c handle cb_version in
      match called with
      | inl refused => Done (refused, Some out, c1)
      | inr (status, version) =>
          if negb (st_ok status) then Done (st_code status, Some fillLocalVersion, c1)
          else Done (PDCM_STATUS_SUCCESS, Some (fillBackendVersion fillLocalVersion (default version_default version)), c1)
      end
  end.

(** The status, the count and the array; the count may be absent. *)
Definition pdcm_entity_list (c : Client) (handle : ptr) (filter : option pdcm_entity_filter_t)
    (entities : option (list pdcm_entity_info_t)) (inout_count : option Z)
    : outcome (pdcm_status_t * option Z * option (list pdcm_entity_info_t) * Client) :=
  match inout_count with
  | None => Done (PDCM_STATUS_INVALID_ARGUMENT, None, entities, c)
  | Some capacity =>
  match entity_filter_kind filter with
  | inl refused => Done (refused, Some capacity, entities, c)
  | inr kind =>
      let! (called, c1) := with_call c handle (fun w b => cb_entities w b kind) in
      match called with
      | inl refused => Done (refused, Some capacity, entities, c1)
      | inr result =>
          let '(status, count, entities1) := entity_list_answer result entities capacity in
          Done (status, Some count, entities1, c1)
      end
  end end.

Definition pdcm_capability_query (c : Client) (handle : ptr) (entity : option pdcm_entity_ref_t)
    (out_capabilities : option pdcm_capability_set_t) : outcome (pdcm_status_t * option pdcm_capability_set_t * Client) :=
  match out_capabilities with
  | None => Done (PDCM_STATUS_INVALID_ARGUMENT, None, c)
  | Some out =>
      if capability_set_bad out then Done (PDCM_STATUS_INVALID_ARGUMENT, Some out, c)
      else
      match toInternalEntityRef entity with
      | inl refused => Done (refused, Some out, c)
      | inr internal_entity =>
          let! (called, c1) := with_call c handle (fun w b => cb_capabilities w b internal_entity) in
          match called with
          | inl refused => Done (refused, Some out, c1)
          | inr result => let '(status, out1) := capability_answer result out in Done (status, Some out1, c1)
          end
      end
  end.

Definition pdcm_health_query (c : Client) (handle : ptr) (request : option pdcm_health_request_t)
    (out_result : option pdcm_health_result_t) : outcome (pdcm_status_t * option pdcm_health_result_t * Client) :=
  match request, out_result with
  | Some r, Some out =>
      if health_request_bad request out_result then Done (PDCM_STATUS_INVALID_ARGUMENT, Some out, c)
      else
      match toInternalEntityRef (Some (ph_entity r)) with
      | inl refused => Done (refused, Some out, c)
      | inr entity =>
          let! (called, c1) := with_call c handle
            (fun w b => cb_health w b (mkHealthRequest entity (ph_subsystem_id r) (ph_catalog_generation r) (ph_max_age_ns r))) in
          match called with
          | inl refused => Done (refused, Some out, c1)
          | inr result => let '(status, out1) := health_answer result out in Done (status, Some out1, c1)
          end
      end
  | _, _ => Done (PDCM_STATUS_INVALID_ARGUMENT, out_result, c)
  end.

(** ** Closing *)

(** The check and the change to [kClosing], once the mutex is taken. *)
Definition close_begin (c : Client) (p : ptr) : outcome (pdcm_status_t * Client) :=
  if p =? 0 then Done (PDCM_STATUS_INVALID_ARGUMENT, c)
  else
  let! h := or_undefined (cl_handles c !! p) in
  if negb (handle_usable h) then Done (PDCM_STATUS_INVALID_ARGUMENT, c)
  else Done (PDCM_STATUS_SUCCESS, cl_set c p (h_with_state h HN_Closing)).

(** The wait for the calls in progress, and the rest of the locked block. *)
Definition close_take (c : Client) (p : ptr) : outcome (B * Client) :=
  let! h := or_undefined (cl_handles c !! p) in
  if negb (h_active_calls h =? 0) then Waits
  else
  let! b := or_undefined (h_backend h) in
  Done (b, cl_set c p (mkHandle 0 (h_type h) (h_abi_version h) HN_Closed (h_active_calls h) None)).

(** The backend's close and the deletion of the handle. *)
Definition close_delete (c : Client) (p : ptr) (b : B) : outcome (pdcm_status_t * Client) :=
  let '(status, _, w1) := cb_close (cl_world c) b in
  let! _ := or_undefined (cl_handles c !! p) in
  Done (st_code status, mkClient w1 (delete p (cl_handles c))).

(** The status and the caller's pointer. *)
Definition pdcm_close (c : Client) (handle_pointer : option ptr) : outcome (pdcm_status_t * option ptr * Client) :=
  match handle_pointer with
  | None => Done (PDCM_STATUS_INVALID_ARGUMENT, None, c)
  | Some p =>
      let! (status, c1) := close_begin c p in
      if status !=? PDCM_STATUS_SUCCESS then Done (status, Some p, c1)
      else
      let! (b, c2) := close_take c1 p in
      let! (closed, c3) := close_delete c2 p b in
      Done (closed, Some 0, c3)
  end.

(** ** Sequential use *)

Definition open_handle (c : Client) (p : ptr) (b : B) : Prop :=
  p <> 0 /\ exists h, cl_handles c !! p = Some h /\ handle_usable h = true /\ h_backend h = Some b.

(** A call on an open handle is the method on its backend; the handle is as it
    was, with the backend the method left. *)
Lemma with_call_open {A} c p b (method : W -> B -> option (A * B * W)) a b1 w1 :
  open_handle c p b -> method (cl_world c) b = Some (a, b1, w1) ->
  exists h, cl_handles c !! p = Some h /\
    with_call c p method = Done (inr a, mkClient w1 (<[p := h_with_backend h b1]> (cl_handles c))) /\
    open_handle (mkClient w1 (<[p := h_with_backend h b1]> (cl_handles c))) p b1.
Proof.
  intros (Hp & h & Hh & Hu & Hb) Hm. exists h. split; [done|]. split.
  - unfold with_call, acquire. rewrite (proj2 (Z.eqb_neq _ _)), Hh by done. cbn [or_undefined obind]. rewrite Hu. cbn [negb obind].
    change (PDCM_STATUS_SUCCESS !=? PDCM_STATUS_SUCCESS) with false. cbv iota. unfold on_backend, cl_set. cbn [cl_handles cl_world].
    rewrite lookup_insert_eq. cbn [or_undefined obind h_with_calls h_backend]. rewrite Hb. cbn [or_undefined obind]. rewrite Hm. cbn [or_waits obind].
    unfold call_release. cbn [cl_handles]. rewrite lookup_insert_eq. cbn [or_undefined obind]. do 3 f_equal. unfold cl_set. cbn [cl_world cl_handles].
    rewrite !insert_insert_eq. unfold h_with_calls, h_with_backend. cbn. by rewrite Z.add_simpl_r.
  - split; [done|]. exists (h_with_backend h b1). cbn [cl_handles]. rewrite lookup_insert_eq. split_and!; [done| |done].
    unfold handle_usable in *. rewrite Hb in Hu. exact Hu.
Qed.

(** A call on the null pointer or on a handle that is not open is refused and
    changes nothing. *)
Lemma with_call_refused {A} c p (method : W -> B -> option (A * B * W)) :
  p = 0 \/ (exists h, cl_handles c !! p = Some h /\ handle_usable h = false) ->
  with_call c p method = Done (inl PDCM_STATUS_INVALID_ARGUMENT, c).
Proof.
  intros H. unfold with_call, acquire. destruct (p =? 0) eqn:E; [done|]. destruct H as [->|(h & Hh & Hu)]; [done|].
  rewrite Hh. cbn [or_undefined obind]. by rewrite Hu.
Qed.

(** Closing an open handle with no call in progress closes its backend and
    frees it. *)
Lemma close_open c p b : open_handle c p b -> (forall h, cl_handles c !! p = Some h -> h_active_calls h = 0) ->
  let '(status, _, w1) := cb_close (cl_world c) b in
  pdcm_close c (Some p) = Done (st_code status, Some 0, mkClient w1 (delete p (cl_handles c))).
Proof.
  intros (Hp & h & Hh & Hu & Hb) Hz. destruct (cb_close (cl_world c) b) as [[status b1] w1] eqn:Ec.
  unfold pdcm_close, close_begin. rewrite (proj2 (Z.eqb_neq _ _)), Hh by done. cbn [or_undefined obind]. rewrite Hu. cbn [negb obind].
  change (PDCM_STATUS_SUCCESS !=? PDCM_STATUS_SUCCESS) with false. cbv iota. unfold close_take, cl_set. cbn [cl_handles cl_world].
  rewrite lookup_insert_eq. cbn [or_undefined obind h_with_state h_active_calls h_backend]. rewrite (Hz h Hh), Hb. cbn [Z.eqb negb or_undefined obind].
  unfold close_delete. cbn [cl_world cl_handles]. rewrite Ec, lookup_insert_eq. cbn [or_undefined obind]. do 3 f_equal.
  rewrite !delete_insert_eq. done.
Qed.
End Handle.

(** ** Threads

    The calls of the threads of a process, step by step.  A thread is idle,
    waiting for the mutex of a handle, in a call on a handle, or closing one; a
    closing thread first waits, then holds the backend it took. *)

Section Threads.
Context {W B : Type} `{CB : ClientBackend W B}.

Inductive backend_query := AskVersion | AskEntities (kind : EntityKind) | AskCapabilities (entity : EntityRef) | AskHealth (request : HealthRequest).

(** A query as a method of the backend, without its result. *)
Definition run_query (q : backend_query) (w : W) (b : B) : option (unit * B * W) :=
  match q with
  | AskVersion => '(_, b1, w1) ← cb_version w b; Some (tt, b1, w1)
  | AskEntities kind => '(_, b1, w1) ← cb_entities w b kind; Some (tt, b1, w1)
  | AskCapabilities entity => '(_, b1, w1) ← cb_capabilities w b entity; Some (tt, b1, w1)
  | AskHealth request => '(_, b1, w1) ← cb_health w b request; Some (tt, b1, w1)
  end.

(** What a thread that waits for the mutex of a handle wants. *)
Inductive entry := EnterCall | EnterClose.

Record machine := mkMachine {
  mc_client : Client (W := W) (B := B);
  mc_calls : gmap Z Z;
  mc_closing : gmap Z Z;
  mc_taken : gmap Z (Z * B);
  mc_entering : gmap Z (Z * entry) }.

Definition idle (m : machine) (t : Z) : bool :=
  negb (has_value (mc_calls m !! t)) && negb (has_value (mc_closing m !! t)) && negb (has_value (mc_taken m !! t))
  && negb (has_value (mc_entering m !! t)).

(** [EvEnter]: a query or [pdcm_close] is called with a pointer; [EvLock]: it gets
    the mutex of the handle. *)
Inductive api_event :=
  | EvOpen (p : ptr) (backend : B)
  | EvEnter (t : Z) (p : ptr) (e : entry)
  | EvLock (t : Z)
  | EvQuery (t : Z) (q : backend_query)
  | EvRelease (t : Z)
  | EvCloseTake (t : Z)
  | EvCloseDelete (t : Z).

(** An event that is not the thread's next step is [Waits]. *)
Definition api_step (m : machine) (ev : api_event) : outcome machine :=
  let c := mc_client m in
  match ev with
  | EvOpen p b =>
      if (p =? 0) || has_value (cl_handles c !! p) then Waits
      else Done (mkMachine (cl_set c p (handle_new b)) (mc_calls m) (mc_closing m) (mc_taken m) (mc_entering m))
  | EvEnter t p e =>
      if negb (idle m t) then Waits
      else if p =? 0 then Done m
      else Done (mkMachine c (mc_calls m) (mc_closing m) (mc_taken m) (<[t := (p, e)]> (mc_entering m)))
  | EvLock t =>
      let! (p, e) := or_waits (mc_entering m !! t) in
      let entering := delete t (mc_entering m) in
      match e with
      | EnterCall =>
          let! (status, c1) := acquire c p in
          Done (mkMachine c1 (if status ==? PDCM_STATUS_SUCCESS then <[t := p]> (mc_calls m) else mc_calls m)
                  (mc_closing m) (mc_taken m) entering)
      | EnterClose =>
          let! (status, c1) := close_begin c p in
          Done (mkMachine c1 (mc_calls m) (if status ==? PDCM_STATUS_SUCCESS then <[t := p]> (mc_closing m) else mc_closing m)
                  (mc_taken m) entering)
      end
  | EvQuery t q =>
      let! p := or_waits (mc_calls m !! t) in
      let! (_, c1) := on_backend c p (run_query q) in
      Done (mkMachine c1 (mc_calls m) (mc_closing m) (mc_taken m) (mc_entering m))
  | EvRelease t =>
      let! p := or_waits (mc_calls m !! t) in
      let! c1 := call_release c p in
      Done (mkMachine c1 (delete t (mc_calls m)) (mc_closing m) (mc_taken m) (mc_entering m))
  | EvCloseTake t =>
      let! p := or_waits (mc_closing m !! t) in
      let! (b, c1) := close_take c p in
      Done (mkMachine c1 (mc_calls m) (delete t (mc_closing m)) (<[t := (p, b)]> (mc_taken m)) (mc_entering m))
  | EvCloseDelete t =>
      let! (p, b) := or_waits (mc_taken m !! t) in
      let! (_, c1) := close_delete c p b in
      Done (mkMachine c1 (mc_calls m) (mc_closing m) (delete t (mc_taken m)) (mc_entering m))
  end.

(** Whatever the threads call, in whatever order. *)
Inductive reaches : machine -> Prop :=
  | reaches_init w : reaches (mkMachine (mkClient w ∅) ∅ ∅ ∅ ∅)
  | reaches_step m ev m' : reaches m -> api_step m ev = Done m' -> reaches m'.

(** The number of threads in a call on a handle. *)
Definition calls_on (m : gmap Z Z) (p : ptr) : Z := Z.of_nat (size (filter (fun tp => tp.2 = p) m)).

(** How a handle on the heap stands with the threads. *)
Record handle_ok (m : machine) (p : ptr) (h : pdcm_handle (B := B)) : Prop := {
  ho_pointer : p <> 0;
  ho_tags : h_type h = kHandleType /\ h_abi_version h = kHandleAbiVersion;
  ho_calls : h_active_calls h = calls_on (mc_calls m) p;
  ho_open : h_state h = HN_Open -> h_magic h = kHandleMagic /\ is_Some (h_backend h) /\
    (forall t, mc_closing m !! t <> Some p) /\ (forall t b, mc_taken m !! t <> Some (p, b));
  ho_closing : h_state h = HN_Closing -> h_magic h = kHandleMagic /\ is_Some (h_backend h) /\
    (exists t, forall t', mc_closing m !! t' = Some p <-> t' = t) /\ (forall t b, mc_taken m !! t <> Some (p, b));
  ho_closed : h_state h = HN_Closed -> h_magic h = 0 /\ h_backend h = None /\ h_active_calls h = 0 /\
    (forall t, mc_closing m !! t <> Some p) /\ (exists t, forall t', (exists b, mc_taken m !! t' = Some (p, b)) <-> t' = t) }.

Record machine_ok (m : machine) : Prop := {
  mo_handles : forall p h, cl_handles (mc_client m) !! p = Some h -> handle_ok m p h;
  mo_calls : forall t p, mc_calls m !! t = Some p -> exists h, cl_handles (mc_client m) !! p = Some h /\ h_state h <> HN_Closed;
  mo_closing : forall t p, mc_closing m !! t = Some p -> exists h, cl_handles (mc_client m) !! p = Some h /\ h_state h = HN_Closing;
  mo_taken : forall t p b, mc_taken m !! t = Some (p, b) -> exists h, cl_handles (mc_client m) !! p = Some h /\ h_state h = HN_Closed }.

Lemma calls_on_insert (m : gmap Z Z) t p q : m !! t = None ->
  calls_on (<[t := p]> m) q = calls_on m q + (if decide (p = q) then 1 else 0).
Proof.
  intros Hn. unfold calls_on. destruct (decide (p = q)) as [->|Hne].
  - rewrite map_filter_insert_True by done. rewrite map_size_insert_None; [lia|]. apply map_lookup_filter_None. by left.
  - rewrite map_filter_insert_not' by (cbn; congruence). lia.
Qed.

Lemma calls_on_delete (m : gmap Z Z) t p q : m !! t = Some p ->
  calls_on (delete t m) q = calls_on m q - (if decide (p = q) then 1 else 0).
Proof.
  intros Hs. rewrite <- (insert_delete_id m t p Hs) at 2. rewrite calls_on_insert by apply lookup_delete_eq. lia.
Qed.

Lemma calls_on_pos (m : gmap Z Z) t p : m !! t = Some p -> 0 < calls_on m p.
Proof.
  intros Hs. pose proof (calls_on_delete m t p p Hs) as E. rewrite decide_True in E by done. unfold calls_on in *. lia.
Qed.

(** A handle that an event does not concern stays as it is. *)
Lemma handle_ok_frame m m' q h : handle_ok m q h -> calls_on (mc_calls m') q = calls_on (mc_calls m) q ->
  (forall t, mc_closing m' !! t = Some q <-> mc_closing m !! t = Some q) ->
  (forall t b, mc_taken m' !! t = Some (q, b) <-> mc_taken m !! t = Some (q, b)) -> handle_ok m' q h.
Proof.
  intros [I1 I2 I3 I4 I5 I6] Hc Hl Ht. split; [done|done|by rewrite Hc|intros Hs..].
  - destruct (I4 Hs) as (? & ? & J1 & J2). split_and!; [done|done|intros t; rewrite Hl; apply J1|intros t b; rewrite Ht; apply J2].
  - destruct (I5 Hs) as (? & ? & [t J1] & J2). split_and!; [done|done|exists t; intros t'; by rewrite Hl|intros t' b; rewrite Ht; apply J2].
  - destruct (I6 Hs) as (? & ? & ? & J1 & [t J2]). split_and!; [done|done|done|intros t'; rewrite Hl; apply J1|].
    exists t. intros t'. rewrite <- J2. by setoid_rewrite Ht.
Qed.

Lemma calls_on_none (m : gmap Z Z) p : (forall t, m !! t <> Some p) -> calls_on m p = 0.
Proof.
  intros Hn. unfold calls_on. replace (filter _ m) with (∅ : gmap Z Z); [done|]. symmetry. apply map_empty. intros t.
  apply map_lookup_filter_None. right. intros q Hq Ep. cbn in Ep. subst q. by apply (Hn t).
Qed.

(** The tables of two machines agree on every handle but [p]. *)
Record agree (m m' : machine) (p : ptr) : Prop := {
  ag_count : forall q, q <> p -> calls_on (mc_calls m') q = calls_on (mc_calls m) q;
  ag_calls : forall q t, q <> p -> mc_calls m' !! t = Some q -> mc_calls m !! t = Some q;
  ag_closing : forall q t, q <> p -> mc_closing m' !! t = Some q <-> mc_closing m !! t = Some q;
  ag_taken : forall q t b, q <> p -> mc_taken m' !! t = Some (q, b) <-> mc_taken m !! t = Some (q, b) }.

(** An event that replaces one handle. *)
Lemma machine_update m m' p h' w :
  machine_ok m -> mc_client m' = mkClient w (<[p := h']> (cl_handles (mc_client m))) -> agree m m' p -> handle_ok m' p h' ->
  (forall t, mc_calls m' !! t = Some p -> h_state h' <> HN_Closed) -> (forall t, mc_closing m' !! t = Some p -> h_state h' = HN_Closing) ->
  (forall t b, mc_taken m' !! t = Some (p, b) -> h_state h' = HN_Closed) -> machine_ok m'.
Proof.
  intros [O1 O2 O3 O4] Ec [A1 A2 A3 A4] Hp H1 H2 H3.
  assert (forall q, q <> p -> cl_handles (mc_client m') !! q = cl_handles (mc_client m) !! q) as Hne
    by (intros q Hq; rewrite Ec; cbn; by rewrite lookup_insert_ne).
  assert (cl_handles (mc_client m') !! p = Some h') as Heq by (rewrite Ec; cbn; apply lookup_insert_eq).
  split.
  - intros q h Hh. destruct (decide (q = p)) as [->|Hq]; [rewrite Heq in Hh; by injection Hh as <-|]. rewrite Hne in Hh by done.
    eapply handle_ok_frame; [by apply O1| | |]; auto.
  - intros t q Hq. destruct (decide (q = p)) as [->|Hn]; [exists h'; split; [done|by eapply H1]|]. rewrite Hne by done. by eapply O2, A2.
  - intros t q Hq. destruct (decide (q = p)) as [->|Hn]; [exists h'; split; [done|by eapply H2]|]. rewrite Hne by done. by eapply O3, A3.
  - intros t q b Hq. destruct (decide (q = p)) as [->|Hn]; [exists h'; split; [done|by eapply H3]|]. rewrite Hne by done. by eapply O4, A4.
Qed.

Lemma agree_same m c p en : agree m (mkMachine c (mc_calls m) (mc_closing m) (mc_taken m) en) p.
Proof. by split. Qed.

(** A thread that is neither in a call nor closing. *)
Definition free (m : machine) (t : Z) : Prop := mc_calls m !! t = None /\ mc_closing m !! t = None /\ mc_taken m !! t = None.

Lemma not_idle m t : idle m t = true -> free m t /\ mc_entering m !! t = None.
Proof. unfold idle, free. by destruct (mc_calls m !! t), (mc_closing m !! t), (mc_taken m !! t), (mc_entering m !! t). Qed.

Lemma usable_iff (h : pdcm_handle (B := B)) : handle_usable h = true <-> h_magic h = kHandleMagic /\ h_type h = kHandleType /\
  h_abi_version h = kHandleAbiVersion /\ h_state h = HN_Open /\ is_Some (h_backend h).
Proof. unfold handle_usable. rewrite !andb_true_iff, !Z.eqb_eq, bool_decide_eq_true, has_value_true. tauto. Qed.

Lemma open_step m p b en : machine_ok m -> p <> 0 -> cl_handles (mc_client m) !! p = None ->
  machine_ok (mkMachine (cl_set (mc_client m) p (handle_new b)) (mc_calls m) (mc_closing m) (mc_taken m) en).
Proof.
  intros Hok Hp Hn. destruct (Hok) as [O1 O2 O3 O4].
  assert (forall t, mc_calls m !! t <> Some p) as N1 by (intros t Ht; destruct (O2 _ _ Ht) as (h & Hh & _); congruence).
  assert (forall t, mc_closing m !! t <> Some p) as N2 by (intros t Ht; destruct (O3 _ _ Ht) as (h & Hh & _); congruence).
  assert (forall t b, mc_taken m !! t <> Some (p, b)) as N3 by (intros t b' Ht; destruct (O4 _ _ _ Ht) as (h & Hh & _); congruence).
  eapply machine_update; [done|reflexivity|apply agree_same| |done|by intros t ?%N2|by intros t b' ?%N3].
  split; try done. cbn. by rewrite calls_on_none.
Qed.

Lemma acquire_step m t p h en : machine_ok m -> free m t -> cl_handles (mc_client m) !! p = Some h -> handle_usable h = true ->
  machine_ok (mkMachine (cl_set (mc_client m) p (h_with_calls h (h_active_calls h + 1))) (<[t := p]> (mc_calls m)) (mc_closing m) (mc_taken m) en).
Proof.
  intros Hok [N1 [N2 N3]] Hh (U1 & U2 & U3 & U4 & U5)%usable_iff. destruct (mo_handles _ Hok p h Hh) as [I1 I2 I3 I4 I5 I6].
  destruct (I4 U4) as (_ & _ & J1 & J2).
  eapply machine_update with (p := p); [done|reflexivity| | |cbn; congruence|by intros t' ?%J1|by intros t' b ?%J2].
  - split; try done; cbn [mc_calls].
    + intros q Hq. rewrite calls_on_insert, decide_False by congruence. lia.
    + intros q t' Hq. destruct (decide (t' = t)) as [->|]; [rewrite lookup_insert_eq; congruence|by rewrite lookup_insert_ne].
  - split; cbn; try done; try congruence. rewrite I3, calls_on_insert, decide_True by done. done.
Qed.

Lemma query_step m p h b1 w1 en : machine_ok m -> cl_handles (mc_client m) !! p = Some h -> is_Some (h_backend h) ->
  machine_ok (mkMachine (mkClient w1 (<[p := h_with_backend h b1]> (cl_handles (mc_client m)))) (mc_calls m) (mc_closing m) (mc_taken m) en).
Proof.
  intros Hok Hh [b Hb]. destruct (Hok) as [O1 O2 O3 O4]. destruct (O1 p h Hh) as [I1 I2 I3 I4 I5 I6].
  eapply machine_update with (p := p); [done|reflexivity|apply agree_same| |cbn..].
  - split; cbn; try done.
    + intros Hs. destruct (I4 Hs) as (? & _ & ?). split; [done|split; [by eexists|done]].
    + intros Hs. destruct (I5 Hs) as (? & _ & ?). split; [done|split; [by eexists|done]].
    + intros Hs. destruct (I6 Hs) as (_ & E & _). congruence.
  - intros t Ht. destruct (O2 _ _ Ht) as (h0 & ? & ?). congruence.
  - intros t Ht. destruct (O3 _ _ Ht) as (h0 & ? & ?). congruence.
  - intros t b' Ht. destruct (O4 _ _ _ Ht) as (h0 & ? & ?). congruence.
Qed.

Lemma release_step m t p h en : machine_ok m -> mc_calls m !! t = Some p -> cl_handles (mc_client m) !! p = Some h ->
  machine_ok (mkMachine (cl_set (mc_client m) p (h_with_calls h (h_active_calls h - 1))) (delete t (mc_calls m)) (mc_closing m) (mc_taken m) en).
Proof.
  intros Hok Ht Hh. destruct (Hok) as [O1 O2 O3 O4]. destruct (O1 p h Hh) as [I1 I2 I3 I4 I5 I6].
  destruct (O2 t p Ht) as (h0 & Hh0 & Hs0). assert (h0 = h) as -> by congruence.
  eapply machine_update with (p := p); [done|reflexivity| | |cbn; done|cbn..].
  - split; try done; cbn [mc_calls].
    + intros q Hq. rewrite (calls_on_delete _ _ _ _ Ht), decide_False by congruence. lia.
    + intros q t' Hq. rewrite lookup_delete_Some. by intros [_ ?].
  - split; cbn; try done. rewrite I3, (calls_on_delete _ _ _ _ Ht), decide_True by done. done.
  - intros t' Ht'. destruct (O3 _ _ Ht') as (h1 & ? & ?). congruence.
  - intros t' b Ht'. destruct (O4 _ _ _ Ht') as (h1 & ? & ?). congruence.
Qed.

Lemma close_begin_step m t p h en : machine_ok m -> free m t -> cl_handles (mc_client m) !! p = Some h -> handle_usable h = true ->
  machine_ok (mkMachine (cl_set (mc_client m) p (h_with_state h HN_Closing)) (mc_calls m) (<[t := p]> (mc_closing m)) (mc_taken m) en).
Proof.
  intros Hok [N1 [N2 N3]] Hh (U1 & U2 & U3 & U4 & U5)%usable_iff. destruct (mo_handles _ Hok p h Hh) as [I1 I2 I3 I4 I5 I6].
  destruct (I4 U4) as (_ & _ & J1 & J2).
  eapply machine_update with (p := p); [done|reflexivity| | |done|done|by intros t' b ?%J2].
  - split; try done; cbn [mc_closing]. intros q t' Hq. destruct (decide (t' = t)) as [->|].
    + rewrite lookup_insert_eq. split; congruence.
    + by rewrite lookup_insert_ne.
  - split; cbn [h_with_state h_state h_active_calls h_magic h_backend h_type h_abi_version mc_closing mc_taken]; try done.
    intros _. split_and!; [done|done| |done]. exists t. intros t'. destruct (decide (t' = t)) as [->|]; [by rewrite lookup_insert_eq|].
    rewrite lookup_insert_ne by done. split; [by intros ?%J1|done].
Qed.

Lemma close_take_step m t p h b en : machine_ok m -> mc_closing m !! t = Some p -> cl_handles (mc_client m) !! p = Some h ->
  h_active_calls h = 0 -> h_backend h = Some b -> mc_taken m !! t = None ->
  machine_ok (mkMachine (cl_set (mc_client m) p (mkHandle 0 (h_type h) (h_abi_version h) HN_Closed (h_active_calls h) None))
    (mc_calls m) (delete t (mc_closing m)) (<[t := (p, b)]> (mc_taken m)) en).
Proof.
  intros Hok Ht Hh Hz Hb Hn. destruct (Hok) as [O1 O2 O3 O4]. destruct (O1 p h Hh) as [I1 I2 I3 I4 I5 I6].
  destruct (O3 t p Ht) as (h0 & Hh0 & Hs0). assert (h0 = h) as -> by congruence. destruct (I5 Hs0) as (_ & _ & [t0 J1] & J2).
  assert (t0 = t) as -> by (symmetry; by apply J1).
  eapply machine_update with (p := p); [done|reflexivity| | |cbn..].
  - split; try done; cbn [mc_closing mc_taken].
    + intros q t' Hq. rewrite lookup_delete_Some. split; [by intros [_ ?]|intros Hc; split; [|done]]. intros <-. congruence.
    + intros q t' b' Hq. destruct (decide (t' = t)) as [->|]; [rewrite lookup_insert_eq; split; congruence|by rewrite lookup_insert_ne].
  - split; cbn [h_state h_active_calls h_magic h_backend h_type h_abi_version mc_closing mc_taken mc_calls]; try done. intros _. split_and!; try done.
    + intros t'. rewrite lookup_delete_Some. intros [Hne Hc]. by apply J1 in Hc.
    + exists t. intros t'. destruct (decide (t' = t)) as [->|]; [rewrite lookup_insert_eq; split; [done|by eexists]|].
      rewrite lookup_insert_ne by done. split; [by intros [b' ?%J2]|done].
  - intros t' Ht'. pose proof (calls_on_pos _ _ _ Ht'). lia.
  - intros t'. rewrite lookup_delete_Some. intros [Hne Hc]. by apply J1 in Hc.
  - done.
Qed.

Lemma close_delete_step m t p b w1 en : machine_ok m -> mc_taken m !! t = Some (p, b) ->
  machine_ok (mkMachine (mkClient w1 (delete p (cl_handles (mc_client m)))) (mc_calls m) (mc_closing m) (delete t (mc_taken m)) en).
Proof.
  intros Hok Ht. destruct (Hok) as [O1 O2 O3 O4]. destruct (O4 t p b Ht) as (h & Hh & Hs).
  destruct (ho_closed _ _ _ (O1 p h Hh) Hs) as (_ & _ & _ & J1 & [t0 J2]). assert (t0 = t) as -> by (symmetry; apply J2; by eexists).
  split; cbn [mc_client cl_handles mc_calls mc_closing mc_taken].
  - intros q h' [Hne Hq]%lookup_delete_Some. eapply handle_ok_frame; [by apply O1|done|done|]. intros t' b'. cbn [mc_taken].
    rewrite lookup_delete_Some. split; [by intros [_ ?]|intros Hc; split; [|done]]. intros <-. congruence.
  - intros t' q Hq. destruct (O2 _ _ Hq) as (h' & Hh' & Hs'). exists h'. split; [|done]. apply lookup_delete_Some. split; [|done].
    intros <-. congruence.
  - intros t' q Hq. destruct (O3 _ _ Hq) as (h' & Hh' & Hs'). exists h'. split; [|done]. apply lookup_delete_Some. split; [|done].
    intros <-. congruence.
  - intros t' q b' [Hne Hq]%lookup_delete_Some. destruct (O4 _ _ _ Hq) as (h' & Hh' & Hs'). exists h'. split; [|done].
    apply lookup_delete_Some. split; [|done]. intros <-. apply Hne. symmetry. apply J2. by eexists.
Qed.

(** The machine does not depend on who waits for a mutex. *)
Lemma entering_ok m en : machine_ok m -> machine_ok (mkMachine (mc_client m) (mc_calls m) (mc_closing m) (mc_taken m) en).
Proof.
  intros [O1 O2 O3 O4]. split; cbn [mc_client mc_calls mc_closing mc_taken]; try done.
  intros p h Hh. by eapply handle_ok_frame; [apply O1| | |].
Qed.

(** A thread does one thing at a time. *)
Definition one_role (m : machine) : Prop :=
  (forall t, mc_closing m !! t = None \/ mc_taken m !! t = None) /\
  forall t x, mc_entering m !! t = Some x -> free m t.

Definition sound (m : machine) : Prop := machine_ok m /\ one_role m.

(** Taking the mutex of a handle that is there. *)
Lemma lock_sound m t p e : sound m -> mc_entering m !! t = Some (p, e) -> p = 0 \/ is_Some (cl_handles (mc_client m) !! p) ->
  exists m', api_step m (EvLock t) = Done m' /\ sound m'.
Proof.
  intros [Hok [Hone Hfree]] Ht Hp. pose proof (Hfree t _ Ht) as Hft.
  assert (forall calls closing taken, (forall t', t' <> t -> calls !! t' = mc_calls m !! t' /\ closing !! t' = mc_closing m !! t') ->
    taken = mc_taken m -> forall c, (closing !! t = None \/ taken !! t = None) ->
    one_role (mkMachine c calls closing taken (delete t (mc_entering m)))) as Hrole.
  { intros calls closing taken Hne -> c Hc. split; cbn [mc_closing mc_taken mc_entering].
    - intros t'. destruct (decide (t' = t)) as [->|Hd]; [done|]. destruct (Hne t' Hd) as [_ ->]. apply Hone.
    - intros t' x [Hd Hx]%lookup_delete_Some. specialize (Hfree t' x Hx) as (F1 & F2 & F3). unfold free. cbn.
      destruct (Hne t' ltac:(done)) as [-> ->]. done. }
  destruct Hft as (F1 & F2 & F3). cbn [api_step]. rewrite Ht. cbn [or_waits obind].
  destruct (Z.eqb_spec p 0) as [->|Hp0].
  { destruct e; (eexists; split; [reflexivity|]); (split; [by apply entering_ok|apply Hrole; [done|done|by right]]). }
  destruct Hp as [?|[h Hh]]; [done|].
  destruct e; [unfold acquire|unfold close_begin]; rewrite (proj2 (Z.eqb_neq _ _)), Hh by done; cbn [or_undefined obind];
    destruct (handle_usable h) eqn:Hu; cbn [negb obind]; (eexists; split; [reflexivity|]); cbn; split;
    try (by apply entering_ok); try (apply Hrole; [done|done|by right]).
  - by apply acquire_step.
  - rewrite bool_decide_true by done. apply Hrole; [|done|by right]. intros t' Hd. by rewrite lookup_insert_ne.
  - by apply close_begin_step.
  - rewrite bool_decide_true by done. apply Hrole; [|done|by right]. intros t' Hd. by rewrite lookup_insert_ne.
Qed.

(** A step on a sound machine is undefined only where a thread takes the mutex
    of a handle that is not there; every other step keeps the machine sound. *)
Lemma api_step_sound m ev : sound m ->
  match api_step m ev with
  | Done m' => sound m'
  | Waits => True
  | Undefined => exists t p e, ev = EvLock t /\ mc_entering m !! t = Some (p, e) /\ cl_handles (mc_client m) !! p = None
  end.
Proof.
  intros Hs. pose proof Hs as [Hok [Hone Hfree]].
  destruct ev as [p b|t p e|t|t q|t|t|t]; cbn [api_step].
  - guard as G; [done|]. apply orb_false_iff in G as [G1 G2]. bprop in G1. apply has_value_false in G2. split; [by apply open_step|done].
  - destruct (idle m t) eqn:Hi; [|done]. cbn [negb]. guard as G; [done|]. split; [by apply entering_ok|]. split; [done|].
    apply not_idle in Hi as [Hi _]. intros t' x. cbn [mc_entering]. destruct (decide (t' = t)) as [->|]; [by intros _|].
    rewrite lookup_insert_ne by done. apply Hfree.
  - destruct (mc_entering m !! t) as [[p e]|] eqn:Ht; [|done].
    destruct (decide (p = 0 \/ is_Some (cl_handles (mc_client m) !! p))) as [Hp|Hp].
    + destruct (lock_sound m t p e Hs Ht Hp) as (m' & Hm & Hm'). cbn [api_step] in Hm. rewrite Ht in Hm. by rewrite Hm.
    + assert (cl_handles (mc_client m) !! p = None) as Hh by (apply eq_None_not_Some; tauto).
      cbn [or_waits obind]. unfold acquire, close_begin. rewrite (proj2 (Z.eqb_neq _ _)), Hh by tauto.
      destruct e; cbn; [by exists t, p, EnterCall|by exists t, p, EnterClose].
  - destruct (mc_calls m !! t) as [p|] eqn:Ht; [|done]. cbn [or_waits obind]. destruct (mo_calls _ Hok t p Ht) as (h & Hh & Hst).
    unfold on_backend. rewrite Hh. cbn [or_undefined obind].
    assert (is_Some (h_backend h)) as Hb.
    { destruct (h_state h) eqn:E; [apply (ho_open _ _ _ (mo_handles _ Hok p h Hh) E)|apply (ho_closing _ _ _ (mo_handles _ Hok p h Hh) E)|done]. }
    pose proof Hb as [b Hb']. rewrite Hb'. cbn [or_undefined obind].
    destruct (run_query q _ b) as [[[a b1] w1]|]; [|done]. cbn [or_waits obind]. split; [by apply query_step|done].
  - destruct (mc_calls m !! t) as [p|] eqn:Ht; [|done]. cbn [or_waits obind]. destruct (mo_calls _ Hok t p Ht) as (h & Hh & Hst).
    unfold call_release. rewrite Hh. cbn [or_undefined obind]. split; [by apply release_step|]. split; [done|].
    intros t' x Hx. destruct (Hfree t' x Hx) as (F1 & F2 & F3). split_and!; [|done|done]. cbn. apply lookup_delete_None. by right.
  - destruct (mc_closing m !! t) as [p|] eqn:Ht; [|done]. cbn [or_waits obind]. destruct (mo_closing _ Hok t p Ht) as (h & Hh & Hst).
    unfold close_take. rewrite Hh. cbn [or_undefined obind]. guard as G; [done|]. bprop in G.
    destruct (ho_closing _ _ _ (mo_handles _ Hok p h Hh) Hst) as (_ & [b Hb] & _). rewrite Hb. cbn [or_undefined obind].
    assert (mc_taken m !! t = None) as Hn by (destruct (Hone t); [congruence|done]).
    split; [by eapply close_take_step|]. split; cbn [mc_closing mc_taken mc_entering].
    + intros t'. destruct (decide (t' = t)) as [->|]; [left; apply lookup_delete_eq|]. rewrite lookup_delete_ne, lookup_insert_ne by done. apply Hone.
    + intros t' x Hx. destruct (Hfree t' x Hx) as (F1 & F2 & F3). assert (t' <> t) by (intros ->; congruence).
      split_and!; cbn; [done|apply lookup_delete_None; by right|by rewrite lookup_insert_ne].
  - destruct (mc_taken m !! t) as [[p b]|] eqn:Ht; [|done]. cbn [or_waits obind]. destruct (mo_taken _ Hok t p b Ht) as (h & Hh & Hst).
    unfold close_delete. destruct (cb_close _ b) as [[st b1] w1]. rewrite Hh. cbn [or_undefined obind].
    split; [by eapply close_delete_step|]. split; cbn [mc_closing mc_taken mc_entering].
    + intros t'. destruct (Hone t') as [?|Hx]; [by left|right]. rewrite lookup_delete_None. by right.
    + intros t' x Hx. destruct (Hfree t' x Hx) as (F1 & F2 & F3). split_and!; [done|done|]. cbn. apply lookup_delete_None. by right.
Qed.

Lemma reaches_sound m : reaches m -> sound m.
Proof.
  induction 1 as [w|m ev m' Hr IH Hs].
  - split; [by split|]. split; [by left|done].
  - pose proof (api_step_sound m ev IH) as H. by rewrite Hs in H.
Qed.

(** C6: Handles under every interleaving.  Whatever pointers the threads pass
    and however their calls and closes interleave, the only step that can touch
    a freed handle is the first one, the taking of its mutex, by a thread that
    was given the pointer and got there after the handle was deleted; every
    other step is defined.  In particular a call in progress has a handle that
    is there, with the backend in it, and the handle counts exactly the calls in
    progress; a close has taken the backend only when no call is left on the
    handle, and at most one thread closes it. *)
Theorem handle_safety m ev : reaches m ->
  (api_step m ev = Undefined <->
     exists t p e, ev = EvLock t /\ mc_entering m !! t = Some (p, e) /\ p <> 0 /\ cl_handles (mc_client m) !! p = None) /\
  (forall p h, cl_handles (mc_client m) !! p = Some h -> h_active_calls h = calls_on (mc_calls m) p) /\
  (forall t p, mc_calls m !! t = Some p -> exists h b, cl_handles (mc_client m) !! p = Some h /\ h_backend h = Some b) /\
  (forall t p b, mc_taken m !! t = Some (p, b) -> is_Some (cl_handles (mc_client m) !! p) /\ calls_on (mc_calls m) p = 0 /\
     (forall t', mc_closing m !! t' <> Some p) /\ (forall t' b', mc_taken m !! t' = Some (p, b') -> t' = t)) /\
  (forall t t' p, mc_closing m !! t = Some p -> mc_closing m !! t' = Some p -> t' = t).
Proof.
  intros Hs%reaches_sound. pose proof Hs as [Hok _]. split_and!.
  - split.
    + intros E. pose proof (api_step_sound m ev Hs) as Hst. rewrite E in Hst. destruct Hst as (t & p & e & -> & Ht & Hn).
      exists t, p, e. split_and!; try done. intros ->.
      destruct (lock_sound m t 0 e Hs Ht (or_introl eq_refl)) as (m' & Hm & _). congruence.
    + intros (t & p & e & -> & Ht & Hp & Hn). cbn [api_step]. rewrite Ht. cbn [or_waits obind]. unfold acquire, close_begin.
      rewrite (proj2 (Z.eqb_neq _ _)), Hn by done. by destruct e.
  - intros p h Hh. apply (ho_calls _ _ _ (mo_handles _ Hok p h Hh)).
  - intros t p Ht. destruct (mo_calls _ Hok t p Ht) as (h & Hh & Hst). pose proof (mo_handles _ Hok p h Hh) as Hho.
    assert (is_Some (h_backend h)) as [b Hb] by (destruct (h_state h) eqn:E; [apply (ho_open _ _ _ Hho E)|apply (ho_closing _ _ _ Hho E)|done]).
    by exists h, b.
  - intros t p b Ht. destruct (mo_taken _ Hok t p b Ht) as (h & Hh & Hst). pose proof (mo_handles _ Hok p h Hh) as Hho.
    destruct (ho_closed _ _ _ Hho Hst) as (_ & _ & Hz & J1 & [t0 J2]). assert (t0 = t) as -> by (symmetry; apply J2; by eexists).
    split_and!; [by eexists|by rewrite <- (ho_calls _ _ _ Hho)|done|]. intros t' b' Ht'. apply J2. by eexists.
  - intros t t' p Ht Ht'. destruct (mo_closing _ Hok t p Ht) as (h & Hh & Hst).
    destruct (ho_closing _ _ _ (mo_handles _ Hok p h Hh) Hst) as (_ & _ & [t0 J1] & _). apply J1 in Ht, Ht'. congruence.
Qed.

Definition api_run (m : machine) (evs : list api_event) : outcome machine :=
  foldl (fun o ev => let! m1 := o in api_step m1 ev) (Done m) evs.

(** The calls on a handle end one after the other. *)
Lemma releases_run m p t ts : sound m -> mc_closing m !! t = Some p -> NoDup ts -> (forall t', t' ∈ ts <-> mc_calls m !! t' = Some p) ->
  exists m', api_run m (map EvRelease ts) = Done m' /\ sound m' /\ mc_closing m' = mc_closing m /\ calls_on (mc_calls m') p = 0.
Proof.
  revert m. induction ts as [|t1 ts IH]; intros m Hs Ht Hnd Hts.
  - exists m. split_and!; try done. apply calls_on_none. intros t' Ht'%Hts. by apply elem_of_nil in Ht'.
  - apply NoDup_cons in Hnd as [Hni Hnd]. assert (mc_calls m !! t1 = Some p) as H1 by (apply Hts; left).
    pose proof (api_step_sound m (EvRelease t1) Hs) as Hst. destruct Hs as [Hok Hone].
    destruct (mo_calls _ Hok t1 p H1) as (h & Hh & _). cbn [api_step] in Hst. rewrite H1 in Hst. cbn [or_waits obind] in Hst.
    unfold call_release in Hst. rewrite Hh in Hst. cbn [or_undefined obind] in Hst.
    edestruct IH as (m' & R1 & R2 & R3 & R4); [exact Hst|exact Ht|exact Hnd| |].
    + intros t'. cbn [mc_calls]. rewrite lookup_delete_Some, <- Hts, elem_of_cons. split; [intros Hi; split; [by intros ->|by right]|].
      intros [? [?|?]]; [congruence|done].
    + exists m'. split_and!; [|done|done|done]. unfold api_run in *. cbn [map foldl obind api_step]. rewrite H1. cbn [or_waits obind].
      unfold call_release. rewrite Hh. exact R1.
Qed.

(** C7: A close ends.  From every reachable state in which a thread is closing a
    handle, once the calls in progress on it have been released, in whatever
    order, the close takes the backend, closes it and frees the handle. *)
Theorem close_completes m t p ts : reaches m -> mc_closing m !! t = Some p -> NoDup ts -> (forall t', t' ∈ ts <-> mc_calls m !! t' = Some p) ->
  exists m', api_run m (map EvRelease ts ++ [EvCloseTake t; EvCloseDelete t]) = Done m' /\
    cl_handles (mc_client m') !! p = None /\ (forall t', mc_calls m' !! t' <> Some p) /\
    mc_closing m' !! t = None /\ mc_taken m' !! t = None.
Proof.
  intros Hr Ht Hnd Hts. destruct (releases_run m p t ts (reaches_sound m Hr) Ht Hnd Hts) as (m1 & R1 & [Hok Hone] & R3 & R4).
  unfold api_run in *. rewrite foldl_app, R1. rewrite <- R3 in Ht. cbn [foldl obind api_step]. rewrite Ht. cbn [or_waits obind].
  destruct (mo_closing _ Hok t p Ht) as (h & Hh & Hs). pose proof (mo_handles _ Hok p h Hh) as Hho.
  destruct (ho_closing _ _ _ Hho Hs) as (_ & [b Hb] & _). unfold close_take. rewrite Hh. cbn [or_undefined obind].
  rewrite (ho_calls _ _ _ Hho), R4. change (negb (0 =? 0)) with false. cbv iota. rewrite Hb. cbn [or_undefined obind mc_taken].
  rewrite lookup_insert_eq. cbn [or_waits obind]. unfold close_delete. cbn [mc_client cl_set cl_world cl_handles].
  destruct (cb_close (cl_world (mc_client m1)) b) as [[st b1] w1]. rewrite lookup_insert_eq. cbn [or_undefined obind].
  eexists. split; [reflexivity|]. cbn [mc_client cl_handles mc_calls mc_closing mc_taken]. split_and!.
  - apply lookup_delete_eq.
  - intros t' Ht'. pose proof (calls_on_pos _ _ _ Ht'). lia.
  - apply lookup_delete_eq.
  - apply lookup_delete_eq.
Qed.
End Threads.

(** ** Witnesses *)

(** A backend that counts its calls. *)
#[export] Instance sample_backend : ClientBackend unit Z := {|
  cb_version := fun w b => Some (st_success, Some version_default, b + 1, w);
  cb_entities := fun w b _ => Some (mkEntityList st_success 0 1 [], b + 1, w);
  cb_capabilities := fun w b e => Some (st_success, Some (mkCapabilitySet e 1 []), b + 1, w);
  cb_health := fun w b _ => Some (mkHealthQuery (mkStatus PDCM_STATUS_UNAVAILABLE "") None None, b + 1, w);
  cb_close := fun w b => (st_success, b, w) |}.

Definition sample_start : machine (W := unit) (B := Z) := mkMachine (mkClient tt ∅) ∅ ∅ ∅ ∅.
(** Two threads are in a call on handle 16 and a third is closing it. *)
Definition sample_events : list api_event :=
  [EvOpen 16 0; EvEnter 1 16 EnterCall; EvLock 1; EvQuery 1 AskVersion; EvEnter 2 16 EnterCall; EvEnter 3 16 EnterClose;
   EvLock 2; EvLock 3].
Definition sample_machine : machine (W := unit) (B := Z) := match api_run sample_start sample_events with Done m => m | _ => sample_start end.

Lemma run_reaches (m : machine (W := unit) (B := Z)) evs m' : reaches m -> api_run m evs = Done m' -> reaches m'.
Proof.
  revert m'. induction evs as [|ev evs IH] using rev_ind; intros m' Hm Hr; [by injection Hr as <-|].
  unfold api_run in Hr. rewrite foldl_app in Hr. cbn [foldl] in Hr. destruct (foldl _ (Done m) evs) as [m1| |] eqn:E1; [|done..].
  apply (reaches_step m1 ev); [by apply IH|exact Hr].
Qed.

Lemma sample_reaches : reaches sample_machine.
Proof. apply (run_reaches sample_start sample_events); [constructor|reflexivity]. Qed.

Lemma handle_safety_witness :
  api_step sample_machine (EvCloseTake 3) <> Undefined /\ (exists h b, cl_handles (mc_client sample_machine) !! 16 = Some h /\ h_backend h = Some b).
Proof.
  destruct (handle_safety sample_machine (EvCloseTake 3) sample_reaches) as (H1 & _ & H3 & _). split.
  - intros (t & p & e & E & _)%H1. discriminate E.
  - apply (H3 1). reflexivity.
Defined.

(** The race that remains: both threads are given a pointer to an open handle;
    the close gets the mutex first and deletes the handle while the query still
    waits for the mutex that is a member of it. *)
Example close_frees_under_waiter :
  api_run sample_start [EvOpen 16 0; EvEnter 1 16 EnterCall; EvEnter 2 16 EnterClose; EvLock 2; EvCloseTake 2; EvCloseDelete 2;
    EvLock 1] = Undefined.
Proof. reflexivity. Qed.

Lemma close_completes_witness :
  exists m', api_run sample_machine [EvRelease 2; EvRelease 1; EvCloseTake 3; EvCloseDelete 3] = Done m' /\ cl_handles (mc_client m') !! 16 = None.
Proof.
  destruct (close_completes sample_machine 3 16 [2; 1] sample_reaches) as (m' & R & N & _).
  - reflexivity.
  - apply NoDup_cons; split; [|apply NoDup_singleton]. rewrite list_elem_of_singleton. discriminate.
  - intros t. rewrite elem_of_cons, list_elem_of_singleton. change (mc_calls sample_machine) with (<[2 := 16]> {[1 := 16]} : gmap Z Z).
    rewrite lookup_insert_Some, lookup_singleton_Some. split.
    + intros [-> | ->]; [left; done|right; done].
    + intros [[<- _]|[_ [<- _]]]; [left|right]; reflexivity.
  - exists m'. split; [exact R|exact N].
Defined.
