(* ===== verification/ClientApi.v ===== *)
(** The C interface over its two backends (src/product/src/client/pdcm_api.cpp):
    the standalone and the embedded backend as instances of [ClientBackend],
    the opening of a handle with its choice of backend, and the behaviour of
    whole sequences of calls.

    The clock is the kernel's; the process identifier and the nonce of the
    standalone backend are arguments, as is the address that the allocation of
    the handle returns.  Allocation failures are not modelled. *)
From S2P Require Import Prelude Containers Common Provider Session Catalog Frame EventStore DataStore HealthStore ProcessorGraph Metrics Service Protocol Codec Handshake Socket ClientView Standalone Embedded PublicApi Handle.
Local Open Scope string_scope.
Local Open Scope list_scope.
Open Scope Z_scope.
Open Scope pdcm_scope.

Section Backends.
Context {W : Type} `{K : Kernel W} `{LP : LocalProtocol} `{Ly : Layout} (fuel : nat).

#[export] Instance standalone_client : ClientBackend W StandaloneBackend := {|
  cb_version := fun w b => let '(status, version, w1) := sb_version w b in Some (status, version, b, w1);
  cb_entities := fun w b kind => sb_entities fuel w b kind;
  cb_capabilities := fun w b entity => sb_capabilities fuel w b entity;
  cb_health := fun w b request => sb_health fuel w b request;
  cb_close := sb_close |}.

#[export] Instance embedded_client {P} `{Provider P} : ClientBackend W (EmbeddedBackend (P := P)) := {|
  cb_version := fun w e => let '(status, version) := eb_version e in Some (status, version, e, w);
  cb_entities := fun w e kind => Some (eb_entities e kind, e, w);
  cb_capabilities := fun w e entity => let '(status, set) := eb_capabilities e entity in Some (status, set, e, w);
  cb_health := fun w e request => let '(now, w1) := k_now w in Some (eb_health e request now, e, w1);
  cb_close := fun w e => let '(status, e1) := eb_close e in (status, e1, w) |}.

(** [std::unique_ptr<ClientBackend>] *)
Inductive backend := BStandalone (b : StandaloneBackend) | BEmbedded (e : EmbeddedBackend (P := UnavailableProvider)).

(** A method of one backend as a method of the choice. *)
Definition lift {A B} (inject : B -> backend) (r : option (A * B * W)) : option (A * backend * W) :=
  match r with Some (a, b, w) => Some (a, inject b, w) | None => None end.

#[export] Instance backend_client : ClientBackend W backend := {|
  cb_version := fun w b => match b with
    | BStandalone s => lift BStandalone (cb_version w s) | BEmbedded e => lift BEmbedded (cb_version w e) end;
  cb_entities := fun w b kind => match b with
    | BStandalone s => lift BStandalone (cb_entities w s kind) | BEmbedded e => lift BEmbedded (cb_entities w e kind) end;
  cb_capabilities := fun w b entity => match b with
    | BStandalone s => lift BStandalone (cb_capabilities w s entity) | BEmbedded e => lift BEmbedded (cb_capabilities w e entity) end;
  cb_health := fun w b request => match b with
    | BStandalone s => lift BStandalone (cb_health w s request) | BEmbedded e => lift BEmbedded (cb_health w e request) end;
  cb_close := fun w b => match b with
    | BStandalone s => let '(status, s1, w1) := cb_close w s in (status, BStandalone s1, w1)
    | BEmbedded e => let '(status, e1, w1) := cb_close w e in (status, BEmbedded e1, w1) end |}.

(** ** Opening *)

Context (pid : Z) (nonce : string).

(** The configuration of an embedded core. *)
Definition embedded_config (o : EffectiveOptions) : RuntimeConfig :=
  mkRuntimeConfig (toInternalTarget (eff_target o)) limits_default (eff_deadline o) 5000.

(** The result of opening: the status, [*out_handle] and the process. *)
Definition openEmbedded (c : Client (W := W) (B := backend)) (o : EffectiveOptions) (p : ptr)
    : pdcm_status_t * ptr * Client (W := W) (B := backend) :=
  if eff_target o =? PDCM_TARGET_UNKNOWN then (PDCM_STATUS_INVALID_ARGUMENT, 0, c)
  else
  match eb_construct (P := UnavailableProvider) (embedded_config o) (Some up_init) true with
  | inl _ => (PDCM_STATUS_INTERNAL, 0, c)
  | inr e =>
      let '(t1, w1) := k_now (cl_world c) in
      let '(t2, w2) := k_now w1 in
      let '(t3, w3) := k_now w2 in
      let '(started, e1) := eb_start e t1 t2 t3 in
      if negb (st_ok started) then (st_code started, 0, mkClient w3 (cl_handles c))
      else (PDCM_STATUS_SUCCESS, p, mkClient w3 (<[p := handle_new (BEmbedded e1)]> (cl_handles c)))
  end.

Definition openStandalone (c : Client (W := W) (B := backend)) (o : EffectiveOptions) (p : ptr)
    : outcome (pdcm_status_t * ptr * Client (W := W) (B := backend)) :=
  let b := sb_construct (eff_endpoint o) (eff_deadline o) (lim_max_frame_bytes limits_default) in
  let! (started, b1, w1) := or_waits (sb_start fuel (cl_world c) b pid nonce) in
  if negb (st_ok started)
  then (* the destructor of the backend closes it *)
    Done (st_code started, 0, mkClient (snd (sb_close w1 b1)) (cl_handles c))
  else Done (PDCM_STATUS_SUCCESS, p, mkClient w1 (<[p := handle_new (BStandalone b1)]> (cl_handles c))).

(** A standalone failure after which an embedded backend may be tried. *)
Definition may_fall_back (o : EffectiveOptions) (status : pdcm_status_t) : bool :=
  negb ((status ==? PDCM_STATUS_SUCCESS) || (eff_mode o =? PDCM_MODE_STANDALONE)
        || (Z.land (eff_flags o) PDCM_OPEN_ALLOW_EMBEDDED_FALLBACK =? 0)
        || ((status !=? PDCM_STATUS_UNAVAILABLE) && (status !=? PDCM_STATUS_TIMEOUT))).

Definition openSelectedBackend (c : Client (W := W) (B := backend)) (o : EffectiveOptions) (p : ptr)
    : outcome (pdcm_status_t * ptr * Client (W := W) (B := backend)) :=
  if eff_mode o =? PDCM_MODE_EMBEDDED then Done (openEmbedded c o p)
  else
  let! (status, out, c1) := openStandalone c o p in
  if may_fall_back o status then Done (openEmbedded c1 o p) else Done (status, out, c1).

Definition pdcm_open (c : Client (W := W) (B := backend)) (options : option pdcm_open_options_t) (out_handle : option ptr) (p : ptr)
    : outcome (pdcm_status_t * option ptr * Client (W := W) (B := backend)) :=
  match out_handle with
  | None => Done (PDCM_STATUS_INVALID_ARGUMENT, None, c)
  | Some out =>
      if negb (out =? 0) then Done (PDCM_STATUS_INVALID_ARGUMENT, Some out, c)
      else
      match parseOptions options with
      | inl refused => Done (refused, Some out, c)
      | inr effective => let! (status, out1, c1) := openSelectedBackend c effective p in Done (status, Some out1, c1)
      end
  end.

(** ** The embedded backend of the interface

    Its provider is the unavailable one, so its core starts degraded. *)

Definition degraded_snapshot : CoreSnapshot :=
  mkCoreSnapshot CS_Degraded PS_Unavailable DR_ProviderUnavailable PDCM_STATUS_UNAVAILABLE 0 0.

Record embedded_serving (o : EffectiveOptions) (e : EmbeddedBackend (P := UnavailableProvider)) : Prop := {
  es_config : eb_config_ e = embedded_config o;
  es_started : eb_started_ e = true /\ eb_closed_ e = false;
  es_session : eb_session_id_ e = 1;
  es_snapshot : sv_snapshot_ (eb_core_ e) = degraded_snapshot;
  es_view : cv_generation_ (snapshot_ (sv_semantic_catalog_ (eb_core_ e))) = 0 }.

Lemma embedded_starts o t1 t2 t3 : 1 <= eff_deadline o -> toInternalTarget (eff_target o) <> TK_Unknown ->
  exists e e1, eb_construct (P := UnavailableProvider) (embedded_config o) (Some up_init) true = inr e /\
    eb_start e t1 t2 t3 = (st_success, e1) /\ embedded_serving o e1.
Proof.
  intros Hd Ht. unfold embedded_config. destruct (eff_deadline o) as [|d|d] eqn:Ed; [lia| |lia].
  destruct (toInternalTarget (eff_target o)) eqn:Et; [done| |]; (eexists; eexists; split; [reflexivity|]; split; [reflexivity|]);
    (split; [unfold embedded_config; rewrite Ed, Et; reflexivity|split; reflexivity|reflexivity..]).
Qed.

Lemma accepted_options options o : (forall x, options = Some x -> u32 (oo_flags x) /\ 0 <= oo_deadline_ns x) -> parseOptions options = inr o ->
  1 <= eff_deadline o /\ known_target (eff_target o) = true /\ (eff_flags o = 0 \/ eff_flags o = PDCM_OPEN_ALLOW_EMBEDDED_FALLBACK) /\
  known_mode (eff_mode o) = true.
Proof.
  destruct options as [x|]; intros Hx Hp; [|injection Hp as <-; by split_and!; try left].
  destruct (Hx x eq_refl) as [Hf Hd]. pose proof (parse_options_spec x Hf Hd) as Hs. rewrite Hp in Hs.
  destruct Hs as [[[_ _ F _] _ M T _ _] ->]. unfold effective_of. cbn. split_and!; try done. guard as G; lia.
Qed.

Lemma target_known t : known_target t = true -> t <> PDCM_TARGET_UNKNOWN -> toInternalTarget t <> TK_Unknown.
Proof.
  unfold known_target, toInternalTarget. rewrite !orb_true_iff, !Z.eqb_eq. intros [[E|E]|E]; rewrite E; done.
Qed.

(** An embedded handle: opened exactly when the options name a target. *)
Lemma openEmbedded_exact c o p : 1 <= eff_deadline o -> known_target (eff_target o) = true ->
  (eff_target o = PDCM_TARGET_UNKNOWN -> openEmbedded c o p = (PDCM_STATUS_INVALID_ARGUMENT, 0, c)) /\
  (eff_target o <> PDCM_TARGET_UNKNOWN -> exists e w, embedded_serving o e /\
     openEmbedded c o p = (PDCM_STATUS_SUCCESS, p, mkClient w (<[p := handle_new (BEmbedded e)]> (cl_handles c)))).
Proof.
  intros Hd Ht. unfold openEmbedded. split; intros Hu.
  - by rewrite (proj2 (Z.eqb_eq _ _)).
  - rewrite (proj2 (Z.eqb_neq _ _)) by done. destruct (k_now (cl_world c)) as [t1 w1]. destruct (k_now w1) as [t2 w2] eqn:E2. destruct (k_now w2) as [t3 w3] eqn:E3.
    destruct (embedded_starts o t1 t2 t3 Hd (target_known _ Ht Hu)) as (e & e1 & H1 & H2 & H3).
    exists e1, w3. split; [done|]. rewrite H1. cbv iota beta.
    by rewrite H2.
Qed.

(** The flag test of the fallback. *)
Lemma fallback_iff o status : known_mode (eff_mode o) = true -> eff_mode o <> PDCM_MODE_EMBEDDED ->
  (eff_flags o = 0 \/ eff_flags o = PDCM_OPEN_ALLOW_EMBEDDED_FALLBACK) ->
  may_fall_back o status = true <-> eff_mode o = PDCM_MODE_AUTO /\ eff_flags o = PDCM_OPEN_ALLOW_EMBEDDED_FALLBACK /\
    (status = PDCM_STATUS_UNAVAILABLE \/ status = PDCM_STATUS_TIMEOUT).
Proof.
  intros Hm He Hf. unfold known_mode in Hm. rewrite !orb_true_iff, !Z.eqb_eq in Hm.
  destruct Hm as [[E|E]|E]; [|done|]; unfold may_fall_back; rewrite E; cbn [Z.eqb PDCM_MODE_AUTO PDCM_MODE_STANDALONE Pos.eqb].
  - rewrite orb_true_r. split; [done|]. by intros [].
  - destruct Hf as [F|F]; rewrite F; cbn.
    + rewrite orb_true_r. split; [done|by intros (_ & ? & _)].
    + destruct status; split; try done; first [by intros (_ & _ & [|])|intros _; split_and!; auto].
Qed.

(** The result [r] is an embedded open over the handles [hs]: a started backend
    in a new handle when the options name a target, and otherwise a refusal. *)
Definition embedded_result (hs : gmap Z (pdcm_handle (B := backend))) (o : EffectiveOptions) (p : ptr)
    (r : outcome (pdcm_status_t * option ptr * Client (W := W) (B := backend))) : Prop :=
  if eff_target o =? PDCM_TARGET_UNKNOWN then exists w, r = Done (PDCM_STATUS_INVALID_ARGUMENT, Some 0, mkClient w hs)
  else exists e w, embedded_serving o e /\ r = Done (PDCM_STATUS_SUCCESS, Some p, mkClient w (<[p := handle_new (BEmbedded e)]> hs)).

Lemma openEmbedded_result c o p : 1 <= eff_deadline o -> known_target (eff_target o) = true ->
  embedded_result (cl_handles c) o p (let! (status, out, c1) := Done (openEmbedded c o p) in Done (status, Some out, c1)).
Proof.
  intros D T. destruct (openEmbedded_exact c o p D T) as [E1 E2]. unfold embedded_result. guard as U; bprop in U.
  - rewrite (E1 U). exists (cl_world c). by destruct c.
  - destruct (E2 U) as (e & w & S & ->). by exists e, w.
Qed.

(** C8: Opening is exact.  Refused options open nothing.  A standalone open is
    the backend's start.  The embedded backend is opened for the embedded mode,
    and in the automatic mode when the fallback is allowed and the daemon
    cannot be reached or does not answer in time, and then succeeds exactly
    when the options name a target.  A handle is returned exactly on success;
    otherwise no handle is left behind. *)
Theorem open_exact c options p :
  (forall x, options = Some x -> u32 (oo_flags x) /\ 0 <= oo_deadline_ns x) ->
  let opened := pdcm_open c options (Some 0) p in
  match parseOptions options with
  | inl refused => opened = Done (refused, Some 0, c)
  | inr o =>
      let fallback code := eff_mode o = PDCM_MODE_AUTO /\ eff_flags o = PDCM_OPEN_ALLOW_EMBEDDED_FALLBACK /\
        (code = PDCM_STATUS_UNAVAILABLE \/ code = PDCM_STATUS_TIMEOUT) in
      (eff_mode o = PDCM_MODE_EMBEDDED -> embedded_result (cl_handles c) o p opened) /\
      (eff_mode o <> PDCM_MODE_EMBEDDED -> forall started b1 w1,
         sb_start fuel (cl_world c) (sb_construct (eff_endpoint o) (eff_deadline o) (lim_max_frame_bytes limits_default)) pid nonce
           = Some (started, b1, w1) ->
         (st_ok started = true ->
            opened = Done (PDCM_STATUS_SUCCESS, Some p, mkClient w1 (<[p := handle_new (BStandalone b1)]> (cl_handles c)))) /\
         (fallback (st_code started) -> embedded_result (cl_handles c) o p opened) /\
         (st_ok started = false -> ~ fallback (st_code started) ->
            exists w, opened = Done (st_code started, Some 0, mkClient w (cl_handles c))))
  end.
Proof.
  intros Hx. cbv zeta. unfold pdcm_open. change (negb (0 =? 0)) with false. cbv iota.
  destruct (parseOptions options) as [refused|o] eqn:Hp; [done|]. destruct (accepted_options _ _ Hx Hp) as (D & T & F & M).
  unfold openSelectedBackend. split.
  - intros E. rewrite (proj2 (Z.eqb_eq _ _) E). by apply openEmbedded_result.
  - intros E started b1 w1 Hsb. rewrite (proj2 (Z.eqb_neq _ _) E). unfold openStandalone. rewrite Hsb. cbn [or_waits obind].
    pose proof (fallback_iff o (st_code started) M E F) as Hfb. split_and!.
    + intros Hok. rewrite Hok. cbn [negb obind]. unfold may_fall_back. by rewrite bool_decide_true.
    + intros A. assert (st_ok started = false) as -> by (unfold st_ok; destruct A as (_ & _ & [-> | ->]); done). cbn [negb obind].
      rewrite (proj2 Hfb) by done. exact (openEmbedded_result (mkClient (snd (sb_close w1 b1)) (cl_handles c)) o p D T).
    + intros Hok Hn. rewrite Hok. cbn [negb obind]. destruct (may_fall_back o (st_code started)) eqn:Ef; [by destruct Hn; apply Hfb|].
      cbn [obind]. by eexists.
Qed.

(** ** A session over an embedded backend *)

Lemma new_handle_open w hs p (b : backend) : p <> 0 -> open_handle (mkClient (W := W) w (<[p := handle_new b]> hs)) p b.
Proof. intros Hp. split; [done|]. exists (handle_new b). cbn [cl_handles]. by rewrite lookup_insert_eq. Qed.

(** A method that changes nothing leaves the process as it was. *)
Lemma call_unchanged {A} w hs p (b : backend) (method : W -> backend -> option (A * backend * W)) a : p <> 0 ->
  method w b = Some (a, b, w) ->
  with_call (mkClient w (<[p := handle_new b]> hs)) p method = Done (inr a, mkClient w (<[p := handle_new b]> hs)).
Proof.
  intros Hp Hm. destruct (with_call_open _ p b method a b w (new_handle_open w hs p b Hp) Hm) as (h & Hh & -> & _).
  cbn [cl_handles cl_world] in *. rewrite lookup_insert_eq in Hh. injection Hh as <-. by rewrite insert_insert_eq.
Qed.

Lemma embedded_version_serving o e : embedded_serving o e ->
  eb_version e = (st_success, Some (mkVersion "embedded" BM_Embedded (toInternalTarget (eff_target o)) degraded_snapshot
    PF_None false false false kProtocolMajor kProtocolMinor 1)).
Proof. intros [E1 [E2 E3] E4 E5 E6]. unfold eb_version, eb_inactive. by rewrite E1, E2, E3, E4, E5. Qed.

Lemma embedded_queries_serving o e kind entity : embedded_serving o e ->
  eb_entities e kind = mkEntityList (err_status PDCM_STATUS_UNAVAILABLE "no discovery snapshot is available") 0 0 [] /\
  eb_capabilities e entity = (err_status PDCM_STATUS_UNAVAILABLE "no capability snapshot is available", None).
Proof.
  intros [E1 [E2 E3] E4 E5 E6]. unfold eb_entities, eb_capabilities, eb_inactive, core_entities, core_capabilities.
  by rewrite E2, E3, E5, E6.
Qed.

Lemma embedded_close_serving o e : embedded_serving o e -> fst (eb_close e) = st_success.
Proof.
  intros [E1 [E2 E3] E4 E5 E6]. unfold eb_close. rewrite E3. destruct (negb (eb_session_id_ e =? 0)); unfold core_stop; by rewrite E5.
Qed.

Lemma target_value_back t : known_target t = true -> target_value (toInternalTarget t) = t.
Proof. unfold known_target. rewrite !orb_true_iff, !Z.eqb_eq. by intros [[-> | ->] | ->]. Qed.

(** A whole session with an embedded handle.  With accepted options that
    name a target, the open succeeds; the version call reports the embedded
    mode, a degraded core with an unavailable provider and session 1; each
    query answers unavailable and writes nothing but an empty count; the close
    succeeds and leaves the handles as they were before the open. *)
Theorem embedded_session c options o p out buffer capacity entity set :
  parseOptions options = inr o -> (forall x, options = Some x -> u32 (oo_flags x) /\ 0 <= oo_deadline_ns x) ->
  eff_mode o = PDCM_MODE_EMBEDDED -> eff_target o <> PDCM_TARGET_UNKNOWN ->
  p <> 0 -> cl_handles c !! p = None -> header_invalid (vi_header out) sizeof_version_info = false ->
  is_Some (match toInternalEntityRef entity with inr e => Some e | inl _ => None end) -> capability_set_bad set = false ->
  exists c1 v, pdcm_open c options (Some 0) p = Done (PDCM_STATUS_SUCCESS, Some p, c1) /\
    pdcm_version_get c1 p (Some out) = Done (PDCM_STATUS_SUCCESS, Some v, c1) /\
    c_string (vi_daemon_version v) = "embedded" /\ c_string (vi_library_version v) = "0.1.0" /\ vi_mode v = PDCM_MODE_EMBEDDED /\
    vi_target v = eff_target o /\ vi_core_state v = toPublicCoreState CS_Degraded /\
    vi_provider_state v = toPublicProviderState PS_Unavailable /\ vi_detail_status v = status_value PDCM_STATUS_UNAVAILABLE /\
    vi_session_id v = 1 /\ vi_catalog_generation v = 0 /\
    pdcm_entity_list c1 p None buffer (Some capacity) = Done (PDCM_STATUS_UNAVAILABLE, Some 0, buffer, c1) /\
    pdcm_capability_query c1 p entity (Some set) = Done (PDCM_STATUS_UNAVAILABLE,
      Some (mkPublicSet (ps_header set) (ps_entity set) (ps_items set) (ps_item_capacity set) 0 (ps_catalog_generation set)), c1) /\
    exists c2, pdcm_close c1 (Some p) = Done (PDCM_STATUS_SUCCESS, Some 0, c2) /\ cl_handles c2 = cl_handles c.
Proof.
  intros Hp Hx Hm Ht Hp0 Hn Hh [e' He] Hset. destruct (accepted_options _ _ Hx Hp) as (D & T & F & M).
  destruct (openEmbedded_exact c o p D T) as [_ E2]. destruct (E2 Ht) as (e & w & S & Hopen).
  set (c1 := mkClient w (<[p := handle_new (BEmbedded e)]> (cl_handles c))) in *.
  pose proof (embedded_version_serving o e S) as Hv. destruct (embedded_queries_serving o e EK_Unknown e' S) as [Hq1 Hq2].
  eexists c1, _. split.
  { unfold pdcm_open, openSelectedBackend. rewrite Hp, Hm. change (PDCM_MODE_EMBEDDED =? PDCM_MODE_EMBEDDED) with true.
    cbv iota. change (negb (0 =? 0)) with false. cbv iota. rewrite Hopen. reflexivity. }
  split.
  { unfold pdcm_version_get, validateOutputHeader. rewrite Hh. change (PDCM_STATUS_SUCCESS !=? PDCM_STATUS_SUCCESS) with false. cbv iota.
    rewrite (proj2 (Z.eqb_neq _ _)) by done. unfold c1 at 1. erewrite call_unchanged; [|done|cbn; rewrite Hv; reflexivity]. reflexivity. }
  split_and!; try reflexivity; [by apply target_value_back| | |].
  - unfold pdcm_entity_list. cbn [entity_filter_kind]. unfold c1 at 1.
    erewrite call_unchanged; [|done|cbn; rewrite Hq1; reflexivity]. reflexivity.
  - unfold pdcm_capability_query. rewrite Hset. destruct (toInternalEntityRef entity) as [|e0]; [done|]. injection He as ->.
    unfold c1 at 1. erewrite call_unchanged; [|done|cbn; rewrite Hq2; reflexivity]. reflexivity.
  - pose proof (close_open c1 p (BEmbedded e) (new_handle_open _ _ _ _ Hp0)) as Hc. cbn [cb_close backend_client embedded_client] in Hc.
    pose proof (embedded_close_serving o e S) as Hst. destruct (eb_close e) as [st e1]. cbn [fst] in Hst. subst st.
    eexists. split; [apply Hc; unfold c1; cbn [cl_handles]; intros h; rewrite lookup_insert_eq; by intros [= <-]|].
    unfold c1. cbn [cl_handles cl_world]. by rewrite delete_insert_id.
Qed.
End Backends.

(** ** The calls of a client in sequence *)

Section TwoCalls.
Context {W B : Type} `{CB : ClientBackend W B}.

Lemma entity_list_open c p b filter kind r b1 w1 entities capacity :
  open_handle c p b -> entity_filter_kind filter = inr kind -> cb_entities (cl_world c) b kind = Some (r, b1, w1) ->
  exists c1, pdcm_entity_list c p filter entities (Some capacity) =
      (let '(status, count, entities1) := entity_list_answer r entities capacity in Done (status, Some count, entities1, c1)) /\
    open_handle c1 p b1 /\ cl_world c1 = w1.
Proof.
  intros Ho Hf Hm. destruct (with_call_open c p b (fun w b => cb_entities w b kind) r b1 w1 Ho Hm) as (h & _ & Hw & Ho1).
  eexists. split; [|by split; [exact Ho1|]]. unfold pdcm_entity_list. rewrite Hf, Hw. reflexivity.
Qed.


(** A capability query on an open handle whose backend answers with a set
    delivers it: with room for the items the caller reads the backend's items
    in order, and with less it is told how many there are and the items are
    not touched; the entity and the catalog generation are the backend's either
    way. *)
Theorem capability_query_delivers c p b entity e source b1 w1 out :
  open_handle c p b -> toInternalEntityRef entity = inr e -> cb_capabilities (cl_world c) b e = Some (st_success, Some source, b1, w1) ->
  capability_set_bad out = false -> 0 <= ps_item_capacity out ->
  (forall items, ps_items out = Some items -> ps_item_capacity out <= zlen items /\ Forall item_ready items) ->
  exists c1 items', let n := zlen (cs_items source) in
    pdcm_capability_query c p entity (Some out) =
      Done (if ps_item_capacity out <? n then PDCM_STATUS_BUFFER_TOO_SMALL else PDCM_STATUS_SUCCESS, Some (set_written out source items'), c1) /\
    open_handle c1 p b1 /\ (ps_item_capacity out < n -> items' = ps_items out) /\
    (n <= ps_item_capacity out -> delivered_items (cs_items source) (default [] (ps_items out)) (default [] items')) /\
    ps_item_count (set_written out source items') = n /\ ref_of_public (ps_entity (set_written out source items')) = cs_entity source.
Proof.
  intros Ho He Hm Hb H0 Hitems.
  destruct (with_call_open c p b (fun w b => cb_capabilities w b e) (st_success, Some source) b1 w1 Ho Hm) as (h & _ & Hw & Ho1).
  destruct (capability_protocol source out Hb) as (P1 & _ & P3); [intros items Hi; by apply Hitems|done|]. cbv zeta in *.
  unfold pdcm_capability_query. rewrite Hb, He, Hw. cbn [obind].
  destruct (decide (ps_item_capacity out < zlen (cs_items source))) as [Hlt|Hge].
  - rewrite (P1 Hlt), (proj2 (Z.ltb_lt _ _)) by done. do 2 eexists. split_and!; [reflexivity|exact Ho1|done|lia|done|apply ref_back].
  - destruct P3 as (items' & E & Hd); [lia| |].
    { apply Forall_take. destruct (ps_items out) as [items|]; [by apply Hitems|constructor]. }
    rewrite E, (proj2 (Z.ltb_ge _ _)) by lia. do 2 eexists. split_and!; [reflexivity|exact Ho1|lia|done|done|apply ref_back].
Qed.
End TwoCalls.

(** ** Witnesses *)

Definition sample_embedded_options : option pdcm_open_options_t :=
  Some (mkOpenOptions (header_of sizeof_open_options) PDCM_MODE_EMBEDDED 0 None 0 1 0 PDCM_TARGET_EMU 0).
Definition sample_process : Client (W := pipe) (B := backend) := mkClient (mkPipe 0 [] [] []) ∅.

Lemma sample_options_ok x : sample_embedded_options = Some x -> u32 (oo_flags x) /\ 0 <= oo_deadline_ns x.
Proof. intros [= <-]. split; [split|]; vm_compute; discriminate. Qed.

Lemma open_exact_witness :
  exists o, parseOptions sample_embedded_options = inr o /\
    embedded_result (W := pipe) ∅ o 8 (pdcm_open (LP := sample_protocol) (Ly := sample_layout) 10 1 "" sample_process sample_embedded_options (Some 0) 8).
Proof.
  eexists. split; [reflexivity|].
  exact (proj1 (open_exact (LP := sample_protocol) (Ly := sample_layout) 10 1 "" sample_process sample_embedded_options 8 sample_options_ok) eq_refl).
Defined.

Lemma embedded_session_witness :
  exists c1 c2, pdcm_open (LP := sample_protocol) (Ly := sample_layout) 10 1 "" sample_process sample_embedded_options (Some 0) 8
      = Done (PDCM_STATUS_SUCCESS, Some 8, c1) /\
    pdcm_close (CB := backend_client (LP := sample_protocol) 10) c1 (Some 8) = Done (PDCM_STATUS_SUCCESS, Some 0, c2) /\
    cl_handles c2 = ∅.
Proof.
  destruct (embedded_session (LP := sample_protocol) (Ly := sample_layout) 10 1 "" sample_process sample_embedded_options
    (mkEffective PDCM_MODE_EMBEDDED 0 kDefaultEndpoint 1000 PDCM_TARGET_EMU) 8 PDCM_VERSION_INFO_INIT None 0
    (Some (mkPublicRef (header_of sizeof_entity_ref) 1 0 0 1)) PDCM_CAPABILITY_SET_INIT)
    as (c1 & v & H1 & _ & _ & _ & _ & _ & _ & _ & _ & _ & _ & _ & _ & c2 & H2 & H3).
  - reflexivity.
  - exact sample_options_ok.
  - reflexivity.
  - discriminate.
  - discriminate.
  - reflexivity.
  - reflexivity.
  - eexists. reflexivity.
  - reflexivity.
  - exists c1, c2. split; [exact H1|]. split; [exact H2|exact H3].
Defined.

(** A handle on the embedded backend of a provider with one device. *)
Definition sample_running : EmbeddedBackend (P := ProviderState) := eb_step (Ly := sample_layout) sample_embedded (EbStart 1 2 3).
Definition sample_open : Client (W := pipe) (B := EmbeddedBackend (P := ProviderState)) :=
  mkClient (mkPipe 0 [] [] []) {[24 := handle_new sample_running]}.
Lemma sample_open_handle : open_handle sample_open 24 sample_running.
Proof. split; [discriminate|]. exists (handle_new sample_running). split; [reflexivity|]. split; reflexivity. Qed.


Definition sample_set_out : pdcm_capability_set_t :=
  mkPublicSet (header_of sizeof_capability_set) PDCM_ENTITY_REF_INIT
    (Some (repeat (mkPublicCapability (header_of sizeof_capability_item) 0 0 0 0 0 0 0) 4)) 4 0 0.

Lemma capability_query_delivers_witness :
  exists c1 out, pdcm_capability_query sample_open 24 (Some (fillPublicEntityRef (mkEntityRef EK_Device 0 1))) (Some sample_set_out)
    = Done (PDCM_STATUS_SUCCESS, Some out, c1) /\ ref_of_public (ps_entity out) = mkEntityRef EK_Device 0 1.
Proof.
  destruct (snd (eb_capabilities sample_running (mkEntityRef EK_Device 0 1))) as [source|] eqn:Es; [|vm_compute in Es; discriminate].
  assert (eb_capabilities sample_running (mkEntityRef EK_Device 0 1) = (st_success, Some source)) as Hc
    by (rewrite <- Es; vm_compute; reflexivity).
  vm_compute in Es. injection Es as Es.
  destruct (capability_query_delivers sample_open 24 sample_running (Some (fillPublicEntityRef (mkEntityRef EK_Device 0 1)))
    (mkEntityRef EK_Device 0 1) source sample_running (mkPipe 0 [] [] []) sample_set_out) as (c1 & items' & H1 & _ & _ & _ & _ & H2).
  - exact sample_open_handle.
  - reflexivity.
  - cbn [cb_capabilities embedded_client]. rewrite Hc. reflexivity.
  - reflexivity.
  - vm_compute. discriminate.
  - intros items [= <-]. split; [vm_compute; discriminate|].
    repeat constructor; vm_compute; discriminate.
  - exists c1. eexists. rewrite <- Es in H1, H2 |- *. split; [exact H1|exact H2].
Defined.
