(* ===== verification/Text.v ===== *)
(** Texts as the configuration reader and the command line use them: the
    trimming of blanks, [std::from_chars] of an unsigned 64-bit number with the
    wrappers around it (apps/daemon/daemon_config.cpp, apps/cli/cli.cpp), and
    [std::to_string]. *)
From S2P Require Import Prelude Containers Common Catalog.
Local Open Scope string_scope.
Local Open Scope list_scope.
Open Scope Z_scope.
Open Scope pdcm_scope.

Definition digit_value (c : Ascii.ascii) : Z := ascii_code c - 48.

(** The digits at the front of a text, as a number read after [acc]. *)
Fixpoint read_digits (acc : Z) (s : string) : Z * string :=
  match s with
  | String c s' => if isdigit c then read_digits (acc * 10 + digit_value c) s' else (acc, s)
  | EmptyString => (acc, s)
  end.

(** [std::from_chars]: [None] for no digit or a number out of range, and what is
    left of the text. *)
Definition from_chars (s : string) : option Z * string :=
  match s with
  | EmptyString => (None, s)
  | String c _ =>
      if negb (isdigit c) then (None, s)
      else let '(v, rest) := read_digits 0 s in (if u64_max <? v then None else Some v, rest)
  end.

Definition unsignedValue (text : string) : option Z :=
  if str_empty text then None
  else match from_chars text with (Some v, rest) => if str_empty rest then Some v else None | (None, _) => None end.

(** ** Printing *)

Definition digit_char (d : Z) : Ascii.ascii := Ascii.ascii_of_N (Z.to_N (d + 48)).

(** The digits of a number in front of a text; [fuel] bounds their count. *)
Fixpoint print_digits (fuel : nat) (n : Z) (s : string) : string :=
  match fuel with
  | O => s
  | S fuel' =>
      let s1 := String (digit_char (n mod 10)) s in
      if n <? 10 then s1 else print_digits fuel' (n / 10) s1
  end.
(** [std::to_string] of an unsigned 64-bit number, which has at most 20 digits. *)
Definition to_string (n : Z) : string := print_digits 20 n "".

(** [operator<<] of a signed 64-bit number. *)
Definition to_string_signed (n : Z) : string := if n <? 0 then "-" +:+ to_string (- n) else to_string n.

Definition newline : string := String (Ascii.ascii_of_N 10) "".

(** ** Blanks *)

Definition blank (c : Ascii.ascii) : bool := (ascii_code c =? 32) || (ascii_code c =? 9) || (ascii_code c =? 13).
Fixpoint trim_front (s : string) : string :=
  match s with String c s' => if blank c then trim_front s' else s | EmptyString => s end.
Fixpoint trim_back (s : string) : string :=
  match s with
  | String c s' => match trim_back s' with EmptyString => if blank c then EmptyString else String c EmptyString | s1 => String c s1 end
  | EmptyString => s
  end.
Definition trim (s : string) : string := trim_back (trim_front s).

(** ** Lemmas *)

Lemma digit_char_code d : 0 <= d < 10 -> ascii_code (digit_char d) = d + 48.
Proof.
  intros Hd. unfold ascii_code, digit_char. rewrite Ascii.N_ascii_embedding by lia. lia.
Qed.
Lemma digit_char_digit d : 0 <= d < 10 -> isdigit (digit_char d) = true /\ digit_value (digit_char d) = d.
Proof.
  intros Hd. unfold isdigit, digit_value. rewrite digit_char_code by done. split; [|lia].
  apply andb_true_iff. split; apply Z.leb_le; lia.
Qed.

(** Reading what was printed gives the number back. *)
Lemma read_printed fuel : forall n s acc, 0 <= n < 10 ^ (Z.of_nat fuel + 1) ->
  exists k, 1 <= k /\ read_digits acc (print_digits (S fuel) n s) = read_digits (acc * 10 ^ k + n) s /\
    exists c s', print_digits (S fuel) n s = String c s' /\ isdigit c = true.
Proof.
  induction fuel as [|fuel IH]; intros n s acc Hn; pose proof (Z.mod_pos_bound n 10 ltac:(lia)) as Hm;
    destruct (digit_char_digit (n mod 10) Hm) as [D1 D2].
  - cbn in Hn. cbn [print_digits]. rewrite (proj2 (Z.ltb_lt _ _)) by lia. exists 1. split; [lia|]. split; [|by eexists _, _].
    cbn [read_digits]. rewrite D1, D2, (Z.mod_small n 10) by lia. f_equal; lia.
  - remember (S fuel) as f. cbn [print_digits]. guard as G; bprop in G.
    + exists 1. split; [lia|]. split; [|by eexists _, _]. cbn [read_digits]. rewrite D1, D2, (Z.mod_small n 10) by lia. f_equal; lia.
    + assert (0 <= n / 10 < 10 ^ (Z.of_nat fuel + 1)) as Hq.
      { split; [apply Z.div_pos; lia|]. apply Z.div_lt_upper_bound; [lia|]. subst f.
        replace (Z.of_nat (S fuel) + 1) with (Z.succ (Z.of_nat fuel + 1)) in Hn by lia. rewrite Z.pow_succ_r in Hn by lia. lia. }
      destruct (IH (n / 10) (String (digit_char (n mod 10)) s) acc Hq) as (k & K1 & K2 & K3). exists (k + 1). split; [lia|]. split; [|exact K3].
      rewrite K2. cbn [read_digits]. rewrite D1, D2, Z.pow_add_r by lia. f_equal. pose proof (Z.div_mod n 10 ltac:(lia)). lia.
Qed.

Lemma unsigned_to_string n : 0 <= n <= u64_max -> unsignedValue (to_string n) = Some n.
Proof.
  intros Hn. unfold u64_max in Hn. destruct (read_printed 19 n "" 0) as (k & K1 & K2 & c & s' & K3 & K4).
  { split; [lia|]. change (10 ^ (Z.of_nat 19 + 1)) with 100000000000000000000. lia. }
  unfold unsignedValue, to_string. rewrite K3 in *. cbn [str_empty]. unfold from_chars. rewrite K4. cbn [negb].
  rewrite K2. cbn [read_digits]. rewrite Z.mul_0_l, Z.add_0_l. rewrite (proj2 (Z.ltb_ge _ _)) by (unfold u64_max; lia). done.
Qed.

(** An accepted number is one that [std::uint64_t] holds. *)
Lemma read_digits_nonneg s : forall acc, 0 <= acc -> 0 <= fst (read_digits acc s).
Proof.
  induction s as [|c s IH]; intros acc Ha; [done|]. cbn [read_digits]. destruct (isdigit c) eqn:E; [|done]. apply IH.
  unfold isdigit in E. bprop in E. unfold digit_value. lia.
Qed.
Lemma unsignedValue_range s v : unsignedValue s = Some v -> 0 <= v <= u64_max.
Proof.
  unfold unsignedValue, from_chars. destruct s as [|c s]; [done|]. cbn [str_empty].
  destruct (isdigit c); [|done]. cbn [negb]. pose proof (read_digits_nonneg (String c s) 0 ltac:(done)) as H0.
  destruct (read_digits 0 (String c s)) as [u rest]. cbn [fst] in H0. guard as G; [done|]. bprop in G.
  destruct (str_empty rest); [|done]. intros [= <-]. lia.
Qed.

(** A text without blanks at its ends is its own trimming. *)
Definition tight (s : string) : Prop := trim_front s = s /\ trim_back s = s.
Lemma tight_trim s : tight s -> trim s = s.
Proof. intros [H1 H2]. unfold trim. by rewrite H1. Qed.

Fixpoint all_chars (p : Ascii.ascii -> bool) (s : string) : bool := match s with String c s' => p c && all_chars p s' | EmptyString => true end.
Definition no_blanks (s : string) : bool := all_chars (fun c => negb (blank c)) s.
Lemma no_blanks_tight s : no_blanks s = true -> tight s.
Proof.
  intros Hs. split; [destruct s as [|c s]; [done|]; cbn in Hs |- *; by destruct (blank c)|].
  induction s as [|c s IH]; [done|]. cbn in Hs |- *. apply andb_true_iff in Hs as [H1 H2]. rewrite (IH H2).
  apply negb_true_iff in H1. rewrite H1. by destruct s.
Qed.

Lemma trim_back_app a b : trim_back b = b -> b <> "" -> trim_back (a +:+ b) = a +:+ b.
Proof.
  intros Hb Hn. induction a as [|c a IH]; [done|]. change (trim_back (String c (a +:+ b)) = String c (a +:+ b)). cbn [trim_back]. rewrite IH.
  by destruct (a +:+ b) eqn:E; [destruct a; [destruct (Hn E)|done]|].
Qed.

Lemma all_chars_app p a b : all_chars p (a +:+ b) = all_chars p a && all_chars p b.
Proof.
  induction a as [|c a IH]; [done|]. change (p c && all_chars p (a +:+ b) = p c && all_chars p a && all_chars p b).
  by rewrite IH, andb_assoc.
Qed.

(** The printed digits are digits. *)
Lemma print_digits_chars p fuel : (forall d, 0 <= d < 10 -> p (digit_char d) = true) ->
  forall n s, all_chars p s = true -> all_chars p (print_digits fuel n s) = true.
Proof.
  intros Hp. induction fuel as [|fuel IH]; intros n s Hs; [done|]. cbn [print_digits].
  assert (all_chars p (String (digit_char (n mod 10)) s) = true) as H1.
  { cbn. rewrite Hs, Hp; [done|]. apply Z.mod_pos_bound. lia. }
  guard as G; [done|]. by apply IH.
Qed.

Lemma print_digits_length fuel : forall n s, (String.length (print_digits fuel n s) <= fuel + String.length s)%nat.
Proof.
  induction fuel as [|fuel IH]; intros n s; [done|]. cbn [print_digits]. guard as G; [cbn; lia|].
  pose proof (IH (n / 10) (String (digit_char (n mod 10)) s)) as Hl. cbn in Hl. lia.
Qed.
