(* ===== verification/MockProvider.v ===== *)
(** The scripted provider of the test kit (src/testkit/src/mock_provider.cpp,
    src/testkit/include/pdcm/testkit/): a second instance of [Provider], with its
    manual clock, and the whole system run over it, from discovery and the
    heartbeat watch to the answer of a health query.

    The clock is shared with the test that advances it; a provider carries it as
    it is at the time of a call. *)
From S2P Require Import Prelude Containers Common Provider Session Catalog EventStore DataStore HealthStore Watch ProcessorGraph Metrics Plan Collect Scheduler Turn Service Heartbeat Text.
Local Open Scope string_scope.
Local Open Scope list_scope.
Open Scope Z_scope.
Open Scope pdcm_scope.

(** ** ManualClock *)

Record ManualClock := mkClock { mc_monotonic_ns_ : Z; mc_wall_ns_ : Z }.
Definition monotonicNow (c : ManualClock) : MonotonicTime := mc_monotonic_ns_ c.
Definition wallTimeNanoseconds (c : ManualClock) : Z := mc_wall_ns_ c.
(** [fetch_add] on a signed atomic wraps around. *)
Definition advance (c : ManualClock) (delta : Z) : string + ManualClock :=
  if delta <? 0 then inl "manual clock cannot move backwards"
  else inr (mkClock (to_i64 (wrap64 (mc_monotonic_ns_ c + delta))) (to_i64 (wrap64 (mc_wall_ns_ c + delta)))).

(** ** MockProvider *)

Definition kTestGaugeMetricId : Z := 4026531841.
Definition kTestCounterMetricId : Z := 4026531842.
Definition kTestDerivedRateMetricId : Z := 4026531843.
Definition kTestPeriodicFailureMetricId : Z := 4026531844.
Definition kTestHeartbeatEvidenceId : Z := 4026532080.

Inductive MockScenario := MS_ProviderUnavailable | MS_ZeroDevice | MS_SingleDevice | MS_MultipleDevices | MS_PartialMetricFailure.
#[export] Instance MockScenario_eq_dec : EqDecision MockScenario.
Proof. solve_decision. Defined.
Inductive MockHeartbeatClass := MH_Normal | MH_Warning | MH_Fault.

Record MockProviderConfig := mkMockConfig { mpc_scenario : MockScenario; mpc_heartbeat : MockHeartbeatClass; mpc_target : TargetKind }.
Definition mock_config_default : MockProviderConfig := mkMockConfig MS_SingleDevice MH_Normal TK_Fpga.

Record MockProvider := mkMock {
  mp_config_ : MockProviderConfig;
  mp_clock_ : ManualClock;
  mp_state_ : ProviderState;
  mp_sample_sequence_ : Z }.
Definition mp_with_state (p : MockProvider) (s : ProviderState) : MockProvider :=
  mkMock (mp_config_ p) (mp_clock_ p) s (mp_sample_sequence_ p).
(** The provider when the shared clock shows another time. *)
Definition mp_at (p : MockProvider) (c : ManualClock) : MockProvider := mkMock (mp_config_ p) c (mp_state_ p) (mp_sample_sequence_ p).

Definition mp_construct (config : MockProviderConfig) (clock : option ManualClock) : string + MockProvider :=
  match clock with
  | None => inl "MockProvider requires a clock"
  | Some c => inr (mkMock config c PS_Uninitialized 0)
  end.

Definition makeDevice (index : Z) : ProviderEntity :=
  mkProviderEntity ("mock-device-" +:+ to_string index) (if index =? 0 then "0000:01:00.0" else "0000:02:00.0") "mock-pdrv-1.0" "mock-boot-1"
    PES_Ready true.
Definition makeCapability (kind : ProviderDataKind) (id : Z) : ProviderCapability := mkProviderCapability kind id true "MOCK_SUPPORTED".
Definition makeItemFailure (item : ProviderReadItem) (status : ObservationStatus) (native_code : Z) (retryable : bool) : ProviderReadItemResult :=
  mkItemResult item status None None None None "mock-script" native_code retryable.

Definition mp_initialize (p : MockProvider) (options : ProviderInitOptions) : Status * MockProvider :=
  if mp_state_ p ==? PS_Shutdown then (err_status PDCM_STATUS_NOT_INITIALIZED "shutdown provider cannot be initialized again", p)
  else if (pio_target options !=? TK_Unknown) && (pio_target options !=? mpc_target (mp_config_ p))
  then (err_status PDCM_STATUS_UNSUPPORTED "mock target mismatch", mp_with_state p PS_Unavailable)
  else if pio_deadline options <? monotonicNow (mp_clock_ p)
  then (err_status PDCM_STATUS_TIMEOUT "mock initialization deadline expired", mp_with_state p PS_Unavailable)
  else if mpc_scenario (mp_config_ p) ==? MS_ProviderUnavailable
  then (err_status PDCM_STATUS_UNAVAILABLE "scripted provider unavailable", mp_with_state p PS_Unavailable)
  else (st_success, mp_with_state p PS_Ready).

Definition mp_shutdown (p : MockProvider) : MockProvider := mp_with_state p PS_Shutdown.
Definition mp_concurrency (p : MockProvider) : ProviderConcurrency := mkConcurrency 1 false.

Definition descriptor (p : MockProvider) : ProviderDescriptor :=
  let target := mpc_target (mp_config_ p) in
  match mpc_scenario (mp_config_ p) with
  | MS_ProviderUnavailable =>
      mkDescriptor "mock-provider-1" target (mp_state_ p) PF_NativeInitialize [] []
        [err_status PDCM_STATUS_UNAVAILABLE "scripted provider unavailable"] 0
  | MS_ZeroDevice => mkDescriptor "mock-provider-1" target (mp_state_ p) PF_None [] [] [] 0
  | scenario =>
      let device_count := if scenario ==? MS_MultipleDevices then 2 else 1 in
      mkDescriptor "mock-provider-1" target (mp_state_ p) PF_None (map makeDevice (seqZ 0 device_count))
        [makeCapability PDK_Metric kTestGaugeMetricId; makeCapability PDK_Metric kTestCounterMetricId;
         makeCapability PDK_Metric kTestPeriodicFailureMetricId; makeCapability PDK_HeartbeatEvidence kTestHeartbeatEvidenceId] [] device_count
  end.

Definition mp_discover (p : MockProvider) (deadline : MonotonicTime) : ProviderDiscoveryResult * MockProvider :=
  let status :=
    if mp_state_ p !=? PS_Ready then err_status PDCM_STATUS_UNAVAILABLE "provider is not ready"
    else if deadline <? monotonicNow (mp_clock_ p) then err_status PDCM_STATUS_TIMEOUT "discovery deadline expired"
    else st_success in
  (mkDiscovery status (descriptor p), p).

Definition mock_class (c : MockHeartbeatClass) : HeartbeatNativeClass :=
  match c with MH_Normal => HN_Normal | MH_Warning => HN_Warning | MH_Fault => HN_Fault end.

Definition readItem (p : MockProvider) (item : ProviderReadItem) (sequence : Z) : ProviderReadItemResult :=
  let e := pri_entity item in
  let valid value class token :=
    mkItemResult item OS_Valid value class token (Some (monotonicNow (mp_clock_ p))) "mock-script" 0 false in
  let number v := valid (Some (MV_Uint64 (wrap64 v))) None None in
  if (er_kind e !=? EK_Device) || negb (er_id e =? 0) || negb (er_generation e =? 1) then makeItemFailure item OS_Error 1002 false
  else if (pri_kind item ==? PDK_HeartbeatEvidence) && (pri_data_id item =? kTestHeartbeatEvidenceId)
  then valid None (Some (mock_class (mpc_heartbeat (mp_config_ p)))) (Some sequence)
  else if pri_kind item !=? PDK_Metric then makeItemFailure item OS_Unsupported 0 false
  else if pri_data_id item =? kTestGaugeMetricId then number (sequence * 10)
  else if pri_data_id item =? kTestCounterMetricId then number (sequence * 100)
  else if pri_data_id item =? kTestPeriodicFailureMetricId
  then if mpc_scenario (mp_config_ p) ==? MS_PartialMetricFailure then makeItemFailure item OS_Error 2001 true else number sequence
  else makeItemFailure item OS_Unsupported 0 false.

Definition count_status (s : ObservationStatus) (items : list ProviderReadItemResult) : Z :=
  zlen (List.filter (fun r => pir_status r ==? s) items).

(** The call status of a read that has been made. *)
Definition read_status (items : list ProviderReadItemResult) : Status :=
  if count_status OS_Valid items =? zlen items then st_success
  else if 0 <? count_status OS_Valid items then err_status PDCM_STATUS_PARTIAL_RESULT "scripted partial result"
  else if negb (is_nil items) && (count_status OS_Unsupported items =? zlen items)
  then err_status PDCM_STATUS_UNSUPPORTED "all requested data is unsupported"
  else if is_nil items then err_status PDCM_STATUS_INVALID_ARGUMENT "empty read request"
  else err_status PDCM_STATUS_INTERNAL "all scripted reads failed".

Definition mp_batchRead (p : MockProvider) (request : ProviderReadRequest) : ProviderReadResult * MockProvider :=
  if mp_state_ p !=? PS_Ready then (mkReadResult (err_status PDCM_STATUS_UNAVAILABLE "provider is not ready") [], p)
  else if prq_deadline request <? monotonicNow (mp_clock_ p)
  then (mkReadResult (err_status PDCM_STATUS_TIMEOUT "read deadline expired")
          (map (fun item => makeItemFailure item OS_Error 1001 true) (prq_items request)), p)
  else
  let sequence := wrap64 (mp_sample_sequence_ p + 1) in
  let items := map (fun item => readItem p item sequence) (prq_items request) in
  (mkReadResult (read_status items) items, mkMock (mp_config_ p) (mp_clock_ p) (mp_state_ p) sequence).

#[export] Instance mock_provider : Provider MockProvider := {|
  p_initialize := mp_initialize;
  p_shutdown := mp_shutdown;
  p_state := mp_state_;
  p_concurrency := mp_concurrency;
  p_discover := mp_discover;
  p_batchRead := mp_batchRead |}.

(** ** The read contract *)

Lemma readItem_item p item sequence : pir_item (readItem p item sequence) = item.
Proof. unfold readItem. cbv zeta. by repeat (case_match; try done). Qed.

Lemma readItem_valid p item sequence : 0 <= monotonicNow (mp_clock_ p) -> validProviderItem (readItem p item sequence) = true.
Proof.
  intros Hn. apply Z.ltb_ge in Hn. unfold readItem. cbv zeta. guard as G1; [by destruct item as [? []]|].
  guard as G2.
  { bprop in G2. destruct G2 as [G2 _]. unfold validProviderItem. cbn. rewrite G2, Hn. by destruct (mpc_heartbeat _). }
  guard as G3; [by destruct item as [? []]|]. bprop in G3.
  assert (forall v, validProviderItem (mkItemResult item OS_Valid (Some (MV_Uint64 v)) None None (Some (monotonicNow (mp_clock_ p)))
    "mock-script" 0 false) = true) as Hv by (intros v; unfold validProviderItem; cbn; by rewrite G3, Hn).
  assert (forall s c r, s <> OS_Valid -> s <> OS_Stale -> validProviderItem (makeItemFailure item s c r) = true) as Hf.
  { intros s c r S1 S2. unfold validProviderItem, makeItemFailure. cbn. by rewrite G3, !bool_decide_false. }
  guard as G4; [apply Hv|]. guard as G5; [apply Hv|]. guard as G6; [guard as G7; [by apply Hf|apply Hv]|by apply Hf].
Qed.

Lemma count_all s items : count_status s items = zlen items <-> Forall (fun r => pir_status r = s) items.
Proof.
  unfold count_status. induction items as [|r items IH]; [done|]. cbn [List.filter]. rewrite Forall_cons, <- IH, zlen_cons.
  assert (zlen (List.filter (fun r => pir_status r ==? s) items) <= zlen items) as Hle.
  { apply zlen_sublist, filter_sublist. }
  case_bool_decide; [rewrite zlen_cons|]; split; try lia; intros; try split; try done; lia || tauto.
Qed.

Lemma count_some s items : 0 < count_status s items <-> Exists (fun r => pir_status r = s) items.
Proof.
  unfold count_status. induction items as [|r items IH]; [rewrite Exists_nil; change (0 < 0 <-> False); lia|]. cbn [List.filter]. rewrite Exists_cons, <- IH.
  case_bool_decide; [rewrite zlen_cons|tauto]. pose proof (zlen_nonneg (List.filter (fun r => pir_status r ==? s) items)). split; [by left|lia].
Qed.

(** The scripted provider honours the read contract that the collection path
    relies on.  A ready provider asked in time answers every requested item, once
    and in order, each answer well formed for its kind, and takes the next sample
    number; the call is usable exactly when some answer is valid or nothing was
    asked, and is reported as a success exactly when all are.  Asked too late it
    answers every item with an error and takes no sample; when it is not ready it
    answers nothing. *)
Theorem mock_read_contract p request :
  0 <= monotonicNow (mp_clock_ p) ->
  let '(result, p') := mp_batchRead p request in
  let items := prr_items result in
  let code := st_code (prr_call_status result) in
  mp_state_ p' = mp_state_ p /\ Forall (fun r => validProviderItem r = true) items /\
  if mp_state_ p ==? PS_Ready
  then map pir_item items = prq_items request /\
    if monotonicNow (mp_clock_ p) <=? prq_deadline request
    then mp_sample_sequence_ p' = wrap64 (mp_sample_sequence_ p + 1) /\
      (code = PDCM_STATUS_SUCCESS <-> Forall (fun r => pir_status r = OS_Valid) items) /\
      (usableCallStatus code = true <-> prq_items request = [] \/ Exists (fun r => pir_status r = OS_Valid) items)
    else p' = p /\ code = PDCM_STATUS_TIMEOUT /\ Forall (fun r => pir_status r = OS_Error) items
  else p' = p /\ items = [] /\ code = PDCM_STATUS_UNAVAILABLE.
Proof.
  intros Hn. unfold mp_batchRead. destruct (mp_state_ p ==? PS_Ready) eqn:Es; cbn [negb]; [|by split_and!].
  destruct (prq_deadline request <? monotonicNow (mp_clock_ p)) eqn:Ed; bprop in Ed.
  - rewrite (proj2 (Z.leb_gt _ _)) by lia. cbn [prr_items prr_call_status]. split_and!; try done.
    + apply Forall_fmap, Forall_true. by intros [? []].
    + rewrite map_map. cbn. apply map_id.
    + by apply Forall_fmap, Forall_true.
  - rewrite (proj2 (Z.leb_le _ _)) by lia. cbn [prr_items prr_call_status]. set (items := map _ _).
    assert (prq_items request = [] <-> items = []) as Hnil by (unfold items; destruct (prq_items request); done).
    pose proof (count_all OS_Valid items) as Hall. pose proof (count_some OS_Valid items) as Hsome. split_and!; try done.
    + apply Forall_fmap, Forall_true. intros i. by apply readItem_valid.
    + unfold items. rewrite map_map, (map_ext _ (fun i => i)); [apply map_id|]. intros i. apply readItem_item.
    + rewrite <- Hall. unfold read_status. guard as G1; bprop in G1; [done|]. split; [|done]. by repeat (case_match; try done).
    + rewrite Hnil, <- Hsome. unfold read_status. guard as G1; bprop in G1.
      * split; [intros _|done]. rewrite G1. destruct items; [by left|right]. rewrite zlen_cons. pose proof (zlen_nonneg items). lia.
      * guard as G2; bprop in G2; [split; [by right|done]|]. assert (items <> []) as Hne by (intros E; rewrite E in G1; done).
        destruct items; [done|]. guard as G3; (split; [done|]); intros [?|?]; done || lia.
Qed.

(** The branch for an empty request is never taken: an empty read succeeds. *)
Lemma mock_empty_read_succeeds p request :
  mp_state_ p = PS_Ready -> monotonicNow (mp_clock_ p) <= prq_deadline request -> prq_items request = [] ->
  prr_call_status (fst (mp_batchRead p request)) = st_success.
Proof. intros Hs Hd Hi. unfold mp_batchRead. rewrite Hs, Hi, (proj2 (Z.ltb_ge _ _)) by done. reflexivity. Qed.

(** ** The system over the scripted provider

    As the fixtures of the test kit assemble it: a core whose catalog maps the
    firmware heartbeat to the provider's datum, a watch manager with a heartbeat
    baseline, and a coordinator with the plan of its snapshot. *)

Definition mock_catalog (target : TargetKind) (freshness : Z) : TargetCatalog :=
  mkTargetCatalog 1 target MCS_BlockedExternal []
    [mkHealthEntry kFirmwareHeartbeatHealthId EK_Device RL_Required "firmware_heartbeat" (Some kTestHeartbeatEvidenceId) freshness 1
       "native mapping pending"].

Definition mock_clock : ManualClock := mkClock 100 1000.
Definition mock_core (config : MockProviderConfig) : string + Status * ServiceCore (P := MockProvider) :=
  match mp_construct config (Some mock_clock) with
  | inl e => inl e
  | inr p =>
      match core_construct (mkRuntimeConfig (mpc_target config) limits_default 1000 5000) (Some p) true (mock_catalog (mpc_target config) 100) with
      | inl e => inl e
      | inr c => inr (@core_start _ mock_provider sample_layout c 100 100 100)
      end
  end.

(** What the scenarios of the test kit make of a core. *)
Definition scenario_state (s : MockScenario) : CoreState * CoreDegradedReason * Z :=
  match s with
  | MS_ProviderUnavailable => (CS_Degraded, DR_ProviderUnavailable, 0)
  | MS_ZeroDevice => (CS_Ready, DR_None, 0)
  | MS_SingleDevice | MS_PartialMetricFailure => (CS_Ready, DR_None, 1)
  | MS_MultipleDevices => (CS_Degraded, DR_TopologyUnsupported, 2)
  end.

Lemma mock_scenarios config : mpc_target config <> TK_Unknown ->
  exists c, mock_core config = inr (st_success, c) /\
    let s := sv_snapshot_ c in
    (core_state s, core_degraded_reason s, core_detected_device_count s) = scenario_state (mpc_scenario config) /\
    zlen (elr_entities (core_entities c EK_Device)) = (if core_state s ==? CS_Ready then core_detected_device_count s else 0).
Proof.
  destruct config as [[] [] []]; intros Ht; try done; eexists; (split; [vm_compute; reflexivity|split; vm_compute; reflexivity]).
Qed.

(** ** Witnesses *)

Lemma mock_read_contract_witness :
  let p := mkMock mock_config_default mock_clock PS_Ready 6 in
  let request := mkReadRequest 1 1 1 100 400 [mkReadItem (mkEntityRef EK_Device 0 1) PDK_Metric kTestGaugeMetricId;
                                             mkReadItem (mkEntityRef EK_Device 0 1) PDK_Metric 5] in
  map pir_item (prr_items (fst (mp_batchRead p request))) = prq_items request /\
  mp_sample_sequence_ (snd (mp_batchRead p request)) = 7 /\
  st_code (prr_call_status (fst (mp_batchRead p request))) = PDCM_STATUS_PARTIAL_RESULT.
Proof.
  cbv zeta. match goal with |- context [mp_batchRead ?p ?r] => pose proof (mock_read_contract p r) as Hc end.
  specialize (Hc ltac:(vm_compute; discriminate)). destruct (mp_batchRead _ _) as [result p'] eqn:Em.
  destruct Hc as (_ & _ & H3 & H4 & _). split; [exact H3|]. split; [exact H4|]. vm_compute in Em. injection Em as <- _. reflexivity.
Defined.

(** A device whose firmware warns, sampled at time 200. *)
Definition loop_config : MockProviderConfig := mkMockConfig MS_SingleDevice MH_Warning TK_Fpga.
Definition loop_target : TargetCatalog := mock_catalog TK_Fpga 100.
Definition loop_view (c : ServiceCore (P := MockProvider)) : option CatalogView := Some (snapshot_ (sv_semantic_catalog_ c)).
Definition loop_watches (c : ServiceCore (P := MockProvider)) : WatchManager :=
  snd (setFirmwareHeartbeatBaseline (snd (wm_activateCatalog sample_watch_empty (loop_view c) loop_target)) 10 1000).
Definition loop_coordinator (c : ServiceCore (P := MockProvider)) : Coordinator :=
  snd (applyWatchSnapshot (snd (co_activateCatalog sched_start (sv_data_manager_ c) (loop_view c))) (sv_data_manager_ c)
         (Some (wm_snapshot_ (loop_watches c))) 100).
Definition loop_provider (c : ServiceCore (P := MockProvider)) : ProviderManager MockProvider :=
  let m := sv_provider_manager_ c in mkProviderManager (mp_at (pm_provider_ m) (mkClock 200 1100)) (pm_state_ m).
Definition loop_read (c : ServiceCore (P := MockProvider)) (request : ProviderReadRequest) : ProviderReadResult :=
  fst (pm_batchRead (loop_provider c) request).
Definition loop_run (c : ServiceCore (P := MockProvider)) :=
  @collectJob sample_layout (loop_coordinator c) (Some (loop_watches c)) (Some (sv_metrics_manager_ c)) (sv_data_manager_ c) (loop_read c)
    1 200 1000000200 200 200 1100.

(** The core after its start. *)
Definition loop_core : ServiceCore (P := MockProvider).
Proof. let x := eval vm_compute in (mock_core loop_config) in match x with inr (_, ?c) => exact c end. Defined.
Lemma loop_core_started : mock_core loop_config = inr (st_success, loop_core).
Proof. vm_compute. reflexivity. Qed.

Definition loop_device : EntityRef := mkEntityRef EK_Device 0 1.
Definition loop_item : CollectionPlanItem :=
  mkPlanItem (mkEffectiveKey "mock-provider-1" loop_device PDK_HeartbeatEvidence kTestHeartbeatEvidenceId 0) 10 100 WP_Heartbeat [].
Definition loop_job : CollectionJob := mkJob 1 "mock-provider-1" PDK_HeartbeatEvidence 0 10 WP_Heartbeat [loop_item].
Definition loop_beat : ProviderReadItemResult :=
  mkItemResult (job_read_item loop_item) OS_Valid None (Some HN_Warning) (Some 1) (Some 200) "mock-script" 0 false.

Lemma loop_core_ready : @loop_ready sample_layout (sv_metrics_manager_ loop_core) (sv_data_manager_ loop_core) loop_device kTestHeartbeatEvidenceId.
Proof.
  assert (cst_entities (dm_catalog_ (sv_data_manager_ loop_core)) = [loop_device]) as Ee by (vm_compute; reflexivity).
  split; rewrite ?Ee; try (vm_compute; reflexivity || discriminate).
  - assert (sv_data_manager_ loop_core = foldl (@data_step sample_layout) sample_empty
      [DoActivate (loop_view loop_core) loop_target;
       DoHealth (initial_health (mm_runtime_ (sv_metrics_manager_ loop_core)) loop_device 100)]) as -> by (vm_compute; reflexivity).
    apply (@data_run_wf sample_layout). split.
    + apply (@dm_construct_wf sample_layout data_limits_default); [apply sample_limits_wf|reflexivity].
    + apply (@dm_construct_health sample_layout data_limits_default); [apply sample_limits_wf|reflexivity].
  - by intros a b ->%list_elem_of_singleton ->%list_elem_of_singleton.
  - by apply list_elem_of_singleton.
  - split; [reflexivity|discriminate].
  - eexists. split; vm_compute; reflexivity.
Qed.

(** The loop over the scripted provider: the device warns, and a query 50
    nanoseconds later says so. *)
Lemma heartbeat_closed_loop_witness :
  let '(run, _, _, dm') := loop_run loop_core in
  st_ok (crr_status run) = true /\
  exists r, hqr_item (queryHealth (sv_metrics_manager_ loop_core) (mkHealthRequest loop_device kFirmwareHeartbeatHealthId 1 0) 250 dm') = Some r /\
    hr_state r = HS_Warning /\ hr_evidence_age_ns r = 50.
Proof.
  pose proof (@heartbeat_closed_loop sample_layout (loop_coordinator loop_core) (Some (loop_watches loop_core)) (sv_metrics_manager_ loop_core)
    (sv_data_manager_ loop_core) (loop_read loop_core) loop_job loop_item HN_Warning 1 200 loop_beat 200 1000000200 200 200 1100) as Hl.
  cbv zeta in Hl. specialize (Hl loop_core_ready).
  assert (st_ok (crr_status (loop_run loop_core).1.1.1) = true) as Hok by (vm_compute; reflexivity).
  unfold loop_run in *. change (cj_id loop_job) with 1 in Hl. destruct (@collectJob _ _ _ _ _ _ _ _ _ _ _ _) as [[[run c'] wm'] dm'].
  cbn [fst] in Hok. assert (looped (sv_metrics_manager_ loop_core) (sv_data_manager_ loop_core) loop_device HN_Warning 1 200 (crr_status run) dm') as HL.
  { apply Hl; try (vm_compute; reflexivity || discriminate).
    - lia.
    - vm_compute. split; discriminate.
    - split; [reflexivity..|split; [reflexivity|discriminate]|reflexivity|split; [reflexivity|lia]].
    - intros x Hx. vm_compute in Hx. by apply elem_of_nil in Hx.
    - unfold i64_max. lia. }
  unfold looped in HL. rewrite Hok in HL. destruct HL as (_ & e & E1 & _ & E3 & Ha). split; [exact Hok|].
  destruct (Ha 250 0) as (r & R1 & _ & _ & _ & R5 & R6); [unfold i64_max; lia|]. exists r. split; [exact R1|].
  rewrite E1, E3 in R6. rewrite E3 in R5. split; [exact (proj2 R6)|exact R5].
Defined.
