(* ===== verification/DaemonConfig.v ===== *)
(** The daemon's configuration file (src/product/apps/daemon/daemon_config.hpp
    and .cpp).

    An input stream is its text and whether reading it failed before the end. *)
From S2P Require Import Prelude Containers Common Provider Session Catalog Frame Service Socket Text.
Local Open Scope string_scope.
Local Open Scope list_scope.
Open Scope Z_scope.
Open Scope pdcm_scope.

Definition kMaximumMilliseconds : Z := 60000.
Definition kMaximumLineBytes : Z := 4096.

Record DaemonConfig := mkDaemonConfig { dc_runtime : RuntimeConfig; dc_endpoint : string }.
Definition daemon_default : DaemonConfig :=
  mkDaemonConfig (mkRuntimeConfig TK_Unknown limits_default 1000 5000) "/run/pdcm/pdcm.sock".

Definition with_runtime (c : DaemonConfig) (r : RuntimeConfig) : DaemonConfig := mkDaemonConfig r (dc_endpoint c).
Definition with_limits (c : DaemonConfig) (l : ResourceLimits) : DaemonConfig :=
  let r := dc_runtime c in
  with_runtime c (mkRuntimeConfig (rc_target r) l (rc_provider_call_timeout r) (rc_shutdown_grace r)).
Definition with_target (c : DaemonConfig) (t : TargetKind) : DaemonConfig :=
  let r := dc_runtime c in
  with_runtime c (mkRuntimeConfig t (rc_limits r) (rc_provider_call_timeout r) (rc_shutdown_grace r)).

(** [bounded<std::size_t>] *)
Definition bounded (text : string) : option Z :=
  match unsignedValue text with
  | Some parsed => if (parsed =? 0) || (u64_max <? parsed) then None else Some parsed
  | None => None
  end.

(** The destination of a limit's key, as the limits with a new value there. *)
Definition limit_setter (key : string) (l : ResourceLimits) : option (Z -> ResourceLimits) :=
  let s := max_sessions l in let r := max_outstanding_requests_per_session l in let w := max_watches_per_session l in
  let u := max_subscriptions_per_session l in let f := lim_max_frame_bytes l in
  if key ==? "max_sessions" then Some (fun v => mkLimits v r w u f)
  else if key ==? "max_outstanding_requests_per_session" then Some (fun v => mkLimits s v w u f)
  else if key ==? "max_watches_per_session" then Some (fun v => mkLimits s r v u f)
  else if key ==? "max_subscriptions_per_session" then Some (fun v => mkLimits s r w v f)
  else if key ==? "max_frame_bytes" then Some (fun v => mkLimits s r w u v)
  else None.

Definition endpoint_bad (value : string) : bool :=
  match value with EmptyString => true | String c _ => negb (ascii_code c =? 47) || (107 <? str_size value) end.

Definition apply (key value : string) (c : DaemonConfig) : Status * DaemonConfig :=
  if key ==? "target" then
    if value ==? "fpga" then (st_success, with_target c TK_Fpga)
    else if value ==? "emu" then (st_success, with_target c TK_Emu)
    else (invalid_argument "target must be fpga or emu", c)
  else if key ==? "endpoint" then
    if endpoint_bad value then (invalid_argument "endpoint must be an absolute bounded UDS path", c)
    else (st_success, mkDaemonConfig (dc_runtime c) value)
  else if (key ==? "provider_call_timeout_ms") || (key ==? "shutdown_grace_ms") then
    let number := unsignedValue value in
    match number with
    | Some n =>
        if (kMaximumMilliseconds <? n) || (n =? 0) then (invalid_argument "daemon timeout must be between 1 and 60000 ms", c)
        else
        let r := dc_runtime c in
        (st_success,
         if key ==? "provider_call_timeout_ms"
         then with_runtime c (mkRuntimeConfig (rc_target r) (rc_limits r) n (rc_shutdown_grace r))
         else with_runtime c (mkRuntimeConfig (rc_target r) (rc_limits r) (rc_provider_call_timeout r) n))
    | None => (invalid_argument "daemon timeout must be between 1 and 60000 ms", c)
    end
  else
  match limit_setter key (rc_limits (dc_runtime c)) with
  | None => (invalid_argument "unknown daemon configuration key", c)
  | Some set =>
      match bounded value with
      | None => (invalid_argument "daemon resource limit must be positive", c)
      | Some v => (st_success, with_limits c (set v))
      end
  end.

(** ** Reading lines *)

(** [view.find('=')] with the parts around it. *)
Fixpoint split_at_equals (s : string) : option (string * string) :=
  match s with
  | EmptyString => None
  | String c s' =>
      if ascii_code c =? 61 then Some (EmptyString, s')
      else match split_at_equals s' with Some (k, v) => Some (String c k, v) | None => None end
  end.

(** The lines [std::getline] reads from a text: a newline ends a line, and an
    empty rest is not a line. *)
Fixpoint getlines (s : string) : list string :=
  match s with
  | EmptyString => []
  | String c s' =>
      if ascii_code c =? 10 then EmptyString :: getlines s'
      else match getlines s' with
           | l :: ls => String c l :: ls
           | [] => [String c EmptyString]
           end
  end.
Definition is_comment (s : string) : bool := match s with String c _ => ascii_code c =? 35 | EmptyString => true end.

(** One turn of the loop: the line is skipped, refused or applied. *)
Definition parse_line (line_number : Z) (line : string) (c : DaemonConfig) : Status * DaemonConfig :=
  if kMaximumLineBytes <? str_size line then (mkStatus PDCM_STATUS_RESOURCE_EXHAUSTED "daemon configuration line is too long", c)
  else
  let view := trim line in
  if is_comment view then (st_success, c)
  else
  match split_at_equals view with
  | None => (invalid_argument "daemon configuration entry has no separator", c)
  | Some (before, after) =>
      let key := trim before in
      let value := trim after in
      if str_empty key || str_empty value then (invalid_argument "daemon configuration entry is empty", c)
      else
      let '(status, c1) := apply key value c in
      if negb (st_ok status)
      then (mkStatus (st_code status) ("invalid daemon configuration entry at line " +:+ to_string line_number), c1)
      else (st_success, c1)
  end.

Fixpoint parse_lines (line_number : Z) (lines : list string) (c : DaemonConfig) : Status * DaemonConfig :=
  match lines with
  | [] => (st_success, c)
  | line :: rest =>
      let '(status, c1) := parse_line (line_number + 1) line c in
      if negb (st_ok status) then (status, c1) else parse_lines (line_number + 1) rest c1
  end.

(** The status and what [*config] holds afterwards. *)
Definition parseConfig (input : string) (failed : bool) (config : option DaemonConfig) : Status * option DaemonConfig :=
  match config with
  | None => (invalid_argument "daemon config output must not be null", None)
  | Some before =>
      let '(status, candidate) := parse_lines 0 (getlines input) daemon_default in
      if negb (st_ok status) then (status, Some before)
      else if failed then (mkStatus PDCM_STATUS_INTERNAL "daemon configuration could not be read", Some before)
      else
      let valid := rc_validate (dc_runtime candidate) in
      if negb (st_ok valid) then (valid, Some before) else (st_success, Some candidate)
  end.

(** The file system: the text at a path, if it can be opened. *)
Definition loadConfig (files : string -> option (string * bool)) (path : string) (config : option DaemonConfig)
    : Status * option DaemonConfig :=
  match path with
  | EmptyString => (invalid_argument "daemon config path must be absolute", config)
  | String c _ =>
      if negb (ascii_code c =? 47) then (invalid_argument "daemon config path must be absolute", config)
      else
      match files path with
      | None => (mkStatus PDCM_STATUS_NOT_FOUND "daemon configuration file is unavailable", config)
      | Some (text, failed) => parseConfig text failed config
      end
  end.

(** ** Accepted configurations *)

Definition limit_ok (v : Z) : Prop := 1 <= v <= u64_max.
Definition timeout_ok (v : Z) : Prop := 1 <= v <= kMaximumMilliseconds.
Definition config_limits (l : ResourceLimits) : Prop :=
  limit_ok (max_sessions l) /\ limit_ok (max_outstanding_requests_per_session l) /\ limit_ok (max_watches_per_session l) /\
  limit_ok (max_subscriptions_per_session l) /\ limit_ok (lim_max_frame_bytes l).

(** What every configuration satisfies while it is being read. *)
Record config_bounds (c : DaemonConfig) : Prop := {
  cb_endpoint : validateEndpoint (dc_endpoint c) = st_success;
  cb_limits : config_limits (rc_limits (dc_runtime c));
  cb_timeouts : timeout_ok (rc_provider_call_timeout (dc_runtime c)) /\ timeout_ok (rc_shutdown_grace (dc_runtime c)) }.

Lemma default_bounds : config_bounds daemon_default.
Proof. split; [done| |]; by repeat split. Qed.

(** The reader and the socket layer agree on endpoints. *)
Lemma endpoint_good value : endpoint_bad value = false <-> validateEndpoint value = st_success.
Proof.
  unfold endpoint_bad, validateEndpoint, endpoint_invalid. destruct value as [|c s]; [done|].
  assert ((107 <? str_size (String c s)) = (sun_path_size <=? str_size (String c s))) as ->; [|by destruct (_ || _)].
  unfold sun_path_size. destruct (107 <? _) eqn:E; bprop in E; symmetry; [apply Z.leb_le|apply Z.leb_gt]; lia.
Qed.

Lemma bounded_ok text v : bounded text = Some v -> limit_ok v.
Proof.
  unfold bounded. destruct (unsignedValue text) as [n|] eqn:E; [|done]. apply unsignedValue_range in E.
  guard as G; [done|]. bprop in G. intros [= <-]. unfold limit_ok. lia.
Qed.

Lemma limit_setter_ok key l set v : limit_setter key l = Some set -> config_limits l -> limit_ok v -> config_limits (set v).
Proof. unfold limit_setter. cbv zeta. intros E (? & ? & ? & ? & ?) Hv. repeat (guard E as G; [injection E as <-; by split_and!|clear G]). done. Qed.

Lemma apply_bounds key value c : config_bounds c -> config_bounds (snd (apply key value c)).
Proof.
  intros [B1 B2 [B3 B4]]. unfold apply. guard as G1. { guard as G; [done|]. by guard as G'. }
  guard as G2. { guard as G; [done|]. split; [by apply endpoint_good|done|done]. }
  guard as G3. { destruct (unsignedValue value) as [n|] eqn:En; [|done]. apply unsignedValue_range in En. guard as G4; [done|]. bprop in G4.
    assert (timeout_ok n) as Hn by (unfold timeout_ok; lia). guard as G5; done. }
  destruct (limit_setter key _) as [set|] eqn:Es; [|done]. destruct (bounded value) as [v|] eqn:Ev; [|done].
  split; [done| |done]. eapply limit_setter_ok; [done|done|by eapply bounded_ok].
Qed.

Lemma parse_line_bounds n line c : config_bounds c -> config_bounds (snd (parse_line n line c)).
Proof.
  intros Hc. unfold parse_line. guard as G1; [done|]. guard as G2; [done|]. destruct (split_at_equals _) as [[k v]|]; [|done].
  guard as G3; [done|]. pose proof (apply_bounds (trim k) (trim v) c Hc) as Ha. destruct (apply _ _ c) as [st c1]. by guard as G4.
Qed.

Lemma parse_lines_bounds lines : forall n c, config_bounds c -> config_bounds (snd (parse_lines n lines c)).
Proof.
  induction lines as [|line lines IH]; intros n c Hc; [done|]. cbn [parse_lines].
  pose proof (parse_line_bounds (n + 1) line c Hc) as Hl. destruct (parse_line (n + 1) line c) as [st c1]. guard as G; [done|]. by apply IH.
Qed.

Lemma parse_config_bounds input failed before :
  let '(status, config) := parseConfig input failed (Some before) in
  if st_ok status
  then exists c, config = Some c /\ config_bounds c /\ rc_validate (dc_runtime c) = st_success /\
    rc_target (dc_runtime c) <> TK_Unknown /\ 20 <= lim_max_frame_bytes (rc_limits (dc_runtime c)) /\ failed = false
  else config = Some before.
Proof.
  unfold parseConfig. pose proof (parse_lines_bounds (getlines input) 0 daemon_default default_bounds) as Hb.
  destruct (parse_lines 0 (getlines input) daemon_default) as [st c]. cbn [snd] in Hb.
  destruct (st_ok st) eqn:Es; cbn [negb]; [|by rewrite Es]. destruct failed; [done|].
  destruct (rc_validate (dc_runtime c)) as [code msg] eqn:Ev. destruct (st_ok (mkStatus code msg)) eqn:Eo; cbn [negb]; [|by rewrite Eo].
  cbn [st_ok st_success st_code]. exists c. split; [done|]. split; [done|]. revert Ev. unfold rc_validate.
  guard as G1; [intros [= <- <-]; done|]. guard as G2; [intros [= <- <-]; done|]. guard as G3; [intros [= <- <-]; done|]. intros E.
  bprop in G1. bprop in G2. split_and!; try done; lia.
Qed.

(** A configuration the daemon accepts is usable: the core accepts its
    runtime part, the socket layer its endpoint, the timeouts lie between 1 and
    60000 milliseconds and every limit is positive and fits its type; the frame
    limit holds at least a header.  A configuration that is not accepted leaves
    the caller's untouched. *)
Theorem parse_config_sound input failed before :
  let '(status, config) := parseConfig input failed (Some before) in
  if st_ok status
  then exists c, config = Some c /\ config_bounds c /\ rc_validate (dc_runtime c) = st_success /\
    rc_target (dc_runtime c) <> TK_Unknown /\ 20 <= lim_max_frame_bytes (rc_limits (dc_runtime c)) /\ failed = false
  else config = Some before.
Proof. apply parse_config_bounds. Qed.

(** ** Round trip

    A configuration written out with every key is read back as it was. *)

Definition entry (key value : string) : string := key +:+ "=" +:+ value.
Definition config_lines (c : DaemonConfig) : list string :=
  let r := dc_runtime c in let l := rc_limits r in
  [entry "target" (match rc_target r with TK_Emu => "emu" | _ => "fpga" end); entry "endpoint" (dc_endpoint c);
   entry "provider_call_timeout_ms" (to_string (rc_provider_call_timeout r)); entry "shutdown_grace_ms" (to_string (rc_shutdown_grace r));
   entry "max_sessions" (to_string (max_sessions l));
   entry "max_outstanding_requests_per_session" (to_string (max_outstanding_requests_per_session l));
   entry "max_watches_per_session" (to_string (max_watches_per_session l));
   entry "max_subscriptions_per_session" (to_string (max_subscriptions_per_session l));
   entry "max_frame_bytes" (to_string (lim_max_frame_bytes l))].
Definition render (lines : list string) : string := foldr (fun l s => l +:+ newline +:+ s) "" lines.

Definition no_newline (s : string) : bool := all_chars (fun c => negb (ascii_code c =? 10)) s.

Lemma getlines_line l s : no_newline l = true -> getlines (l +:+ newline +:+ s) = l :: getlines s.
Proof.
  induction l as [|c l IH]; intros Hl; [done|]. cbn in Hl. apply andb_true_iff in Hl as [H1 H2]. apply negb_true_iff in H1.
  change (getlines (String c (l +:+ newline +:+ s)) = String c l :: getlines s). cbn [getlines]. by rewrite H1, (IH H2).
Qed.

Lemma getlines_render lines : forallb no_newline lines = true -> getlines (render lines) = lines.
Proof.
  induction lines as [|l lines IH]; intros Hl; [done|]. cbn in Hl. apply andb_true_iff in Hl as [H1 H2].
  change (getlines (l +:+ newline +:+ render lines) = l :: lines). by rewrite getlines_line, (IH H2).
Qed.

(** A key that the reader takes as it stands. *)
Definition plain_key (key : string) : bool :=
  negb (str_empty key) && no_blanks key && negb (is_comment key) && all_chars (fun c => negb (ascii_code c =? 61)) key.

Lemma split_entry key value : all_chars (fun c => negb (ascii_code c =? 61)) key = true -> split_at_equals (entry key value) = Some (key, value).
Proof.
  unfold entry. induction key as [|c key IH]; intros Hk; [done|]. cbn in Hk. apply andb_true_iff in Hk as [H1 H2]. apply negb_true_iff in H1.
  change (split_at_equals (String c (key +:+ "=" +:+ value)) = Some (String c key, value)). cbn [split_at_equals]. by rewrite H1, (IH H2).
Qed.

Lemma parse_entry n key value c c1 : plain_key key = true -> tight value -> value <> "" -> str_size (entry key value) <= kMaximumLineBytes ->
  apply key value c = (st_success, c1) -> parse_line n (entry key value) c = (st_success, c1).
Proof.
  intros Hk [T1 T2] Hv Hs Ha. unfold plain_key in Hk. rewrite !andb_true_iff, !negb_true_iff in Hk. destruct Hk as [[[K1 K2] K3] K4].
  assert (tight (entry key value)) as Ht.
  { split.
    - destruct (no_blanks_tight _ K2) as [F _]. destruct key as [|k0 key]; [done|].
      change (trim_front (String k0 (key +:+ "=" +:+ value)) = String k0 (key +:+ "=" +:+ value)). cbn in K2 |- *. by destruct (blank k0).
    - unfold entry. apply trim_back_app; [|done]. by apply (trim_back_app "=" value). }
  unfold parse_line. rewrite (proj2 (Z.ltb_ge _ _)) by done. cbv zeta. rewrite (tight_trim _ Ht).
  assert (is_comment (entry key value) = false) as -> by (destruct key; [done|exact K3]).
  rewrite split_entry by done. rewrite (tight_trim key (no_blanks_tight _ K2)), (tight_trim value (conj T1 T2)), K1, Ha.
  by destruct value.
Qed.

(** A number as a value. *)
Lemma digit_chars p n : (forall d, 0 <= d < 10 -> p (digit_char d) = true) -> all_chars p (to_string n) = true.
Proof. intros Hp. by apply print_digits_chars. Qed.
Lemma digit_not code d : 0 <= d < 10 -> code < 48 -> (ascii_code (digit_char d) =? code) = false.
Proof. intros Hd Hc. rewrite digit_char_code by done. apply Z.eqb_neq. lia. Qed.

Lemma number_value n : 0 <= n <= u64_max ->
  tight (to_string n) /\ to_string n <> "" /\ no_newline (to_string n) = true /\ (String.length (to_string n) <= 20)%nat.
Proof.
  intros Hn. split_and!.
  - apply no_blanks_tight, digit_chars. intros d Hd. unfold blank. by rewrite !digit_not.
  - intros E. pose proof (unsigned_to_string n Hn) as Hu. by rewrite E in Hu.
  - apply digit_chars. intros d Hd. by rewrite digit_not.
  - pose proof (print_digits_length 20 n "") as Hl. cbn [String.length] in Hl. unfold to_string. lia.
Qed.

Lemma str_size_app a b : str_size (a +:+ b) = str_size a + str_size b.
Proof. unfold str_size. assert (String.length (a +:+ b) = String.length a + String.length b)%nat as ->; [|lia].
  induction a as [|c a IH]; [done|]. change (S (String.length (a +:+ b)) = S (String.length a + String.length b)). by rewrite IH.
Qed.

Lemma parse_number n key v c c1 : plain_key key = true -> str_size key <= 100 -> 0 <= v <= u64_max ->
  apply key (to_string v) c = (st_success, c1) -> parse_line n (entry key (to_string v)) c = (st_success, c1).
Proof.
  intros Hk Hs Hv Ha. destruct (number_value v Hv) as (N1 & N2 & _ & N4). apply parse_entry; try done.
  unfold entry. rewrite !str_size_app. unfold kMaximumLineBytes. unfold str_size in *. cbn [String.length]. lia.
Qed.

Lemma apply_limit key v c set : (key ==? "target") = false -> (key ==? "endpoint") = false ->
  (key ==? "provider_call_timeout_ms") || (key ==? "shutdown_grace_ms") = false ->
  limit_setter key (rc_limits (dc_runtime c)) = Some set -> limit_ok v -> apply key (to_string v) c = (st_success, with_limits c (set v)).
Proof.
  intros H1 H2 H3 Hset Hv. unfold apply. rewrite H1, H2, H3, Hset. unfold bounded, limit_ok in *. rewrite unsigned_to_string by lia.
  rewrite (proj2 (Z.eqb_neq _ _)), (proj2 (Z.ltb_ge _ _)) by lia. done.
Qed.

Lemma apply_timeout key v c : (key ==? "target") = false -> (key ==? "endpoint") = false ->
  (key ==? "provider_call_timeout_ms") || (key ==? "shutdown_grace_ms") = true -> timeout_ok v ->
  apply key (to_string v) c = (st_success,
    let r := dc_runtime c in
    if key ==? "provider_call_timeout_ms" then with_runtime c (mkRuntimeConfig (rc_target r) (rc_limits r) v (rc_shutdown_grace r))
    else with_runtime c (mkRuntimeConfig (rc_target r) (rc_limits r) (rc_provider_call_timeout r) v)).
Proof.
  intros H1 H2 H3 Hv. unfold apply, timeout_ok, kMaximumMilliseconds in *. rewrite H1, H2, H3.
  rewrite unsigned_to_string by (unfold u64_max; lia). rewrite (proj2 (Z.ltb_ge _ _)), (proj2 (Z.eqb_neq _ _)) by lia. done.
Qed.

Lemma parse_lines_cons n line rest c c1 : parse_line (n + 1) line c = (st_success, c1) ->
  parse_lines n (line :: rest) c = parse_lines (n + 1) rest c1.
Proof. intros H. cbn [parse_lines]. by rewrite H. Qed.

(** The endpoint as a value of the file. *)
Record endpoint_plain (e : string) : Prop := {
  epl_tight : tight e;
  epl_newline : no_newline e = true }.

Lemma config_lines_plain c : config_bounds c -> endpoint_plain (dc_endpoint c) -> forallb no_newline (config_lines c) = true.
Proof.
  intros [_ (L1 & L2 & L3 & L4 & L5) [T1 T2]] [_ En]. unfold limit_ok, timeout_ok, kMaximumMilliseconds in *.
  assert (forall key v, no_newline key = true -> no_newline v = true -> no_newline (entry key v) = true) as He.
  { intros key v Hk Hv. unfold entry, no_newline in *. by rewrite !all_chars_app, Hk, Hv. }
  unfold config_lines. cbn [forallb]. rewrite !He; try done; try (apply number_value; unfold u64_max in *; lia).
  by destruct (rc_target (dc_runtime c)).
Qed.

(** A configuration by its fields, and the effect of each line on it. *)
Definition cfg (t : TargetKind) (e : string) (a b s r w u f : Z) : DaemonConfig :=
  mkDaemonConfig (mkRuntimeConfig t (mkLimits s r w u f) a b) e.

Ltac number_line L := apply parse_number; [reflexivity|by vm_compute| |eapply eq_trans; [eapply L; solve [reflexivity|done]|reflexivity]].

Lemma read_timeouts t e a0 b0 s r w u f a b rest n : timeout_ok a -> timeout_ok b ->
  parse_lines n (entry "provider_call_timeout_ms" (to_string a) :: entry "shutdown_grace_ms" (to_string b) :: rest) (cfg t e a0 b0 s r w u f) =
  parse_lines (n + 1 + 1) rest (cfg t e a b s r w u f).
Proof.
  intros Ha Hb. rewrite (parse_lines_cons _ _ _ _ (cfg t e a b0 s r w u f)).
  2: { number_line apply_timeout. unfold timeout_ok, u64_max, kMaximumMilliseconds in *. lia. }
  rewrite (parse_lines_cons _ _ _ _ (cfg t e a b s r w u f)); [done|].
  number_line apply_timeout. unfold timeout_ok, u64_max, kMaximumMilliseconds in *. lia.
Qed.

Lemma read_limits t e a b s0 r0 w0 u0 f0 s r w u f n : limit_ok s -> limit_ok r -> limit_ok w -> limit_ok u -> limit_ok f ->
  parse_lines n [entry "max_sessions" (to_string s); entry "max_outstanding_requests_per_session" (to_string r);
    entry "max_watches_per_session" (to_string w); entry "max_subscriptions_per_session" (to_string u);
    entry "max_frame_bytes" (to_string f)] (cfg t e a b s0 r0 w0 u0 f0) = (st_success, cfg t e a b s r w u f).
Proof.
  intros Hs Hr Hw Hu Hf. unfold limit_ok in *.
  rewrite (parse_lines_cons _ _ _ _ (cfg t e a b s r0 w0 u0 f0)); [|number_line apply_limit; lia].
  rewrite (parse_lines_cons _ _ _ _ (cfg t e a b s r w0 u0 f0)); [|number_line apply_limit; lia].
  rewrite (parse_lines_cons _ _ _ _ (cfg t e a b s r w u0 f0)); [|number_line apply_limit; lia].
  rewrite (parse_lines_cons _ _ _ _ (cfg t e a b s r w u f0)); [|number_line apply_limit; lia].
  rewrite (parse_lines_cons _ _ _ _ (cfg t e a b s r w u f)); [|number_line apply_limit; lia]. done.
Qed.

Lemma read_names t e a b s r w u f rest n : t <> TK_Unknown -> validateEndpoint e = st_success -> endpoint_plain e ->
  parse_lines n (entry "target" (match t with TK_Emu => "emu" | _ => "fpga" end) :: entry "endpoint" e :: rest)
    (cfg TK_Unknown "/run/pdcm/pdcm.sock" a b s r w u f) = parse_lines (n + 1 + 1) rest (cfg t e a b s r w u f).
Proof.
  intros Ht E1%endpoint_good [E2 E3]. rewrite (parse_lines_cons _ _ _ _ (cfg t "/run/pdcm/pdcm.sock" a b s r w u f)).
  2: { destruct t; [done| |]; (apply parse_entry; [reflexivity|by apply no_blanks_tight|done|by vm_compute|reflexivity]). }
  rewrite (parse_lines_cons _ _ _ _ (cfg t e a b s r w u f)); [done|]. apply parse_entry; [reflexivity|done|by destruct e| |].
  - unfold endpoint_bad in E1. destruct e as [|ch e]; [done|]. apply orb_false_iff in E1 as [_ E1]. bprop in E1.
    unfold entry. rewrite !str_size_app. unfold kMaximumLineBytes. unfold str_size in *. cbn [String.length] in *. lia.
  - unfold apply. change ("endpoint" ==? "target") with false. change ("endpoint" ==? "endpoint") with true. cbv iota. by rewrite E1.
Qed.

(** C14: Round trip.  Any configuration that passes validation, with limits and
    timeouts in range and an endpoint without blanks at its ends or a newline
    in it, written out with one line per key is read back exactly. *)
Theorem config_roundtrip c before : config_bounds c -> rc_validate (dc_runtime c) = st_success -> endpoint_plain (dc_endpoint c) ->
  parseConfig (render (config_lines c)) false (Some before) = (st_success, Some c).
Proof.
  intros Hb Hv He. unfold parseConfig. rewrite getlines_render by (by apply config_lines_plain).
  assert (parse_lines 0 (config_lines c) daemon_default = (st_success, c)) as ->.
  { destruct Hb as [B1 (L1 & L2 & L3 & L4 & L5) [T1 T2]]. destruct c as [[t [s r w u f] a b] e].
    unfold config_lines. cbn [dc_runtime dc_endpoint rc_target rc_limits rc_provider_call_timeout rc_shutdown_grace max_sessions
      max_outstanding_requests_per_session max_watches_per_session max_subscriptions_per_session lim_max_frame_bytes] in *.
    change daemon_default with (cfg TK_Unknown "/run/pdcm/pdcm.sock" 1000 5000 64 32 64 32 (4 * 1024 * 1024)).
    rewrite read_names, read_timeouts, read_limits; try done. by intros ->. }
  change (negb (st_ok st_success)) with false. cbv iota. by rewrite Hv.
Qed.

(** ** Witness *)

Lemma config_roundtrip_witness :
  let c := cfg TK_Emu "/tmp/a=b.sock" 250 60000 8 32 64 32 20 in
  parseConfig (render (config_lines c)) false (Some daemon_default) = (st_success, Some c).
Proof.
  cbv zeta. apply config_roundtrip.
  - split; [reflexivity|repeat split; vm_compute; discriminate|repeat split; vm_compute; discriminate].
  - reflexivity.
  - split; [split; reflexivity|reflexivity].
Defined.
