(* ===== verification/Daemon.v ===== *)
(** The daemon program (src/product/apps/daemon/main.cpp): its command line, the
    boot through configuration, core and local API server, and the shutdown.

    The file system, the results of the signal calls and of the server's system
    calls, and the times of the clock's readings are arguments. *)
From S2P Require Import Prelude Containers Common Provider Session Catalog Frame EventStore DataStore HealthStore ProcessorGraph Metrics Service Protocol Socket Text DaemonConfig Connection Server.
Local Open Scope string_scope.
Local Open Scope list_scope.
Open Scope Z_scope.
Open Scope pdcm_scope.

(** ** The command line *)

Inductive arguments := ArgUsage | ArgHelp | ArgRun (config_path : string) (check_only : bool).

Fixpoint parse_arguments (args : list string) (config_path : string) (check_only : bool) : arguments :=
  match args with
  | [] => ArgRun config_path check_only
  | argument :: rest =>
      if argument ==? "--config" then
        match rest with
        | [] => ArgUsage
        | path :: rest' => parse_arguments rest' path check_only
        end
      else if argument ==? "--check-config" then parse_arguments rest config_path true
      else if (argument ==? "--help") || (argument ==? "-h") then ArgHelp
      else ArgUsage
  end.

(** ** Boot *)

Record boot_env := mkBootEnv {
  be_files : string -> option (string * bool);
  be_signals : bool;
  be_times : Z * Z * Z;
  be_start : start_env }.

Section Daemon.
Context `{Ly : Layout}.

(** A running daemon. *)
Record daemon := mkDaemon { dn_core : ServiceCore (P := UnavailableProvider); dn_server : LocalApiServer }.

(** What the program comes to before it waits for a signal: an exit with what it
    has printed, an exception that nothing catches, or a running daemon. *)
Inductive boot_result :=
  | Exits (code : Z) (output error : string)
  | Terminates (what : string)
  | Running (d : daemon).

Definition usage_text : string := "Usage: pdcm-daemon [--config ABSOLUTE_PATH] [--check-config]" +:+ newline.
Definition usage : boot_result := Exits 2 "" usage_text.
Definition exits_with (code : Z) (error : string) : boot_result := Exits code "" ("pdcm-daemon: " +:+ error +:+ newline).

Definition boot (env : boot_env) (args : list string) : boot_result :=
  match parse_arguments args "/etc/pdcm/pdcm.conf" false with
  | ArgUsage => usage
  | ArgHelp => Exits 0 usage_text ""
  | ArgRun config_path check_only =>
      let '(loaded, config) := loadConfig (be_files env) config_path (Some daemon_default) in
      let config := default daemon_default config in
      if negb (st_ok loaded) then exits_with 2 "configuration validation failed"
      else if check_only then Exits 0 "" ""
      else if negb (be_signals env) then exits_with 8 "signal setup failed"
      else
      match core_construct_default (P := UnavailableProvider) (dc_runtime config) (Some up_init) true with
      | inl what => Terminates what
      | inr core =>
          let '(t1, t2, t3) := be_times env in
          let '(started, core1) := core_start core t1 t2 t3 in
          if negb (st_ok started) then exits_with 8 "core startup failed"
          else
          match srv_construct (dc_endpoint config) true (rc_limits (dc_runtime config)) with
          | inl what => Terminates what
          | inr server =>
              let '(served, server1) := srv_start server (Some (core_state (sv_snapshot_ core1))) (be_start env) in
              (* the core, which is stopped here, ends with the program *)
              if negb (st_ok served) then exits_with 8 "local API startup failed" else Running (mkDaemon core1 server1)
          end
      end
  end.

(** After the signal; [server] is the server when [stop] has joined its
    threads, and [waited] whether the wait succeeded. *)
Definition shutdown (d : daemon) (server : LocalApiServer) (waited : bool) : Z * daemon :=
  let '(server_status, server1) := srv_stop_end server in
  if st_ok server_status
  then let '(core_status, core1) := core_stop (dn_core d) in
       (if waited && st_ok core_status then 0 else 8, mkDaemon core1 server1)
  else (8, mkDaemon (dn_core d) server1).

(** ** Boot succeeds *)

Lemma daemon_core_starts r t1 t2 t3 : rc_validate r = st_success -> rc_target r <> TK_Unknown ->
  exists core core1, core_construct_default (P := UnavailableProvider) r (Some up_init) true = inr core /\
    core_start core t1 t2 t3 = (st_success, core1) /\ core_state (sv_snapshot_ core1) = CS_Degraded.
Proof.
  intros Hv Ht. destruct r as [t l a b]. cbn [rc_target] in Ht.
  assert (exists core, core_construct_default (P := UnavailableProvider) (mkRuntimeConfig t l a b) (Some up_init) true = inr core /\
    sv_config_ core = mkRuntimeConfig t l a b /\ core_state (sv_snapshot_ core) = CS_Created /\
    sv_provider_manager_ core = mkProviderManager up_init PS_Uninitialized) as (core & H1 & H2 & H3 & H4)
    by (destruct t; [done|eexists; by split_and!..]).
  exists core. eexists. split; [done|]. unfold core_start. rewrite H3. change (CS_Created !=? CS_Created) with false. cbv iota zeta.
  cbn [core_enter sv_with_snapshot sv_config_ sv_provider_manager_]. rewrite H2, Hv, H4. split; reflexivity.
Qed.

(** What the configuration file must be. *)
Definition accepted_file (env : boot_env) (path : string) (c : DaemonConfig) : Prop :=
  loadConfig (be_files env) path (Some daemon_default) = (st_success, Some c).

Lemma loaded_sound env path c : accepted_file env path c ->
  config_bounds c /\ rc_validate (dc_runtime c) = st_success /\ rc_target (dc_runtime c) <> TK_Unknown /\
  20 <= lim_max_frame_bytes (rc_limits (dc_runtime c)).
Proof.
  unfold accepted_file, loadConfig. destruct path as [|ch path]; [done|]. guard as G; [done|].
  destruct (be_files env _) as [[text failed]|]; [|done]. intros E. pose proof (parse_config_bounds text failed daemon_default) as Hs.
  rewrite E in Hs. destruct Hs as (c' & [= <-] & S1 & S2 & S3 & S4 & _). done.
Qed.

(** The system calls of the server's start all succeed. *)
Definition calls_succeed (e : start_env) : Prop :=
  se_socket e = None /\ se_bind e = None /\ se_chmod e = None /\ se_listen e = None /\ se_capacity e = true /\ se_thread e = true.

Lemma srv_start_fresh endpoint limits e : validateEndpoint endpoint = st_success -> 1 <= max_sessions limits -> 20 <= lim_max_frame_bytes limits ->
  let s := mkServer endpoint limits (sm_init limits) false false false false AP_Exited 0 0 ∅ [] SP_Idle false ∅ in
  (calls_succeed e -> srv_start s (Some CS_Degraded) e = (st_success, srv_with_state s true true true true AP_Head)) /\
  (~ calls_succeed e -> st_ok (fst (srv_start s (Some CS_Degraded) e)) = false).
Proof.
  intros He Hm Hf. cbv zeta. unfold validateEndpoint in He. destruct (endpoint_invalid endpoint) eqn:Ei; [done|]. clear He.
  assert (str_size endpoint < sun_path_size) as Hl.
  { unfold endpoint_invalid in Ei. destruct endpoint as [|c0 s0]; [done|]. apply orb_false_iff in Ei as [_ Ei]. bprop in Ei. lia. }
  assert ((max_sessions limits =? 0) || (lim_max_frame_bytes limits <? kFrameHeaderBytes) = false) as E1.
  { apply orb_false_iff. split; [apply Z.eqb_neq; lia|apply Z.ltb_ge; unfold kFrameHeaderBytes; lia]. }
  assert ((u32_max <? sun_path_offset + str_size endpoint + 1) = false) as E2.
  { apply Z.ltb_ge. unfold u32_max, sun_path_offset, sun_path_size in *. lia. }
  assert (forall err op, st_ok (serverSocketError err op) = false) as Herr by (by intros []).
  unfold srv_start, calls_succeed. cbn [srv_started_once_ srv_running_ srv_listening_ srv_limits_ srv_endpoint_ orb]. rewrite E1, Ei.
  change ((CS_Degraded !=? CS_Ready) && (CS_Degraded !=? CS_Degraded)) with false. cbv iota. split.
  - intros (S1 & S2 & S3 & S4 & S5 & S6). by rewrite S1, E2, S2, S3, S4, S5, S6.
  - intros Hn. destruct (se_socket e); [apply Herr|]. rewrite E2. destruct (se_bind e); [apply Herr|].
    destruct (se_chmod e); [apply Herr|]. destruct (se_listen e); [apply Herr|]. destruct (se_capacity e); [|done].
    destruct (se_thread e); [|done]. by destruct Hn.
Qed.

Lemma stop_end_closes server :
  exists server1, srv_stop_end server = (st_success, server1) /\ srv_listening_ server1 = false /\ srv_bound_ server1 = false.
Proof.
  unfold srv_stop_end. destruct (negb (srv_listening_ server) && negb (srv_bound_ server)) eqn:G; eexists; split_and!; try done;
    by destruct (srv_listening_ server), (srv_bound_ server).
Qed.

Lemma boot_accepted env path c : accepted_file env path c -> be_signals env = true ->
  exists core1, core_state (sv_snapshot_ core1) = CS_Degraded /\
    boot env ["--config"; path] =
      let '(served, server1) := srv_start (mkServer (dc_endpoint c) (rc_limits (dc_runtime c)) (sm_init (rc_limits (dc_runtime c)))
          false false false false AP_Exited 0 0 ∅ [] SP_Idle false ∅) (Some CS_Degraded) (be_start env) in
      if negb (st_ok served) then exits_with 8 "local API startup failed" else Running (mkDaemon core1 server1).
Proof.
  intros Ha Hs. pose proof (loaded_sound _ _ _ Ha) as (_ & V & T & _). unfold accepted_file in Ha. destruct (be_times env) as [[t1 t2] t3] eqn:Et.
  destruct (daemon_core_starts (dc_runtime c) t1 t2 t3 V T) as (core & core1 & H1 & H2 & H3). exists core1. split; [done|].
  unfold boot. cbn [parse_arguments]. change ("--config" ==? "--config") with true. cbv iota. rewrite Ha, Hs. change (default daemon_default (Some c)) with c.
  cbn [negb]. change (negb (st_ok st_success)) with false. cbv iota zeta. rewrite H1, Et, H2. cbn [srv_construct negb]. change (negb (st_ok st_success)) with false.
  cbv iota. by rewrite H3.
Qed.

(** C15: Boot.  With an accepted configuration file the daemon boots exactly when
    the signal calls and the system calls of its server succeed: the core always
    starts, degraded since its provider is the unavailable one, no constructor
    throws, and the server never refuses the configuration; otherwise it ends
    with an error message and an exit code other than 0.  A booted daemon listens
    on the configured endpoint with no session, and its shutdown stops the core
    and the listener, with exit code 0 exactly when the wait for the signal
    succeeded.  [--check-config] answers 0 for the
    accepted file, whatever else would fail. *)
Theorem daemon_boots env path c :
  accepted_file env path c ->
  boot env ["--config"; path; "--check-config"] = Exits 0 "" "" /\
  (be_signals env = true -> calls_succeed (be_start env) ->
   exists d, boot env ["--config"; path] = Running d /\ core_state (sv_snapshot_ (dn_core d)) = CS_Degraded /\
     srv_running_ (dn_server d) = true /\ srv_listening_ (dn_server d) = true /\ srv_endpoint_ (dn_server d) = dc_endpoint c /\
     activeSessions (dn_server d) = 0 /\
     forall server waited, let '(code, d1) := shutdown d server waited in
       (code = 0 <-> waited = true) /\ core_state (sv_snapshot_ (dn_core d1)) = CS_Stopped /\
       srv_listening_ (dn_server d1) = false /\ srv_bound_ (dn_server d1) = false) /\
  (be_signals env = false \/ ~ calls_succeed (be_start env) ->
   exists code error, boot env ["--config"; path] = Exits code "" error /\ code <> 0 /\ error <> "").
Proof.
  intros Ha. pose proof (loaded_sound _ _ _ Ha) as (B & _ & _ & F). destruct B as [B1 (B2 & _ & _ & _ & _) _]. unfold limit_ok in B2.
  destruct (srv_start_fresh (dc_endpoint c) (rc_limits (dc_runtime c)) (be_start env) B1 ltac:(lia) F) as [S1 S2]. split_and!.
  - unfold boot. cbn [parse_arguments]. change ("--config" ==? "--config") with true. change ("--check-config" ==? "--config") with false.
    change ("--check-config" ==? "--check-config") with true. cbv iota. unfold accepted_file in Ha. by rewrite Ha.
  - intros Hs Hc. destruct (boot_accepted env path c Ha Hs) as (core1 & H1 & H2). rewrite (S1 Hc) in H2. eexists. split; [exact H2|].
    cbn [dn_core dn_server]. split_and!; try done. intros server waited. unfold shutdown.
    destruct (stop_end_closes server) as (server1 & -> & L1 & L2).
    change (st_ok st_success) with true. cbv iota. unfold core_stop. cbn [dn_core]. rewrite H1. cbn. by destruct waited; split_and!.
  - intros [Hs|Hc].
    + unfold boot. cbn [parse_arguments]. change ("--config" ==? "--config") with true. cbv iota. unfold accepted_file in Ha. rewrite Ha, Hs. by do 2 eexists; split_and!.
    + destruct (be_signals env) eqn:Hs.
      * destruct (boot_accepted env path c Ha Hs) as (core1 & H1 & H2). rewrite H2. pose proof (S2 Hc) as Hf.
        destruct (srv_start _ _ _) as [served server1]. cbn [fst] in Hf. rewrite Hf. by do 2 eexists; split_and!.
      * unfold boot. cbn [parse_arguments]. change ("--config" ==? "--config") with true. cbv iota. unfold accepted_file in Ha. rewrite Ha, Hs. by do 2 eexists; split_and!.
Qed.
End Daemon.

(** ** Witness *)

Definition sample_conf : string := "target = emu" +:+ newline +:+ "# limits" +:+ newline +:+ "max_sessions=8" +:+ newline.
Definition sample_boot : boot_env :=
  mkBootEnv (fun path => if path ==? "/etc/pdcm/pdcm.conf" then Some (sample_conf, false) else None) true (1, 2, 3) sample_start_env.

Lemma daemon_boots_witness :
  exists d, boot (Ly := sample_layout) sample_boot ["--config"; "/etc/pdcm/pdcm.conf"] = Running d /\ core_state (sv_snapshot_ (dn_core d)) = CS_Degraded.
Proof.
  destruct (daemon_boots (Ly := sample_layout) sample_boot "/etc/pdcm/pdcm.conf"
    (mkDaemonConfig (mkRuntimeConfig TK_Emu (mkLimits 8 32 64 32 4194304) 1000 5000) "/run/pdcm/pdcm.sock")) as (_ & H & _).
  - vm_compute. reflexivity.
  - destruct H as (d & H1 & H2 & _); [reflexivity|repeat split|]. exists d. split; [exact H1|exact H2].
Defined.
