(* ===== verification/Cli.v ===== *)
(** The command line client (src/product/apps/cli/cli.cpp): the parsing of the
    arguments, the four commands over the C interface, and their output.

    A stream is the text written to it.  The code's string literals contain
    double quotes; [json] writes them as apostrophes.  The handle of a command is
    closed where the destructor of [Handle] runs, at the return. *)
From S2P Require Import Prelude Containers Common Provider Session Catalog Frame EventStore DataStore HealthStore ProcessorGraph Metrics Service Protocol Codec Handshake Socket ClientView Standalone Embedded PublicApi Handle ClientApi Text.
Local Open Scope string_scope.
Local Open Scope list_scope.
Open Scope Z_scope.
Open Scope pdcm_scope.

(** ** Options *)

Definition kSecond : Z := 1000000000.
Definition kMaximumDuration : Z := 60000000000.

Inductive Command := CmdHelp | CmdVersion | CmdDiscovery | CmdDmon | CmdHealth.
#[export] Instance Command_eq_dec : EqDecision Command.
Proof. solve_decision. Defined.
Inductive Format := FmtHuman | FmtJson.
#[export] Instance Format_eq_dec : EqDecision Format.
Proof. solve_decision. Defined.

Record Options := mkOptions {
  op_command : Command;
  op_format : Format;
  op_mode : Z;
  op_endpoint : string;
  op_timeout_ns : Z;
  op_device : option Z;
  op_metrics : list string;
  op_count : Z;
  op_period_ns : Z;
  op_fresh : bool;
  op_verbose : bool;
  op_command_help : bool }.
Definition options_default : Options :=
  mkOptions CmdHelp FmtHuman PDCM_MODE_STANDALONE "/run/pdcm/pdcm.sock" kSecond None [] 1 kSecond false false false.

Definition op_set_command (o : Options) (x : Command) : Options :=
  mkOptions x (op_format o) (op_mode o) (op_endpoint o) (op_timeout_ns o) (op_device o) (op_metrics o) (op_count o) (op_period_ns o) (op_fresh o) (op_verbose o) (op_command_help o).
Definition op_set_format (o : Options) (x : Format) : Options :=
  mkOptions (op_command o) x (op_mode o) (op_endpoint o) (op_timeout_ns o) (op_device o) (op_metrics o) (op_count o) (op_period_ns o) (op_fresh o) (op_verbose o) (op_command_help o).
Definition op_set_mode (o : Options) (x : Z) : Options :=
  mkOptions (op_command o) (op_format o) x (op_endpoint o) (op_timeout_ns o) (op_device o) (op_metrics o) (op_count o) (op_period_ns o) (op_fresh o) (op_verbose o) (op_command_help o).
Definition op_set_endpoint (o : Options) (x : string) : Options :=
  mkOptions (op_command o) (op_format o) (op_mode o) x (op_timeout_ns o) (op_device o) (op_metrics o) (op_count o) (op_period_ns o) (op_fresh o) (op_verbose o) (op_command_help o).
Definition op_set_timeout (o : Options) (x : Z) : Options :=
  mkOptions (op_command o) (op_format o) (op_mode o) (op_endpoint o) x (op_device o) (op_metrics o) (op_count o) (op_period_ns o) (op_fresh o) (op_verbose o) (op_command_help o).
Definition op_set_device (o : Options) (x : Z) : Options :=
  mkOptions (op_command o) (op_format o) (op_mode o) (op_endpoint o) (op_timeout_ns o) (Some x) (op_metrics o) (op_count o) (op_period_ns o) (op_fresh o) (op_verbose o) (op_command_help o).
Definition op_add_metric (o : Options) (x : string) : Options :=
  mkOptions (op_command o) (op_format o) (op_mode o) (op_endpoint o) (op_timeout_ns o) (op_device o) (op_metrics o ++ [x]) (op_count o) (op_period_ns o) (op_fresh o) (op_verbose o) (op_command_help o).
Definition op_set_count (o : Options) (x : Z) : Options :=
  mkOptions (op_command o) (op_format o) (op_mode o) (op_endpoint o) (op_timeout_ns o) (op_device o) (op_metrics o) x (op_period_ns o) (op_fresh o) (op_verbose o) (op_command_help o).
Definition op_set_period (o : Options) (x : Z) : Options :=
  mkOptions (op_command o) (op_format o) (op_mode o) (op_endpoint o) (op_timeout_ns o) (op_device o) (op_metrics o) (op_count o) x (op_fresh o) (op_verbose o) (op_command_help o).
Definition op_set_flags (o : Options) (fresh verbose command_help : bool) : Options :=
  mkOptions (op_command o) (op_format o) (op_mode o) (op_endpoint o) (op_timeout_ns o) (op_device o) (op_metrics o) (op_count o) (op_period_ns o)
    (op_fresh o || fresh) (op_verbose o || verbose) (op_command_help o || command_help).

(** A text that ends in a suffix, without it. *)
Definition strip_suffix (text suffix : string) : option string :=
  let n := (String.length text - String.length suffix)%nat in
  if str_size suffix <? str_size text
  then if String.substring n (String.length suffix) text ==? suffix then Some (String.substring 0 n text) else None
  else None.

Definition duration (text : string) : option Z :=
  let scaled scale number :=
    match unsignedValue number with
    | Some value => if (value =? 0) || (kMaximumDuration / scale <? value) then None else Some (value * scale)
    | None => None
    end in
  match strip_suffix text "ms" with
  | Some number => scaled 1000000 number
  | None => match strip_suffix text "s" with Some number => scaled kSecond number | None => None end
  end.

Definition command (value : string) : option Command :=
  if (value ==? "help") || (value ==? "--help") || (value ==? "-h") then Some CmdHelp
  else if value ==? "version" then Some CmdVersion
  else if value ==? "discovery" then Some CmdDiscovery
  else if value ==? "dmon" then Some CmdDmon
  else if value ==? "health" then Some CmdHealth
  else None.

(** An option that takes a value: the change it makes, or the error. *)
Definition valued (argument value : string) (o : Options) : option (string + Options) :=
  if argument ==? "--format" then
    Some (if value ==? "human" then inr (op_set_format o FmtHuman)
          else if value ==? "json" then inr (op_set_format o FmtJson)
          else inl "--format must be human or json")
  else if argument ==? "--mode" then
    Some (if value ==? "standalone" then inr (op_set_mode o PDCM_MODE_STANDALONE)
          else if value ==? "embedded" then inr (op_set_mode o PDCM_MODE_EMBEDDED)
          else inl "--mode must be standalone or embedded")
  else if argument ==? "--endpoint" then
    Some (if starts_with_slash value then inr (op_set_endpoint o value) else inl "--endpoint must be an absolute path")
  else if argument ==? "--timeout" then
    Some (match duration value with Some t => inr (op_set_timeout o t) | None => inl "--timeout must be between 1ms and 60s" end)
  else if argument ==? "--device" then
    Some (match unsignedValue value with Some id => inr (op_set_device o id) | None => inl "--device must be an unsigned ID" end)
  else if argument ==? "--metric" then
    Some (if str_empty value then inl "--metric must not be empty" else inr (op_add_metric o value))
  else if argument ==? "--count" then
    Some (match unsignedValue value with
          | Some n => if n =? 0 then inl "--count must be positive" else inr (op_set_count o n)
          | None => inl "--count must be positive" end)
  else if argument ==? "--period" then
    Some (match duration value with Some t => inr (op_set_period o t) | None => inl "--period must be between 1ms and 60s" end)
  else None.

(** The loop over the arguments after the command. *)
Fixpoint parse_arguments (args : list string) (o : Options) : string + Options :=
  match args with
  | [] => inr o
  | argument :: rest =>
      if (argument ==? "--help") || (argument ==? "-h") then parse_arguments rest (op_set_flags o false false true)
      else if argument ==? "--verbose" then parse_arguments rest (op_set_flags o false true false)
      else if argument ==? "--fresh" then parse_arguments rest (op_set_flags o true false false)
      else if has_value (valued argument "" o) then
        match rest with
        | [] => inl ("missing value for " +:+ argument)
        | value :: rest' =>
            match valued argument value o with
            | Some (inr o1) => parse_arguments rest' o1
            | Some (inl error) => inl error
            | None => inl ("unknown option: " +:+ argument)
            end
        end
      else inl ("unknown option: " +:+ argument)
  end.

Definition parse (arguments : list string) : string + Options :=
  match arguments with
  | [] => inr options_default
  | front :: rest =>
      match command front with
      | None => inl ("unknown command: " +:+ front)
      | Some selected =>
          match parse_arguments rest (op_set_command options_default selected) with
          | inl error => inl error
          | inr o =>
              if negb (op_command o ==? CmdDmon)
                 && (negb (is_nil (op_metrics o)) || negb (op_count o =? 1) || negb (op_period_ns o =? kSecond))
              then inl "dmon options are only valid for dmon"
              else if negb (op_command o ==? CmdDmon) && negb (op_command o ==? CmdHealth) && op_fresh o
              then inl "--fresh is only valid for dmon or health"
              else inr o
          end
      end
  end.

(** ** Names *)

Definition cli_statusName (s : pdcm_status_t) : string := statusName s.

Definition exitCode (s : pdcm_status_t) : Z :=
  match s with
  | PDCM_STATUS_SUCCESS => 0
  | PDCM_STATUS_PARTIAL_RESULT => 1
  | PDCM_STATUS_INVALID_ARGUMENT => 2
  | PDCM_STATUS_UNSUPPORTED | PDCM_STATUS_NOT_FOUND | PDCM_STATUS_STALE_GENERATION => 3
  | PDCM_STATUS_PERMISSION_DENIED => 4
  | PDCM_STATUS_NOT_INITIALIZED | PDCM_STATUS_UNAVAILABLE => 5
  | PDCM_STATUS_TIMEOUT | PDCM_STATUS_RESOURCE_EXHAUSTED | PDCM_STATUS_BUFFER_TOO_SMALL => 6
  | PDCM_STATUS_INTERNAL => 8
  | PDCM_STATUS_PROTOCOL_INCOMPATIBLE => 7
  end.

Definition cli_coreState (state : Z) : string :=
  if state =? 3 then "READY" else if state =? 4 then "DEGRADED" else if state =? 5 then "FAILED"
  else if state =? 7 then "STOPPED" else "UNKNOWN".
Definition cli_providerState (state : Z) : string :=
  if state =? 2 then "READY" else if state =? 3 then "UNAVAILABLE" else if state =? 4 then "SHUTDOWN" else "UNKNOWN".
Definition cli_healthState (state : Z) : string :=
  if state =? 1 then "HEALTHY" else if state =? 2 then "WARNING" else if state =? 3 then "ERROR" else "UNKNOWN".
Definition cli_healthCode (code : Z) : string :=
  if code =? 0 then "HEARTBEAT_OK" else if code =? 1 then "HEARTBEAT_WARNING" else if code =? 2 then "HEARTBEAT_FAULT"
  else if code =? 3 then "HEARTBEAT_MISSING" else if code =? 4 then "HEARTBEAT_STALE" else if code =? 5 then "HEARTBEAT_TIMEOUT"
  else if code =? 6 then "HEARTBEAT_READ_ERROR" else if code =? 7 then "HEARTBEAT_UNSUPPORTED"
  else if code =? 8 then "PROVIDER_UNAVAILABLE" else "PROCESSOR_ERROR".
Definition commandName (c : Command) : string :=
  match c with CmdHelp => "help" | CmdVersion => "version" | CmdDiscovery => "discovery" | CmdDmon => "dmon" | CmdHealth => "health" end.

(** Apostrophes stand for double quotes. *)
Fixpoint json (s : string) : string :=
  match s with
  | EmptyString => EmptyString
  | String c s' => String (if ascii_code c =? 39 then Ascii.ascii_of_N 34 else c) (json s')
  end.
Definition text (parts : list string) : string := foldr String.append "" parts.
Definition lines (ls : list string) : string := text (map (fun l => l +:+ newline) ls).

Definition help (selected : option Command) : string :=
  match selected with
  | None | Some CmdHelp =>
      lines ["Usage: pdcm-cli COMMAND [OPTIONS]"; "Commands:";
             "  version    Show component versions and status";
             "  discovery  Show the zero-or-one managed Device";
             "  dmon       Stream approved P0 metrics";
             "  health     Show firmware heartbeat health";
             "  help       Show this help";
             "Global options:"; "  --format human|json"; "  --timeout DURATION (1ms..60s, default 1s)";
             "  --endpoint ABSOLUTE_PATH"; "  --mode standalone|embedded"; "  --device ID"; "  --verbose"]
  | Some c =>
      text ["Usage: pdcm-cli "; commandName c;
            match c with
            | CmdDmon => " [--metric NAME_OR_ID] [--count N] [--period DURATION] [--fresh]"
            | CmdHealth => " [--fresh]"
            | _ => "" end;
            lines [" [GLOBAL OPTIONS]"; "P0 manages one Device; multiple Devices are unsupported."];
            match c with
            | CmdDmon => lines ["Metrics come only from the approved Catalog; the production Catalog is currently BLOCKED_EXTERNAL."]
            | _ => "" end]
  end.

(** ** What the commands print *)

Definition version_json (local full : pdcm_version_info_t) (status : pdcm_status_t) : string :=
  let connected := status ==? PDCM_STATUS_SUCCESS in
  text [json "{'schema_version':1,'command':'version','status':'"; if connected then "SUCCESS" else "PARTIAL_RESULT";
        json "','request_id':0,'catalog_generation':"; to_string (if connected then vi_catalog_generation full else 0);
        json ",'core_state':'"; if connected then cli_coreState (vi_core_state full) else "UNAVAILABLE";
        json "','provider_state':'"; if connected then cli_providerState (vi_provider_state full) else "UNAVAILABLE";
        json "','items':[{'library_version':'"; c_string (vi_library_version local);
        json "','public_abi_major':"; to_string (vi_public_abi_major local);
        json ",'public_abi_minor':"; to_string (vi_public_abi_minor local);
        json ",'local_protocol_major':"; to_string (vi_local_protocol_major local);
        if connected then text [json ",'daemon_version':'"; c_string (vi_daemon_version full); json "'"] else "";
        json "}],'errors':[";
        if connected then "" else text [json "{'status':'"; cli_statusName status; json "','reason':'DAEMON_UNAVAILABLE'}"];
        "]}"; newline].

Definition version_human (local full : pdcm_version_info_t) (status : pdcm_status_t) : string :=
  let connected := status ==? PDCM_STATUS_SUCCESS in
  lines ([text ["libpdcm: "; c_string (vi_library_version local)];
          text ["public ABI: "; to_string (vi_public_abi_major local); "."; to_string (vi_public_abi_minor local)];
          text ["local protocol: "; to_string (vi_local_protocol_major local); "."; to_string (vi_local_protocol_minor local)]] ++
         (if connected
          then [text ["daemon: "; c_string (vi_daemon_version full)]; text ["core: "; cli_coreState (vi_core_state full)];
                text ["provider: "; cli_providerState (vi_provider_state full)];
                text ["catalog generation: "; to_string (vi_catalog_generation full)]; "scope: single-device"]
          else ["daemon: UNAVAILABLE"; "provider: UNAVAILABLE"])).

Definition discovery_json (items : list pdcm_entity_info_t) : string :=
  text [json "{'schema_version':1,'command':'discovery','status':'SUCCESS','request_id':0,'catalog_generation':";
        to_string (match items with [] => 0 | item :: _ => pr_generation (ei_entity item) end);
        json ",'core_state':'READY','provider_state':'READY','items':[";
        match items with
        | [] => ""
        | item :: _ =>
            text [json "{'pdcm_id':"; to_string (pr_pdcm_id (ei_entity item)); json ",'generation':"; to_string (pr_generation (ei_entity item));
                  json ",'native_id':'"; c_string (ei_native_id item); json "','pci_bdf':'"; c_string (ei_pci_bdf item);
                  json "','pdrv_version':'"; c_string (ei_pdrv_version item); json "'}"]
        end;
        json "],'errors':[]}"; newline].

Definition discovery_human (items : list pdcm_entity_info_t) : string :=
  lines ([text ["device count: "; to_string (zlen items)]] ++
         match items with
         | [] => []
         | item :: _ =>
             [text ["device "; to_string (pr_pdcm_id (ei_entity item))];
              text ["  generation: "; to_string (pr_generation (ei_entity item))];
              text ["  native ID: "; c_string (ei_native_id item)]; text ["  PCI BDF: "; c_string (ei_pci_bdf item)];
              text ["  PDRV: "; c_string (ei_pdrv_version item)]]
         end).

Definition dmon_text (f : Format) (catalog_generation reason : Z) : string :=
  let name := if reason =? 1 then "CATALOG_BLOCKED_EXTERNAL" else "METRICS_UNSUPPORTED" in
  match f with
  | FmtJson =>
      text [json "{'schema_version':1,'command':'dmon','status':'UNSUPPORTED','request_id':0,'catalog_generation':"; to_string catalog_generation;
            json ",'core_state':'READY','provider_state':'READY','items':[],'errors':[{'status':'UNSUPPORTED','reason':'"; name; json "'}]}"; newline]
  | FmtHuman => text ["dmon: "; name; newline]
  end.

Definition health_unsupported_text (f : Format) : string :=
  match f with
  | FmtJson => json "{'schema_version':1,'command':'health','status':'UNSUPPORTED','items':[],'errors':[{'reason':'HEARTBEAT_UNSUPPORTED'}]}" +:+ newline
  | FmtHuman => "firmware heartbeat: UNSUPPORTED" +:+ newline
  end.

Definition health_text (f : Format) (status : pdcm_status_t) (h : pdcm_health_result_t) : string :=
  match f with
  | FmtJson =>
      text [json "{'schema_version':1,'command':'health','status':'"; cli_statusName status; json "','request_id':0,'catalog_generation':";
            to_string (pq_catalog_generation h); json ",'core_state':'READY','provider_state':'READY','items':[{'subsystem':'firmware_heartbeat','state':'";
            cli_healthState (pq_state h); json "','code':'"; cli_healthCode (pq_code h); json "','item_status':"; to_string (pq_item_status h);
            json ",'evidence_age_ns':"; to_string_signed (pq_evidence_age_ns h); json ",'source':'"; c_string (pq_source h);
            json "','limitation':'"; c_string (pq_limitation h); json "'}],'errors':[]}"; newline]
  | FmtHuman =>
      text ["firmware heartbeat: "; cli_healthState (pq_state h); " ("; cli_healthCode (pq_code h); ")";
            if str_empty (c_string (pq_limitation h)) then "" else " - " +:+ c_string (pq_limitation h); newline]
  end.
Definition no_device_text (f : Format) : string :=
  match f with
  | FmtJson => json "{'schema_version':1,'status':'SUCCESS','items':[],'errors':[]}" +:+ newline
  | FmtHuman => "device count: 0" +:+ newline
  end.

(** ** Commands *)

(** What a program leaves: the exit code, the output and the errors. *)
Record CliResult := mkResult { cr_code : Z; cr_output : string; cr_error : string }.

Section Commands.
Context {W : Type} `{K : Kernel W} `{LP : LocalProtocol} `{Ly : Layout} (fuel : nat) (pid : Z) (nonce : string).
Notation Process := (Client (W := W) (B := backend)).
Local Existing Instance backend_client.
(** The address of the command's handle. *)
Context (p : ptr).

Definition cli_request (o : Options) : pdcm_open_options_t :=
  mkOpenOptions (header_of sizeof_open_options) (op_mode o) 0
    (if op_mode o =? PDCM_MODE_EMBEDDED then None else Some (op_endpoint o)) (op_timeout_ns o) 1 0
    (if op_mode o =? PDCM_MODE_EMBEDDED then PDCM_TARGET_FPGA else PDCM_TARGET_UNKNOWN) 0.
Definition cli_open (c : Process) (o : Options) : outcome (pdcm_status_t * option ptr * Process) :=
  pdcm_open fuel pid nonce c (Some (cli_request o)) (Some 0) p.

(** [~Handle] *)
Definition cli_close {A} (handle : option ptr) (r : A) (c : Process) : outcome (A * Process) :=
  if default 0 handle =? 0 then Done (r, c)
  else let! (_, _, c1) := pdcm_close (CB := backend_client fuel) c handle in Done (r, c1).

(** [std::vector::resize] *)
Definition entity_zero : pdcm_entity_info_t :=
  mkEntityInfo header_zero (mkPublicRef header_zero 0 0 0 0) 0 0 0 0 0 0 (chars_zero 64) (chars_zero 32) (chars_zero 64).
Definition resize (l : list pdcm_entity_info_t) (n : Z) : list pdcm_entity_info_t :=
  take (Z.to_nat n) l ++ replicate (Z.to_nat n - length l) entity_zero.

Definition cli_entities (c : Process) (handle : ptr) : outcome (pdcm_status_t * list pdcm_entity_info_t * Process) :=
  let! (status, count, _, c1) := pdcm_entity_list (CB := backend_client fuel) c handle None None (Some 0) in
  let count := default 0 count in
  if negb (status ==? PDCM_STATUS_SUCCESS) || (count =? 0) then Done (status, [], c1)
  else if 1 <? count then Done (PDCM_STATUS_UNSUPPORTED, [], c1)
  else
  let buffer := replicate (Z.to_nat count) PDCM_ENTITY_INFO_INIT in
  let! (status1, count1, entities, c2) := pdcm_entity_list (CB := backend_client fuel) c1 handle None (Some buffer) (Some count) in
  Done (status1, resize (default [] entities) (default 0 count1), c2).

Definition cli_matches (o : Options) (items : list pdcm_entity_info_t) : bool :=
  match op_device o with
  | None => true
  | Some device => match items with [item] => pr_pdcm_id (ei_entity item) =? device | _ => false end
  end.

Definition cli_version (c : Process) (o : Options) : outcome (CliResult * Process) :=
  let! (local_status, local, c0) := pdcm_version_get (CB := backend_client fuel) c 0 (Some PDCM_VERSION_INFO_INIT) in
  if negb (local_status ==? PDCM_STATUS_SUCCESS) then Done (mkResult 8 "" "", c0)
  else
  let local := default PDCM_VERSION_INFO_INIT local in
  let! (opened, handle, c1) := cli_open c0 o in
  let! (status, full, c2) :=
    if opened ==? PDCM_STATUS_SUCCESS
    then pdcm_version_get (CB := backend_client fuel) c1 (default 0 handle) (Some PDCM_VERSION_INFO_INIT)
    else Done (opened, Some PDCM_VERSION_INFO_INIT, c1) in
  let full := default PDCM_VERSION_INFO_INIT full in
  let connected := status ==? PDCM_STATUS_SUCCESS in
  cli_close handle
    (mkResult (if connected then 0 else 1)
       (match op_format o with FmtJson => version_json local full status | FmtHuman => version_human local full status end)
       (if negb connected && op_verbose o
        then text ["pdcm-cli: daemon connection failed with "; cli_statusName status; newline] else "")) c2.

(** The part of [discovery] and [capabilityCommand] that opens the handle; the
    rest of the command is [body], which gets the open handle. *)
Definition with_open (c : Process) (o : Options) (body : Process -> ptr -> outcome (CliResult * Process)) : outcome (CliResult * Process) :=
  let! (opened, handle, c1) := cli_open c o in
  if negb (opened ==? PDCM_STATUS_SUCCESS)
  then cli_close handle
    (mkResult (exitCode opened) ""
       (if op_verbose o then text ["pdcm-cli: open failed with "; cli_statusName opened; newline] else "")) c1
  else let! (r, c2) := body c1 (default 0 handle) in cli_close handle r c2.

Definition code_only (code : Z) : CliResult := mkResult code "" "".

Definition discovery (c : Process) (o : Options) : outcome (CliResult * Process) :=
  with_open c o (fun c1 handle =>
    let! (status, items, c2) := cli_entities c1 handle in
    if negb (status ==? PDCM_STATUS_SUCCESS) then Done (code_only (exitCode status), c2)
    else if negb (cli_matches o items) then Done (code_only 3, c2)
    else Done (mkResult 0 (match op_format o with FmtJson => discovery_json items | FmtHuman => discovery_human items end) "", c2)).

(** The first capability that stops [dmon] or [health]. *)
Definition blocking (o : Options) (items : list pdcm_capability_item_t) : option pdcm_capability_item_t :=
  find_if (fun i => ((op_command o ==? CmdDmon) && (ci_kind i =? 1) && (ci_supported i =? 0))
                 || ((op_command o ==? CmdHealth) && (ci_kind i =? 3) && (ci_supported i =? 0))) items.

Definition health_command (c : Process) (handle : ptr) (o : Options) (device : pdcm_entity_info_t) (catalog_generation : Z)
    : outcome (CliResult * Process) :=
  let request := mkPublicHealthRequest (header_of sizeof_health_request) (ei_entity device) 1 0 catalog_generation (if op_fresh o then 1 else 0) in
  let! (status, health, c1) := pdcm_health_query (CB := backend_client fuel) c handle (Some request) (Some PDCM_HEALTH_RESULT_INIT) in
  let health := default PDCM_HEALTH_RESULT_INIT health in
  if negb (status ==? PDCM_STATUS_SUCCESS) && negb (status ==? PDCM_STATUS_PARTIAL_RESULT) then Done (code_only (exitCode status), c1)
  else Done (mkResult (if pq_state health =? 1 then 0 else 1) (health_text (op_format o) status health) "", c1).

Definition capability_buffer (n : Z) : list pdcm_capability_item_t :=
  replicate (Z.to_nat n) (mkPublicCapability (header_of sizeof_capability_item) 0 0 0 0 0 0 0).

Definition capabilityCommand (c : Process) (o : Options) : outcome (CliResult * Process) :=
  with_open c o (fun c1 handle =>
    let! (status, devices, c2) := cli_entities c1 handle in
    if negb (status ==? PDCM_STATUS_SUCCESS) then Done (code_only (exitCode status), c2)
    else if negb (cli_matches o devices) then Done (code_only 3, c2)
    else
    match devices with
    | [] => Done (mkResult 0 (no_device_text (op_format o)) "", c2)
    | device :: _ =>
        let entity := Some (ei_entity device) in
        let! (status1, counted, c3) := pdcm_capability_query (CB := backend_client fuel) c2 handle entity (Some PDCM_CAPABILITY_SET_INIT) in
        let counted := default PDCM_CAPABILITY_SET_INIT counted in
        if negb (status1 ==? PDCM_STATUS_BUFFER_TOO_SMALL) && negb (status1 ==? PDCM_STATUS_SUCCESS)
        then Done (code_only (exitCode status1), c3)
        else
        let buffer := capability_buffer (ps_item_count counted) in
        (* an empty vector has no storage *)
        let request := mkPublicSet (ps_header counted) (ps_entity counted) (if is_nil buffer then None else Some buffer) (zlen buffer)
                         (ps_item_count counted) (ps_catalog_generation counted) in
        let! (status2, capabilities, c4) := pdcm_capability_query (CB := backend_client fuel) c3 handle entity (Some request) in
        let capabilities := default request capabilities in
        if negb (status2 ==? PDCM_STATUS_SUCCESS) then Done (code_only (exitCode status2), c4)
        else
        match blocking o (default [] (ps_items capabilities)) with
        | Some item =>
            Done (mkResult 3 (if op_command o ==? CmdDmon then dmon_text (op_format o) (ps_catalog_generation capabilities) (ci_reason item)
                              else health_unsupported_text (op_format o)) "", c4)
        | None =>
            if op_command o ==? CmdHealth then health_command c4 handle o device (ps_catalog_generation capabilities)
            else Done (code_only 3, c4)
        end
    end).

Definition run (c : Process) (arguments : list string) : outcome (CliResult * Process) :=
  match parse arguments with
  | inl error => Done (mkResult 2 "" (text ["pdcm-cli: "; error; newline]), c)
  | inr o =>
      if op_command o ==? CmdHelp then Done (mkResult 0 (help None) "", c)
      else if op_command_help o then Done (mkResult 0 (help (Some (op_command o))) "", c)
      else
      match op_command o with
      | CmdVersion => cli_version c o
      | CmdDiscovery => discovery c o
      | CmdDmon | CmdHealth => capabilityCommand c o
      | CmdHelp => Done (mkResult 0 "" "", c)
      end
  end.
End Commands.

(** ** Accepted command lines *)

Definition duration_ok (v : Z) : Prop := 1000000 <= v <= kMaximumDuration.

Record options_wf (o : Options) : Prop := {
  ow_mode : op_mode o = PDCM_MODE_STANDALONE \/ op_mode o = PDCM_MODE_EMBEDDED;
  ow_endpoint : starts_with_slash (op_endpoint o) = true;
  ow_timeout : duration_ok (op_timeout_ns o);
  ow_period : duration_ok (op_period_ns o);
  ow_count : 1 <= op_count o <= u64_max;
  ow_device : forall d, op_device o = Some d -> 0 <= d <= u64_max;
  ow_metrics : Forall (fun m => m <> "") (op_metrics o) }.

Lemma duration_range s v : duration s = Some v -> duration_ok v.
Proof.
  assert (forall scale number v, scale = 1000000 \/ scale = kSecond ->
    match unsignedValue number with
    | Some value => if (value =? 0) || (kMaximumDuration / scale <? value) then None else Some (value * scale)
    | None => None
    end = Some v -> duration_ok v) as Hs.
  { intros scale number v' Hsc. destruct (unsignedValue number) as [n|] eqn:En; [|done]. apply unsignedValue_range in En.
    guard as G; [done|]. bprop in G. intros [= <-]. destruct G as [G1 G2]. unfold duration_ok, kMaximumDuration, kSecond in *.
    destruct Hsc as [-> | ->]; [change (60000000000 / 1000000) with 60000 in G2|change (60000000000 / 1000000000) with 60 in G2]; lia. }
  unfold duration. cbv zeta. destruct (strip_suffix s "ms"); [apply Hs; by left|]. destruct (strip_suffix s "s"); [apply Hs; by right|done].
Qed.

Lemma default_wf command : options_wf (op_set_command options_default command).
Proof. split; cbn; try done; by left. Qed.

Lemma valued_wf argument value o o1 : options_wf o -> valued argument value o = Some (inr o1) -> options_wf o1.
Proof.
  intros [W1 W2 W3 W4 W5 W6 W7]. unfold valued.
  repeat (let E := fresh "E" in case_match eqn:E); try done; intros [= <-]; split; cbn; try done; auto; [by eapply duration_range| | |
    |by eapply duration_range].
  - intros d [= <-]. by eapply unsignedValue_range.
  - apply Forall_app. split; [done|]. constructor; [|constructor]. by intros ->.
  - match goal with H : unsignedValue value = Some _ |- _ => apply unsignedValue_range in H end.
    match goal with H : (_ =? 0) = false |- _ => bprop in H end. lia.
Qed.

Lemma parse_arguments_wf args : forall o o1, options_wf o -> parse_arguments args o = inr o1 -> options_wf o1 /\ op_command o1 = op_command o.
Proof.
  remember (length args) as n eqn:Hn. revert args Hn. induction n as [n IH] using lt_wf_ind. intros args Hn o o1 Hw Hp.
  destruct args as [|a rest]; [by injection Hp as <-|]. cbn [length] in Hn. cbn [parse_arguments] in Hp.
  assert (forall f v h, options_wf (op_set_flags o f v h)) as Hflags by (intros; destruct Hw; by split).
  repeat (guard Hp as G; [by eapply (IH (length rest)) in Hp; [|lia|done|apply Hflags]|clear G]).
  guard Hp as G; [|done]. destruct rest as [|value rest]; [done|]. destruct (valued a value o) as [[e|o2]|] eqn:Ev; try done.
  eapply (IH (length rest)) in Hp; [|cbn in Hn; lia|done|by eapply valued_wf]. destruct Hp as [H1 ->]. split; [done|].
  clear -Ev. unfold valued in Ev. repeat case_match; try done; by injection Ev as <-.
Qed.

Lemma parse_wf args o : parse args = inr o -> options_wf o.
Proof.
  unfold parse. destruct args as [|front rest]; [intros [= <-]; apply (default_wf CmdHelp)|]. destruct (command front) as [cmd|]; [|done].
  destruct (parse_arguments rest _) as [e|o1] eqn:E; [done|]. apply parse_arguments_wf in E as [E _]; [|apply default_wf].
  guard as G1; [done|]. guard as G2; [done|]. by intros [= <-].
Qed.

(** The open request of accepted options is accepted. *)
Lemma cli_request_accepted o : options_wf o ->
  op_mode o = PDCM_MODE_EMBEDDED \/ str_size (c_str (op_endpoint o)) <= kMaxEndpointBytes ->
  exists e, parseOptions (Some (cli_request o)) = inr e /\ eff_mode e = op_mode o /\ eff_deadline e = op_timeout_ns o / 1000000 /\
    1 <= eff_deadline e <= 60000 /\
    (op_mode o = PDCM_MODE_STANDALONE -> eff_endpoint e = c_str (op_endpoint o)) /\
    (op_mode o = PDCM_MODE_EMBEDDED -> eff_target e = PDCM_TARGET_FPGA).
Proof.
  intros Hw Hfit. destruct Hw as [M E T _ _ _ _]. unfold duration_ok, kMaximumDuration in T.
  assert (options_ok (cli_request o)) as Hok.
  { assert (known_mode (op_mode o) = true) as Hm by (destruct M as [-> | ->]; done). split; cbn; try done.
    - split; cbn; try done. by left.
    - by guard as G.
    - unfold i64_max. lia.
    - intros s. guard as G; [done|]. bprop in G. intros [= <-]. split; [done|]. destruct Hfit as [?|Hfit]; [done|].
      split; [by rewrite slash_c_str|done]. }
  pose proof (parse_options_spec (cli_request o) ltac:(split; by vm_compute) ltac:(cbn; lia)) as Hs.
  destruct (parseOptions (Some (cli_request o))) as [status|e].
  { case_bool_decide; [by destruct Hok, Hs|by destruct Hs as (_ & ? & _)]. }
  destruct Hs as [_ ->]. eexists. split; [done|]. unfold effective_of. cbn. rewrite (proj2 (Z.eqb_neq _ _)) by lia.
  pose proof (Z.div_le_mono (op_timeout_ns o) 60000000000 1000000 ltac:(lia) ltac:(lia)) as U. change (60000000000 / 1000000) with 60000 in U.
  pose proof (Z.div_le_mono 1000000 (op_timeout_ns o) 1000000 ltac:(lia) ltac:(lia)) as L. change (1000000 / 1000000) with 1 in L.
  split_and!; try lia; by intros ->.
Qed.

(** C13: An accepted command line is usable: the mode is one of the two, the
    durations lie between 1 ms and 60 s, the count is positive, the options of
    [dmon] are only given with it, and the open request made from it is
    accepted by the interface, with a deadline of 1 to 60000 ms, whenever the
    endpoint fits a socket address. *)
Theorem cli_parse_sound args o : parse args = inr o ->
  options_wf o /\
  (op_command o <> CmdDmon -> op_metrics o = [] /\ op_count o = 1 /\ op_period_ns o = kSecond) /\
  (op_command o <> CmdDmon -> op_command o <> CmdHealth -> op_fresh o = false) /\
  (op_mode o = PDCM_MODE_EMBEDDED \/ str_size (c_str (op_endpoint o)) <= kMaxEndpointBytes ->
   exists e, parseOptions (Some (cli_request o)) = inr e /\ eff_mode e = op_mode o /\ 1 <= eff_deadline e <= 60000 /\
     (op_mode o = PDCM_MODE_STANDALONE -> eff_endpoint e = c_str (op_endpoint o)) /\
     (op_mode o = PDCM_MODE_EMBEDDED -> eff_target e = PDCM_TARGET_FPGA)).
Proof.
  intros Hp. pose proof (parse_wf _ _ Hp) as Hw. split; [done|].
  assert ((op_command o <> CmdDmon -> op_metrics o = [] /\ op_count o = 1 /\ op_period_ns o = kSecond) /\
    (op_command o <> CmdDmon -> op_command o <> CmdHealth -> op_fresh o = false)) as [D1 D2].
  { revert Hp. unfold parse. destruct args as [|front rest]; [intros [= <-]; done|]. destruct (command front); [|done].
    destruct (parse_arguments rest _) as [|o1]; [done|]. guard as G1; [done|]. guard as G2; [done|]. intros [= ->]. split.
    - intros Hc. rewrite bool_decide_false in G1 by done. cbn [negb andb] in G1. bprop in G1. destruct G1 as [[? ?] ?]. by split_and!.
    - intros H1 H2. rewrite !bool_decide_false in G2 by done. exact G2. }
  split_and!; [done|done|]. intros Hfit. destruct (cli_request_accepted o Hw Hfit) as (e & E1 & E2 & _ & E4 & E5 & E6). by exists e.
Qed.

(** ** Every command closes its handle *)

Section Clean.
Context {W : Type} `{K : Kernel W} `{LP : LocalProtocol} `{Ly : Layout} (fuel : nat) (pid : Z) (nonce : string) (p : ptr).
(** Whether a command may wait: the standalone ones may. *)
Context (may_wait : Prop).
Notation Process := (Client (W := W) (B := backend)).

(** The process [c] holds a new handle at [p] besides the handles [hs]; where no
    wait is allowed its backend is embedded. *)
Definition holds (hs : gmap Z (pdcm_handle (B := backend))) (c : Process) : Prop :=
  exists b, cl_handles c = <[p := handle_new b]> hs /\ (may_wait \/ exists e, b = BEmbedded e).

(** An open leaves either a new handle or none. *)
Definition open_result (hs : gmap Z (pdcm_handle (B := backend))) (st : pdcm_status_t) (out : ptr) (c' : Process) : Prop :=
  (st <> PDCM_STATUS_SUCCESS /\ out = 0 /\ cl_handles c' = hs) \/ (st = PDCM_STATUS_SUCCESS /\ out = p /\ holds hs c').

Notation ends := (ends may_wait).
Notation keeps hs := (fun '(_, c') => holds hs c').

Lemma parse_refused options st : parseOptions options = inl st -> st <> PDCM_STATUS_SUCCESS.
Proof. unfold parseOptions. intros E. repeat case_match; simplify_eq; done. Qed.

Lemma not_ok st : st_ok st = false -> st_code st <> PDCM_STATUS_SUCCESS.
Proof. unfold st_ok. by rewrite bool_decide_eq_false. Qed.

Lemma openEmbedded_holds c o : let '(st, out, c') := openEmbedded c o p in open_result (cl_handles c) st out c'.
Proof.
  unfold openEmbedded. guard as G1; [by left|]. destruct (eb_construct _ _ _) as [|e]; [by left|].
  destruct (k_now (cl_world c)) as [t1 w1], (k_now w1) as [t2 w2]; destruct (k_now w2) as [t3 w3]. destruct (eb_start e t1 t2 t3) as [started e1].
  destruct (st_ok started) eqn:Es; cbn [negb]; [right|left]; [|split; [by apply not_ok|done]].
  split_and!; [done|done|]. eexists. split; [done|]. right. by eexists.
Qed.

Lemma openStandalone_holds c o : may_wait ->
  ends (fun '(st, out, c') => open_result (cl_handles c) st out c') (openStandalone fuel pid nonce c o p).
Proof.
  intros Hm. unfold openStandalone. destruct (sb_start _ _ _ _ _) as [[[started b1] w1]|]; [|done]. cbn [or_waits obind].
  destruct (st_ok started) eqn:Es; cbn [negb ends]; [right|left]; [|split; [by apply not_ok|done]].
  split_and!; [done|done|]. eexists. split; [done|by left].
Qed.

Lemma open_holds c o : (op_mode o <> PDCM_MODE_EMBEDDED -> may_wait) ->
  ends (fun '(st, out, c') => open_result (cl_handles c) st (default 0 out) c') (cli_open fuel pid nonce p c o).
Proof.
  intros Hm. unfold cli_open, pdcm_open. change (negb (0 =? 0)) with false. cbv iota.
  destruct (parseOptions (Some (cli_request o))) as [refused|e] eqn:Ep; [left; split; [by eapply parse_refused|done]|].
  assert (eff_mode e <> PDCM_MODE_EMBEDDED -> may_wait) as Hw.
  { intros He. apply Hm. intros E. apply He. revert Ep. unfold parseOptions, cli_request. cbn. rewrite E. clear. intros Ep.
    repeat case_match; simplify_eq; done. }
  unfold openSelectedBackend. guard as G1; bprop in G1.
  { cbn [obind]. pose proof (openEmbedded_holds c e) as H. by destruct (openEmbedded c e p) as [[s1 q] c1]. }
  apply (ends_bind _ (fun '(st, q, c') => open_result (cl_handles c) st q c')); [|intros [[s1 q] c1] H; exact H].
  refine (ends_bind _ _ _ _ _ (openStandalone_holds c e (Hw G1)) _).
  intros [[s1 q] c1] H. guard as G2; [|exact H]. cbn [Handle.ends]. pose proof (openEmbedded_holds c1 e) as Ho.
  destruct (openEmbedded c1 e p) as [[s2 q2] c2]. destruct H as [(_ & _ & <-)|(-> & _)]; [exact Ho|].
  unfold may_fall_back in G2. by rewrite bool_decide_true in G2.
Qed.

(** The methods of the embedded backend do not wait. *)
Definition prompt {A} (method : W -> backend -> option (A * backend * W)) : Prop :=
  forall w e, exists a e' w', method w (BEmbedded e) = Some (a, BEmbedded e', w').

Lemma call_holds {A} hs c (method : W -> backend -> option (A * backend * W)) : p <> 0 -> prompt method -> holds hs c ->
  ends (keeps hs) (with_call c p method).
Proof.
  intros Hp Hm (b & Hb & He). assert (open_handle c p b) as Ho.
  { split; [done|]. exists (handle_new b). rewrite Hb, lookup_insert_eq. done. }
  destruct (method (cl_world c) b) as [[[a b1] w1]|] eqn:Em.
  - destruct (with_call_open c p b method a b1 w1 Ho Em) as (h & Hh & -> & _).
    rewrite Hb, lookup_insert_eq in Hh. injection Hh as <-. exists b1. cbn [cl_handles]. rewrite Hb, insert_insert_eq. split; [done|].
    destruct He as [?|[e ->]]; [by left|]. right. destruct (Hm (cl_world c) e) as (a' & e' & w' & E). rewrite E in Em. injection Em as _ <- _. by exists e'.
  - destruct He as [He|[e ->]]; [|destruct (Hm (cl_world c) e) as (a' & e' & w' & E); congruence].
    unfold with_call, acquire. rewrite (proj2 (Z.eqb_neq _ _)), Hb, lookup_insert_eq by done. cbn [or_undefined obind].
    change (handle_usable (handle_new b)) with true. cbn [negb obind].
    change (PDCM_STATUS_SUCCESS !=? PDCM_STATUS_SUCCESS) with false. cbv iota. unfold on_backend. cbn [cl_set cl_handles cl_world].
    rewrite lookup_insert_eq. cbn [or_undefined obind h_with_calls handle_new h_backend]. by rewrite Em.
Qed.

(** The queries keep the handle. *)
Lemma entity_list_holds hs c filter entities count : p <> 0 -> holds hs c ->
  ends (keeps hs) (pdcm_entity_list (CB := backend_client fuel) c p filter entities count).
Proof.
  intros Hp Hh. unfold pdcm_entity_list. destruct count as [n|]; [|exact Hh]. destruct (entity_filter_kind filter) as [|kind]; [exact Hh|].
  refine (ends_bind _ _ _ _ _ (call_holds _ _ _ Hp _ Hh) _); [by repeat eexists|].
  intros [[|result] c1] H; [exact H|]. destruct (entity_list_answer _ _ _) as [[? ?] ?]. exact H.
Qed.

Lemma capability_query_holds hs c entity out : p <> 0 -> holds hs c ->
  ends (keeps hs) (pdcm_capability_query (CB := backend_client fuel) c p entity out).
Proof.
  intros Hp Hh. unfold pdcm_capability_query. destruct out as [o|]; [|exact Hh]. guard as G; [exact Hh|].
  destruct (toInternalEntityRef entity) as [|e]; [exact Hh|].
  refine (ends_bind _ _ _ _ _ (call_holds _ _ _ Hp _ Hh) _).
  - intros w e'. cbn. destruct (eb_capabilities e' e). by repeat eexists.
  - intros [[|result] c1] H; [exact H|]. destruct (capability_answer _ _). exact H.
Qed.

Lemma health_query_holds hs c request out : p <> 0 -> holds hs c ->
  ends (keeps hs) (pdcm_health_query (CB := backend_client fuel) c p request out).
Proof.
  intros Hp Hh. unfold pdcm_health_query. destruct request as [q|], out as [o|]; try exact Hh. guard as G; [exact Hh|].
  destruct (toInternalEntityRef _) as [|e]; [exact Hh|].
  refine (ends_bind _ _ _ _ _ (call_holds _ _ _ Hp _ Hh) _).
  - intros w e'. cbn. destruct (k_now w). by repeat eexists.
  - intros [[|result] c1] H; [exact H|]. destruct (health_answer _ _). exact H.
Qed.

Lemma version_get_holds hs c out : p <> 0 -> holds hs c -> ends (keeps hs) (pdcm_version_get (CB := backend_client fuel) c p out).
Proof.
  intros Hp Hh. unfold pdcm_version_get. destruct out as [o|]; [|exact Hh]. guard as G; [exact Hh|].
  rewrite (proj2 (Z.eqb_neq _ _)) by done. refine (ends_bind _ _ _ _ _ (call_holds _ _ _ Hp _ Hh) _).
  - intros w e'. cbn. destruct (eb_version e'). by repeat eexists.
  - intros [[|[status version]] c1] H; [exact H|]. guard as G2; exact H.
Qed.

Lemma close_holds {A} hs c (r : A) : p <> 0 -> hs !! p = None -> holds hs c ->
  ends (fun '(_, c') => cl_handles c' = hs) (cli_close fuel (Some p) r c).
Proof.
  intros Hp Hn (b & Hb & _). unfold cli_close. change (default 0 (Some p)) with p. rewrite (proj2 (Z.eqb_neq _ _)) by done.
  assert (open_handle c p b) as Ho by (split; [done|]; exists (handle_new b); rewrite Hb, lookup_insert_eq; done).
  pose proof (close_open (CB := backend_client fuel) c p b Ho) as Hc. destruct (cb_close (cl_world c) b) as [[st b1] w1].
  rewrite Hc; [|intros h; rewrite Hb, lookup_insert_eq; by intros [= <-]]. cbn. rewrite Hb. by apply delete_insert_id.
Qed.

Lemma cli_entities_holds hs c : p <> 0 -> holds hs c -> ends (keeps hs) (cli_entities fuel c p).
Proof.
  intros Hp Hh. refine (ends_bind _ _ _ _ _ (entity_list_holds _ _ _ _ _ Hp Hh) _). intros [[[s1 n1] e1] c1] H1. cbv beta iota zeta.
  guard as G1; [exact H1|]. guard as G2; [exact H1|]. refine (ends_bind _ _ _ _ _ (entity_list_holds _ _ _ _ _ Hp H1) _).
  intros [[[s2 n2] e2] c2] H2. exact H2.
Qed.

Lemma health_command_holds hs c o device generation : p <> 0 -> holds hs c -> ends (keeps hs) (health_command fuel c p o device generation).
Proof.
  intros Hp Hh. refine (ends_bind _ _ _ _ _ (health_query_holds _ _ _ _ Hp Hh) _). intros [[s1 h1] c1] H1. cbv beta iota zeta. guard as G1; exact H1.
Qed.

(** A command ends with its handle closed. *)
Notation clean c := (fun '(_, c') => cl_handles c' = cl_handles c).

Lemma with_open_clean c o body : p <> 0 -> cl_handles c !! p = None -> (op_mode o <> PDCM_MODE_EMBEDDED -> may_wait) ->
  (forall c1, holds (cl_handles c) c1 -> ends (keeps (cl_handles c)) (body c1 p)) -> ends (clean c) (with_open fuel pid nonce p c o body).
Proof.
  intros Hp Hn Hm Hbody. refine (ends_bind _ _ _ _ _ (open_holds c o Hm) _).
  intros [[st out] c1] [(S1 & S2 & S3)|(-> & S2 & S3)]; cbv beta iota.
  - rewrite bool_decide_false by done. cbn [negb]. unfold cli_close. by rewrite S2.
  - change (negb (PDCM_STATUS_SUCCESS ==? PDCM_STATUS_SUCCESS)) with false. cbv iota. destruct out as [q|]; [|by rewrite <- S2 in Hp].
    cbn [default] in *. unfold default, id in S2. subst q.
    refine (ends_bind _ _ _ _ _ (Hbody c1 S3) _). intros [r1 c2] H. by apply close_holds.
Qed.

Lemma discovery_clean c o : p <> 0 -> cl_handles c !! p = None -> (op_mode o <> PDCM_MODE_EMBEDDED -> may_wait) ->
  ends (clean c) (discovery fuel pid nonce p c o).
Proof.
  intros Hp Hn Hm. apply with_open_clean; [done..|]. intros c1 Hh.
  refine (ends_bind _ _ _ _ _ (cli_entities_holds _ _ Hp Hh) _). intros [[st items] c3] H. cbv beta iota.
  guard as G1; [exact H|]. guard as G2; exact H.
Qed.

Lemma capability_clean c o : p <> 0 -> cl_handles c !! p = None -> (op_mode o <> PDCM_MODE_EMBEDDED -> may_wait) ->
  ends (clean c) (capabilityCommand fuel pid nonce p c o).
Proof.
  intros Hp Hn Hm. apply with_open_clean; [done..|]. intros c1 Hh.
  refine (ends_bind _ _ _ _ _ (cli_entities_holds _ _ Hp Hh) _). intros [[st devices] c3] H. cbv beta iota.
  guard as G1; [exact H|]. guard as G2; [exact H|]. destruct devices as [|device devices]; [exact H|].
  refine (ends_bind _ _ _ _ _ (capability_query_holds _ _ _ _ Hp H) _). intros [[s1 o1] c4] H1. cbv beta iota zeta. guard as G3; [exact H1|].
  refine (ends_bind _ _ _ _ _ (capability_query_holds _ _ _ _ Hp H1) _). intros [[s2 o2] c5] H2. cbv beta iota zeta. guard as G4; [exact H2|].
  destruct (blocking _ _); [exact H2|]. guard as G5; [|exact H2]. by apply health_command_holds.
Qed.

Lemma version_clean c o : p <> 0 -> cl_handles c !! p = None -> (op_mode o <> PDCM_MODE_EMBEDDED -> may_wait) ->
  ends (clean c) (cli_version fuel pid nonce p c o).
Proof.
  intros Hp Hn Hm. unfold cli_version. change (pdcm_version_get c 0 (Some PDCM_VERSION_INFO_INIT)) with (Done (PDCM_STATUS_SUCCESS, Some fillLocalVersion, c)).
  cbn [obind]. change (negb (PDCM_STATUS_SUCCESS ==? PDCM_STATUS_SUCCESS)) with false. cbv iota zeta.
  refine (ends_bind _ _ _ _ _ (open_holds c o Hm) _). intros [[st out] c1] [(S1 & S2 & S3)|(-> & S2 & S3)]; cbv beta iota.
  - rewrite bool_decide_false by done. cbn [obind]. unfold cli_close. by rewrite S2.
  - change (PDCM_STATUS_SUCCESS ==? PDCM_STATUS_SUCCESS) with true. cbv iota. destruct out as [q|]; [|by rewrite <- S2 in Hp].
    unfold default, id in S2. subst q.
    refine (ends_bind _ _ _ _ _ (version_get_holds _ _ _ Hp S3) _). intros [[s2 v2] c2] H. by apply close_holds.
Qed.
End Clean.

(** C12: The command line client is safe and leaves nothing behind.  Whatever the
    arguments and however the daemon behaves, [run] does nothing undefined with
    its handle, and when it returns, every handle it opened is closed and freed
    and the other handles are as they were.  It always returns, unless it is a
    command with the standalone backend that waits for the daemon.  A refused
    command line ends with exit code 2, prints nothing but the error and
    touches nothing; help touches nothing and succeeds. *)
Theorem cli_run_clean {W} `{K : Kernel W} `{LP : LocalProtocol} `{Ly : Layout} fuel pid nonce p (c : Client (W := W) (B := backend)) args :
  p <> 0 -> cl_handles c !! p = None ->
  match run fuel pid nonce p c args with
  | Done (r, c') =>
      cl_handles c' = cl_handles c /\
      (forall error, parse args = inl error -> c' = c /\ cr_code r = 2 /\ cr_output r = "" /\ cr_error r <> "") /\
      (forall o, parse args = inr o -> op_command o = CmdHelp \/ op_command_help o = true -> c' = c /\ cr_code r = 0)
  | Waits => exists o, parse args = inr o /\ op_mode o = PDCM_MODE_STANDALONE /\ op_command o <> CmdHelp /\ op_command_help o = false
  | Undefined => False
  end.
Proof.
  intros Hp Hn. unfold run. destruct (parse args) as [error|o] eqn:Ea; [done|].
  destruct (op_command o ==? CmdHelp) eqn:E1; [done|]. apply bool_decide_eq_false in E1. destruct (op_command_help o) eqn:E2; [done|].
  assert (op_mode o = PDCM_MODE_STANDALONE \/ op_mode o = PDCM_MODE_EMBEDDED) as Hmode by apply (parse_wf _ _ Ea).
  match goal with |- match ?m with _ => _ end => assert (ends (op_mode o <> PDCM_MODE_EMBEDDED) (fun '(_, c') => cl_handles c' = cl_handles c) m) as He end.
  { destruct (op_command o) eqn:Ec; [done|by apply version_clean|by apply discovery_clean|by apply capability_clean|by apply capability_clean]. }
  match type of He with Handle.ends _ _ ?m => destruct m as [[r c']| |] end; [|exists o; cbn in He; split_and!; tauto|exact He].
  split; [exact He|]. split; [done|]. intros o' [= <-] [?|?]; congruence.
Qed.

(** ** Witnesses *)

Lemma cli_parse_sound_witness :
  exists o e, parse ["health"; "--timeout"; "250ms"; "--endpoint"; "/tmp/pdcm.sock"] = inr o /\
    parseOptions (Some (cli_request o)) = inr e /\ eff_endpoint e = "/tmp/pdcm.sock" /\ op_count o = 1.
Proof.
  destruct (parse ["health"; "--timeout"; "250ms"; "--endpoint"; "/tmp/pdcm.sock"]) as [x|o] eqn:Ep; [vm_compute in Ep; discriminate|].
  destruct (cli_parse_sound _ o Ep) as (_ & H2 & _ & H4). vm_compute in Ep. injection Ep as Ep.
  destruct H4 as (e & E1 & _ & _ & E4 & _); [right; rewrite <- Ep; vm_compute; discriminate|].
  exists o, e. split; [reflexivity|]. split; [exact E1|]. rewrite <- Ep in *. split; [exact (E4 eq_refl)|].
  apply H2. discriminate.
Defined.

Lemma cli_run_clean_witness :
  exists r c', run (LP := sample_protocol) (Ly := sample_layout) 10 1 "" 8 sample_process ["version"; "--mode"; "embedded"] = Done (r, c') /\
    cr_code r = 0 /\ cl_handles c' = ∅.
Proof.
  pose proof (cli_run_clean (LP := sample_protocol) (Ly := sample_layout) 10 1 "" 8 sample_process ["version"; "--mode"; "embedded"]
    ltac:(discriminate) ltac:(reflexivity)) as H.
  destruct (run (LP := sample_protocol) (Ly := sample_layout) 10 1 "" 8 sample_process ["version"; "--mode"; "embedded"]) as [[r c']| |] eqn:E;
    [|vm_compute in E; discriminate..].
  exists r, c'. split; [reflexivity|]. split; [|exact (proj1 H)]. vm_compute in E. injection E as <- _. reflexivity.
Defined.
