(* ===== verification/EndToEnd.v ===== *)
(** From the command line to the core: [pdcm-cli discovery] against a running
    daemon.  The command goes through the option parsing (Cli.v), the C
    interface (ClientApi.v, Handle.v, PublicApi.v), the standalone backend
    (Standalone.v), the socket functions (Socket.v) and frames (Frame.v), and
    is answered by the daemon's connection (Connection.v), its handshake and
    router (Handshake.v, Router.v) and the service core (Service.v), in the
    world of Loopback.v, an ideal environment in which the daemon is there and
    answers as soon as the bytes arrive. *)
From S2P Require Import Prelude Containers Common Provider Session Catalog Frame EventStore DataStore HealthStore ProcessorGraph Metrics Service Protocol Codec Handshake Router Connection Socket ClientView Standalone Loopback Embedded PublicApi Handle ClientApi Text Cli.
Local Open Scope string_scope.
Local Open Scope list_scope.
Open Scope Z_scope.
Open Scope pdcm_scope.

(** ** What discovery is to show *)

Definition contains (part whole : string) : Prop := exists before after, whole = before +:+ part +:+ after.

(** What the output must show of the core's devices: their number, and of a
    device its identifier and generation, its native identifier, its PCI address
    and its driver version, each under its label. *)
Definition shown (f : Format) (es : list EntityRecord) : list string :=
  match f, es with
  | FmtJson, [] => [json "'command':'discovery'"; json "'status':'SUCCESS'"; json "'items':[]"]
  | FmtJson, e :: _ =>
      [json "'command':'discovery'"; json "'status':'SUCCESS'"; json "'items':[{";
       text [json "'pdcm_id':"; to_string (er_id (ent_ref e)); ","];
       text [json "'generation':"; to_string (er_generation (ent_ref e)); ","];
       text [json "'native_id':'"; sa_value (ent_native_id e); json "'"];
       text [json "'pci_bdf':'"; sa_value (ent_pci_bdf e); json "'"];
       text [json "'pdrv_version':'"; sa_value (ent_pdrv_version e); json "'"]]
  | FmtHuman, [] => [text ["device count: "; to_string 0; newline]]
  | FmtHuman, e :: _ =>
      [text ["device count: "; to_string (zlen es); newline];
       text ["device "; to_string (er_id (ent_ref e)); newline];
       text ["generation: "; to_string (er_generation (ent_ref e)); newline];
       text ["native ID: "; sa_value (ent_native_id e); newline];
       text ["PCI BDF: "; sa_value (ent_pci_bdf e); newline];
       text ["PDRV: "; sa_value (ent_pdrv_version e); newline]]
  end.

Lemma string_app_assoc (a b c : string) : (a +:+ b) +:+ c = a +:+ (b +:+ c).
Proof. induction a as [|x a IH]; [done|]. exact (f_equal (String.String x) IH). Qed.
Lemma string_app_nil_r (a : string) : a +:+ "" = a.
Proof. induction a as [|x a IH]; [done|]. exact (f_equal (String.String x) IH). Qed.

(** Splitting a text around a part. *)
Local Ltac around before after :=
  exists before, after; repeat match goal with x := _ : list string |- _ => subst x end;
  unfold lines, text; cbn [map foldr app]; rewrite ?string_app_assoc, ?string_app_nil_r; reflexivity.

Lemma human_shows n id g native bdf pdrv :
  let output := lines ([text ["device count: "; n]] ++
    [text ["device "; id]; text ["  generation: "; g]; text ["  native ID: "; native]; text ["  PCI BDF: "; bdf]; text ["  PDRV: "; pdrv]]) in
  Forall (fun part => contains part output)
    [text ["device count: "; n; newline]; text ["device "; id; newline]; text ["generation: "; g; newline];
     text ["native ID: "; native; newline]; text ["PCI BDF: "; bdf; newline]; text ["PDRV: "; pdrv; newline]].
Proof.
  cbv zeta. repeat (apply Forall_cons; split); [..|constructor].
  - around "" (text ["device "; id; newline; "  generation: "; g; newline; "  native ID: "; native; newline; "  PCI BDF: "; bdf; newline; "  PDRV: "; pdrv; newline]).
  - around (text ["device count: "; n; newline])
      (text ["  generation: "; g; newline; "  native ID: "; native; newline; "  PCI BDF: "; bdf; newline; "  PDRV: "; pdrv; newline]).
  - around (text ["device count: "; n; newline; "device "; id; newline; "  "])
      (text ["  native ID: "; native; newline; "  PCI BDF: "; bdf; newline; "  PDRV: "; pdrv; newline]).
  - around (text ["device count: "; n; newline; "device "; id; newline; "  generation: "; g; newline; "  "])
      (text ["  PCI BDF: "; bdf; newline; "  PDRV: "; pdrv; newline]).
  - around (text ["device count: "; n; newline; "device "; id; newline; "  generation: "; g; newline; "  native ID: "; native; newline; "  "])
      (text ["  PDRV: "; pdrv; newline]).
  - around (text ["device count: "; n; newline; "device "; id; newline; "  generation: "; g; newline; "  native ID: "; native; newline;
      "  PCI BDF: "; bdf; newline; "  "]) "".
Qed.

Lemma json_shows id g native bdf pdrv :
  let output := text [json "{'schema_version':1,'command':'discovery','status':'SUCCESS','request_id':0,'catalog_generation':"; g;
    json ",'core_state':'READY','provider_state':'READY','items':[";
    text [json "{'pdcm_id':"; id; json ",'generation':"; g; json ",'native_id':'"; native; json "','pci_bdf':'"; bdf;
          json "','pdrv_version':'"; pdrv; json "'}"]; json "],'errors':[]}"; newline] in
  Forall (fun part => contains part output)
    [json "'command':'discovery'"; json "'status':'SUCCESS'"; json "'items':[{"; text [json "'pdcm_id':"; id; ","];
     text [json "'generation':"; g; ","]; text [json "'native_id':'"; native; json "'"]; text [json "'pci_bdf':'"; bdf; json "'"];
     text [json "'pdrv_version':'"; pdrv; json "'"]].
Proof.
  cbv zeta. set (tail1 := [json "','pci_bdf':'"; bdf; json "','pdrv_version':'"; pdrv; json "'}],'errors':[]}"; newline]).
  set (tail2 := [json "{'pdcm_id':"; id; json ",'generation':"; g; json ",'native_id':'"; native; text tail1]).
  set (head1 := [json "{'schema_version':1,'command':'discovery','status':'SUCCESS','request_id':0,'catalog_generation':"; g;
    json ",'core_state':'READY','provider_state':'READY'"]).
  set (head2 := [text head1; json ",'items':[{'pdcm_id':"; id; json ",'generation':"; g; json ",'native_id':'"; native]).
  repeat (apply Forall_cons; split); [..|constructor].
  - around (json "{'schema_version':1,") (text [json ",'status':'SUCCESS','request_id':0,'catalog_generation':"; g;
      json ",'core_state':'READY','provider_state':'READY','items':["; text tail2]).
  - around (json "{'schema_version':1,'command':'discovery',") (text [json ",'request_id':0,'catalog_generation':"; g;
      json ",'core_state':'READY','provider_state':'READY','items':["; text tail2]).
  - around (text [text head1; ","]) (text [json "'pdcm_id':"; id; json ",'generation':"; g; json ",'native_id':'"; native; text tail1]).
  - around (text [text head1; json ",'items':[{"]) (text [json "'generation':"; g; json ",'native_id':'"; native; text tail1]).
  - around (text [text head1; json ",'items':[{'pdcm_id':"; id; ","]) (text [json "'native_id':'"; native; text tail1]).
  - around (text [text head1; json ",'items':[{'pdcm_id':"; id; json ",'generation':"; g; ","])
      (text [json ",'pci_bdf':'"; bdf; json "','pdrv_version':'"; pdrv; json "'}],'errors':[]}"; newline]).
  - around (text [text head2; json "',"]) (text [json ",'pdrv_version':'"; pdrv; json "'}],'errors':[]}"; newline]).
  - around (text [text head2; json "','pci_bdf':'"; bdf; json "',"]) (text [json "}],'errors':[]}"; newline]).
Qed.

Lemma discovery_shows f es : Forall entity_fits es ->
  Forall (fun part => contains part match f with FmtJson => discovery_json (map fillEntityInfo (map entity_view es))
             | FmtHuman => discovery_human (map fillEntityInfo (map entity_view es)) end) (shown f es).
Proof.
  intros Hf. destruct es as [|e es].
  { destruct f; cbn [shown map]; repeat (apply Forall_cons; split); try constructor.
    - around "" "".
    - around (json "{'schema_version':1,") (json ",'status':'SUCCESS','request_id':0,'catalog_generation':0,'core_state':'READY','provider_state':'READY','items':[],'errors':[]}" +:+ newline).
    - around (json "{'schema_version':1,'command':'discovery',") (json ",'request_id':0,'catalog_generation':0,'core_state':'READY','provider_state':'READY','items':[],'errors':[]}" +:+ newline).
    - around (json "{'schema_version':1,'command':'discovery','status':'SUCCESS','request_id':0,'catalog_generation':0,'core_state':'READY','provider_state':'READY',") (json ",'errors':[]}" +:+ newline). }
  apply Forall_cons in Hf as [(F1 & F2 & F3) _].
  assert (zlen (map fillEntityInfo (map entity_view (e :: es))) = zlen (e :: es)) as Hz by (unfold zlen; by rewrite !length_map).
  unfold discovery_json, discovery_human. rewrite Hz. cbn [map].
  unfold fillEntityInfo, fillPublicEntityRef, entity_view. cbn [ei_entity ei_native_id ei_pci_bdf ei_pdrv_version pr_pdcm_id pr_generation
    ent_ref ent_native_id ent_pci_bdf ent_pdrv_version].
  rewrite (text_fits_read _ 64 F1), (text_fits_read _ 32 F2), (text_fits_read _ 64 F3).
  destruct f; [|apply json_shows]. apply human_shows.
Qed.

(** The device filter on the core's devices. *)
Definition device_matches (o : Options) (es : list EntityRecord) : bool :=
  match op_device o with
  | None => true
  | Some d => match es with [e] => er_id (ent_ref e) =? d | _ => false end
  end.

Lemma matches_prints o es : cli_matches o (map fillEntityInfo (map entity_view es)) = device_matches o es.
Proof. unfold cli_matches, device_matches. by destruct (op_device o), es as [|e [|]]. Qed.

Section EndToEnd.
Context {P : Type} `{LP : LocalProtocol} `{LL : !LocalProtocolLaws} `{Ly : Layout}.
Variable core : ServiceCore (P := P).
Variable core_now : Z.
Variable fuel : nat.
Notation limits := limits_default.
Local Instance the_kernel : Kernel world := world_kernel core limits core_now.

(** A process with an open handle on a linked standalone backend. *)
Definition linked_process (p : ptr) (hs : gmap Z (pdcm_handle (B := backend))) (b : StandaloneBackend) (c : Client (W := world) (B := backend)) : Prop :=
  cl_handles c = <[p := handle_new (BStandalone b)]> hs /\ linked limits b (cl_world c) /\ comfortable limits b fuel.

Lemma linked_open p hs b c : p <> 0 -> linked_process p hs b c -> open_handle c p (BStandalone b).
Proof. intros Hp (H & _). split; [done|]. exists (handle_new (BStandalone b)). by rewrite H, lookup_insert_eq. Qed.

(** The answer that the core gives to a client. *)
Definition core_list : EntityListResult :=
  let r := core_entities core EK_Unknown in
  mkEntityList (mkStatus (st_code (elr_status r)) "entity list result") (elr_detected_device_count r)
    (elr_catalog_generation r) (map entity_view (elr_entities r)).

(** The core's list is one a client can be given. *)
Record list_servable : Prop := {
  ls_presentable : list_presentable (core_entities core EK_Unknown);
  ls_request : 20 + zlen (SerializeAsString (mkEntityListRequest (toProtocolEntityKind EK_Unknown))) <= lim_max_frame_bytes limits;
  ls_answer : 20 + zlen (answer core core_now (QEntities EK_Unknown)) <= lim_max_frame_bytes limits }.

(** One call of [pdcm_entity_list] over the connection. *)
Lemma linked_list p hs b c entities capacity : p <> 0 -> list_servable -> linked_process p hs b c -> sb_next_request_id_ b < u64_max ->
  exists c1, linked_process p hs (sb_with_next b (sb_next_request_id_ b + 1)) c1 /\
    pdcm_entity_list (CB := backend_client fuel) c p None entities (Some capacity) =
      (let '(status, count, entities1) := entity_list_answer core_list entities capacity in Done (status, Some count, entities1, c1)).
Proof.
  intros Hp [S1 S2 S3] Hl Hn. pose proof (linked_open p hs b c Hp Hl) as Ho. destruct Hl as (Hh & Hlk & Hc).
  destruct (loopback_entities core limits core_now fuel (cl_world c) b EK_Unknown Hlk Hc Hn S1 S2 S3) as (w1 & E1 & E2). cbv zeta in E1.
  assert (cb_entities (ClientBackend := backend_client fuel) (cl_world c) (BStandalone b) EK_Unknown =
    Some (core_list, BStandalone (sb_with_next b (sb_next_request_id_ b + 1)), w1)) as Hcb.
  { cbn [cb_entities backend_client standalone_client]. unfold the_kernel in *. rewrite E1. done. }
  destruct (with_call_open c p (BStandalone b)
    (fun w b0 => cb_entities (ClientBackend := backend_client fuel) w b0 EK_Unknown) core_list _ w1 Ho Hcb) as (h & Hh1 & Hw & _).
  rewrite Hh, lookup_insert_eq in Hh1. injection Hh1 as <-. eexists. split; [|unfold pdcm_entity_list; cbn [entity_filter_kind]; rewrite Hw; reflexivity].
  split; [cbn [cl_handles]; by rewrite Hh, insert_insert_eq|]. split; [exact E2|]. destruct Hc as [C1 C2 C3]. by split.
Qed.

(** The client's two list calls give the core's devices. *)
Lemma linked_entities p hs b c : p <> 0 -> list_servable -> linked_process p hs b c -> sb_next_request_id_ b = 2 ->
  st_code (elr_status (core_entities core EK_Unknown)) = PDCM_STATUS_SUCCESS -> zlen (elr_entities (core_entities core EK_Unknown)) <= 1 ->
  exists b' c', linked_process p hs b' c' /\ cli_entities fuel c p =
    Done (PDCM_STATUS_SUCCESS, map fillEntityInfo (map entity_view (elr_entities (core_entities core EK_Unknown))), c').
Proof.
  intros Hp Hs Hl Hn Hok H1. destruct (linked_list p hs b c None 0 Hp Hs Hl ltac:(rewrite Hn; by vm_compute)) as (c1 & L1 & E1).
  set (es := elr_entities (core_entities core EK_Unknown)) in *.
  assert (accepted (elr_status core_list)) as Ha by (left; exact Hok).
  assert (zlen (elr_entities core_list) = zlen es) as Hz by (unfold zlen, core_list; cbn; by rewrite length_map).
  destruct (entity_list_protocol core_list [] 0 Ha ltac:(done)) as (P1 & _). rewrite P1, Hz in E1.
  change (st_code (elr_status core_list)) with (st_code (elr_status (core_entities core EK_Unknown))) in E1. rewrite Hok in E1.
  unfold cli_entities. rewrite E1. cbn [obind]. change (default 0 (Some (zlen es))) with (zlen es). rewrite bool_decide_true by done. cbn [negb orb].
  destruct es as [|e [|e2 tail]] eqn:Ees; [|change (zlen [e]) with 1 in *|unfold zlen in H1; cbn in H1; lia].
  { exists (sb_with_next b (sb_next_request_id_ b + 1)), c1. done. }
  change (1 =? 0) with false. change (1 <? 1) with false. cbv iota.
  destruct (linked_list p hs _ c1 (Some (replicate (Z.to_nat 1) PDCM_ENTITY_INFO_INIT)) 1 Hp Hs L1 ltac:(cbn; rewrite Hn; by vm_compute)) as (c2 & L2 & E2).
  rewrite E2. exists (sb_with_next (sb_with_next b (sb_next_request_id_ b + 1)) (sb_next_request_id_ (sb_with_next b (sb_next_request_id_ b + 1)) + 1)), c2.
  split; [done|]. unfold entity_list_answer. destruct (accepted_codes _ Ha) as [-> ->]. cbv iota zeta. rewrite Hz. change (1 <? 1) with false. cbv iota.
  unfold core_list. cbn [elr_entities elr_status st_code]. fold es. rewrite Ees, Hok. reflexivity.
Qed.

(** The open of the command connects to the daemon. *)
Record daemon_ready (m : SessionManager) (peer : PeerIdentity) (pid : Z) (nonce : string) : Prop := {
  dr_sessions : sm_wf m /\ has_capacity m;
  dr_snapshot : snapshot_presentable (sv_snapshot_ core);
  dr_peer : u64 pid /\ (process_id peer = 0 \/ pid = process_id peer);
  dr_nonce : 16 <= str_size nonce <= 64;
  dr_hello : 20 + zlen (SerializeAsString (client_hello pid nonce)) <= lim_max_frame_bytes limits;
  dr_response : 20 + zlen (SerializeAsString (negotiated_response core limits pid nonce (next_session_id_ m))) <= lim_max_frame_bytes limits }.

Lemma linked_opens p hs o t m fd peer pid nonce : options_wf o -> op_mode o = PDCM_MODE_STANDALONE ->
  str_size (c_str (op_endpoint o)) <= kMaxEndpointBytes -> 17000000 <= op_timeout_ns o -> lim_max_frame_bytes limits < Z.of_nat fuel ->
  daemon_ready m peer pid nonce ->
  exists b c, linked_process p hs b c /\ sb_next_request_id_ b = 2 /\
    cli_open fuel pid nonce p (mkClient (mkWorld t m (conn_open fd peer limits) true []) hs) o = Done (PDCM_STATUS_SUCCESS, Some p, c).
Proof.
  intros Hw Hm Hep Ht Hf [[D1 D2] D3 [D4 D5] D6 D7 D8].
  destruct (cli_request_accepted o Hw (or_intror Hep)) as (e & E1 & E2 & E3 & E4 & E5 & _). specialize (E5 Hm).
  assert (endpoint_invalid (eff_endpoint e) = false) as Hi.
  { rewrite E5. pose proof (ow_endpoint o Hw) as Hsl. rewrite <- slash_c_str in Hsl. unfold endpoint_invalid.
    destruct (c_str (op_endpoint o)) as [|ch s] eqn:Ec; [done|]. cbn in Hsl. rewrite Hsl. cbn [negb orb]. apply Z.leb_gt.
    unfold sun_path_size, kMaxEndpointBytes in *. lia. }
  assert (comfortable limits (sb_construct (eff_endpoint e) (eff_deadline e) (lim_max_frame_bytes limits)) fuel) as Hc.
  { split; [by vm_compute|done|]. cbn [sb_construct sb_deadline_]. change (lim_max_frame_bytes limits) with 4194304.
    pose proof (Z.div_le_mono 17000000 (op_timeout_ns o) 1000000 ltac:(lia) Ht) as Hd. change (17000000 / 1000000) with 17 in Hd. lia. }
  destruct (loopback_connects core limits core_now fuel t m fd peer (eff_endpoint e) (eff_deadline e) pid nonce Hc
    ltac:(by repeat split) D1 D2 D3 Hi D4 D5 D6 D7 D8) as (b & w & S1 & S2 & S3 & _ & _ & _ & S7).
  exists b, (mkClient w (<[p := handle_new (BStandalone b)]> hs)). split; [done|]. split; [done|].
  unfold cli_open, pdcm_open. change (negb (0 =? 0)) with false. cbv iota. rewrite E1. unfold openSelectedBackend. rewrite E2, Hm.
  change (PDCM_MODE_STANDALONE =? PDCM_MODE_EMBEDDED) with false. cbv iota. unfold openStandalone. unfold the_kernel. cbn [cl_world cl_handles].
  rewrite S1. reflexivity.
Qed.

End EndToEnd.

(** ** Witness *)

Definition sample_large_fuel : nat := Z.to_nat 5000000.

Lemma sample_list_servable : list_servable (LP := sample_protocol) sample_ready 7.
Proof.
  split; [|vm_compute; discriminate|vm_compute; discriminate].
  split; [vm_compute; split; discriminate|vm_compute; split; discriminate| |vm_compute; discriminate|vm_compute; discriminate].
  change (elr_entities (core_entities sample_ready EK_Unknown)) with (cv_entities_ (snapshot_ (sv_semantic_catalog_ sample_ready))).
  constructor; [|constructor]. split; vm_compute; repeat split; discriminate.
Qed.

Lemma sample_daemon_ready : daemon_ready (LP := sample_protocol) sample_ready (sm_init limits_default) sample_peer 4242 sample_nonce.
Proof.
  split.
  - split; [exact sample_sessions_wf|]. split; [reflexivity|split; [vm_compute; reflexivity|discriminate]].
  - split; vm_compute; split; discriminate.
  - split; [vm_compute; split; discriminate|right; reflexivity].
  - vm_compute. split; discriminate.
  - vm_compute. discriminate.
  - vm_compute. discriminate.
Qed.

